(** * StegCrypt: the LSB engines, the carrier codecs, the crypto envelope and
    the payload container, embedded in Rocq.

    JavaScript numbers are modelled by [Z]: every quantity below is an
    integer far below 2^53, where double arithmetic is exact.  Typed arrays
    are lists of [Z]; a read outside the array yields [undefined], which the
    bitwise operators and typed-array stores turn into 0. *)

From Stdlib Require Import ZArith List Lia String Ascii Bool.
From stdpp Require Import base list.
Import ListNotations.

Local Open Scope Z_scope.

(** ** JavaScript primitives *)

(** [ToInt32]: the operand conversion of [>>], [<<], [&] and [|]. *)
Definition toInt32 (z : Z) : Z := (z + 2 ^ 31) mod 2 ^ 32 - 2 ^ 31.

(** A store into an [Int16Array]. *)
Definition toInt16 (z : Z) : Z := (z + 2 ^ 15) mod 2 ^ 16 - 2 ^ 15.

(** A store into a [Uint8ClampedArray]. *)
Definition clampUint8 (z : Z) : Z := Z.max 0 (Z.min 255 z).

(** A store into a [Uint8Array]. *)
Definition toUint8 (z : Z) : Z := z mod 256.

(** [arr[i]] on a typed array, used as a number. *)
Definition get (arr : list Z) (i : nat) : Z := default 0 (arr !! i).

Definition is_byte (z : Z) : Prop := 0 <= z < 256.

(** What a call can throw.  [ErrorFmt t vs] is an [Error] whose message is the
    template literal [t] with the numbers [vs] substituted; [RangeError] is
    the exception of a [DataView] access outside its buffer, [SyntaxError]
    that of [JSON.parse]. *)
Inductive exn : Type :=
| Error (message : string)
| ErrorFmt (template : string) (values : list Z)
| RangeError (message : string)
| SyntaxError (message : string).

Definition PayloadTooLarge (neededBits availableBits : Z) : exn :=
  ErrorFmt "Payload too large. Need ${neededBits} bits, have ${availableBits}"
    [neededBits; availableBits].

Inductive outcome (A : Type) : Type :=
| Returned (a : A)
| Threw (e : exn).
Arguments Returned {A} a.
Arguments Threw {A} e.

#[global] Instance outcome_bind : MBind outcome := fun A B k c =>
  match c with
  | Returned a => k a
  | Threw e => Threw e
  end.

(** ** Carriers *)

Record ImageData := mkImageData {
  width : Z;
  height : Z;
  data : list Z
}.

Record WavData := mkWavData {
  samples : list Z;
  sampleRate : Z;
  channels : Z;
  bitsPerSample : Z
}.

(** The invariant of the platform's [ImageData]: four bytes per pixel. *)
Definition wf_image (img : ImageData) : Prop :=
  0 <= width img /\ 0 <= height img /\
  Z.of_nat (length (data img)) = 4 * (width img * height img) /\
  Forall is_byte (data img).

(** ** Capacity analysis *)

Record CarrierAnalysis := mkCarrierAnalysis {
  ca_width : Z;
  ca_height : Z;
  ca_channels : Z;
  ca_maxCapacityBytes : Z;
  ca_format : string
}.

Definition analyzeImageCapacity (imageData : ImageData) (lsbDepth : Z)
  : CarrierAnalysis :=
  let usablePixels := width imageData * height imageData in
  let bitsPerPixel := 3 * lsbDepth in
  let maxCapacityBits := usablePixels * bitsPerPixel in
  let maxCapacityBytes := maxCapacityBits / 8 - 8 in
  {| ca_width := width imageData;
     ca_height := height imageData;
     ca_channels := 3;
     ca_maxCapacityBytes := Z.max 0 maxCapacityBytes;
     ca_format := "PNG" |}.

(** [duration] is a floating-point quotient and is left out of the record. *)
Record AudioAnalysis := mkAudioAnalysis {
  aa_sampleRate : Z;
  aa_channels : Z;
  aa_samples : Z;
  aa_maxCapacityBytes : Z;
  aa_format : string
}.

Definition analyzeWavCapacity (wavData : WavData) (lsbDepth : Z)
  : AudioAnalysis :=
  let totalSamples := Z.of_nat (length (samples wavData)) in
  let bitsPerSample := lsbDepth in
  let maxCapacityBits := totalSamples * bitsPerSample in
  let maxCapacityBytes := maxCapacityBits / 8 - 8 in
  {| aa_sampleRate := sampleRate wavData;
     aa_channels := channels wavData;
     aa_samples := totalSamples;
     aa_maxCapacityBytes := Z.max 0 maxCapacityBytes;
     aa_format := "WAV" |}.

(** ** LSB depth policy *)

Inductive Platform := desktop | mobile.

Module WARNING_MESSAGES.
Definition lsbDepthWarning : string := "LSB depth > 2 is not recommended".
Definition mobileLsbForced : string :=
  "LSB depth is fixed to 1 on mobile devices for optimal performance.".
End WARNING_MESSAGES.

Record LsbDepth := mkLsbDepth {
  depth : Z;
  forced : bool;
  message : option string
}.

(** [hostPlatform] is what [getPlatform()] answers in the host environment. *)
Definition getLsbDepthForPlatform (hostPlatform : Platform)
    (requestedDepth : Z) (isExpertMode : bool) (platform : option Platform)
  : LsbDepth :=
  let currentPlatform := default hostPlatform platform in
  match currentPlatform with
  | mobile =>
      {| depth := 1; forced := true;
         message := Some WARNING_MESSAGES.mobileLsbForced |}
  | desktop =>
      if negb isExpertMode then
        {| depth := 1; forced := true; message := None |}
      else
        let depth := Z.max 1 (Z.min 4 requestedDepth) in
        if 2 <? depth then
          {| depth := depth; forced := false;
             message := Some WARNING_MESSAGES.lsbDepthWarning |}
        else
          {| depth := depth; forced := false; message := None |}
  end.

(** ** The LSB bit cell shared by the image and the audio engine *)

(** Both embedders end in the same inner loop,
    [for (bit = lsbDepth - 1; bit >= 0 && bitIndex < total; bit--)
       value |= nextBit << bit],
    and differ in where the next bit comes from: [getBit]. The first argument
    counts the iterations still to run, so [bit] is its predecessor. The
    operands stay below 2^21, where [|] and [<<] agree with [Z.lor] and
    [Z.shiftl]. *)
Fixpoint setLsbBits (getBit : nat -> Z) (total : nat)
    (bits : nat) (value : Z) (bitIndex : nat) : Z * nat :=
  match bits with
  | O => (value, bitIndex)
  | S bit =>
      if (bitIndex <? total)%nat then
        setLsbBits getBit total bit
          (Z.lor value (Z.shiftl (getBit bitIndex) (Z.of_nat bit)))
          (S bitIndex)
      else (value, bitIndex)
  end.

(** [for (bit = lsbDepth - 1; bit >= 0; bit--) bits.push((value >> bit) & 1)] *)
Fixpoint lsbBits (bits : nat) (value : Z) : list Z :=
  match bits with
  | O => []
  | S bit => Z.land (Z.shiftr value (Z.of_nat bit)) 1 :: lsbBits bit value
  end.

(** [for (bitIdx = 0; bitIdx < 8; bitIdx++)
       byte |= bits[start + bitIdx] << (7 - bitIdx)]; a missing bit is
    [undefined] and contributes nothing, as does the guarded read of the
    payload loop. *)
Definition readByte (bits : list Z) (start : nat) : Z :=
  fold_left
    (fun byte bitIdx =>
       Z.lor byte (Z.shiftl (get bits (start + bitIdx)) (Z.of_nat (7 - bitIdx))))
    (seq 0 8) 0.

Definition MAGIC_HEADER : list Z := [0x53; 0x54; 0x45; 0x47].

(** ** LSB engine (image) *)

Record EmbedResult := mkEmbedResult {
  er_data : list Z;
  er_width : Z;
  er_height : Z
}.

(** MAGIC (4 bytes) + LENGTH (4 bytes, big endian, by [>>] and [&]) + DATA *)
Definition buildMessage (payloadBytes : list Z) : list Z :=
  let len := Z.of_nat (length payloadBytes) in
  MAGIC_HEADER ++
  [ Z.land (Z.shiftr (toInt32 len) 24) 255;
    Z.land (Z.shiftr (toInt32 len) 16) 255;
    Z.land (Z.shiftr (toInt32 len) 8) 255;
    Z.land (toInt32 len) 255 ] ++
  payloadBytes.

(** [(message[Math.floor(bitIndex / 8)] >> (7 - bitIndex % 8)) & 1] *)
Definition messageBit (message : list Z) (bitIndex : nat) : Z :=
  let byteIndex := (bitIndex / 8)%nat in
  let bitPosition := (7 - bitIndex mod 8)%nat in
  Z.land (Z.shiftr (get message byteIndex) (Z.of_nat bitPosition)) 1.

Section EmbedImage.
Variable message : list Z.
Variable totalBitsToEmbed : nat.
Variable lsbDepth : Z.

(** The body of the channel loop; the result is stored into the clamped
    array. *)
Definition embedChannel (pixelValue : Z) (bitIndex : nat) : Z * nat :=
  let mask := Z.shiftl 255 lsbDepth in
  let '(pixelValue, bitIndex) :=
    setLsbBits (messageBit message) totalBitsToEmbed (Z.to_nat lsbDepth)
      (Z.land pixelValue mask) bitIndex in
  (clampUint8 pixelValue, bitIndex).

(** [for (channel = 0; channel < 3 && bitIndex < total; channel++)] over
    the colour channels of one pixel. *)
Fixpoint embedChannels (rgb : list Z) (bitIndex : nat) : list Z * nat :=
  match rgb with
  | [] => ([], bitIndex)
  | pixelValue :: rest =>
      if (bitIndex <? totalBitsToEmbed)%nat then
        let '(pixelValue, bitIndex) := embedChannel pixelValue bitIndex in
        let '(rest, bitIndex) := embedChannels rest bitIndex in
        (pixelValue :: rest, bitIndex)
      else (rgb, bitIndex)
  end.

(** [for (pixelOffset = 0; pixelOffset < pixels.length && bitIndex < total;
    pixelOffset += 4)].  A last group of fewer than four bytes has the
    stores past the end of the array dropped. *)
Fixpoint embedPixels (pixels : list Z) (bitIndex : nat) : list Z :=
  match pixels with
  | r :: g :: b :: a :: rest =>
      if (bitIndex <? totalBitsToEmbed)%nat then
        let '(rgb, bitIndex) := embedChannels [r; g; b] bitIndex in
        rgb ++ 255 :: embedPixels rest bitIndex
      else pixels
  | tail =>
      if (bitIndex <? totalBitsToEmbed)%nat
      then fst (embedChannels (take 3 tail) bitIndex)
      else tail
  end.
End EmbedImage.

Definition embedData (imageData : ImageData) (payload : list Z) (lsbDepth : Z)
  : outcome EmbedResult :=
  let pixels := map clampUint8 (data imageData) in
  let payloadBytes := payload in
  let messageLength := 8 + Z.of_nat (length payloadBytes) in
  let message := buildMessage payloadBytes in
  let usablePixels := width imageData * height imageData * 3 in
  let availableBits := usablePixels * lsbDepth in
  let neededBits := messageLength * 8 in
  if availableBits <? neededBits then
    Threw (PayloadTooLarge neededBits availableBits)
  else
    let totalBitsToEmbed := Z.to_nat (messageLength * 8) in
    Returned {| er_data := embedPixels message totalBitsToEmbed lsbDepth pixels 0;
                er_width := width imageData;
                er_height := height imageData |}.

(** The worker's copy of the embedder: the capacity check comes before the
    output buffer is made, and the progress callback (left out) only reports. *)
Definition embedImageData (pixels : list Z) (width height : Z)
    (payload : list Z) (lsbDepth : Z) : outcome (list Z) :=
  let payloadBytes := payload in
  let messageLength := 8 + Z.of_nat (length payloadBytes) in
  let message := buildMessage payloadBytes in
  let usableChannels := width * height * 3 in
  let availableBits := usableChannels * lsbDepth in
  let neededBits := messageLength * 8 in
  if availableBits <? neededBits then
    Threw (PayloadTooLarge neededBits availableBits)
  else
    let output := map clampUint8 pixels in
    let totalBitsToEmbed := Z.to_nat (messageLength * 8) in
    Returned (embedPixels message totalBitsToEmbed lsbDepth output 0).

(** The bits of every pixel's R, G and B; a channel missing from a last
    short group reads as [undefined] and pushes zeros. *)
Fixpoint extractBits (lsbDepth : nat) (pixels : list Z) : list Z :=
  match pixels with
  | [] => []
  | r :: g :: b :: a :: rest =>
      lsbBits lsbDepth r ++ lsbBits lsbDepth g ++ lsbBits lsbDepth b ++
      extractBits lsbDepth rest
  | tail =>
      flat_map (lsbBits lsbDepth) (take 3 (tail ++ [0; 0; 0]))
  end.

(** [payloadLength = (payloadLength << 8) | byte] over bytes 4..7. *)
Definition readLength (extractedBits : list Z) : Z :=
  fold_left
    (fun payloadLength byteIdx =>
       toInt32 (Z.lor (toInt32 (Z.shiftl payloadLength 8))
                      (readByte extractedBits (byteIdx * 8))))
    [4; 5; 6; 7]%nat 0.

Definition readPayload (bits : list Z) (payloadLength : Z) : list Z :=
  map (fun byteIdx => readByte bits (64 + byteIdx * 8))
      (seq 0 (Z.to_nat payloadLength)).

Definition extractData (imageData : ImageData) (lsbDepth : Z)
  : option (list Z) :=
  let pixels := data imageData in
  let usableChannels := width imageData * height imageData * 3 in
  let maxBits := usableChannels * lsbDepth in
  if maxBits <? 64 then None else
  let extractedBits := extractBits (Z.to_nat lsbDepth) pixels in
  if (length extractedBits <? 64)%nat then None else
  let extractedMagic :=
    map (fun byteIdx => readByte extractedBits (byteIdx * 8)) [0; 1; 2; 3]%nat in
  if negb (bool_decide (extractedMagic = MAGIC_HEADER)) then None else
  let payloadLength := readLength extractedBits in
  let headerBits := 64 in
  let availablePayloadBits := Z.of_nat (length extractedBits) - headerBits in
  let maxPayloadBytes := availablePayloadBits / 8 in
  if (payloadLength <=? 0) || (maxPayloadBytes <? payloadLength) then None else
  Some (readPayload extractedBits payloadLength).

(** ** LSB engine (audio) *)

(** [DataView.setUint32(_, v, false)]: the four bytes written, high first. *)
Definition setUint32BE (v : Z) : list Z :=
  let u := v mod 2 ^ 32 in
  [u / 2 ^ 24; (u / 2 ^ 16) mod 256; (u / 2 ^ 8) mod 256; u mod 256].

(** [DataView.getUint32(0, false)] on a four-byte buffer. *)
Definition getUint32BE (bytes : list Z) : Z :=
  get bytes 0 * 2 ^ 24 + get bytes 1 * 2 ^ 16 + get bytes 2 * 2 ^ 8 + get bytes 3.

Definition buildFullMessage (payloadBytes : list Z) : list Z :=
  MAGIC_HEADER ++ setUint32BE (Z.of_nat (length payloadBytes)) ++ payloadBytes.

(** [for (const byte of fullMessage) for (i = 7; i >= 0; i--)
      bits.push((byte >> i) & 1)] *)
Definition messageBits (fullMessage : list Z) : list Z :=
  flat_map (lsbBits 8) fullMessage.

(** [for (i = 0; i < samples.length && bitIndex < bits.length; i++)] *)
Fixpoint embedSamples (bits : list Z) (lsbDepth : Z) (samples : list Z)
    (bitIndex : nat) : list Z :=
  match samples with
  | [] => []
  | sample :: rest =>
      if (bitIndex <? length bits)%nat then
        let mask := Z.shiftl 65535 lsbDepth in
        let '(newValue, bitIndex) :=
          setLsbBits (get bits) (length bits) (Z.to_nat lsbDepth)
            (Z.land sample mask) bitIndex in
        toInt16 newValue :: embedSamples bits lsbDepth rest bitIndex
      else samples
  end.

Definition embedWavData (wavData : WavData) (payload : list Z) (lsbDepth : Z)
  : outcome WavData :=
  let samples0 := map toInt16 (samples wavData) in
  let payloadBytes := payload in
  let fullMessage := buildFullMessage payloadBytes in
  let bits := messageBits fullMessage in
  let availableBits := Z.of_nat (length samples0) * lsbDepth in
  if availableBits <? Z.of_nat (length bits) then
    Threw (PayloadTooLarge (Z.of_nat (length bits)) availableBits)
  else
    Returned {| samples := embedSamples bits lsbDepth samples0 0;
                sampleRate := sampleRate wavData;
                channels := channels wavData;
                bitsPerSample := bitsPerSample wavData |}.

(** [for (i = 0; i < samples.length && bits.length < totalBits; i++)], with
    the bits pushed so far as accumulator. *)
Fixpoint extractSampleBits (lsbDepth : nat) (totalBits : Z) (samples : list Z)
    (bits : list Z) : list Z :=
  match samples with
  | [] => bits
  | sample :: rest =>
      if Z.of_nat (length bits) <? totalBits then
        extractSampleBits lsbDepth totalBits rest (bits ++ lsbBits lsbDepth sample)
      else bits
  end.

Definition extractWavData (wavData : WavData) (lsbDepth : Z)
  : option (list Z) :=
  let samples := samples wavData in
  let totalBits := Z.of_nat (length samples) * lsbDepth in
  if totalBits <? 64 then None else
  let bits := extractSampleBits (Z.to_nat lsbDepth) totalBits samples [] in
  let magicBytes := map (fun i => readByte bits (i * 8)) [0; 1; 2; 3]%nat in
  if negb (bool_decide (magicBytes = MAGIC_HEADER)) then None else
  let lengthBytes := map (fun i => readByte bits (32 + i * 8)) [0; 1; 2; 3]%nat in
  let payloadLength := getUint32BE lengthBytes in
  let maxPossibleBytes := (Z.of_nat (length bits) - 64) / 8 in
  if (payloadLength <=? 0) || (maxPossibleBytes <? payloadLength) then None else
  Some (readPayload bits payloadLength).

(** ** PNG scanline reconstruction *)

Definition paethPredictor (a b c : Z) : Z :=
  let p := a + b - c in
  let pa := Z.abs (p - a) in
  let pb := Z.abs (p - b) in
  let pc := Z.abs (p - c) in
  if (pa <=? pb) && (pa <=? pc) then a
  else if pb <=? pc then b
  else c.

(** One turn of the inverse-filter loop: [currentRow[x]] is rewritten in
    place, so [left] is an already reconstructed byte. *)
Definition unfilterAt (filterType : Z) (channels : nat) (prevRow : list Z)
    (currentRow : list Z) (x : nat) : list Z :=
  let left := if (channels <=? x)%nat then get currentRow (x - channels) else 0 in
  let up := get prevRow x in
  let upLeft := if (channels <=? x)%nat then get prevRow (x - channels) else 0 in
  match filterType with
  | 0 => currentRow
  | 1 => <[x := Z.land (get currentRow x + left) 255]> currentRow
  | 2 => <[x := Z.land (get currentRow x + up) 255]> currentRow
  | 3 => <[x := Z.land (get currentRow x + (left + up) / 2) 255]> currentRow
  | 4 => <[x := Z.land (get currentRow x + paethPredictor left up upLeft) 255]>
           currentRow
  | _ => currentRow
  end.

(** [for (x = 0; x < filterRowSize; x++)] *)
Definition unfilterRow (filterType : Z) (channels : nat) (prevRow : list Z)
    (currentRow : list Z) (filterRowSize : nat) : list Z :=
  fold_left (unfilterAt filterType channels prevRow) (seq 0 filterRowSize)
    currentRow.

(** The RGBA pixels of one reconstructed row. *)
Definition rowPixels (channels width : nat) (currentRow : list Z) : list Z :=
  flat_map
    (fun x =>
       let srcOffset := (x * channels)%nat in
       [ get currentRow srcOffset;
         get currentRow (srcOffset + 1);
         get currentRow (srcOffset + 2);
         if (channels =? 4)%nat then get currentRow (srcOffset + 3) else 255 ])
    (seq 0 width).

(** The scanline loop of [decodePNG], from the inflated stream on.  The two
    row buffers are swapped after each row and the new [currentRow] is read
    afresh, so only [prevRow] is carried. *)
Definition decodeScanlines (decompressed : list Z) (width height : nat)
    (colorType : Z) : list Z :=
  let channels := if colorType =? 2 then 3%nat else 4%nat in
  let filterRowSize := (width * channels)%nat in
  let '(_, _, pixels) :=
    fold_left
      (fun '(prevRow, dOffset, pixels) (y : nat) =>
         let filterType := get decompressed dOffset in
         let dOffset := S dOffset in
         let currentRow :=
           map (fun i => get decompressed (dOffset + i)) (seq 0 filterRowSize) in
         let currentRow :=
           unfilterRow filterType channels prevRow currentRow filterRowSize in
         let dOffset := (dOffset + filterRowSize)%nat in
         (currentRow, dOffset, pixels ++ rowPixels channels width currentRow))
      (seq 0 height)
      (replicate filterRowSize 0, O, []) in
  pixels.

(** ** WAV decoder *)

Definition OUT_OF_BOUNDS : exn :=
  RangeError "Offset is outside the bounds of the DataView".

(** [DataView.getUint16/getUint32(byteOffset, true)]: [size] bytes, little
    endian; the platform raises [RangeError] when they are not all inside the
    buffer. *)
Definition getUintLE (size : nat) (buffer : list Z) (byteOffset : Z)
  : outcome Z :=
  if (0 <=? byteOffset) && (byteOffset + Z.of_nat size <=? Z.of_nat (length buffer))
  then
    Returned
      (fold_right (fun i acc => get buffer (Z.to_nat byteOffset + i) + 256 * acc)
         0 (seq 0 size))
  else Threw OUT_OF_BOUNDS.

Definition getUint16 := getUintLE 2.
Definition getUint32 := getUintLE 4.
Definition getInt16 (buffer : list Z) (byteOffset : Z) : outcome Z :=
  v ← getUint16 buffer byteOffset; Returned (toInt16 v).

(** [String.fromCharCode] of four array reads; a read past the end is
    [undefined], character code 0. *)
Definition fourCC (data : list Z) (offset : Z) : list Z :=
  map (fun i => get data (Z.to_nat offset + i)) [0; 1; 2; 3]%nat.

Definition tag (s : string) : list Z :=
  map (fun c => Z.of_N (N_of_ascii c)) (list_ascii_of_string s).

Record ChunkWalk := mkChunkWalk {
  cw_offset : Z;
  cw_sampleRate : Z;
  cw_channels : Z;
  cw_bitsPerSample : Z;
  cw_dataOffset : Z;
  cw_dataSize : Z
}.

Definition UnsupportedAudioFormat (audioFormat : Z) : exn :=
  ErrorFmt "Unsupported audio format: ${audioFormat}. Only PCM (1) is supported."
    [audioFormat].
Definition UnsupportedBitDepth (bitsPerSample : Z) : exn :=
  ErrorFmt "Unsupported bit depth: ${bitsPerSample}. Only 16-bit is supported."
    [bitsPerSample].

(** [while (offset < data.length)]; every turn moves [offset] forward by at
    least 8, so [length data] turns are more than the loop can take. *)
Fixpoint walkChunks (fuel : nat) (data : list Z) (st : ChunkWalk)
  : outcome ChunkWalk :=
  match fuel with
  | O => Returned st
  | S fuel =>
      let offset := cw_offset st in
      if offset <? Z.of_nat (length data) then
        let chunkId := fourCC data offset in
        chunkSize ← getUint32 data (offset + 4);
        let offset := offset + 8 in
        st ← (if bool_decide (chunkId = tag "fmt ") then
                audioFormat ← getUint16 data offset;
                if negb (audioFormat =? 1) then
                  Threw (UnsupportedAudioFormat audioFormat)
                else
                  channels ← getUint16 data (offset + 2);
                  sampleRate ← getUint32 data (offset + 4);
                  bitsPerSample ← getUint16 data (offset + 14);
                  if negb (bitsPerSample =? 16) then
                    Threw (UnsupportedBitDepth bitsPerSample)
                  else
                    Returned {| cw_offset := offset;
                                cw_sampleRate := sampleRate;
                                cw_channels := channels;
                                cw_bitsPerSample := bitsPerSample;
                                cw_dataOffset := cw_dataOffset st;
                                cw_dataSize := cw_dataSize st |}
              else if bool_decide (chunkId = tag "data") then
                Returned {| cw_offset := offset;
                            cw_sampleRate := cw_sampleRate st;
                            cw_channels := cw_channels st;
                            cw_bitsPerSample := cw_bitsPerSample st;
                            cw_dataOffset := offset;
                            cw_dataSize := chunkSize |}
              else
                Returned {| cw_offset := offset;
                            cw_sampleRate := cw_sampleRate st;
                            cw_channels := cw_channels st;
                            cw_bitsPerSample := cw_bitsPerSample st;
                            cw_dataOffset := cw_dataOffset st;
                            cw_dataSize := cw_dataSize st |});
        let offset := offset + chunkSize in
        let offset := if negb (chunkSize mod 2 =? 0) then offset + 1 else offset in
        walkChunks fuel data
          {| cw_offset := offset;
             cw_sampleRate := cw_sampleRate st;
             cw_channels := cw_channels st;
             cw_bitsPerSample := cw_bitsPerSample st;
             cw_dataOffset := cw_dataOffset st;
             cw_dataSize := cw_dataSize st |}
      else Returned st
  end.

(** [for (i = 0; i < numSamples; i++) samples[i] = view.getInt16(...)], where
    [numSamples = dataSize / 2] is not rounded: an odd [dataSize] gives one
    more read than the [Int16Array] has slots, and that store is dropped. *)
Fixpoint readSamples (buffer : list Z) (dataOffset : Z) (reads : nat) (i : Z)
  : outcome (list Z) :=
  match reads with
  | O => Returned []
  | S reads =>
      sample ← getInt16 buffer (dataOffset + i * 2);
      rest ← readSamples buffer dataOffset reads (i + 1);
      Returned (sample :: rest)
  end.

Definition decodeWav (buffer : list Z) : outcome WavData :=
  let data := buffer in
  let MIN_WAV_SIZE := 44 in
  if Z.of_nat (length buffer) <? MIN_WAV_SIZE then
    Threw (Error "Invalid WAV file: file too small (corrupted or truncated)")
  else if negb (bool_decide (fourCC data 0 = tag "RIFF")) then
    Threw (Error "Invalid WAV file: missing RIFF header")
  else if negb (bool_decide (fourCC data 8 = tag "WAVE")) then
    Threw (Error "Invalid WAV file: missing WAVE marker")
  else
    st ← walkChunks (length data) data
           {| cw_offset := 12; cw_sampleRate := 0; cw_channels := 0;
              cw_bitsPerSample := 0; cw_dataOffset := 0; cw_dataSize := 0 |};
    if (cw_dataOffset st =? 0) || (cw_sampleRate st =? 0) then
      Threw (Error "Invalid WAV file: missing fmt or data chunk")
    else
      let dataSize := cw_dataSize st in
      let reads := Z.to_nat ((dataSize + 1) / 2) in
      all ← readSamples buffer (cw_dataOffset st) reads 0;
      Returned {| samples := take (Z.to_nat (dataSize / 2)) all;
                  sampleRate := cw_sampleRate st;
                  channels := cw_channels st;
                  bitsPerSample := cw_bitsPerSample st |}.

(** ** Crypto worker *)

Inductive WorkerMessage : Type :=
| PROGRESS (progress : Z) (stage : string) (message : string)
| COMPLETE (result : list Z)
| ERROR (message : string) (code : string).

(** A handler body posts messages and then goes on, returns early, or
    throws into the enclosing [catch]. *)
Inductive flow (A : Type) : Type :=
| Next (a : A)
| Return
| Throw (e : exn).
Arguments Next {A} a.
Arguments Return {A}.
Arguments Throw {A} e.

Definition job (A : Type) : Type := (list WorkerMessage * flow A)%type.

#[global] Instance job_ret : MRet job := fun A a => ([], Next a).
#[global] Instance job_bind : MBind job := fun A B k c =>
  match c with
  | (posted, Next a) => let '(more, r) := k a in (posted ++ more, r)
  | (posted, Return) => (posted, Return)
  | (posted, Throw e) => (posted, Throw e)
  end.

Definition post (m : WorkerMessage) : job unit := ([m], Next tt).
Definition throw {A} (e : exn) : job A := ([], Throw e).
Definition await {A} (c : outcome A) : job A :=
  match c with
  | Returned a => ([], Next a)
  | Threw e => ([], Throw e)
  end.
(** [if (!activeJobs.get(id)) return;] *)
Definition checkActive (active : bool) : job unit :=
  if active then ([], Next tt) else ([], Return).
(** [try { body } catch (error) { handler }] *)
Definition tryCatch (body : job unit) (handler : exn -> list WorkerMessage)
  : list WorkerMessage :=
  match body with
  | (posted, Throw e) => posted ++ handler e
  | (posted, _) => posted
  end.

Definition FLAG_COMPRESSED : Z := 1.
Definition FLAG_HIGH_SECURITY : Z := 2.
Definition GENERIC_ERROR : string :=
  "Decryption failed - wrong password or corrupted data".

(** [DataView.setUint32(0, v, true)] *)
Definition setUint32LE (v : Z) : list Z :=
  let u := v mod 2 ^ 32 in
  [u mod 256; (u / 2 ^ 8) mod 256; (u / 2 ^ 16) mod 256; u / 2 ^ 24].

(** [data.slice(start, end)] for [0 <= start]. *)
Definition slice (data : list Z) (start stop : Z) : list Z :=
  take (Z.to_nat (stop - start)) (drop (Z.to_nat start) data).

(** [error instanceof Error ? error.message : fallback], for the errors the
    model distinguishes by constant message. *)
Definition messageOf (e : exn) (fallback : string) : string :=
  match e with
  | Error m => m
  | ErrorFmt t _ => t
  | RangeError m => m
  | SyntaxError m => m
  end.

(** [crypto.getRandomValues(array)]: every element of the [Uint8Array] is
    overwritten with a value of the platform's generator.  [random n] is the
    [n]-th value the generator yields and [drawn] the number of values
    taken before the call. *)
Definition getRandomValues (random : nat -> Z) (drawn : nat) (array : list Z)
  : list Z :=
  map (fun i => toUint8 (random (drawn + i)%nat)) (seq 0 (length array)).

Section CryptoWorker.
(** The Web Crypto and Compression Streams calls of the host.  A rejected
    promise is [Threw]. *)
Context {CryptoKey : Type}.
Variable deriveKeyPBKDF2 : string -> list Z -> Z -> outcome CryptoKey.
Variable encryptAesGcm : CryptoKey -> list Z -> list Z -> outcome (list Z).
Variable decryptAesGcm : CryptoKey -> list Z -> list Z -> outcome (list Z).
Variable compressData : list Z -> outcome (list Z).
Variable decompressData : list Z -> outcome (list Z).

(** [active n] is what [activeJobs.get(id)] answers at the [n]-th check and
    [random] the platform's random generator.  The [finally] clause only
    clears the job table. *)
Definition handleEncrypt (active : nat -> bool) (random : nat -> Z)
    (payload : list Z) (password : string)
    (useHighSecurity compress : bool) : list WorkerMessage :=
  if negb (active 0%nat) then [] else
  tryCatch
    (post (PROGRESS 10 "encrypt" "Preparing data...");;
     dataToEncrypt ←
       (if compress then
          post (PROGRESS 20 "encrypt" "Compressing...");;
          await (compressData payload)
        else mret payload);
     checkActive (active 1%nat);;
     let iterations := if useHighSecurity then 310000 else 100000 in
     post (PROGRESS 40 "encrypt"
             (if useHighSecurity then "Generating keys (PBKDF2 310K)..."
              else "Generating keys (PBKDF2 100K)..."));;
     let salt := getRandomValues random 0 (replicate 16 0) in
     let iv := getRandomValues random 16 (replicate 12 0) in
     key ← await (deriveKeyPBKDF2 password salt iterations);
     checkActive (active 2%nat);;
     post (PROGRESS 70 "encrypt" "Encrypting...");;
     ciphertext ← await (encryptAesGcm key iv dataToEncrypt);
     post (PROGRESS 90 "encrypt" "Packing...");;
     let flagsByte := 0 in
     let flagsByte :=
       if compress then Z.lor flagsByte FLAG_COMPRESSED else flagsByte in
     let flagsByte :=
       if useHighSecurity then Z.lor flagsByte FLAG_HIGH_SECURITY
       else flagsByte in
     let flags := [flagsByte] in
     let saltLenBytes := setUint32LE (Z.of_nat (length salt)) in
     let packed := flags ++ saltLenBytes ++ salt ++ iv ++ ciphertext in
     post (PROGRESS 100 "encrypt" "Complete");;
     post (COMPLETE packed))
    (fun error => [ERROR (messageOf error "Encryption failed") "ENCRYPT_ERROR"]).

Definition handleDecrypt (active : nat -> bool) (packedData : list Z)
    (password : string) : list WorkerMessage :=
  if negb (active 0%nat) then [] else
  tryCatch
    (post (PROGRESS 10 "decrypt" "Unpacking data...");;
     let data := packedData in
     let MIN_DATA_LENGTH := 49 in
     if Z.of_nat (length data) <? MIN_DATA_LENGTH then
       throw (Error GENERIC_ERROR)
     else
     let offset := 0 in
     let flags := get data (Z.to_nat offset) in
     let offset := offset + 1 in
     let isCompressed := negb (Z.land flags FLAG_COMPRESSED =? 0) in
     let isHighSecurity := negb (Z.land flags FLAG_HIGH_SECURITY =? 0) in
     saltLen ← await (getUint32 (slice data offset (offset + 4)) 0);
     let offset := offset + 4 in
     let EXPECTED_SALT_LENGTH := 16 in
     if negb (saltLen =? EXPECTED_SALT_LENGTH) then
       throw (Error GENERIC_ERROR)
     else if Z.of_nat (length data) <? offset + saltLen then
       throw (Error GENERIC_ERROR)
     else
     let salt := slice data offset (offset + saltLen) in
     let offset := offset + saltLen in
     let IV_LENGTH := 12 in
     if Z.of_nat (length data) <? offset + IV_LENGTH then
       throw (Error GENERIC_ERROR)
     else
     let iv := slice data offset (offset + IV_LENGTH) in
     let offset := offset + IV_LENGTH in
     let MIN_CIPHERTEXT_LENGTH := 16 in
     if Z.of_nat (length data) <? offset + MIN_CIPHERTEXT_LENGTH then
       throw (Error GENERIC_ERROR)
     else
     let encryptedData := drop (Z.to_nat offset) data in
     checkActive (active 1%nat);;
     let iterations := if isHighSecurity then 310000 else 100000 in
     post (PROGRESS 30 "decrypt"
             (if isHighSecurity then "Deriving key (PBKDF2 310K)..."
              else "Deriving key (PBKDF2 100K)..."));;
     key ← await (deriveKeyPBKDF2 password salt iterations);
     checkActive (active 2%nat);;
     post (PROGRESS 60 "decrypt" "Decrypting...");;
     plaintext ← await (decryptAesGcm key iv encryptedData);
     post (PROGRESS 80 "decrypt" "Processing...");;
     result ←
       (if isCompressed then
          post (PROGRESS 85 "decrypt" "Decompressing...");;
          await (decompressData plaintext)
        else mret plaintext);
     post (PROGRESS 100 "decrypt" "Complete");;
     post (COMPLETE result))
    (fun error => [ERROR GENERIC_ERROR "DECRYPT_ERROR"]).
End CryptoWorker.

(** ** Host text functions used by the payload container

    [JSON.stringify] and [JSON.parse] follow ECMA-262, [TextEncoder] and
    [TextDecoder] the WHATWG Encoding standard: they are the host's, not the
    repository's.  A string is its list of UTF-16 code units. *)

Definition jsstring : Type := list Z.

(** A string literal of the source (ASCII). *)
Definition lit (s : string) : jsstring := tag s.

(** A finite number is kept as the decimal [m * 10^e]; the timestamps of the
    application are integers ([e = 0]). *)
Inductive number : Type :=
| Num (m e : Z)
| NaN
| Infinity (negative : bool).

#[warnings="-register-all"]
Inductive JsValue : Type :=
| JUndefined
| JNull
| JBool (b : bool)
| JNumber (n : number)
| JString (s : jsstring)
| JArray (items : list JsValue)
| JObject (props : list (jsstring * JsValue)).

#[global] Instance number_eq_dec : EqDecision number.
Proof. solve_decision. Defined.

(** [obj.key]; none of the keys read below is on a prototype. *)
Fixpoint lookupProp (props : list (jsstring * JsValue)) (key : jsstring)
  : JsValue :=
  match props with
  | [] => JUndefined
  | (k, v) :: rest =>
      if bool_decide (k = key) then v else lookupProp rest key
  end.

Definition getProp (obj : JsValue) (key : jsstring) : JsValue :=
  match obj with
  | JObject props => lookupProp props key
  | _ => JUndefined
  end.

(** [obj.key = v]: an existing property keeps its place. *)
Fixpoint setProp (props : list (jsstring * JsValue)) (key : jsstring)
    (v : JsValue) : list (jsstring * JsValue) :=
  match props with
  | [] => [(key, v)]
  | (k, w) :: rest =>
      if bool_decide (k = key) then (k, v) :: rest
      else (k, w) :: setProp rest key v
  end.

Definition isHighSurrogate (u : Z) : bool := (0xD800 <=? u) && (u <=? 0xDBFF).
Definition isLowSurrogate (u : Z) : bool := (0xDC00 <=? u) && (u <=? 0xDFFF).

(** *** Numbers *)

Fixpoint digitsAux (fuel : nat) (n : Z) (acc : jsstring) : jsstring :=
  match fuel with
  | O => acc
  | S fuel =>
      let acc := (48 + n mod 10) :: acc in
      if n / 10 =? 0 then acc else digitsAux fuel (n / 10) acc
  end.

(** The decimal digits of [n >= 0]. *)
Definition digits (n : Z) : jsstring := digitsAux (S (Z.to_nat (Z.log2 n))) n [].

(** [Number::toString] for the decimal [m * 10^e]: exact for the integers
    below 10^21 and for the decimals whose shortest form this is. *)
Definition numberToString (m e : Z) : jsstring :=
  let sign := if m <? 0 then [45] else [] in
  let a := Z.abs m in
  if 0 <=? e then sign ++ digits (a * 10 ^ e)
  else
    let scale := 10 ^ (- e) in
    let frac := digits (scale + a mod scale) in
    sign ++ digits (a / scale) ++ 46 :: drop 1 frac.

(** *** JSON.stringify *)

Definition hexDigit (d : Z) : Z := if d <? 10 then 48 + d else 87 + d.

Definition unicodeEscape (u : Z) : jsstring :=
  [92; 117; hexDigit (u / 4096 mod 16); hexDigit (u / 256 mod 16);
   hexDigit (u / 16 mod 16); hexDigit (u mod 16)].

Definition quoteUnit (u : Z) : jsstring :=
  if u =? 8 then [92; 98]
  else if u =? 9 then [92; 116]
  else if u =? 10 then [92; 110]
  else if u =? 12 then [92; 102]
  else if u =? 13 then [92; 114]
  else if u =? 34 then [92; 34]
  else if u =? 92 then [92; 92]
  else if (u <? 32) || isHighSurrogate u || isLowSurrogate u
  then unicodeEscape u
  else [u].

(** The characters of [QuoteJSONString]: a surrogate pair is copied, a lone
    surrogate is escaped. *)
Fixpoint quoteChars (s : jsstring) : jsstring :=
  match s with
  | [] => []
  | u :: rest =>
      if isHighSurrogate u then
        match rest with
        | v :: rest' =>
            if isLowSurrogate v then u :: v :: quoteChars rest'
            else quoteUnit u ++ quoteChars rest
        | [] => quoteUnit u
        end
      else quoteUnit u ++ quoteChars rest
  end.

Definition quoteJSONString (s : jsstring) : jsstring :=
  34 :: quoteChars s ++ [34].

Definition joinComma (parts : list jsstring) : jsstring :=
  match parts with
  | [] => []
  | p :: ps => p ++ flat_map (fun q => 44 :: q) ps
  end.

(** [None] is the [undefined] that [JSON.stringify] answers for
    [undefined]. *)
Fixpoint JSON_stringify (v : JsValue) : option jsstring :=
  match v with
  | JUndefined => None
  | JNull => Some (lit "null")
  | JBool true => Some (lit "true")
  | JBool false => Some (lit "false")
  | JNumber (Num m e) => Some (numberToString m e)
  | JNumber _ => Some (lit "null")
  | JString s => Some (quoteJSONString s)
  | JArray items =>
      Some (91 :: joinComma
                    (map (fun item => default (lit "null") (JSON_stringify item))
                         items) ++ [93])
  | JObject props =>
      Some (123 :: joinComma
                     (omap (fun kv =>
                              match JSON_stringify (snd kv) with
                              | Some text =>
                                  Some (quoteJSONString (fst kv) ++ 58 :: text)
                              | None => None
                              end) props) ++ [125])
  end.

(** *** JSON.parse *)

Fixpoint skipWs (s : jsstring) : jsstring :=
  match s with
  | u :: rest =>
      if (u =? 9) || (u =? 10) || (u =? 13) || (u =? 32) then skipWs rest else s
  | [] => []
  end.

Definition hexValue (u : Z) : option Z :=
  if (48 <=? u) && (u <=? 57) then Some (u - 48)
  else if (97 <=? u) && (u <=? 102) then Some (u - 87)
  else if (65 <=? u) && (u <=? 70) then Some (u - 55)
  else None.

(** The characters after an opening quote, up to the closing one. *)
Fixpoint parseStringChars (s : jsstring) (acc : jsstring)
  : option (jsstring * jsstring) :=
  match s with
  | [] => None
  | 34 :: rest => Some (rev acc, rest)
  | 92 :: 117 :: a :: b :: c :: d :: rest =>
      a ← hexValue a; b ← hexValue b; c ← hexValue c; d ← hexValue d;
      parseStringChars rest ((((a * 16 + b) * 16 + c) * 16 + d) :: acc)
  | 92 :: e :: rest =>
      u ← (if e =? 34 then Some 34
           else if e =? 92 then Some 92
           else if e =? 47 then Some 47
           else if e =? 98 then Some 8
           else if e =? 102 then Some 12
           else if e =? 110 then Some 10
           else if e =? 114 then Some 13
           else if e =? 116 then Some 9
           else None);
      parseStringChars rest (u :: acc)
  | u :: rest =>
      if (u <? 32) || (u =? 92) then None else parseStringChars rest (u :: acc)
  end.

Definition isDigit (u : Z) : bool := (48 <=? u) && (u <=? 57).

(** Reads a run of digits: the number they extend [acc] to, how many there
    were, and the rest. *)
Fixpoint takeDigits (s : jsstring) (acc : Z) (count : Z) : Z * Z * jsstring :=
  match s with
  | u :: rest =>
      if isDigit u then takeDigits rest (acc * 10 + (u - 48)) (count + 1)
      else (acc, count, s)
  | [] => (acc, count, [])
  end.

Definition parseNumber (s : jsstring) : option (JsValue * jsstring) :=
  let '(negative, s) :=
    match s with
    | 45 :: rest => (true, rest)
    | _ => (false, s)
    end in
  '(int, s) ←
    match s with
    | 48 :: rest => Some (0, rest)
    | _ => let '(int, count, rest) := takeDigits s 0 0 in
           if count =? 0 then None else Some (int, rest)
    end;
  '(m, e, s) ←
    match s with
    | 46 :: rest =>
        let '(m, count, rest) := takeDigits rest int 0 in
        if count =? 0 then None else Some (m, - count, rest)
    | _ => Some (int, 0, s)
    end;
  '(e, s) ←
    (let exponent (sign : Z) (rest : jsstring) :=
       let '(x, count, rest) := takeDigits rest 0 0 in
       if count =? 0 then None else Some (e + sign * x, rest) in
     match s with
     | 101 :: 45 :: rest | 69 :: 45 :: rest => exponent (-1) rest
     | 101 :: 43 :: rest | 69 :: 43 :: rest => exponent 1 rest
     | 101 :: rest | 69 :: rest => exponent 1 rest
     | _ => Some (e, s)
     end);
  Some (JNumber (Num (if negative then - m else m) e), s).

Fixpoint parseValue (fuel : nat) (s : jsstring) : option (JsValue * jsstring) :=
  match fuel with
  | O => None
  | S fuel =>
      match skipWs s with
      | 123 :: rest =>
          match skipWs rest with
          | 125 :: rest => Some (JObject [], rest)
          | _ => parseMembers fuel rest []
          end
      | 91 :: rest =>
          match skipWs rest with
          | 93 :: rest => Some (JArray [], rest)
          | _ => parseElements fuel rest []
          end
      | 34 :: rest =>
          '(str, rest) ← parseStringChars rest []; Some (JString str, rest)
      | 116 :: 114 :: 117 :: 101 :: rest => Some (JBool true, rest)
      | 102 :: 97 :: 108 :: 115 :: 101 :: rest => Some (JBool false, rest)
      | 110 :: 117 :: 108 :: 108 :: rest => Some (JNull, rest)
      | s => parseNumber s
      end
  end
with parseMembers (fuel : nat) (s : jsstring) (acc : list (jsstring * JsValue))
  : option (JsValue * jsstring) :=
  match fuel with
  | O => None
  | S fuel =>
      match skipWs s with
      | 34 :: rest =>
          '(key, rest) ← parseStringChars rest [];
          match skipWs rest with
          | 58 :: rest =>
              '(v, rest) ← parseValue fuel rest;
              let acc := setProp acc key v in
              match skipWs rest with
              | 44 :: rest => parseMembers fuel rest acc
              | 125 :: rest => Some (JObject acc, rest)
              | _ => None
              end
          | _ => None
          end
      | _ => None
      end
  end
with parseElements (fuel : nat) (s : jsstring) (acc : list JsValue)
  : option (JsValue * jsstring) :=
  match fuel with
  | O => None
  | S fuel =>
      '(v, rest) ← parseValue fuel s;
      let acc := acc ++ [v] in
      match skipWs rest with
      | 44 :: rest => parseElements fuel rest acc
      | 93 :: rest => Some (JArray acc, rest)
      | _ => None
      end
  end.

Definition JSON_parse (text : jsstring) : outcome JsValue :=
  match parseValue (S (length text)) text with
  | Some (v, rest) =>
      match skipWs rest with
      | [] => Returned v
      | _ => Threw (SyntaxError "Unexpected non-whitespace character after JSON")
      end
  | None => Threw (SyntaxError "Unexpected token in JSON")
  end.

(** *** TextEncoder and TextDecoder (UTF-8) *)

Definition utf8Bytes (cp : Z) : list Z :=
  if cp <? 0x80 then [cp]
  else if cp <? 0x800 then
    [Z.lor 0xC0 (Z.shiftr cp 6); Z.lor 0x80 (Z.land cp 0x3F)]
  else if cp <? 0x10000 then
    [Z.lor 0xE0 (Z.shiftr cp 12); Z.lor 0x80 (Z.land (Z.shiftr cp 6) 0x3F);
     Z.lor 0x80 (Z.land cp 0x3F)]
  else
    [Z.lor 0xF0 (Z.shiftr cp 18); Z.lor 0x80 (Z.land (Z.shiftr cp 12) 0x3F);
     Z.lor 0x80 (Z.land (Z.shiftr cp 6) 0x3F); Z.lor 0x80 (Z.land cp 0x3F)].

(** [new TextEncoder().encode(s)]: a lone surrogate becomes U+FFFD. *)
Fixpoint TextEncoder_encode (s : jsstring) : list Z :=
  match s with
  | [] => []
  | u :: rest =>
      if isHighSurrogate u then
        match rest with
        | v :: rest' =>
            if isLowSurrogate v then
              utf8Bytes (0x10000 + (u - 0xD800) * 0x400 + (v - 0xDC00)) ++
              TextEncoder_encode rest'
            else utf8Bytes 0xFFFD ++ TextEncoder_encode rest
        | [] => utf8Bytes 0xFFFD
        end
      else if isLowSurrogate u then utf8Bytes 0xFFFD ++ TextEncoder_encode rest
      else utf8Bytes u ++ TextEncoder_encode rest
  end.

(** The state of the WHATWG UTF-8 decoder. *)
Record Utf8State := mkUtf8State {
  codePoint : Z;
  bytesSeen : Z;
  bytesNeeded : Z;
  lowerBoundary : Z;
  upperBoundary : Z
}.

Definition utf8Initial : Utf8State := mkUtf8State 0 0 0 0x80 0xBF.

Definition utf16Units (cp : Z) : jsstring :=
  if cp <? 0x10000 then [cp]
  else [0xD800 + (cp - 0x10000) / 0x400; 0xDC00 + (cp - 0x10000) mod 0x400].

(** A byte met while no sequence is open. *)
Definition utf8Lead (byte : Z) : jsstring * Utf8State :=
  if byte <=? 0x7F then ([byte], utf8Initial)
  else if (0xC2 <=? byte) && (byte <=? 0xDF) then
    ([], mkUtf8State (Z.land byte 0x1F) 0 1 0x80 0xBF)
  else if (0xE0 <=? byte) && (byte <=? 0xEF) then
    ([], mkUtf8State (Z.land byte 0xF) 0 2
           (if byte =? 0xE0 then 0xA0 else 0x80)
           (if byte =? 0xED then 0x9F else 0xBF))
  else if (0xF0 <=? byte) && (byte <=? 0xF4) then
    ([], mkUtf8State (Z.land byte 0x7) 0 3
           (if byte =? 0xF0 then 0x90 else 0x80)
           (if byte =? 0xF4 then 0x8F else 0xBF))
  else ([0xFFFD], utf8Initial).

Fixpoint utf8Decode (bytes : list Z) (st : Utf8State) : jsstring :=
  match bytes with
  | [] => if bytesNeeded st =? 0 then [] else [0xFFFD]
  | byte :: rest =>
      if bytesNeeded st =? 0 then
        let '(out, st) := utf8Lead byte in out ++ utf8Decode rest st
      else if (lowerBoundary st <=? byte) && (byte <=? upperBoundary st) then
        let cp := Z.lor (Z.shiftl (codePoint st) 6) (Z.land byte 0x3F) in
        if bytesSeen st + 1 =? bytesNeeded st then
          utf16Units cp ++ utf8Decode rest utf8Initial
        else
          utf8Decode rest
            (mkUtf8State cp (bytesSeen st + 1) (bytesNeeded st) 0x80 0xBF)
      else
        let '(out, st) := utf8Lead byte in
        0xFFFD :: out ++ utf8Decode rest st
  end.

(** [new TextDecoder().decode(bytes)]: a leading byte order mark is dropped. *)
Definition TextDecoder_decode (bytes : list Z) : jsstring :=
  match bytes with
  | 0xEF :: 0xBB :: 0xBF :: rest => utf8Decode rest utf8Initial
  | _ => utf8Decode bytes utf8Initial
  end.

(** ** Payload container *)

Definition METADATA_VERSION : Z := 1.
Definition MAX_METADATA_LENGTH : Z := 10 * 1024.
Definition MAX_FILENAME_LENGTH : Z := 255.

(** The argument of [packPayload] as the function meets it at run time: each
    property is any value, [JUndefined] when absent. *)
Record PayloadMetadata := mkPayloadMetadata {
  md_type : JsValue;
  md_timestamp : JsValue;
  md_name : JsValue;
  md_mimeType : JsValue
}.

(** The character class of the filename filter: less-than, greater-than,
    colon, double quote, slash, backslash, bar, question mark, asterisk and
    U+0000..U+001F. *)
Definition isUnsafeChar (u : Z) : bool :=
  (u =? 60) || (u =? 62) || (u =? 58) || (u =? 34) || (u =? 47) ||
  (u =? 92) || (u =? 124) || (u =? 63) || (u =? 42) ||
  ((0 <=? u) && (u <=? 0x1F)).

(** [name.slice(0, MAX_FILENAME_LENGTH)] with every character of the class
    replaced by an underscore. *)
Definition sanitizeName (name : jsstring) : jsstring :=
  map (fun u => if isUnsafeChar u then 95 else u)
      (take (Z.to_nat MAX_FILENAME_LENGTH) name).

(** [v === s] for a string literal [s]. *)
Definition isString (v : JsValue) (s : jsstring) : bool :=
  match v with
  | JString t => bool_decide (t = s)
  | _ => false
  end.

Definition sanitizeMetadata (now : Z) (metadata : PayloadMetadata)
  : list (jsstring * JsValue) :=
  let sanitizedMeta :=
    [ (lit "type",
       JString (if isString (md_type metadata) (lit "text")
                then lit "text" else lit "file"));
      (lit "timestamp",
       match md_timestamp metadata with
       | JNumber n => JNumber n
       | _ => JNumber (Num now 0)
       end) ] in
  let sanitizedMeta :=
    match md_name metadata with
    | JString ((_ :: _) as name) =>
        setProp sanitizedMeta (lit "name") (JString (sanitizeName name))
    | _ => sanitizedMeta
    end in
  match md_mimeType metadata with
  | JString ((_ :: _) as mimeType) =>
      setProp sanitizedMeta (lit "mimeType") (JString (take 100 mimeType))
  | _ => sanitizedMeta
  end.

(** [now] is what [Date.now()] answers. *)
Definition packPayload (now : Z) (data : list Z) (metadata : PayloadMetadata)
  : outcome (list Z) :=
  let sanitizedMeta := sanitizeMetadata now metadata in
  let metaString := default [] (JSON_stringify (JObject sanitizedMeta)) in
  let metaBytes := TextEncoder_encode metaString in
  if MAX_METADATA_LENGTH <? Z.of_nat (length metaBytes) then
    Threw (Error "Metadata too large")
  else
    Returned ([METADATA_VERSION] ++
              setUint32LE (Z.of_nat (length metaBytes)) ++
              metaBytes ++
              data).

Record UnpackedPayload := mkUnpackedPayload {
  up_data : list Z;
  up_metadata : JsValue
}.

(** [typeof v === 'number'] and [typeof v === 'string'] *)
Definition isNumber (v : JsValue) : bool :=
  match v with JNumber _ => true | _ => false end.
Definition isStringValue (v : JsValue) : bool :=
  match v with JString _ => true | _ => false end.
Definition isUndefined (v : JsValue) : bool :=
  match v with JUndefined => true | _ => false end.

Definition isValidMetadata (obj : JsValue) : bool :=
  match obj with
  | JObject _ | JArray _ =>
      let meta := obj in
      if negb (isString (getProp meta (lit "type")) (lit "text")) &&
         negb (isString (getProp meta (lit "type")) (lit "file")) then false
      else if negb (isNumber (getProp meta (lit "timestamp"))) then false
      else if negb (isUndefined (getProp meta (lit "name"))) &&
              negb (isStringValue (getProp meta (lit "name"))) then false
      else if negb (isUndefined (getProp meta (lit "mimeType"))) &&
              negb (isStringValue (getProp meta (lit "mimeType"))) then false
      else true
  | _ => false
  end.

(** The [try] block of [unpackPayload]: decode, parse, validate, and
    sanitize the name of the parsed object in place. *)
Definition readMetadata (metaBytes : list Z) : outcome JsValue :=
  let metaString := TextDecoder_decode metaBytes in
  parsed ← JSON_parse metaString;
  if negb (isValidMetadata parsed) then
    Threw (Error "Invalid metadata schema")
  else
    match parsed, getProp parsed (lit "name") with
    | JObject props, JString ((_ :: _) as name) =>
        Returned (JObject (setProp props (lit "name")
                             (JString (sanitizeName name))))
    | _, _ => Returned parsed
    end.

Definition unpackPayload (now : Z) (buffer : list Z) : outcome UnpackedPayload :=
  let data := buffer in
  let offset := 0 in
  let MIN_HEADER_SIZE := 5 in
  if Z.of_nat (length data) <? MIN_HEADER_SIZE then
    Threw (Error "Invalid payload format")
  else
  let version := get data (Z.to_nat offset) in
  let offset := offset + 1 in
  if negb (version =? METADATA_VERSION) then
    Returned {| up_data := buffer;
                up_metadata :=
                  JObject [ (lit "type", JString (lit "file"));
                            (lit "timestamp", JNumber (Num now 0));
                            (lit "name", JString (lit "recovered_data.bin")) ] |}
  else
  metaLen ← getUint32 buffer offset;
  let offset := offset + 4 in
  if (metaLen <=? 0) || (MAX_METADATA_LENGTH <? metaLen) then
    Threw (Error "Invalid payload format")
  else if Z.of_nat (length data) <? offset + metaLen then
    Threw (Error "Invalid payload format")
  else
  let metaBytes := slice data offset (offset + metaLen) in
  let offset := offset + metaLen in
  match readMetadata metaBytes with
  | Threw e => Threw (Error "Invalid payload format")
  | Returned metadata =>
      let payloadData := drop (Z.to_nat offset) buffer in
      Returned {| up_data := payloadData; up_metadata := metadata |}
  end.


(** ** Definitions used to state the crypto worker's properties *)

Definition isError (m : WorkerMessage) : bool :=
  match m with ERROR _ _ => true | _ => false end.

(** A handler body that posts no [ERROR] itself. *)
Definition quiet {A} (j : job A) : Prop :=
  Forall (fun m => isError m = false) (fst j).

(** The salt-length field of an envelope, bytes 1..4 little endian. *)
Definition saltLengthField (packed : list Z) : Z :=
  get packed 1 + 256 * (get packed 2 + 256 * (get packed 3 + 256 * get packed 4)).

(** ** A stand-in host for running the crypto worker in examples

    Not a cipher: the key is a number made from the password, the salt and
    the iteration count, the 16-byte tag repeats a checksum of key, nonce and
    plaintext, and compression prefixes the gzip magic bytes. *)
Module ToyHost.
Definition checksum (bytes : list Z) : Z := foldr Z.add 0 bytes.

Definition deriveKeyPBKDF2 (password : string) (salt : list Z)
    (iterations : Z) : outcome Z :=
  Returned (Z.of_nat (String.length password) + checksum salt + iterations).

Definition tagOf (key : Z) (iv plaintext : list Z) : list Z :=
  replicate 16 ((key + checksum iv + checksum plaintext) mod 256).

Definition encryptAesGcm (key : Z) (iv plaintext : list Z)
  : outcome (list Z) :=
  Returned (plaintext ++ tagOf key iv plaintext).

Definition decryptAesGcm (key : Z) (iv ciphertext : list Z)
  : outcome (list Z) :=
  let n := (length ciphertext - 16)%nat in
  let plaintext := take n ciphertext in
  if bool_decide (drop n ciphertext = tagOf key iv plaintext)
  then Returned plaintext
  else Threw (Error "OperationError").

Definition compressData (data : list Z) : outcome (list Z) :=
  Returned (0x1F :: 0x8B :: data).

Definition decompressData (data : list Z) : outcome (list Z) :=
  match data with
  | 0x1F :: 0x8B :: rest => Returned rest
  | _ => Threw (Error "TypeError")
  end.

Definition handleEncrypt :=
  handleEncrypt deriveKeyPBKDF2 encryptAesGcm compressData.
Definition handleDecrypt :=
  handleDecrypt deriveKeyPBKDF2 decryptAesGcm decompressData.

(** The generator yields 1, 2, ..., 16 and then 21, 22, ...; [salt] and
    [iv] are what [handleEncrypt] draws from it. *)
Definition random (n : nat) : Z :=
  if (n <? 16)%nat then Z.of_nat n + 1 else Z.of_nat n + 5.

Definition salt : list Z := [1; 2; 3; 4; 5; 6; 7; 8; 9; 10; 11; 12; 13; 14; 15; 16].
Definition iv : list Z := [21; 22; 23; 24; 25; 26; 27; 28; 29; 30; 31; 32].
Definition payload : list Z := [104; 101; 108; 108; 111].
Definition password : string := "correcthorsebatterystaple1".
Definition wrongPassword : string := "wrong-password-xx".

(** What [handleEncrypt] completes with for the inputs above, compressed
    and in high-security mode. *)
Definition envelope : list Z :=
  [3; 16; 0; 0; 0] ++ salt ++ iv ++
  [0x1F; 0x8B; 104; 101; 108; 108; 111] ++ replicate 16 142.

(** The same envelope with its salt-length field set to 17. *)
Definition badSaltEnvelope : list Z := <[1%nat := 17]> envelope.
End ToyHost.

(** ** Definitions used to state the PNG properties *)

(** The byte expected at a reconstructed position, from the raw (filtered)
    byte and the reconstructed neighbours. *)
Definition reconstructedByte (filterType raw left up upLeft : Z) : Z :=
  match filterType with
  | 1 => (raw + left) mod 256
  | 2 => (raw + up) mod 256
  | 3 => (raw + (left + up) / 2) mod 256
  | 4 => (raw + paethPredictor left up upLeft) mod 256
  | _ => raw
  end.

(** The forward filter of the PNG standard, which subtracts the prediction
    made from the unfiltered neighbours.  The repository's encoder only
    writes filter 0, so the standard is what reconstruction is compared
    with. *)
Definition pngPrediction (filterType left up upLeft : Z) : Z :=
  match filterType with
  | 1 => left
  | 2 => up
  | 3 => (left + up) / 2
  | 4 => paethPredictor left up upLeft
  | _ => 0
  end.

Definition pngFilterRow (filterType : Z) (channels : nat)
    (prevRow original : list Z) : list Z :=
  map (fun x =>
         let left := if (channels <=? x)%nat
                     then get original (x - channels) else 0 in
         let up := get prevRow x in
         let upLeft := if (channels <=? x)%nat
                       then get prevRow (x - channels) else 0 in
         (get original x - pngPrediction filterType left up upLeft) mod 256)
      (seq 0 (length original)).

(** The filter byte of scanline [y] in the inflated stream and the raw
    (filtered) bytes behind it; every scanline takes [rowSize + 1] bytes. *)
Definition scanlineFilter (decompressed : list Z) (rowSize y : nat) : Z :=
  get decompressed (y * (rowSize + 1)).

Definition scanlineRaw (decompressed : list Z) (rowSize y : nat) : list Z :=
  map (fun i => get decompressed (S (y * (rowSize + 1)) + i)) (seq 0 rowSize).

(** Scanline [y] as it is reconstructed: the inverse filter on its raw
    bytes, with the reconstructed scanline [y - 1] as the row above, and a
    row of zeros above the first scanline. *)
Fixpoint reconstructedRow (decompressed : list Z) (channels rowSize y : nat)
  : list Z :=
  let prevRow :=
    match y with
    | O => replicate rowSize 0
    | S above => reconstructedRow decompressed channels rowSize above
    end in
  unfilterRow (scanlineFilter decompressed rowSize y) channels prevRow
    (scanlineRaw decompressed rowSize y) rowSize.

Definition rowAbove (decompressed : list Z) (channels rowSize y : nat) : list Z :=
  match y with
  | O => replicate rowSize 0
  | S above => reconstructedRow decompressed channels rowSize above
  end.

(** ** Definitions used to state the LSB engines' properties *)

(** The bit source only ever yields 0 or 1. *)
Definition binary (getBit : nat -> Z) : Prop :=
  forall j, getBit j = 0 \/ getBit j = 1.

(** From position [bitIndex] of the message on, the extracted stream [bits]
    repeats the message, as far as the message goes. *)
Definition carries (getBit : nat -> Z) (total bitIndex : nat) (bits : list Z)
  : Prop :=
  forall j, (bitIndex + j < total)%nat -> get bits j = getBit (bitIndex + j)%nat.

(** The image a stego result is read back from. *)
Definition imageOf (r : EmbedResult) : ImageData :=
  mkImageData (er_width r) (er_height r) (er_data r).

(** A byte put together again from its eight bits, high bit first, the way
    [readByte] does. *)
Definition recompose (m : Z) : Z :=
  fold_left
    (fun byte bitIdx =>
       Z.lor byte
         (Z.shiftl (Z.land (Z.shiftr m (Z.of_nat (7 - bitIdx))) 1)
                   (Z.of_nat (7 - bitIdx))))
    (seq 0 8) 0.

(** ** DataView and typed-array stores *)

(** Byte [i] of [value], low byte first.  A [DataView] store takes its
    operand modulo 2^(8 size), so a negative [setInt16] or [setInt32] operand
    is written in two's complement. *)
Definition byteLE (value : Z) (i : nat) : Z := (value / 256 ^ Z.of_nat i) mod 256.

(** [DataView.setUint16/setUint32/setInt16/setInt32(byteOffset, value, true)]:
    [size] bytes, little endian; the platform raises [RangeError] when they
    are not all inside the buffer. *)
Definition setUintLE (size : nat) (buffer : list Z) (byteOffset value : Z)
  : outcome (list Z) :=
  if (0 <=? byteOffset) && (byteOffset + Z.of_nat size <=? Z.of_nat (length buffer))
  then
    Returned
      (fold_left
         (fun buffer i => <[(Z.to_nat byteOffset + i)%nat := byteLE value i]> buffer)
         (seq 0 size) buffer)
  else Threw OUT_OF_BOUNDS.

Definition setUint16 := setUintLE 2.
Definition setUint32 := setUintLE 4.
Definition setInt16 := setUintLE 2.
Definition setInt32 := setUintLE 4.

(** [DataView.getInt32(byteOffset, true)] *)
Definition getInt32 (buffer : list Z) (byteOffset : Z) : outcome Z :=
  v ← getUint32 buffer byteOffset; Returned (toInt32 v).

(** [new ArrayBuffer(n)], [new Uint8Array(n)], [new Uint8ClampedArray(n)]
    for a negative [n].  The limit the platform puts on the size of an
    allocation is not modelled. *)
Definition INVALID_LENGTH : exn := RangeError "Invalid typed array length".

(** ** WAV encoder *)

(** [writeString(arr, offset, str)]: [arr[offset + i] = str.charCodeAt(i)]. *)
Definition writeString (arr : list Z) (offset : Z) (str : string) : list Z :=
  fold_left
    (fun arr i => <[(Z.to_nat offset + i)%nat := toUint8 (get (tag str) i)]> arr)
    (seq 0 (length (tag str))) arr.

(** [for (i = 0; i < samples.length; i++)
      { view.setInt16(offset, samples[i], true); offset += 2; }] *)
Fixpoint writeSamples (buffer : list Z) (offset : Z) (samples : list Z)
  : outcome (list Z) :=
  match samples with
  | [] => Returned buffer
  | sample :: rest =>
      buffer ← setInt16 buffer offset sample;
      writeSamples buffer (offset + 2) rest
  end.

(** The bytes of the [Blob] that [encodeWav] returns. *)
Definition encodeWav (wavData : WavData) : outcome (list Z) :=
  let samples := samples wavData in
  let sampleRate := sampleRate wavData in
  let channels := channels wavData in
  let bitsPerSample := bitsPerSample wavData in
  let headerSize := 44 in
  let dataSize := Z.of_nat (length samples) * 2 in
  let fileSize := headerSize + dataSize in
  let buffer := replicate (Z.to_nat fileSize) 0 in
  let buffer := writeString buffer 0 "RIFF" in
  buffer ← setUint32 buffer 4 (fileSize - 8);
  let buffer := writeString buffer 8 "WAVE" in
  let buffer := writeString buffer 12 "fmt " in
  buffer ← setUint32 buffer 16 16;
  buffer ← setUint16 buffer 20 1;
  buffer ← setUint16 buffer 22 channels;
  buffer ← setUint32 buffer 24 sampleRate;
  buffer ← setUint32 buffer 28 (sampleRate * channels * 2);
  buffer ← setUint16 buffer 32 (channels * 2);
  buffer ← setUint16 buffer 34 bitsPerSample;
  let buffer := writeString buffer 36 "data" in
  buffer ← setUint32 buffer 40 dataSize;
  writeSamples buffer 44 samples.

(** ** BMP codec *)

Definition UnsupportedBmpFormat (bitsPerPixel : Z) : exn :=
  ErrorFmt
    "Unsupported BMP format: ${bitsPerPixel}-bit. Only 24-bit and 32-bit supported."
    [bitsPerPixel].

(** One turn of the pixel loop of [decodeBMP]: B, G, R and A of the source
    pixel in column [x] of output row [y] are stored into the clamped RGBA
    array.  A source byte outside the file is [undefined] and is stored
    as 0. *)
Definition bmpStorePixel (data : list Z)
    (dataOffset width absHeight bytesPerPixel : Z)
    (isTopDown : bool) (rowSize : Z) (y : nat) (pixels : list Z) (x : nat)
  : list Z :=
  let srcY := if isTopDown then Z.of_nat y else absHeight - 1 - Z.of_nat y in
  let rowOffset := dataOffset + srcY * rowSize in
  let srcOffset := Z.to_nat (rowOffset + Z.of_nat x * bytesPerPixel) in
  let dstOffset := Z.to_nat ((Z.of_nat y * width + Z.of_nat x) * 4) in
  let pixels :=
    <[(dstOffset + 2)%nat := clampUint8 (get data srcOffset)]> pixels in
  let pixels :=
    <[(dstOffset + 1)%nat := clampUint8 (get data (srcOffset + 1))]> pixels in
  let pixels :=
    <[dstOffset := clampUint8 (get data (srcOffset + 2))]> pixels in
  <[(dstOffset + 3)%nat :=
      clampUint8 (if bytesPerPixel =? 4 then get data (srcOffset + 3)
                  else 255)]> pixels.

(** [for (y = 0; y < absHeight; y++) for (x = 0; x < width; x++)] *)
Definition bmpPixels (data : list Z) (dataOffset width absHeight bytesPerPixel : Z)
    (isTopDown : bool) (rowSize : Z) (pixels : list Z) : list Z :=
  fold_left
    (fun pixels y =>
       fold_left
         (bmpStorePixel data dataOffset width absHeight bytesPerPixel isTopDown
            rowSize y)
         (seq 0 (Z.to_nat width)) pixels)
    (seq 0 (Z.to_nat absHeight)) pixels.

(** [new Uint8ClampedArray(n)]: the platform refuses an array it cannot
    allocate with a [RangeError], whose text is the platform's.
    [allocates n] says whether it grants an array of [n] bytes. *)
Definition ALLOCATION_REFUSED : exn :=
  RangeError "Array buffer allocation failed".

Definition decodeBMPOn (allocates : Z -> bool) (buffer : list Z)
  : outcome ImageData :=
  let data := buffer in
  let MIN_BMP_SIZE := 54 in
  if Z.of_nat (length buffer) <? MIN_BMP_SIZE then
    Threw (Error "Invalid BMP file: file too small (corrupted or truncated)")
  else if negb (get data 0 =? 0x42) || negb (get data 1 =? 0x4D) then
    Threw (Error "Invalid BMP file: missing BM signature")
  else
    dataOffset ← getUint32 buffer 10;
    width ← getInt32 buffer 18;
    height ← getInt32 buffer 22;
    bitsPerPixel ← getUint16 buffer 28;
    if (width <=? 0) || (32768 <? width) ||
       (Z.abs height <=? 0) || (32768 <? Z.abs height) then
      Threw (Error "Invalid BMP file: unreasonable dimensions (corrupted header)")
    else if Z.of_nat (length buffer) <=? dataOffset then
      Threw (Error "Invalid BMP file: data offset exceeds file size (corrupted)")
    else if negb (bitsPerPixel =? 24) && negb (bitsPerPixel =? 32) then
      Threw (UnsupportedBmpFormat bitsPerPixel)
    else
      let bytesPerPixel := bitsPerPixel / 8 in
      let absHeight := Z.abs height in
      let isTopDown := height <? 0 in
      let rowSize := (width * bytesPerPixel + 3) / 4 * 4 in
      if negb (allocates (width * absHeight * 4)) then Threw ALLOCATION_REFUSED
      else
      let pixels := replicate (Z.to_nat (width * absHeight * 4)) 0 in
      let pixels :=
        bmpPixels data dataOffset width absHeight bytesPerPixel isTopDown
          rowSize pixels in
      Returned (mkImageData width absHeight pixels).

(** [decodeBMP] where the platform grants every array. *)
Definition decodeBMP (buffer : list Z) : outcome ImageData :=
  decodeBMPOn (fun _ => true) buffer.

(** One turn of the pixel loop of [encodeBMP]: B, G, R and A of pixel
    [(x, y)] are stored at [offset], which moves on by 4. *)
Definition bmpStoreQuad (pixels : list Z) (width : Z) (y : nat)
    (state : list Z * nat) (x : nat) : list Z * nat :=
  let '(data, offset) := state in
  let srcOffset := Z.to_nat ((Z.of_nat y * width + Z.of_nat x) * 4) in
  let data := <[offset := toUint8 (get pixels (srcOffset + 2))]> data in
  let data := <[(offset + 1)%nat := toUint8 (get pixels (srcOffset + 1))]> data in
  let data := <[(offset + 2)%nat := toUint8 (get pixels srcOffset)]> data in
  let data := <[(offset + 3)%nat := toUint8 (get pixels (srcOffset + 3))]> data in
  (data, (offset + 4)%nat).

(** [for (y = 0; y < height; y++) for (x = 0; x < width; x++)] *)
Definition bmpData (pixels : list Z) (width height : Z) (data : list Z)
    (offset : nat) : list Z * nat :=
  fold_left
    (fun state y =>
       fold_left (bmpStoreQuad pixels width y) (seq 0 (Z.to_nat width)) state)
    (seq 0 (Z.to_nat height)) (data, offset).

(** The bytes of the [Blob] that [encodeBMP] returns. *)
Definition encodeBMP (pixels : list Z) (width height : Z) : outcome (list Z) :=
  let bytesPerPixel := 4 in
  let rowSize := width * bytesPerPixel in
  let pixelDataSize := rowSize * height in
  let headerSize := 54 in
  let fileSize := headerSize + pixelDataSize in
  if fileSize <? 0 then Threw INVALID_LENGTH else
  let data := replicate (Z.to_nat fileSize) 0 in
  let data := <[0%nat := 0x42]> data in
  let data := <[1%nat := 0x4D]> data in
  data ← setUint32 data 2 fileSize;
  data ← setUint32 data 6 0;
  data ← setUint32 data 10 headerSize;
  data ← setUint32 data 14 40;
  data ← setInt32 data 18 width;
  data ← setInt32 data 22 (- height);
  data ← setUint16 data 26 1;
  data ← setUint16 data 28 32;
  data ← setUint32 data 30 0;
  data ← setUint32 data 34 pixelDataSize;
  data ← setUint32 data 38 2835;
  data ← setUint32 data 42 2835;
  data ← setUint32 data 46 0;
  data ← setUint32 data 50 0;
  Returned (fst (bmpData pixels width height data (Z.to_nat headerSize))).

(** ** Definitions used to state the codecs' properties *)

(** The two bytes a sample is stored in. *)
Definition int16Bytes (sample : Z) : list Z := [byteLE sample 0; byteLE sample 1].

(** What an [Int16Array] holds. *)
Definition is_int16 (sample : Z) : Prop := - 2 ^ 15 <= sample < 2 ^ 15.

(** The canonical 44-byte header [encodeWav] writes, field by field. *)
Definition wavHeader (wav : WavData) : list Z :=
  let dataSize := Z.of_nat (length (samples wav)) * 2 in
  tag "RIFF" ++ map (byteLE (44 + dataSize - 8)) (seq 0 4) ++
  tag "WAVE" ++
  tag "fmt " ++ map (byteLE 16) (seq 0 4) ++
  map (byteLE 1) (seq 0 2) ++
  map (byteLE (channels wav)) (seq 0 2) ++
  map (byteLE (sampleRate wav)) (seq 0 4) ++
  map (byteLE (sampleRate wav * channels wav * 2)) (seq 0 4) ++
  map (byteLE (channels wav * 2)) (seq 0 2) ++
  map (byteLE (bitsPerSample wav)) (seq 0 2) ++
  tag "data" ++ map (byteLE dataSize) (seq 0 4).

Definition wavFile (wav : WavData) : list Z :=
  wavHeader wav ++ flat_map int16Bytes (samples wav).

(** A 16-bit PCM recording that a WAV header can describe: the samples are
    what an [Int16Array] holds, the sample rate and the size of the data
    chunk fit a 32-bit field and the channel count a 16-bit field. *)
Definition wf_wav (wav : WavData) : Prop :=
  Forall is_int16 (samples wav) /\
  0 < sampleRate wav < 2 ^ 32 /\
  0 <= channels wav < 2 ^ 16 /\
  bitsPerSample wav = 16 /\
  Z.of_nat (length (samples wav)) * 2 < 2 ^ 32.

(** The four bytes [decodeBMP] stores for the pixel in column [x] of output
    row [y]. *)
Definition bmpPixelAt (data : list Z) (dataOffset absHeight bytesPerPixel : Z)
    (isTopDown : bool) (rowSize : Z) (y x : nat) : list Z :=
  let srcY := if isTopDown then Z.of_nat y else absHeight - 1 - Z.of_nat y in
  let srcOffset :=
    Z.to_nat (dataOffset + srcY * rowSize + Z.of_nat x * bytesPerPixel) in
  [ clampUint8 (get data (srcOffset + 2));
    clampUint8 (get data (srcOffset + 1));
    clampUint8 (get data srcOffset);
    clampUint8 (if bytesPerPixel =? 4 then get data (srcOffset + 3) else 255) ].

(** The four bytes [encodeBMP] stores for pixel number [k]: B, G, R, A. *)
Definition bmpQuad (pixels : list Z) (k : nat) : list Z :=
  [ toUint8 (get pixels (4 * k + 2)); toUint8 (get pixels (4 * k + 1));
    toUint8 (get pixels (4 * k)); toUint8 (get pixels (4 * k + 3)) ].

(** The 54-byte header [encodeBMP] writes, field by field. *)
Definition bmpHeader (width height : Z) : list Z :=
  [0x42; 0x4D] ++
  map (byteLE (54 + width * 4 * height)) (seq 0 4) ++
  map (byteLE 0) (seq 0 4) ++
  map (byteLE 54) (seq 0 4) ++
  map (byteLE 40) (seq 0 4) ++
  map (byteLE width) (seq 0 4) ++
  map (byteLE (- height)) (seq 0 4) ++
  map (byteLE 1) (seq 0 2) ++
  map (byteLE 32) (seq 0 2) ++
  map (byteLE 0) (seq 0 4) ++
  map (byteLE (width * 4 * height)) (seq 0 4) ++
  map (byteLE 2835) (seq 0 4) ++
  map (byteLE 2835) (seq 0 4) ++
  map (byteLE 0) (seq 0 4) ++
  map (byteLE 0) (seq 0 4).

Definition bmpFile (pixels : list Z) (width height : Z) : list Z :=
  bmpHeader width height ++
  flat_map
    (fun y =>
       flat_map (fun x => bmpQuad pixels (y * Z.to_nat width + x))
         (seq 0 (Z.to_nat width)))
    (seq 0 (Z.to_nat height)).

(** The RGBA bytes of pixel number [k]. *)
Definition rgbaAt (pixels : list Z) (k : nat) : list Z :=
  [ get pixels (4 * k); get pixels (4 * k + 1);
    get pixels (4 * k + 2); get pixels (4 * k + 3) ].

(** ** The steganography worker

    The worker carries its own copies of the codecs and of the LSB engines.
    Its functions take a progress callback that only posts [PROGRESS]
    messages; the callback is left out, as in [embedImageData]. *)

(** [TypedArray.prototype.set(source, offset)]: the platform raises
    [RangeError] when the source does not fit. *)
Definition setBytes (target : list Z) (source : list Z) (offset : Z)
  : outcome (list Z) :=
  if (0 <=? offset) &&
     (offset + Z.of_nat (length source) <=? Z.of_nat (length target))
  then
    Returned
      (fold_left
         (fun target i =>
            <[(Z.to_nat offset + i)%nat := toUint8 (get source i)]> target)
         (seq 0 (length source)) target)
  else Threw (RangeError "offset is out of bounds").

Module StegWorker.

Definition extractImageData (pixels : list Z) (width height : Z) (lsbDepth : Z)
  : option (list Z) :=
  let usableChannels := width * height * 3 in
  let maxBits := usableChannels * lsbDepth in
  if maxBits <? 64 then None else
  let extractedBits := extractBits (Z.to_nat lsbDepth) pixels in
  if (length extractedBits <? 64)%nat then None else
  let extractedMagic :=
    map (fun byteIdx => readByte extractedBits (byteIdx * 8)) [0; 1; 2; 3]%nat in
  if negb (bool_decide (extractedMagic = MAGIC_HEADER)) then None else
  let payloadLength := readLength extractedBits in
  let headerBits := 64 in
  let availablePayloadBits := Z.of_nat (length extractedBits) - headerBits in
  let maxPayloadBytes := availablePayloadBits / 8 in
  if (payloadLength <=? 0) || (maxPayloadBytes <? payloadLength) then None else
  Some (readPayload extractedBits payloadLength).

Definition UnsupportedBmpDepth (bitsPerPixel : Z) : exn :=
  ErrorFmt "Unsupported BMP bit depth: ${bitsPerPixel}" [bitsPerPixel].

(** The worker's BMP decoder checks neither the size of the file nor the
    dimensions: the header reads and the allocation of the pixel array can
    fail with the platform's [RangeError]. *)
Definition decodeBMP (buffer : list Z) : outcome (list Z * Z * Z) :=
  let data := buffer in
  if negb (get data 0 =? 0x42) || negb (get data 1 =? 0x4D) then
    Threw (Error "Invalid BMP signature")
  else
    dataOffset ← getUint32 buffer 10;
    width ← getInt32 buffer 18;
    height ← getInt32 buffer 22;
    bitsPerPixel ← getUint16 buffer 28;
    if negb (bitsPerPixel =? 24) && negb (bitsPerPixel =? 32) then
      Threw (UnsupportedBmpDepth bitsPerPixel)
    else
      let bytesPerPixel := bitsPerPixel / 8 in
      let absHeight := Z.abs height in
      let isTopDown := height <? 0 in
      let rowSize := (width * bytesPerPixel + 3) / 4 * 4 in
      if width * absHeight * 4 <? 0 then Threw INVALID_LENGTH else
      let pixels := replicate (Z.to_nat (width * absHeight * 4)) 0 in
      let pixels :=
        bmpPixels data dataOffset width absHeight bytesPerPixel isTopDown
          rowSize pixels in
      Returned (pixels, width, absHeight).

Definition encodeBMP (pixels : list Z) (width height : Z) : outcome (list Z) :=
  let bytesPerPixel := 4 in
  let rowSize := width * bytesPerPixel in
  let pixelDataSize := rowSize * height in
  let headerSize := 54 in
  let fileSize := headerSize + pixelDataSize in
  if fileSize <? 0 then Threw INVALID_LENGTH else
  let data := replicate (Z.to_nat fileSize) 0 in
  let data := <[0%nat := 0x42]> data in
  let data := <[1%nat := 0x4D]> data in
  data ← setUint32 data 2 fileSize;
  data ← setUint32 data 6 0;
  data ← setUint32 data 10 headerSize;
  data ← setUint32 data 14 40;
  data ← setInt32 data 18 width;
  data ← setInt32 data 22 (- height);
  data ← setUint16 data 26 1;
  data ← setUint16 data 28 32;
  data ← setUint32 data 30 0;
  data ← setUint32 data 34 pixelDataSize;
  data ← setUint32 data 38 2835;
  data ← setUint32 data 42 2835;
  data ← setUint32 data 46 0;
  data ← setUint32 data 50 0;
  Returned (fst (bmpData pixels width height data (Z.to_nat headerSize))).

(** The chunk loop of [decodeWAV], with the fuel of [walkChunks]. *)
Fixpoint walkChunks (fuel : nat) (data : list Z) (st : ChunkWalk)
  : outcome ChunkWalk :=
  match fuel with
  | O => Returned st
  | S fuel =>
      let offset := cw_offset st in
      if offset <? Z.of_nat (length data) then
        let chunkId := fourCC data offset in
        chunkSize ← getUint32 data (offset + 4);
        let offset := offset + 8 in
        st ← (if bool_decide (chunkId = tag "fmt ") then
                audioFormat ← getUint16 data offset;
                if negb (audioFormat =? 1) then
                  Threw (Error "Only PCM WAV supported")
                else
                  channels ← getUint16 data (offset + 2);
                  sampleRate ← getUint32 data (offset + 4);
                  bitsPerSample ← getUint16 data (offset + 14);
                  if negb (bitsPerSample =? 16) then
                    Threw (Error "Only 16-bit WAV supported")
                  else
                    Returned {| cw_offset := offset;
                                cw_sampleRate := sampleRate;
                                cw_channels := channels;
                                cw_bitsPerSample := bitsPerSample;
                                cw_dataOffset := cw_dataOffset st;
                                cw_dataSize := cw_dataSize st |}
              else if bool_decide (chunkId = tag "data") then
                Returned {| cw_offset := offset;
                            cw_sampleRate := cw_sampleRate st;
                            cw_channels := cw_channels st;
                            cw_bitsPerSample := cw_bitsPerSample st;
                            cw_dataOffset := offset;
                            cw_dataSize := chunkSize |}
              else
                Returned {| cw_offset := offset;
                            cw_sampleRate := cw_sampleRate st;
                            cw_channels := cw_channels st;
                            cw_bitsPerSample := cw_bitsPerSample st;
                            cw_dataOffset := cw_dataOffset st;
                            cw_dataSize := cw_dataSize st |});
        let offset := offset + chunkSize in
        let offset := if negb (chunkSize mod 2 =? 0) then offset + 1 else offset in
        walkChunks fuel data
          {| cw_offset := offset;
             cw_sampleRate := cw_sampleRate st;
             cw_channels := cw_channels st;
             cw_bitsPerSample := cw_bitsPerSample st;
             cw_dataOffset := cw_dataOffset st;
             cw_dataSize := cw_dataSize st |}
      else Returned st
  end.

(** The worker's WAV decoder has no check of the file size and none for a
    missing [fmt ] or [data] chunk. *)
Definition decodeWAV (buffer : list Z) : outcome (list Z * Z * Z) :=
  let data := buffer in
  if negb (bool_decide (fourCC data 0 = tag "RIFF")) then
    Threw (Error "Invalid WAV: missing RIFF")
  else if negb (bool_decide (fourCC data 8 = tag "WAVE")) then
    Threw (Error "Invalid WAV: missing WAVE")
  else
    st ← walkChunks (length data) data
           {| cw_offset := 12; cw_sampleRate := 0; cw_channels := 0;
              cw_bitsPerSample := 0; cw_dataOffset := 0; cw_dataSize := 0 |};
    let dataSize := cw_dataSize st in
    let reads := Z.to_nat ((dataSize + 1) / 2) in
    all ← readSamples buffer (cw_dataOffset st) reads 0;
    Returned (take (Z.to_nat (dataSize / 2)) all,
              cw_sampleRate st, cw_channels st).

(** [for (i = 0; i < samples.length; i++)
      view.setInt16(44 + i * 2, samples[i], true)] *)
Fixpoint writeSamples (buffer : list Z) (i : Z) (samples : list Z)
  : outcome (list Z) :=
  match samples with
  | [] => Returned buffer
  | sample :: rest =>
      buffer ← setInt16 buffer (44 + i * 2) sample;
      writeSamples buffer (i + 1) rest
  end.

Definition encodeWAV (samples : list Z) (sampleRate channels : Z)
  : outcome (list Z) :=
  let dataSize := Z.of_nat (length samples) * 2 in
  let fileSize := 44 + dataSize in
  let buffer := replicate (Z.to_nat fileSize) 0 in
  buffer ← setBytes buffer [0x52; 0x49; 0x46; 0x46] 0;
  buffer ← setUint32 buffer 4 (fileSize - 8);
  buffer ← setBytes buffer [0x57; 0x41; 0x56; 0x45] 8;
  buffer ← setBytes buffer [0x66; 0x6D; 0x74; 0x20] 12;
  buffer ← setUint32 buffer 16 16;
  buffer ← setUint16 buffer 20 1;
  buffer ← setUint16 buffer 22 channels;
  buffer ← setUint32 buffer 24 sampleRate;
  buffer ← setUint32 buffer 28 (sampleRate * channels * 2);
  buffer ← setUint16 buffer 32 (channels * 2);
  buffer ← setUint16 buffer 34 16;
  buffer ← setBytes buffer [0x64; 0x61; 0x74; 0x61] 36;
  buffer ← setUint32 buffer 40 dataSize;
  writeSamples buffer 0 samples.

Definition embedWAVData (samples : list Z) (payload : list Z) (lsbDepth : Z)
  : outcome (list Z) :=
  let payloadBytes := payload in
  let fullMessage := buildFullMessage payloadBytes in
  let bits := messageBits fullMessage in
  let availableBits := Z.of_nat (length samples) * lsbDepth in
  if availableBits <? Z.of_nat (length bits) then
    Threw (PayloadTooLarge (Z.of_nat (length bits)) availableBits)
  else
    let output := map toInt16 samples in
    Returned (embedSamples bits lsbDepth output 0).

Definition extractWAVData (samples : list Z) (lsbDepth : Z) : option (list Z) :=
  let totalBits := Z.of_nat (length samples) * lsbDepth in
  if totalBits <? 64 then None else
  let bits := extractSampleBits (Z.to_nat lsbDepth) totalBits samples [] in
  let magicBytes := map (fun i => readByte bits (i * 8)) [0; 1; 2; 3]%nat in
  if negb (bool_decide (magicBytes = MAGIC_HEADER)) then None else
  let lengthBytes := map (fun i => readByte bits (32 + i * 8)) [0; 1; 2; 3]%nat in
  let payloadLength := getUint32BE lengthBytes in
  let maxBytes := (Z.of_nat (length bits) - 64) / 8 in
  if (payloadLength <=? 0) || (maxBytes <? payloadLength) then None else
  Some (readPayload bits payloadLength).

(** *** The message handler

    Each request ends in one message: [COMPLETE] with the result, or, from
    the [catch], [ERROR] with the message of the exception and the code
    STEG_ERROR.  The handlers below give that outcome, [Returned] for
    [COMPLETE] and [Threw] for [ERROR]; the [PROGRESS] messages in between
    carry percentages only. *)

Inductive Format := png | bmp | wav.

Definition NOT_IMPLEMENTED : exn :=
  Error "PNG decoding in worker not implemented - use main thread".
Definition NOTHING_FOUND : exn :=
  Error "No hidden data found or wrong LSB depth".

(** [case 'EMBED_IMAGE'] *)
Definition EMBED_IMAGE (format : Format) (carrier payload : list Z) (lsbDepth : Z)
  : outcome (list Z) :=
  decoded ← (match format with
             | bmp => decodeBMP carrier
             | _ => Threw NOT_IMPLEMENTED
             end);
  let '(pixels, width, height) := decoded in
  embedded ← embedImageData pixels width height payload lsbDepth;
  encodeBMP embedded width height.

(** [case 'EMBED_AUDIO'] *)
Definition EMBED_AUDIO (carrier payload : list Z) (lsbDepth : Z)
  : outcome (list Z) :=
  decoded ← decodeWAV carrier;
  let '(samples, sampleRate, channels) := decoded in
  embedded ← embedWAVData samples payload lsbDepth;
  encodeWAV embedded sampleRate channels.

(** [case 'EXTRACT_IMAGE'] *)
Definition EXTRACT_IMAGE (format : Format) (carrier : list Z) (lsbDepth : Z)
  : outcome (list Z) :=
  decoded ← (match format with
             | bmp => decodeBMP carrier
             | _ => Threw NOT_IMPLEMENTED
             end);
  let '(pixels, width, height) := decoded in
  match extractImageData pixels width height lsbDepth with
  | Some extracted => Returned extracted
  | None => Threw NOTHING_FOUND
  end.

(** [case 'EXTRACT_AUDIO'] *)
Definition EXTRACT_AUDIO (carrier : list Z) (lsbDepth : Z) : outcome (list Z) :=
  decoded ← decodeWAV carrier;
  let '(samples, _, _) := decoded in
  match extractWAVData samples lsbDepth with
  | Some extracted => Returned extracted
  | None => Threw NOTHING_FOUND
  end.

End StegWorker.

(** ** Definitions used to state the worker's properties *)

(** The header fields a chunk walk has collected fit their field widths. *)
Definition walk_in_range (st : ChunkWalk) : Prop :=
  0 <= cw_sampleRate st < 2 ^ 32 /\
  0 <= cw_channels st < 2 ^ 16 /\
  0 <= cw_dataSize st < 2 ^ 32.

(** ** PNG container *)

(** [ToUint32]; [a ^ b], [a & b] and [a >>> k] on numbers. *)
Definition toUint32 (z : Z) : Z := z mod 2 ^ 32.
Definition xor32 (a b : Z) : Z := toInt32 (Z.lxor (toUint32 a) (toUint32 b)).
Definition and32 (a b : Z) : Z := toInt32 (Z.land (toUint32 a) (toUint32 b)).
Definition ushr (a k : Z) : Z := Z.shiftr (toUint32 a) k.

(** [crcTable[n]]: eight turns of
    [c = (c & 1) ? (0xEDB88320 ^ (c >>> 1)) : (c >>> 1)], stored into a
    [Uint32Array]. *)
Definition crcTableEntry (n : Z) : Z :=
  toUint32
    (fold_left
       (fun c _ =>
          if and32 c 1 =? 0 then ushr c 1 else xor32 0xEDB88320 (ushr c 1))
       (seq 0 8) n).

Definition crcTable : list Z :=
  Eval vm_compute in map (fun n => crcTableEntry (Z.of_nat n)) (seq 0 256).

(** [c = crcTable[(c ^ buf[i]) & 0xFF] ^ (c >>> 8)] over the buffer. *)
Definition updateCrc (crc : Z) (buf : list Z) : Z :=
  fold_left
    (fun c byte =>
       xor32 (get crcTable (Z.to_nat (and32 (xor32 c byte) 255))) (ushr c 8))
    buf crc.

Definition int32ToBytes (val : Z) : list Z :=
  [ and32 (ushr val 24) 255; and32 (ushr val 16) 255;
    and32 (ushr val 8) 255; and32 val 255 ].

(** [writeChunk(parts, type, data)]; [parts] is the content of the [Blob] so
    far. *)
Definition writeChunk (parts : list Z) (type : string) (data : list Z) : list Z :=
  let parts := parts ++ int32ToBytes (Z.of_nat (length data)) in
  let typeBytes := TextEncoder_encode (lit type) in
  let parts := parts ++ typeBytes in
  let parts := parts ++ data in
  let crc := 0xFFFFFFFF in
  let crc := updateCrc crc typeBytes in
  let crc := updateCrc crc data in
  let crc := xor32 crc 0xFFFFFFFF in
  parts ++ int32ToBytes (ushr crc 0).

(** [for (y = 0; y < height; y++)
      rawData.set(pixels.subarray(y * rowSize, y * rowSize + rowSize),
                  y * (rowSize + 1) + 1)];
    the filter byte in front of each row stays 0. *)
Fixpoint storeRows (pixels : list Z) (rowSize : Z) (rows : list nat)
    (rawData : list Z) : outcome (list Z) :=
  match rows with
  | [] => Returned rawData
  | y :: rows =>
      let sourceOffset := Z.of_nat y * rowSize in
      let targetOffset := Z.of_nat y * (rowSize + 1) + 1 in
      let row := slice pixels sourceOffset (sourceOffset + rowSize) in
      rawData ← setBytes rawData row targetOffset;
      storeRows pixels rowSize rows rawData
  end.

(** [new DataView(buffer, byteOffset)]: the bytes from [byteOffset] on. *)
Definition dataViewAt (buffer : list Z) (byteOffset : Z) : outcome (list Z) :=
  if Z.of_nat (length buffer) <? byteOffset then
    Threw (RangeError "Start offset is outside the bounds of the buffer")
  else Returned (drop (Z.to_nat byteOffset) buffer).

(** [view.getUint32(byteOffset, false)] and [view.getUint8(byteOffset)] *)
Definition viewUint32BE (view : list Z) (byteOffset : Z) : outcome Z :=
  if byteOffset + 4 <=? Z.of_nat (length view) then
    Returned (getUint32BE (slice view byteOffset (byteOffset + 4)))
  else Threw OUT_OF_BOUNDS.

Definition viewUint8 (view : list Z) (byteOffset : Z) : outcome Z :=
  if byteOffset + 1 <=? Z.of_nat (length view) then
    Returned (get view (Z.to_nat byteOffset))
  else Threw OUT_OF_BOUNDS.

Record PngWalk := mkPngWalk {
  pw_offset : Z;
  pw_width : Z;
  pw_height : Z;
  pw_colorType : Z;
  pw_idatChunks : list (list Z);
  pw_idatTotalSize : Z
}.

(** [while (offset < data.length)] over the chunks; every turn moves
    [offset] forward by at least 12, so [length data] turns are more than the
    loop can take.  [IEND] leaves the loop. *)
Fixpoint walkPngChunks (fuel : nat) (data : list Z) (st : PngWalk)
  : outcome PngWalk :=
  match fuel with
  | O => Returned st
  | S fuel =>
      let offset := pw_offset st in
      if offset <? Z.of_nat (length data) then
        view ← dataViewAt data offset;
        chunkLength ← viewUint32BE view 0;
        let offset := offset + 4 in
        let type := fourCC data offset in
        let offset := offset + 4 in
        if bool_decide (type = tag "IHDR") then
          chunkData ← dataViewAt data offset;
          width ← viewUint32BE chunkData 0;
          height ← viewUint32BE chunkData 4;
          depth ← viewUint8 chunkData 8;
          colorType ← viewUint8 chunkData 9;
          compression ← viewUint8 chunkData 10;
          filterMethod ← viewUint8 chunkData 11;
          interlace ← viewUint8 chunkData 12;
          walkPngChunks fuel data
            {| pw_offset := offset + chunkLength + 4;
               pw_width := width;
               pw_height := height;
               pw_colorType := colorType;
               pw_idatChunks := pw_idatChunks st;
               pw_idatTotalSize := pw_idatTotalSize st |}
        else if bool_decide (type = tag "IDAT") then
          let chunkData := slice data offset (offset + chunkLength) in
          walkPngChunks fuel data
            {| pw_offset := offset + chunkLength + 4;
               pw_width := pw_width st;
               pw_height := pw_height st;
               pw_colorType := pw_colorType st;
               pw_idatChunks := pw_idatChunks st ++ [chunkData];
               pw_idatTotalSize := pw_idatTotalSize st + chunkLength |}
        else if bool_decide (type = tag "IEND") then
          Returned st
        else
          walkPngChunks fuel data
            {| pw_offset := offset + chunkLength + 4;
               pw_width := pw_width st;
               pw_height := pw_height st;
               pw_colorType := pw_colorType st;
               pw_idatChunks := pw_idatChunks st;
               pw_idatTotalSize := pw_idatTotalSize st |}
      else Returned st
  end.

Section PngCodec.
(** [CompressionStream('deflate')] and [DecompressionStream('deflate')],
    written to and read to the end: the host's.  A stream error is
    [Threw]. *)
Variable compress : list Z -> outcome (list Z).
Variable decompress : list Z -> outcome (list Z).

(** The bytes of the [Blob] that [encodePNG] resolves to. *)
Definition encodePNG (pixels : list Z) (width height : Z) : outcome (list Z) :=
  let parts := [0x89; 0x50; 0x4E; 0x47; 0x0D; 0x0A; 0x1A; 0x0A] in
  let ihdrData := setUint32BE width ++ setUint32BE height ++ [8; 6; 0; 0; 0] in
  let parts := writeChunk parts "IHDR" ihdrData in
  let rowSize := width * 4 in
  let rawSize := (rowSize + 1) * height in
  if rawSize <? 0 then Threw INVALID_LENGTH else
  let rawData := replicate (Z.to_nat rawSize) 0 in
  rawData ← storeRows pixels rowSize (seq 0 (Z.to_nat height)) rawData;
  compressedData ← compress rawData;
  let parts := writeChunk parts "IDAT" compressedData in
  let parts := writeChunk parts "IEND" [] in
  Returned parts.

(** [zlibStream]: the IDAT chunks one after the other in an array of
    [idatTotalSize] bytes; a chunk cut short by the end of the file leaves
    zeros at the end. *)
Definition joinIdat (idatChunks : list (list Z)) (idatTotalSize : Z) : list Z :=
  let joined := concat idatChunks in
  joined ++ replicate (Z.to_nat idatTotalSize - length joined) 0.

Definition decodePNG (buffer : list Z) : outcome ImageData :=
  let data := buffer in
  if negb (get data 0 =? 0x89) || negb (get data 1 =? 0x50) ||
     negb (get data 2 =? 0x4E) || negb (get data 3 =? 0x47) then
    Threw (Error "Invalid PNG signature")
  else
    st ← walkPngChunks (length data) data
           {| pw_offset := 8; pw_width := 0; pw_height := 0;
              pw_colorType := 0; pw_idatChunks := [];
              pw_idatTotalSize := 0 |};
    let width := pw_width st in
    let height := pw_height st in
    if (width =? 0) || (height =? 0) then
      Threw (Error "Invalid PNG dimensions")
    else
      let zlibStream := joinIdat (pw_idatChunks st) (pw_idatTotalSize st) in
      decompressed ← decompress zlibStream;
      let pixels :=
        decodeScanlines decompressed (Z.to_nat width) (Z.to_nat height)
          (pw_colorType st) in
      Returned (mkImageData width height pixels).
End PngCodec.

(** ** Definitions used to state the PNG codec's properties *)

(** The scanlines [encodePNG] hands to the compressor: every row of
    [rowSize] bytes behind a filter byte 0. *)
Definition pngScanlines (pixels : list Z) (rowSize rows : nat) : list Z :=
  flat_map (fun y => 0 :: take rowSize (drop (y * rowSize) pixels)) (seq 0 rows).

(** A compressor that stores its input unchanged, and its inverse. *)
Definition stored (input : list Z) : outcome (list Z) := Returned input.

(** A PNG file of the shape [encodePNG] writes: signature, IHDR, one IDAT
    chunk holding [idat], IEND; the three checksums are left open. *)
Definition pngFile (width height : Z) (idat crc1 crc2 crc3 : list Z) : list Z :=
  [0x89; 0x50; 0x4E; 0x47; 0x0D; 0x0A; 0x1A; 0x0A] ++
  int32ToBytes 13 ++ tag "IHDR" ++
  (setUint32BE width ++ setUint32BE height ++ [8; 6; 0; 0; 0]) ++ crc1 ++
  int32ToBytes (Z.of_nat (length idat)) ++ tag "IDAT" ++ idat ++ crc2 ++
  int32ToBytes 0 ++ tag "IEND" ++ crc3.

(** The checksum bytes [writeChunk] appends. *)
Definition chunkCrc (type : string) (data : list Z) : list Z :=
  int32ToBytes
    (ushr (xor32 (updateCrc (updateCrc 0xFFFFFFFF (TextEncoder_encode (lit type)))
                    data)
             0xFFFFFFFF) 0).

(** ** The envelope of the crypto library *)

Record EncryptionResult := mkEncryptionResult {
  enc_ciphertext : list Z;
  enc_iv : list Z;
  enc_salt : list Z
}.

(** [packEncryptedData(result)]: salt length (4 bytes, little endian), salt,
    IV, ciphertext. *)
Definition packEncryptedData (result : EncryptionResult) : outcome (list Z) :=
  let metadataSize :=
    4 + Z.of_nat (length (enc_salt result)) + Z.of_nat (length (enc_iv result)) in
  let totalSize := metadataSize + Z.of_nat (length (enc_ciphertext result)) in
  let packed := replicate (Z.to_nat totalSize) 0 in
  let offset := 0 in
  packed ← setUint32 packed offset (Z.of_nat (length (enc_salt result)));
  let offset := offset + 4 in
  packed ← setBytes packed (enc_salt result) offset;
  let offset := offset + Z.of_nat (length (enc_salt result)) in
  packed ← setBytes packed (enc_iv result) offset;
  let offset := offset + Z.of_nat (length (enc_iv result)) in
  packed ← setBytes packed (enc_ciphertext result) offset;
  Returned packed.

(** [unpackEncryptedData(packed)]: the IV is always taken to be 12 bytes. *)
Definition unpackEncryptedData (packed : list Z) : outcome EncryptionResult :=
  let data := packed in
  let offset := 0 in
  saltLength ← getUint32 packed offset;
  let offset := offset + 4 in
  let salt := slice data offset (offset + saltLength) in
  let offset := offset + saltLength in
  let iv := slice data offset (offset + 12) in
  let offset := offset + 12 in
  let ciphertext := drop (Z.to_nat offset) data in
  Returned (mkEncryptionResult ciphertext iv salt).

(** An encryption result as [encrypt] of the library builds it: typed arrays
    of bytes. *)
Definition wf_encryption (result : EncryptionResult) : Prop :=
  Forall is_byte (enc_salt result) /\ Forall is_byte (enc_iv result) /\
  Forall is_byte (enc_ciphertext result).

(** ** The JavaScript stand-in for the WASM engine

    [stegFallback.embed] and [stegFallback.extract]: a third copy of the
    image engine, with a 4-byte length header and no magic.  The width, the
    height and the randomize flag are not used.  The numbers stay in the
    int32 range for the depths 1..8. *)
Module StegFallback.

(** [for (i = 0; i < pixels.length && bitIndex < bits.length; i++)], from
    index [i] on: every fourth byte is skipped, the others take
    [lsbDepth] bits each and are stored into the [Uint8Array]. *)
Fixpoint embedBytes (bits : list Z) (lsbDepth : Z) (pixels : list Z)
    (i bitIndex : nat) : list Z :=
  match pixels with
  | [] => []
  | value :: rest =>
      if (bitIndex <? length bits)%nat then
        if (S i mod 4 =? 0)%nat then
          value :: embedBytes bits lsbDepth rest (S i) bitIndex
        else
          let mask := Z.shiftl 255 lsbDepth in
          let '(newValue, bitIndex) :=
            setLsbBits (get bits) (length bits) (Z.to_nat lsbDepth)
              (Z.land value mask) bitIndex in
          toUint8 newValue :: embedBytes bits lsbDepth rest (S i) bitIndex
      else pixels
  end.

Definition embed (imageData payload : list Z) (lsbDepth : Z) : list Z :=
  let pixels := imageData in
  let header := setUint32LE (Z.of_nat (length payload)) in
  let fullPayload := header ++ payload in
  let bits := messageBits fullPayload in
  embedBytes bits lsbDepth pixels 0 0.

(** The bits of every byte but each fourth, from index [i] on. *)
Fixpoint colourBits (lsbDepth : nat) (pixels : list Z) (i : nat) : list Z :=
  match pixels with
  | [] => []
  | value :: rest =>
      if (S i mod 4 =? 0)%nat then colourBits lsbDepth rest (S i)
      else lsbBits lsbDepth value ++ colourBits lsbDepth rest (S i)
  end.

(** [for (i = 0; i < 32; i++) length |= bits[i] << (31 - i)] *)
Definition readLength32 (bits : list Z) : Z :=
  fold_left
    (fun length i =>
       toInt32 (Z.lor length (toInt32 (Z.shiftl (get bits i) (Z.of_nat (31 - i))))))
    (seq 0 32) 0.

Definition extract (imageData : list Z) (lsbDepth : Z) : option (list Z) :=
  let pixels := imageData in
  let bits := colourBits (Z.to_nat lsbDepth) pixels 0 in
  if (length bits <? 32)%nat then None else
  let payloadLength := readLength32 bits in
  let maxPossibleBytes := (Z.of_nat (length bits) - 32) / 8 in
  if (payloadLength <=? 0) || (maxPossibleBytes <? payloadLength) then None
  else
    Some (map (fun i => toUint8 (readByte bits (32 + i * 8)))
              (seq 0 (Z.to_nat payloadLength))).
End StegFallback.

(** The number of bytes the engine writes to, from index [i] on. *)
Fixpoint colourBytes (pixels : list Z) (i : nat) : nat :=
  match pixels with
  | [] => O
  | _ :: rest =>
      ((if (S i mod 4 =? 0)%nat then 0 else 1) + colourBytes rest (S i))%nat
  end.
(** ** Concrete carriers and inputs used by the examples *)

Definition tinyImage : ImageData := mkImageData 1 1 [10; 20; 30; 40].

Definition sixPixels : ImageData :=
  mkImageData 2 3
    [10; 20; 30; 40;  11; 21; 31; 41;  12; 22; 32; 42;
     13; 23; 33; 43;  14; 24; 34; 44;  15; 25; 35; 45].

Definition twentySamples : WavData :=
  mkWavData
    [-1; 5; -32768; 32767; 0; 7; 100; -100; 3; 3;
     3; 3; 3; 3; 3; 3; 3; 3; 9; 9]
    44100 1 16.


(** A 44-byte WAV file: the canonical header of a mono 16-bit 44.1 kHz
    file whose [data] chunk declares 4 bytes, none of which is there. *)
Definition truncatedWav : list Z :=
  tag "RIFF" ++ [36; 0; 0; 0] ++ tag "WAVE" ++
  tag "fmt " ++ [16; 0; 0; 0;  1; 0;  1; 0;  0x44; 0xAC; 0; 0;
                 0x88; 0x58; 1; 0;  2; 0;  16; 0] ++
  tag "data" ++ [4; 0; 0; 0].

(** The same file with its four data bytes and two stray bytes after them. *)
Definition trailingBytesWav : list Z :=
  truncatedWav ++ [1; 0; 255; 255] ++ [9; 9].

(** Metadata whose timestamp is the number [NaN]. *)
Definition nanMetadata : PayloadMetadata :=
  mkPayloadMetadata (JString (lit "file")) (JNumber NaN) JUndefined JUndefined.

(** The text [{"type":"file","timestamp":null}]. *)
Definition nanMetadataText : jsstring :=
  lit "{" ++ quoteJSONString (lit "type") ++ lit ":" ++
  quoteJSONString (lit "file") ++ lit "," ++
  quoteJSONString (lit "timestamp") ++ lit ":null}".

(** An inflated stream of two scanlines of one RGB pixel: the first with
    filter 0, the second with filter 2 (Up). *)
Definition twoScanlines : list Z := [0; 10; 20; 30;  2; 1; 2; 3].

(** A 2 x 3 image whose pixels are all different, some of them not opaque. *)
Definition sixPixelsBmp : list Z := bmpFile (data sixPixels) 2 3.

(** A 24-bit bottom-up BMP file of 2 x 1 pixels: blue-green-red triples
    (3, 2, 1) and (6, 5, 4), the row padded to 8 bytes. *)
Definition twoPixelsBmp24 : list Z :=
  [0x42; 0x4D] ++ [62; 0; 0; 0] ++ [0; 0; 0; 0] ++ [54; 0; 0; 0] ++
  [40; 0; 0; 0] ++ [2; 0; 0; 0] ++ [1; 0; 0; 0] ++ [1; 0] ++ [24; 0] ++
  [0; 0; 0; 0] ++ [8; 0; 0; 0] ++ [19; 11; 0; 0] ++ [19; 11; 0; 0] ++
  [0; 0; 0; 0] ++ [0; 0; 0; 0] ++
  [3; 2; 1;  6; 5; 4;  0; 0].

(** The 78-byte file [sixPixelsBmp] with the width and the height of its
    header set to 32768: it announces 2^32 bytes of pixels. *)
Definition hugeHeaderBmp : list Z :=
  <[25%nat := 0]> (<[24%nat := 0]> (<[23%nat := 128]> (<[22%nat := 0]>
    (<[19%nat := 128]> (<[18%nat := 0]> sixPixelsBmp))))).

(** A platform that grants arrays below 2^31 bytes. *)
Definition grantsBelow2G (n : Z) : bool := n <? 2 ^ 31.

(** An encryption result with the toy host's salt and nonce. *)
Definition toyEncryption : EncryptionResult :=
  mkEncryptionResult
    ([104; 101; 108; 108; 111] ++ replicate 16 142) ToyHost.iv ToyHost.salt.

(** A version-1 container whose metadata names the file [../a:b], followed
    by three payload bytes.  It is written by hand, not by [packPayload],
    which would have replaced the slash and the colon. *)
Definition unsafeNameMetadata : list Z :=
  TextEncoder_encode
    (default []
       (JSON_stringify
          (JObject [ (lit "type", JString (lit "file"));
                     (lit "timestamp", JNumber (Num 1 0));
                     (lit "name", JString (lit "../a:b")) ]))).

Definition unsafeNameContainer : list Z :=
  [METADATA_VERSION] ++ setUint32LE (Z.of_nat (length unsafeNameMetadata)) ++
  unsafeNameMetadata ++ [7; 8; 9].
(** * Theorems *)

(** ** Capacity analysis *)

(** C3, counterexample: a 1x1 image at depth 1 has floor(3/8) - 8 = -8, and
    the analysis answers 0. *)
Lemma capacity_of_tiny_image_is_zero :
  ca_maxCapacityBytes (analyzeImageCapacity tinyImage 1) = 0 /\
  ca_maxCapacityBytes (analyzeImageCapacity tinyImage 1) <>
    width tinyImage * height tinyImage * 3 * 1 / 8 - 8.
Proof. split; [reflexivity | discriminate]. Qed.

(** C3, as amended: capacity analysis answers the larger of 0 and
    floor(W*H*3*d/8) - 8 for an image, and the larger of 0 and
    floor(N*d/8) - 8 for audio. *)
Theorem capacity_is_formula_clamped_at_zero :
  (forall (img : ImageData) (d : Z),
      ca_maxCapacityBytes (analyzeImageCapacity img d) =
      Z.max 0 (width img * height img * 3 * d / 8 - 8)) /\
  (forall (wav : WavData) (d : Z),
      aa_maxCapacityBytes (analyzeWavCapacity wav d) =
      Z.max 0 (Z.of_nat (length (samples wav)) * d / 8 - 8)).
Proof.
  split; intros; cbn.
  - f_equal. f_equal. f_equal. ring.
  - reflexivity.
Qed.

(** ** LSB depth policy *)

(** C7, counterexample: depth 7 asked in expert mode on desktop is answered
    with depth 4 and a warning, depth 3 on mobile or in quick mode with a
    forced depth 1; no call fails. *)
Lemma depth_request_is_adjusted_not_refused :
  getLsbDepthForPlatform desktop 7 true (Some desktop) =
    mkLsbDepth 4 false (Some WARNING_MESSAGES.lsbDepthWarning) /\
  getLsbDepthForPlatform desktop 3 true (Some mobile) =
    mkLsbDepth 1 true (Some WARNING_MESSAGES.mobileLsbForced) /\
  getLsbDepthForPlatform desktop 3 false (Some desktop) =
    mkLsbDepth 1 true None.
Proof. repeat split. Qed.

(** C7, as amended: the policy never fails.  On mobile and in quick mode the
    effective depth is 1 and marked forced; in expert mode on desktop it is
    the requested depth clamped into 1..4 (so a request in 1..4 is honoured);
    a depth above 1 is only ever answered in expert mode on desktop; and the
    detectability warning is attached exactly when the effective depth
    exceeds 2. *)
Theorem depth_policy_clamps_and_forces :
  forall (host : Platform) (requested : Z) (expert : bool)
         (platform : option Platform),
    let r := getLsbDepthForPlatform host requested expert platform in
    let current := default host platform in
    1 <= depth r <= 4 /\
    (current = mobile ->
     r = mkLsbDepth 1 true (Some WARNING_MESSAGES.mobileLsbForced)) /\
    (current = desktop -> expert = false -> r = mkLsbDepth 1 true None) /\
    (current = desktop -> expert = true ->
     depth r = Z.max 1 (Z.min 4 requested) /\ forced r = false /\
     (1 <= requested <= 4 -> depth r = requested)) /\
    (1 < depth r -> current = desktop /\ expert = true) /\
    (message r = Some WARNING_MESSAGES.lsbDepthWarning <-> 2 < depth r).
Proof.
  intros host requested expert platform r current.
  subst r. unfold getLsbDepthForPlatform. fold current.
  destruct current eqn:Hc, expert; cbn;
    try destruct (Z.ltb_spec 2 (Z.max 1 (Z.min 4 requested))); cbn;
    repeat split; intros; try discriminate; try reflexivity; try lia;
    try congruence.
Qed.

(** ** Capacity boundary of the embedders *)

Lemma length_lsbBits (bits : nat) (value : Z) :
  length (lsbBits bits value) = bits.
Proof. induction bits; cbn; congruence. Qed.

Lemma length_messageBits (fullMessage : list Z) :
  length (messageBits fullMessage) = (8 * length fullMessage)%nat.
Proof.
  unfold messageBits. induction fullMessage as [|byte rest IH]; [reflexivity|].
  cbn [flat_map]. rewrite length_app, length_lsbBits, IH. cbn [length]. lia.
Qed.

Lemma length_buildFullMessage (payload : list Z) :
  length (buildFullMessage payload) = (8 + length payload)%nat.
Proof. reflexivity. Qed.

Lemma length_buildMessage (payload : list Z) :
  length (buildMessage payload) = (8 + length payload)%nat.
Proof. reflexivity. Qed.

(** C5: an envelope of exactly floor(bits/8) - 8 bytes is embedded, and one
    of a byte more is refused with the payload-too-large error, by the image
    embedder (bits = W*H*3*d) and by the audio embedder (bits = N*d). *)
Theorem embed_capacity_boundary :
  (forall (img : ImageData) (d : Z) (envelope : list Z),
      Z.of_nat (length envelope) = width img * height img * 3 * d / 8 - 8 ->
      exists r, embedData img envelope d = Returned r) /\
  (forall (img : ImageData) (d : Z) (envelope : list Z),
      Z.of_nat (length envelope) = width img * height img * 3 * d / 8 - 8 + 1 ->
      embedData img envelope d =
      Threw (PayloadTooLarge ((8 + Z.of_nat (length envelope)) * 8)
                             (width img * height img * 3 * d))) /\
  (forall (wav : WavData) (d : Z) (envelope : list Z),
      Z.of_nat (length envelope) = Z.of_nat (length (samples wav)) * d / 8 - 8 ->
      exists r, embedWavData wav envelope d = Returned r) /\
  (forall (wav : WavData) (d : Z) (envelope : list Z),
      Z.of_nat (length envelope) =
        Z.of_nat (length (samples wav)) * d / 8 - 8 + 1 ->
      embedWavData wav envelope d =
      Threw (PayloadTooLarge ((8 + Z.of_nat (length envelope)) * 8)
                             (Z.of_nat (length (samples wav)) * d))).
Proof.
  repeat split.
  - intros img d envelope Hlen. unfold embedData.
    destruct (Z.ltb_spec (width img * height img * 3 * d)
                ((8 + Z.of_nat (length envelope)) * 8)) as [Hlt|Hge].
    + exfalso.
      pose proof (Z.mul_div_le (width img * height img * 3 * d) 8). lia.
    + eexists. reflexivity.
  - intros img d envelope Hlen. unfold embedData.
    destruct (Z.ltb_spec (width img * height img * 3 * d)
                ((8 + Z.of_nat (length envelope)) * 8)) as [Hlt|Hge].
    + reflexivity.
    + exfalso.
      pose proof (Z.mul_succ_div_gt (width img * height img * 3 * d) 8). lia.
  - intros wav d envelope Hlen. unfold embedWavData.
    rewrite length_messageBits, length_buildFullMessage, length_map.
    destruct (Z.ltb_spec (Z.of_nat (length (samples wav)) * d)
                (Z.of_nat (8 * (8 + length envelope)))) as [Hlt|Hge].
    + exfalso.
      pose proof (Z.mul_div_le (Z.of_nat (length (samples wav)) * d) 8). lia.
    + eexists. reflexivity.
  - intros wav d envelope Hlen. unfold embedWavData.
    rewrite length_messageBits, length_buildFullMessage, length_map.
    destruct (Z.ltb_spec (Z.of_nat (length (samples wav)) * d)
                (Z.of_nat (8 * (8 + length envelope)))) as [Hlt|Hge].
    + f_equal. unfold PayloadTooLarge. f_equal. f_equal. lia.
    + exfalso.
      pose proof (Z.mul_succ_div_gt (Z.of_nat (length (samples wav)) * d) 8).
      lia.
Qed.

Lemma embed_capacity_boundary_witness :
  (exists r, embedData sixPixels [165] 4 = Returned r) /\
  embedData sixPixels [165; 1] 4 = Threw (PayloadTooLarge 80 72) /\
  (exists r, embedWavData twentySamples [165; 90] 4 = Returned r) /\
  embedWavData twentySamples [165; 90; 1] 4 = Threw (PayloadTooLarge 88 80).
Proof.
  destruct embed_capacity_boundary as (Himg & Himg' & Hwav & Hwav').
  split; [|split; [|split]].
  - apply (Himg sixPixels 4 [165]). reflexivity.
  - apply (Himg' sixPixels 4 [165; 1]). reflexivity.
  - apply (Hwav twentySamples 4 [165; 90]). reflexivity.
  - apply (Hwav' twentySamples 4 [165; 90; 1]). reflexivity.
Defined.

(** ** Crypto worker *)

Lemma quiet_post_progress p s m : quiet (post (PROGRESS p s m)).
Proof. repeat constructor. Qed.
Lemma quiet_post_complete r : quiet (post (COMPLETE r)).
Proof. repeat constructor. Qed.
Lemma quiet_throw {A} e : quiet (@throw A e).
Proof. constructor. Qed.
Lemma quiet_await {A} (c : outcome A) : quiet (await c).
Proof. destruct c; constructor. Qed.
Lemma quiet_checkActive b : quiet (checkActive b).
Proof. destruct b; constructor. Qed.
Lemma quiet_mret {A} (a : A) : quiet (mret a : job A).
Proof. constructor. Qed.
Lemma quiet_bind {A B} (c : job A) (k : A -> job B) :
  quiet c -> (forall a, quiet (k a)) -> quiet (c ≫= k).
Proof.
  intros Hc Hk. destruct c as [posted [a| |e]]; cbn in *; try assumption.
  specialize (Hk a). destruct (k a) as [more r]. cbn in *.
  unfold quiet. cbn. apply Forall_app. split; assumption.
Qed.

Lemma tryCatch_errors (body : job unit) handler m :
  quiet body -> m ∈ tryCatch body handler -> isError m = true ->
  exists e, m ∈ handler e.
Proof.
  intros Hq Hin Herr. unfold quiet in Hq. rewrite Forall_forall in Hq.
  destruct body as [posted [[]| |e]]; cbn in *.
  - apply Hq in Hin. congruence.
  - apply Hq in Hin. congruence.
  - apply elem_of_app in Hin as [Hin|Hin]; [|eauto].
    apply Hq in Hin. congruence.
Qed.

Ltac quiet_tac :=
  repeat first
    [ apply quiet_post_progress | apply quiet_post_complete | apply quiet_throw
    | apply quiet_await | apply quiet_checkActive | apply quiet_mret
    | apply quiet_bind; [|intros]
    | match goal with |- quiet (if ?b then _ else _) => destruct b end
    | match goal with |- quiet (let _ := _ in _) => cbv zeta end ].

Lemma get_slice (l : list Z) (a b : Z) (i : nat) :
  0 <= a -> (i < Z.to_nat (b - a))%nat ->
  get (slice l a b) i = get l (Z.to_nat a + i).
Proof.
  intros Ha Hi. unfold get, slice.
  rewrite lookup_take_lt by assumption. rewrite lookup_drop. reflexivity.
Qed.

Lemma length_slice (l : list Z) (a b : Z) :
  0 <= a -> b <= Z.of_nat (length l) -> a <= b ->
  Z.of_nat (length (slice l a b)) = b - a.
Proof.
  intros. unfold slice. rewrite length_take, length_drop. lia.
Qed.

Lemma read_salt_length (packed : list Z) :
  5 <= Z.of_nat (length packed) ->
  getUint32 (slice packed 1 5) 0 = Returned (saltLengthField packed).
Proof.
  intros Hlen. unfold getUint32, getUintLE.
  rewrite length_slice by lia.
  change (0 + Z.of_nat 4 <=? 5 - 1) with true.
  cbn [seq fold_right Z.leb Z.compare andb].
  rewrite !get_slice by (cbn; lia).
  unfold saltLengthField. f_equal. rewrite Z.mul_0_r, Z.add_0_r. reflexivity.
Qed.

Lemma slice_middle (a b c : list Z) :
  slice (a ++ b ++ c) (Z.of_nat (length a)) (Z.of_nat (length a + length b)) = b.
Proof.
  unfold slice. rewrite Nat2Z.id, drop_app_length.
  replace (Z.to_nat (Z.of_nat (length a + length b) - Z.of_nat (length a)))
    with (length b) by lia.
  apply take_app_length.
Qed.

Ltac step :=
  cbn [mbind job_bind post await throw checkActive tryCatch mret job_ret
       app fst snd negb].

Ltac no_complete H :=
  repeat (apply elem_of_cons in H as [H|H]; [discriminate|]); inversion H.

Section DecryptFacts.
Context {K : Type}.
Variables (derive : string -> list Z -> Z -> outcome K)
          (decrypt : K -> list Z -> list Z -> outcome (list Z))
          (decompress : list Z -> outcome (list Z)).
Variables (active : nat -> bool) (packed : list Z) (password : string).

Let run := handleDecrypt derive decrypt decompress active packed password.
Let highSecurity := negb (Z.land (get packed 0) FLAG_HIGH_SECURITY =? 0).
Let compressed := negb (Z.land (get packed 0) FLAG_COMPRESSED =? 0).

Lemma handleDecrypt_uniform msg code :
  ERROR msg code ∈ run ->
  msg = GENERIC_ERROR /\ code = "DECRYPT_ERROR"%string.
Proof.
  subst run. unfold handleDecrypt.
  destruct (negb (active 0%nat)); [intros H; inversion H|].
  intros H. apply tryCatch_errors in H as [e He]; [| |reflexivity].
  - apply list_elem_of_singleton in He. inversion He. auto.
  - quiet_tac.
Qed.

Lemma handleDecrypt_complete result :
  COMPLETE result ∈ run ->
  49 <= Z.of_nat (length packed) /\ saltLengthField packed = 16 /\
  exists key plaintext,
    derive password (slice packed 5 21)
           (if highSecurity then 310000 else 100000) = Returned key /\
    decrypt key (slice packed 21 33) (drop 33 packed) = Returned plaintext /\
    (if compressed then (decompress plaintext = Returned result)
     else (result = plaintext)).
Proof.
  subst run. unfold handleDecrypt.
  destruct (active 0%nat); cbn [negb]; [|intros Hin; inversion Hin].
  destruct (Z.ltb_spec (Z.of_nat (length packed)) 49) as [Hs|Hs].
  { step. intros Hin. no_complete Hin. }
  rewrite read_salt_length by lia. step.
  destruct (Z.eqb_spec (saltLengthField packed) 16) as [Hsalt|Hsalt].
  2:{ step. intros Hin. no_complete Hin. }
  rewrite Hsalt. cbn [negb].
  destruct (Z.ltb_spec (Z.of_nat (length packed)) (0 + 1 + 4 + 16)); [lia|].
  destruct (Z.ltb_spec (Z.of_nat (length packed)) (0 + 1 + 4 + 16 + 12)); [lia|].
  destruct (Z.ltb_spec (Z.of_nat (length packed)) (0 + 1 + 4 + 16 + 12 + 16));
    [lia|].
  change (0 + 1 + 4 + 16 + 12) with 33. change (0 + 1 + 4 + 16) with 21.
  change (0 + 1 + 4) with 5.
  change (Z.to_nat 33) with 33%nat. change (Z.to_nat 0) with 0%nat.
  fold highSecurity compressed.
  destruct (active 1%nat); step; [|intros Hin; no_complete Hin].
  destruct (derive password _ _) as [key|e] eqn:Hkey; step;
    [|intros Hin; no_complete Hin].
  destruct (active 2%nat); step; [|intros Hin; no_complete Hin].
  destruct (decrypt key _ _) as [plaintext|e] eqn:Hpt; step;
    [|intros Hin; no_complete Hin].
  destruct compressed eqn:Hc; step.
  - destruct (decompress plaintext) as [r|e] eqn:Hr; step;
      [|intros Hin; no_complete Hin].
    intros Hin.
    repeat (apply elem_of_cons in Hin as [Hin|Hin]; [try discriminate|]);
      [|inversion Hin].
    injection Hin as ->. repeat split; try assumption; try lia.
    exists key, plaintext. auto.
  - intros Hin.
    repeat (apply elem_of_cons in Hin as [Hin|Hin]; [try discriminate|]);
      [|inversion Hin].
    injection Hin as ->. repeat split; try assumption; try lia.
    exists key, plaintext. auto.
Qed.

(** A job that is not cancelled ends with its result or with the error. *)
Lemma handleDecrypt_ends :
  (forall n, active n = true) ->
  (exists result, last run = Some (COMPLETE result)) \/
  last run = Some (ERROR GENERIC_ERROR "DECRYPT_ERROR").
Proof.
  intros Hactive. subst run. unfold handleDecrypt.
  rewrite !Hactive. cbn [negb].
  destruct (Z.of_nat (length packed) <? 49); [right; reflexivity|].
  destruct (getUint32 _ _) as [saltLen|e]; step; [|right; reflexivity].
  destruct (negb (saltLen =? 16)); [right; reflexivity|].
  repeat match goal with
         | |- context [if ?c then throw _ else _] =>
             destruct c; [right; reflexivity|]
         end.
  step.
  destruct (derive password _ _) as [key|e]; step; [|right; reflexivity].
  destruct (decrypt key _ _) as [plaintext|e]; step; [|right; reflexivity].
  destruct (negb (Z.land _ FLAG_COMPRESSED =? 0)); step.
  - destruct (decompress plaintext) as [r|e]; step; [|right; reflexivity].
    left. eexists. reflexivity.
  - left. eexists. reflexivity.
Qed.

(** A wrong salt length stops the handler after its first progress
    message: nothing is posted about key derivation, whatever
    [deriveKeyPBKDF2] would do. *)
Lemma handleDecrypt_wrong_salt_length :
  active 0%nat = true ->
  49 <= Z.of_nat (length packed) ->
  saltLengthField packed <> 16 ->
  run = [ PROGRESS 10 "decrypt" "Unpacking data...";
          ERROR GENERIC_ERROR "DECRYPT_ERROR" ].
Proof.
  intros Hactive Hlen Hsalt. subst run. unfold handleDecrypt.
  rewrite Hactive. cbn [negb].
  destruct (Z.ltb_spec (Z.of_nat (length packed)) 49); [lia|].
  rewrite read_salt_length by lia. step.
  destruct (Z.eqb_spec (saltLengthField packed) 16); [contradiction|].
  reflexivity.
Qed.

Lemma handleDecrypt_short_envelope :
  active 0%nat = true ->
  Z.of_nat (length packed) < 49 ->
  run = [ PROGRESS 10 "decrypt" "Unpacking data...";
          ERROR GENERIC_ERROR "DECRYPT_ERROR" ].
Proof.
  intros Hactive Hlen. subst run. unfold handleDecrypt.
  rewrite Hactive. cbn [negb].
  destruct (Z.ltb_spec (Z.of_nat (length packed)) 49); [|lia].
  reflexivity.
Qed.
End DecryptFacts.

Lemma getUint32_in_bounds (buffer : list Z) (offset : Z) :
  0 <= offset -> offset + 4 <= Z.of_nat (length buffer) ->
  exists v, getUint32 buffer offset = Returned v.
Proof.
  intros H0 H4. unfold getUint32, getUintLE.
  destruct (Z.leb_spec 0 offset); [|lia].
  destruct (Z.leb_spec (offset + Z.of_nat 4) (Z.of_nat (length buffer)));
    [|lia].
  eexists. reflexivity.
Qed.

Lemma unpackPayload_uniform now buffer e :
  unpackPayload now buffer = Threw e -> e = Error "Invalid payload format".
Proof.
  unfold unpackPayload.
  destruct (Z.ltb_spec (Z.of_nat (length buffer)) 5) as [Hs|Hs];
    [intros [= <-]; reflexivity|].
  destruct (negb _); [discriminate|].
  destruct (getUint32_in_bounds buffer (0 + 1)) as [metaLen ->]; [lia|lia|].
  cbn [mbind outcome_bind].
  repeat match goal with
         | |- context [if ?c then Threw _ else _] =>
             destruct c; [intros [= <-]; reflexivity|]
         end.
  match goal with |- context [readMetadata ?x] => destruct (readMetadata x) end;
    [discriminate|].
  intros [= <-]; reflexivity.
Qed.

(** Membership of a [COMPLETE] message in an explicit list of posts. *)
Ltac find_complete H :=
  rewrite ?elem_of_app, ?elem_of_cons, ?elem_of_nil in H;
  repeat match type of H with
         | _ \/ _ => destruct H as [H|H]
         | False => destruct H
         | COMPLETE _ = COMPLETE _ => injection H as ->
         | _ = _ => discriminate H
         end.

Lemma length_getRandomValues (random : nat -> Z) (drawn n : nat) :
  length (getRandomValues random drawn (replicate n 0)) = n.
Proof.
  unfold getRandomValues. rewrite length_map, length_seq.
  apply length_replicate.
Qed.

Lemma getRandomValues_bytes (random : nat -> Z) (drawn : nat) (array : list Z) :
  Forall is_byte (getRandomValues random drawn array).
Proof.
  unfold getRandomValues. apply Forall_map, Forall_forall. intros i _.
  unfold is_byte, toUint8. apply Z.mod_pos_bound. lia.
Qed.

Section EncryptFacts.
Context {K : Type}.
Variables (derive : string -> list Z -> Z -> outcome K)
          (encrypt : K -> list Z -> list Z -> outcome (list Z))
          (compress : list Z -> outcome (list Z)).
Variables (active : nat -> bool) (random : nat -> Z) (payload : list Z)
          (password : string) (useHighSecurity compressed : bool).

Lemma handleEncrypt_complete packed :
  COMPLETE packed ∈
    handleEncrypt derive encrypt compress active random payload password
      useHighSecurity compressed ->
  let salt := getRandomValues random 0 (replicate 16 0) in
  let iv := getRandomValues random 16 (replicate 12 0) in
  exists key dataToEncrypt ciphertext,
    (if compressed then (compress payload = Returned dataToEncrypt)
     else (dataToEncrypt = payload)) /\
    derive password salt (if useHighSecurity then 310000 else 100000) =
      Returned key /\
    encrypt key iv dataToEncrypt = Returned ciphertext /\
    packed =
      [(if compressed then 1 else 0) + (if useHighSecurity then 2 else 0)] ++
      setUint32LE (Z.of_nat (length salt)) ++ salt ++ iv ++ ciphertext.
Proof.
  intros Hin salt iv. revert Hin. unfold handleEncrypt. fold salt iv.
  destruct (active 0%nat); cbn [negb]; [|intros Hin; inversion Hin].
  destruct compressed; step.
  - destruct (compress payload) as [dataToEncrypt|e] eqn:Hc; step;
      [|intros Hin; find_complete Hin].
    destruct (active 1%nat); step; [|intros Hin; find_complete Hin].
    destruct (derive password salt _) as [key|e] eqn:Hkey; step;
      [|intros Hin; find_complete Hin].
    destruct (active 2%nat); step; [|intros Hin; find_complete Hin].
    destruct (encrypt key iv dataToEncrypt) as [ciphertext|e] eqn:Hct; step;
      [|intros Hin; find_complete Hin].
    intros Hin. find_complete Hin.
    exists key, dataToEncrypt, ciphertext.
    repeat split; try assumption. destruct useHighSecurity; reflexivity.
  - destruct (active 1%nat); step; [|intros Hin; find_complete Hin].
    destruct (derive password salt _) as [key|e] eqn:Hkey; step;
      [|intros Hin; find_complete Hin].
    destruct (active 2%nat); step; [|intros Hin; find_complete Hin].
    destruct (encrypt key iv payload) as [ciphertext|e] eqn:Hct; step;
      [|intros Hin; find_complete Hin].
    intros Hin. find_complete Hin.
    exists key, payload, ciphertext.
    repeat split; assumption.
Qed.
End EncryptFacts.

(** C2, counterexample: a container whose metadata length is 0, and one whose
    metadata is not JSON, are refused by [unpackPayload] with its own
    message, which is not the decryption message. *)
Lemma unpack_failure_has_its_own_message :
  unpackPayload 0 [1; 0; 0; 0; 0] = Threw (Error "Invalid payload format") /\
  unpackPayload 0 [1; 2; 0; 0; 0; 123; 33] =
    Threw (Error "Invalid payload format") /\
  "Invalid payload format"%string <> GENERIC_ERROR.
Proof. repeat split. discriminate. Qed.

(** C2, as amended: every error the decrypt handler posts carries the one
    message "Decryption failed - wrong password or corrupted data" (code
    DECRYPT_ERROR); a job that is not cancelled ends with its result or with
    that error; and it ends with its result only if the envelope has at least
    49 bytes, its salt-length field is 16, key derivation and AES-GCM
    decryption succeed, and, when the compressed flag is set, decompression
    succeeds.  Every failure of the payload unpacking (bounds, metadata JSON,
    metadata schema) carries the one message "Invalid payload format". *)
Theorem decode_failures_uniform_by_stage :
  (forall (K : Type) (derive : string -> list Z -> Z -> outcome K)
          (decrypt : K -> list Z -> list Z -> outcome (list Z))
          (decompress : list Z -> outcome (list Z))
          (active : nat -> bool) (packed : list Z) (password : string),
      let run := handleDecrypt derive decrypt decompress active packed password in
      (forall msg code,
          ERROR msg code ∈ run ->
          msg = GENERIC_ERROR /\ code = "DECRYPT_ERROR"%string) /\
      ((forall n, active n = true) ->
       (exists result, last run = Some (COMPLETE result)) \/
       last run = Some (ERROR GENERIC_ERROR "DECRYPT_ERROR")) /\
      (forall result,
          COMPLETE result ∈ run ->
          49 <= Z.of_nat (length packed) /\ saltLengthField packed = 16 /\
          exists key plaintext,
            derive password (slice packed 5 21)
              (if negb (Z.land (get packed 0) FLAG_HIGH_SECURITY =? 0)
               then 310000 else 100000) = Returned key /\
            decrypt key (slice packed 21 33) (drop 33 packed) =
              Returned plaintext /\
            (if negb (Z.land (get packed 0) FLAG_COMPRESSED =? 0)
             then (decompress plaintext = Returned result)
             else (result = plaintext)))) /\
  (forall (now : Z) (buffer : list Z) (e : exn),
      unpackPayload now buffer = Threw e ->
      e = Error "Invalid payload format").
Proof.
  split.
  - intros K derive decrypt decompress active packed password run.
    split; [|split].
    + apply handleDecrypt_uniform.
    + apply handleDecrypt_ends.
    + apply handleDecrypt_complete.
  - apply unpackPayload_uniform.
Qed.

Lemma decode_failures_uniform_by_stage_witness :
  (GENERIC_ERROR = GENERIC_ERROR /\ "DECRYPT_ERROR"%string = "DECRYPT_ERROR"%string) /\
  ((exists result,
       last (ToyHost.handleDecrypt (fun _ => true) ToyHost.envelope
               ToyHost.wrongPassword) = Some (COMPLETE result)) \/
   last (ToyHost.handleDecrypt (fun _ => true) ToyHost.envelope
           ToyHost.wrongPassword) =
     Some (ERROR GENERIC_ERROR "DECRYPT_ERROR")) /\
  49 <= Z.of_nat (length ToyHost.envelope) /\
  Error "Invalid payload format" = Error "Invalid payload format".
Proof.
  destruct decode_failures_uniform_by_stage as [Hdecrypt Hunpack].
  destruct (Hdecrypt Z ToyHost.deriveKeyPBKDF2 ToyHost.decryptAesGcm
              ToyHost.decompressData (fun _ => true) ToyHost.envelope
              ToyHost.wrongPassword) as (Huniform & Hends & _).
  destruct (Hdecrypt Z ToyHost.deriveKeyPBKDF2 ToyHost.decryptAesGcm
              ToyHost.decompressData (fun _ => true) ToyHost.envelope
              ToyHost.password) as (_ & _ & Hcomplete).
  split; [|split; [|split]].
  - apply Huniform. vm_compute. repeat constructor.
  - apply Hends. reflexivity.
  - apply (Hcomplete ToyHost.payload). vm_compute. repeat constructor.
  - apply (Hunpack 0 [1; 0; 0; 0; 0]). reflexivity.
Defined.

(** C4: an envelope the encrypt handler completes with is the flag byte
    (bit 0 = compressed, bit 1 = high security, nothing else), the bytes
    16 0 0 0, the 16 salt bytes and the 12 nonce bytes the handler has drawn
    from the platform's generator, and the AES-GCM output, which is 16 bytes
    longer than what was encrypted; and the decrypt handler of a running job
    answers an envelope whose salt-length field is not 16 with the
    decryption error right after its first progress message, before any key
    derivation and whatever the key derivation would do. *)
Theorem envelope_layout_and_salt_check :
  (forall (K : Type) (derive : string -> list Z -> Z -> outcome K)
          (encrypt : K -> list Z -> list Z -> outcome (list Z))
          (compress : list Z -> outcome (list Z))
          (active : nat -> bool) (random : nat -> Z) (payload : list Z)
          (password : string) (useHighSecurity compressed : bool)
          (packed : list Z),
      (forall key nonce plaintext ciphertext,
          encrypt key nonce plaintext = Returned ciphertext ->
          length ciphertext = (length plaintext + 16)%nat) ->
      COMPLETE packed ∈
        handleEncrypt derive encrypt compress active random payload password
          useHighSecurity compressed ->
      exists flags salt iv key dataToEncrypt ciphertext,
        packed = [flags] ++ [16; 0; 0; 0] ++ salt ++ iv ++ ciphertext /\
        salt = getRandomValues random 0 (replicate 16 0) /\
        iv = getRandomValues random 16 (replicate 12 0) /\
        length salt = 16%nat /\
        length iv = 12%nat /\
        Forall is_byte salt /\
        Forall is_byte iv /\
        Z.testbit flags 0 = compressed /\
        Z.testbit flags 1 = useHighSecurity /\
        0 <= flags < 4 /\
        encrypt key iv dataToEncrypt = Returned ciphertext /\
        length ciphertext = (length dataToEncrypt + 16)%nat /\
        slice packed 5 21 = salt /\
        slice packed 21 33 = iv /\
        drop 33 packed = ciphertext) /\
  (forall (K : Type) (derive : string -> list Z -> Z -> outcome K)
          (decrypt : K -> list Z -> list Z -> outcome (list Z))
          (decompress : list Z -> outcome (list Z))
          (active : nat -> bool) (packed : list Z) (password : string),
      active 0%nat = true ->
      saltLengthField packed <> 16 ->
      handleDecrypt derive decrypt decompress active packed password =
      [ PROGRESS 10 "decrypt" "Unpacking data...";
        ERROR GENERIC_ERROR "DECRYPT_ERROR" ]).
Proof.
  split.
  - intros K derive encrypt compress active random payload password
      useHighSecurity compressed packed Htag Hin.
    apply handleEncrypt_complete in Hin. cbv zeta in Hin.
    destruct Hin as (key & dataToEncrypt & ciphertext & _ & _ & Hct & ->).
    set (salt := getRandomValues random 0 (replicate 16 0)) in *.
    set (iv := getRandomValues random 16 (replicate 12 0)) in *.
    assert (Hsalt : length salt = 16%nat) by apply length_getRandomValues.
    assert (Hiv : length iv = 12%nat) by apply length_getRandomValues.
    exists ((if compressed then 1 else 0) + (if useHighSecurity then 2 else 0)),
      salt, iv, key, dataToEncrypt, ciphertext.
    split; [rewrite Hsalt; reflexivity|].
    split; [reflexivity|]. split; [reflexivity|].
    split; [exact Hsalt|]. split; [exact Hiv|].
    split; [apply getRandomValues_bytes|].
    split; [apply getRandomValues_bytes|].
    split; [destruct compressed, useHighSecurity; reflexivity|].
    split; [destruct compressed, useHighSecurity; reflexivity|].
    split; [destruct compressed, useHighSecurity; lia|].
    split; [exact Hct|].
    split; [exact (Htag _ _ _ _ Hct)|].
    rewrite Hsalt. change (setUint32LE (Z.of_nat 16)) with [16; 0; 0; 0].
    split; [|split].
    + pose proof (slice_middle
                    [(if compressed then 1 else 0) +
                     (if useHighSecurity then 2 else 0); 16; 0; 0; 0]
                    salt (iv ++ ciphertext)) as H.
      rewrite Hsalt in H. exact H.
    + pose proof (slice_middle
                    ([(if compressed then 1 else 0) +
                      (if useHighSecurity then 2 else 0); 16; 0; 0; 0] ++ salt)
                    iv ciphertext) as H.
      rewrite <- app_assoc, length_app, Hsalt, Hiv in H. exact H.
    + pose proof (drop_app_length
                    ([(if compressed then 1 else 0) +
                      (if useHighSecurity then 2 else 0); 16; 0; 0; 0] ++
                     salt ++ iv) ciphertext) as H.
      rewrite <- !app_assoc, !length_app, Hsalt, Hiv in H. exact H.
  - intros K derive decrypt decompress active packed password Hactive Hsalt.
    destruct (Z.lt_ge_cases (Z.of_nat (length packed)) 49).
    + apply handleDecrypt_short_envelope; assumption.
    + apply handleDecrypt_wrong_salt_length; assumption.
Qed.

Lemma envelope_layout_and_salt_check_witness :
  (exists flags salt iv key dataToEncrypt ciphertext,
      ToyHost.envelope = [flags] ++ [16; 0; 0; 0] ++ salt ++ iv ++ ciphertext /\
      salt = getRandomValues ToyHost.random 0 (replicate 16 0) /\
      iv = getRandomValues ToyHost.random 16 (replicate 12 0) /\
      length salt = 16%nat /\
      length iv = 12%nat /\
      Forall is_byte salt /\
      Forall is_byte iv /\
      Z.testbit flags 0 = true /\
      Z.testbit flags 1 = true /\
      0 <= flags < 4 /\
      ToyHost.encryptAesGcm key iv dataToEncrypt = Returned ciphertext /\
      length ciphertext = (length dataToEncrypt + 16)%nat /\
      slice ToyHost.envelope 5 21 = salt /\
      slice ToyHost.envelope 21 33 = iv /\
      drop 33 ToyHost.envelope = ciphertext) /\
  ToyHost.handleDecrypt (fun _ => true) ToyHost.badSaltEnvelope ToyHost.password =
    [ PROGRESS 10 "decrypt" "Unpacking data...";
      ERROR GENERIC_ERROR "DECRYPT_ERROR" ].
Proof.
  destruct envelope_layout_and_salt_check as [Hencode Hdecode].
  split.
  - apply (Hencode Z ToyHost.deriveKeyPBKDF2 ToyHost.encryptAesGcm
             ToyHost.compressData (fun _ => true) ToyHost.random
             ToyHost.payload ToyHost.password true true ToyHost.envelope).
    + intros key nonce plaintext ciphertext [= <-].
      rewrite length_app. reflexivity.
    + vm_compute. repeat constructor.
  - apply (Hdecode Z ToyHost.deriveKeyPBKDF2 ToyHost.decryptAesGcm
             ToyHost.decompressData (fun _ => true) ToyHost.badSaltEnvelope
             ToyHost.password).
    + reflexivity.
    + vm_compute. discriminate.
Defined.

(** ** WAV decoder *)

Lemma getUintLE_nonneg (size : nat) (buffer : list Z) (byteOffset v : Z) :
  Forall is_byte buffer ->
  getUintLE size buffer byteOffset = Returned v -> 0 <= v.
Proof.
  intros Hbytes. unfold getUintLE.
  destruct (_ && _); [|discriminate]. intros [= <-].
  generalize (seq 0 size) as l. intros l.
  induction l as [|i l IH]; cbn [fold_right]; [lia|].
  assert (0 <= get buffer (Z.to_nat byteOffset + i)).
  { unfold get. destruct (buffer !! _) as [x|] eqn:Hx; cbn; [|lia].
    rewrite Forall_forall in Hbytes.
    apply (Hbytes x). apply list_elem_of_lookup. eauto. }
  lia.
Qed.

(** The chunk walker never runs out of the fuel [decodeWav] gives it: every
    turn moves the offset forward by at least 8, so more fuel changes
    nothing. *)
Lemma walkChunks_fuel (data : list Z) :
  Forall is_byte data ->
  forall (fuel extra : nat) (st : ChunkWalk),
    Z.of_nat (length data) - cw_offset st <= 8 * Z.of_nat fuel ->
    walkChunks (fuel + extra) data st = walkChunks fuel data st.
Proof.
  intros Hbytes fuel. induction fuel as [|fuel IH]; intros extra st Hfuel.
  - destruct extra as [|extra]; [reflexivity|].
    cbn [Nat.add walkChunks].
    destruct (Z.ltb_spec (cw_offset st) (Z.of_nat (length data))); [lia|].
    reflexivity.
  - cbn [Nat.add walkChunks].
    destruct (Z.ltb_spec (cw_offset st) (Z.of_nat (length data)));
      [|reflexivity].
    destruct (getUint32 data (cw_offset st + 4)) as [chunkSize|e] eqn:Hsize;
      [|reflexivity].
    apply (getUintLE_nonneg 4 data _ _ Hbytes) in Hsize.
    cbn [mbind outcome_bind].
    match goal with
    | |- ?branch ≫= _ = _ => destruct branch as [st'|]; [|reflexivity]
    end.
    cbn [mbind outcome_bind]. apply IH. cbn [cw_offset].
    destruct (negb (chunkSize mod 2 =? 0)); lia.
Qed.

(** C10, failing input: a 44-byte file that passes the RIFF and WAVE checks
    and whose data chunk declares 4 bytes beyond the end of the file.  The
    sample loop asks the [DataView] for the 16-bit value at offset 44 of a
    44-byte buffer, and the decoder ends with the platform's [RangeError];
    two stray bytes after a complete data chunk make the chunk walker do the
    same at offset 52 of a 50-byte buffer. *)
Theorem decodeWav_reads_past_end_of_buffer :
  length truncatedWav = 44%nat /\
  fourCC truncatedWav 0 = tag "RIFF" /\
  fourCC truncatedWav 8 = tag "WAVE" /\
  getInt16 truncatedWav 44 = Threw OUT_OF_BOUNDS /\
  decodeWav truncatedWav = Threw OUT_OF_BOUNDS /\
  length trailingBytesWav = 50%nat /\
  getUint32 trailingBytesWav 52 = Threw OUT_OF_BOUNDS /\
  decodeWav trailingBytesWav = Threw OUT_OF_BOUNDS.
Proof. repeat split. Qed.

(** ** Payload container *)

(** C9, failing input: metadata whose timestamp is NaN.  [packPayload]
    keeps it (its type is number), [JSON.stringify] writes it as [null], so
    the container holds the text [{"type":"file","timestamp":null}], and
    [unpackPayload] refuses that container: the schema check wants a number. *)
Theorem unpack_refuses_packed_nan_timestamp :
  packPayload 0 [1; 2; 3] nanMetadata =
    Returned ([1; 32; 0; 0; 0] ++ nanMetadataText ++ [1; 2; 3]) /\
  JSON_parse nanMetadataText =
    Returned (JObject [ (lit "type", JString (lit "file"));
                        (lit "timestamp", JNull) ]) /\
  unpackPayload 0 ([1; 32; 0; 0; 0] ++ nanMetadataText ++ [1; 2; 3]) =
    Threw (Error "Invalid payload format").
Proof. repeat split. Qed.

Lemma uint32LE_roundtrip (len : Z) (rest : list Z) :
  0 <= len < 2 ^ 32 ->
  getUint32 (1 :: setUint32LE len ++ rest) 1 = Returned len.
Proof.
  intros Hlen. unfold getUint32, getUintLE, setUint32LE.
  rewrite (Z.mod_small len) by lia.
  cbn [app length]. 
  destruct (Z.leb_spec (1 + Z.of_nat 4)
              (Z.of_nat (S (S (S (S (S (length rest)))))))); [|lia].
  cbn [Z.leb Z.compare andb seq fold_right]. f_equal.
  change (Z.to_nat 1) with 1%nat. unfold get.
  cbn [Nat.add lookup list_lookup default from_option id].
  assert (Hq : 0 <= len / 2 ^ 24 < 256).
  { split; [apply Z.div_pos; lia|apply Z.div_lt_upper_bound; lia]. }
  assert (E5 : len / 2 ^ 16 = len / 2 ^ 24 * 256 + (len / 2 ^ 16) mod 256).
  { replace (len / 2 ^ 24) with (len / 2 ^ 16 / 256)
      by (rewrite Z.div_div by lia; reflexivity).
    pose proof (Z.div_mod (len / 2 ^ 16) 256 ltac:(lia)). lia. }
  assert (E6 : len / 2 ^ 8 = len / 2 ^ 16 * 256 + (len / 2 ^ 8) mod 256).
  { replace (len / 2 ^ 16) with (len / 2 ^ 8 / 256)
      by (rewrite Z.div_div by lia; reflexivity).
    pose proof (Z.div_mod (len / 2 ^ 8) 256 ltac:(lia)). lia. }
  assert (E7 : len = len / 2 ^ 8 * 256 + len mod 256).
  { pose proof (Z.div_mod len 256 ltac:(lia)). change (2 ^ 8) with 256. lia. }
  set (q24 := len / 2 ^ 24) in *. set (q16 := len / 2 ^ 16) in *.
  set (q8 := len / 2 ^ 8) in *. clearbody q24 q16 q8. lia.
Qed.

(** The container framing is read back as it was written: a buffer made
    of the version byte, the little-endian length of the metadata bytes,
    the metadata bytes and the data is split by [unpackPayload] at the
    same places, whatever the metadata bytes are, as long as they are read
    back as metadata. *)
Lemma unpack_frame (now' : Z) (metaBytes D : list Z) (readBack : JsValue) :
  0 < Z.of_nat (length metaBytes) <= MAX_METADATA_LENGTH ->
  readMetadata metaBytes = Returned readBack ->
  unpackPayload now'
    ([METADATA_VERSION] ++ setUint32LE (Z.of_nat (length metaBytes)) ++
     metaBytes ++ D) =
  Returned {| up_data := D; up_metadata := readBack |}.
Proof.
  unfold MAX_METADATA_LENGTH. intros Hmax Hread.
  unfold unpackPayload, METADATA_VERSION, MAX_METADATA_LENGTH.
  change ([1] ++ setUint32LE (Z.of_nat (length metaBytes)) ++ metaBytes ++ D)
    with (1 :: setUint32LE (Z.of_nat (length metaBytes)) ++ metaBytes ++ D).
  set (lenBytes := setUint32LE (Z.of_nat (length metaBytes))).
  assert (Hlen4 : length lenBytes = 4%nat) by reflexivity.
  assert (Htotal : length (1 :: lenBytes ++ metaBytes ++ D) =
                   (5 + length metaBytes + length D)%nat).
  { cbn [length]. rewrite !length_app, Hlen4. lia. }
  cbv zeta. rewrite Htotal.
  destruct (Z.ltb_spec (Z.of_nat (5 + length metaBytes + length D)) 5);
    [lia|].
  change (get (1 :: lenBytes ++ metaBytes ++ D) (Z.to_nat 0)) with 1.
  change (negb (1 =? 1)) with false. cbv iota. change (0 + 1) with 1.
  subst lenBytes. rewrite uint32LE_roundtrip by lia.
  cbn [mbind outcome_bind].
  destruct (Z.leb_spec (Z.of_nat (length metaBytes)) 0); [lia|].
  destruct (Z.ltb_spec (10 * 1024) (Z.of_nat (length metaBytes))); [lia|].
  cbn [orb].
  destruct (Z.ltb_spec (Z.of_nat (5 + length metaBytes + length D))
              (1 + 4 + Z.of_nat (length metaBytes))); [lia|].
  set (lenBytes := setUint32LE (Z.of_nat (length metaBytes))) in *.
  assert (Hslice :
    slice (1 :: lenBytes ++ metaBytes ++ D)
          (1 + 4) (1 + 4 + Z.of_nat (length metaBytes)) = metaBytes).
  { pose proof (slice_middle (1 :: lenBytes) metaBytes D) as Hmid.
    cbn [length] in Hmid. rewrite Hlen4 in Hmid.
    replace (1 + 4 + Z.of_nat (length metaBytes))
      with (Z.of_nat (5 + length metaBytes)) by lia.
    exact Hmid. }
  rewrite Hslice, Hread. f_equal. f_equal.
  replace (Z.to_nat (1 + 4 + Z.of_nat (length metaBytes)))
    with (length ((1 :: lenBytes) ++ metaBytes))
    by (rewrite length_app; cbn [length]; rewrite Hlen4; lia).
  change (1 :: lenBytes ++ metaBytes ++ D)
    with ((1 :: lenBytes) ++ metaBytes ++ D).
  rewrite app_assoc. apply drop_app_length.
Qed.

(** ** PNG scanline reconstruction *)

Lemma land_255 (v : Z) : Z.land v 255 = v mod 256.
Proof. change 255 with (Z.ones 8). rewrite Z.land_ones by lia. reflexivity. Qed.

Lemma get_insert_eq (l : list Z) (i : nat) (v : Z) :
  (i < length l)%nat -> get (<[i := v]> l) i = v.
Proof. intros H. unfold get. rewrite list_lookup_insert_eq by assumption. reflexivity. Qed.

Lemma get_insert_ne (l : list Z) (i j : nat) (v : Z) :
  i <> j -> get (<[i := v]> l) j = get l j.
Proof. intros H. unfold get. rewrite list_lookup_insert_ne by assumption. reflexivity. Qed.

Lemma paethPredictor_spec (a b c : Z) :
  let p := a + b - c in
  let pa := Z.abs (p - a) in
  let pb := Z.abs (p - b) in
  let pc := Z.abs (p - c) in
  let r := paethPredictor a b c in
  (r = a \/ r = b \/ r = c) /\
  Z.abs (p - r) <= pa /\ Z.abs (p - r) <= pb /\ Z.abs (p - r) <= pc /\
  (pa <= pb -> pa <= pc -> r = a) /\
  (~ (pa <= pb /\ pa <= pc) -> pb <= pc -> r = b) /\
  (~ (pa <= pb /\ pa <= pc) -> pc < pb -> r = c).
Proof.
  cbv zeta. unfold paethPredictor.
  destruct (Z.leb_spec (Z.abs (a + b - c - a)) (Z.abs (a + b - c - b)));
    destruct (Z.leb_spec (Z.abs (a + b - c - a)) (Z.abs (a + b - c - c)));
    destruct (Z.leb_spec (Z.abs (a + b - c - b)) (Z.abs (a + b - c - c)));
    cbn [andb]; repeat split; intros; auto; try lia.
Qed.

(** What one turn of the loop stores. *)
Lemma unfilterAt_spec filterType channels prevRow currentRow x :
  (x < length currentRow)%nat ->
  let left := if (channels <=? x)%nat
              then get currentRow (x - channels) else 0 in
  let up := get prevRow x in
  let upLeft := if (channels <=? x)%nat then get prevRow (x - channels) else 0 in
  unfilterAt filterType channels prevRow currentRow x =
  <[x := reconstructedByte filterType (get currentRow x) left up upLeft]>
    currentRow.
Proof.
  intros Hx left up upLeft.
  assert (Hsame : currentRow = <[x := get currentRow x]> currentRow).
  { symmetry. apply list_insert_id. unfold get.
    destruct (lookup_lt_is_Some_2 currentRow x Hx) as [v ->]. reflexivity. }
  unfold unfilterAt, reconstructedByte. fold left up upLeft.
  destruct filterType as [|p|p]; try exact Hsame;
    do 3 (try destruct p as [p|p|]);
    rewrite ?land_255; try reflexivity; exact Hsame.
Qed.

Section UnfilterRow.
Variables (filterType : Z) (channels : nat) (prevRow raw : list Z).
Hypothesis channels_pos : (0 < channels)%nat.

Let rowAfter (k : nat) : list Z :=
  fold_left (unfilterAt filterType channels prevRow) (seq 0 k) raw.

Let expected (row : list Z) (x : nat) : Z :=
  reconstructedByte filterType (get raw x)
    (if (channels <=? x)%nat then get row (x - channels) else 0)
    (get prevRow x)
    (if (channels <=? x)%nat then get prevRow (x - channels) else 0).

Lemma unfilterRow_invariant (k : nat) :
  (k <= length raw)%nat ->
  length (rowAfter k) = length raw /\
  (forall x, (x < k)%nat -> get (rowAfter k) x = expected (rowAfter k) x) /\
  (forall x, (k <= x)%nat -> get (rowAfter k) x = get raw x).
Proof.
  induction k as [|k IH]; intros Hk.
  - repeat split; intros; try lia; reflexivity.
  - destruct IH as (Hlen & Hdone & Htodo); [lia|].
    assert (Hstep : rowAfter (S k) =
                    <[k := expected (rowAfter k) k]> (rowAfter k)).
    { subst rowAfter. cbv beta. rewrite seq_S, fold_left_app. cbn [fold_left Nat.add].
      rewrite unfilterAt_spec by lia.
      unfold expected. rewrite (Htodo k) by lia. reflexivity. }
    rewrite Hstep. clear Hstep.
    assert (Hv : expected (rowAfter k) k = expected (rowAfter k) k)
      by reflexivity.
    revert Hv. generalize (expected (rowAfter k) k) at 1 3 4 5 as v.
    intros v Hv. split; [|split].
    + rewrite length_insert. exact Hlen.
    + intros x Hx.
      assert (Hleft : forall y, (y < k)%nat ->
                 get (<[k := v]> (rowAfter k)) y = get (rowAfter k) y).
      { intros y Hy. apply get_insert_ne. lia. }
      destruct (decide (x = k)) as [->|Hne].
      * rewrite get_insert_eq by lia. etransitivity; [exact Hv|].
        unfold expected.
        destruct (Nat.leb_spec channels k); [|reflexivity].
        rewrite Hleft by lia. reflexivity.
      * rewrite Hleft by lia. rewrite Hdone by lia. unfold expected.
        destruct (Nat.leb_spec channels x); [|reflexivity].
        rewrite Hleft by lia. reflexivity.
    + intros x Hx. rewrite get_insert_ne by lia. apply Htodo. lia.
Qed.

Lemma unfilterRow_byte (x : nat) :
  (x < length raw)%nat ->
  get (unfilterRow filterType channels prevRow raw (length raw)) x =
  expected (unfilterRow filterType channels prevRow raw (length raw)) x.
Proof.
  intros Hx. destruct (unfilterRow_invariant (length raw)) as (_ & Hdone & _);
    [lia|].
  apply Hdone. exact Hx.
Qed.

Lemma length_unfilterRow :
  length (unfilterRow filterType channels prevRow raw (length raw)) = length raw.
Proof. apply (unfilterRow_invariant (length raw)). lia. Qed.
End UnfilterRow.

Lemma get_ext (l1 l2 : list Z) :
  length l1 = length l2 ->
  (forall x, (x < length l1)%nat -> get l1 x = get l2 x) ->
  l1 = l2.
Proof.
  intros Hlen Hget.
  apply list_eq_same_length with (length l1); [symmetry; exact Hlen|reflexivity|].
  intros i x y Hi Hx Hy. specialize (Hget i Hi). unfold get in Hget.
  rewrite Hx, Hy in Hget. exact Hget.
Qed.

Lemma length_pngFilterRow filterType channels prevRow original :
  length (pngFilterRow filterType channels prevRow original) = length original.
Proof. unfold pngFilterRow. rewrite length_map, length_seq. reflexivity. Qed.

Lemma get_pngFilterRow filterType channels prevRow original x :
  (x < length original)%nat ->
  get (pngFilterRow filterType channels prevRow original) x =
  (get original x -
   pngPrediction filterType
     (if (channels <=? x)%nat then get original (x - channels) else 0)
     (get prevRow x)
     (if (channels <=? x)%nat then get prevRow (x - channels) else 0)) mod 256.
Proof.
  intros Hx. unfold get at 1. unfold pngFilterRow.
  rewrite list_lookup_fmap, lookup_seq_lt by assumption. reflexivity.
Qed.

Lemma reconstructedByte_inverts filterType original left up upLeft :
  is_byte original ->
  reconstructedByte filterType
    ((original - pngPrediction filterType left up upLeft) mod 256)
    left up upLeft = original.
Proof.
  intros Hbyte. unfold is_byte in Hbyte.
  assert (Hback : forall p, ((original - p) mod 256 + p) mod 256 = original).
  { intros p. rewrite Zplus_mod_idemp_l.
    replace (original - p + p) with original by ring.
    apply Z.mod_small. exact Hbyte. }
  unfold reconstructedByte, pngPrediction.
  destruct filterType as [|p|p];
    try (rewrite Z.sub_0_r; apply Z.mod_small; exact Hbyte);
    do 3 (try destruct p as [p|p|]);
    try apply Hback;
    rewrite Z.sub_0_r; apply Z.mod_small; exact Hbyte.
Qed.

Lemma unfilterRow_inverts_pngFilterRow filterType channels prevRow original :
  (0 < channels)%nat ->
  Forall is_byte original ->
  unfilterRow filterType channels prevRow
    (pngFilterRow filterType channels prevRow original) (length original) =
  original.
Proof.
  intros Hch Hbytes.
  pose proof (length_pngFilterRow filterType channels prevRow original) as Hlen.
  rewrite <- Hlen at 1.
  apply get_ext.
  - rewrite length_unfilterRow by assumption. exact Hlen.
  - rewrite length_unfilterRow by assumption.
    intros x. induction x as [x IH] using lt_wf_ind. intros Hx'.
    assert (Hx : (x < length original)%nat) by (rewrite <- Hlen; exact Hx').
    rewrite unfilterRow_byte by assumption.
    rewrite get_pngFilterRow by assumption.
    assert (Hleft :
      (if (channels <=? x)%nat
       then get (unfilterRow filterType channels prevRow
                   (pngFilterRow filterType channels prevRow original)
                   (length (pngFilterRow filterType channels prevRow original)))
                (x - channels)
       else 0) =
      (if (channels <=? x)%nat then get original (x - channels) else 0)).
    { destruct (Nat.leb_spec channels x); [|reflexivity]. apply IH; lia. }
    rewrite Hleft. apply reconstructedByte_inverts.
    rewrite Forall_forall in Hbytes.
    destruct (lookup_lt_is_Some_2 original x Hx) as [v Hv].
    unfold get. rewrite Hv. apply Hbytes.
    apply list_elem_of_lookup. eauto.
Qed.

Lemma reconstructedRow_unfold (decompressed : list Z) (channels rowSize y : nat) :
  reconstructedRow decompressed channels rowSize y =
  unfilterRow (scanlineFilter decompressed rowSize y) channels
    (rowAbove decompressed channels rowSize y)
    (scanlineRaw decompressed rowSize y) rowSize.
Proof. destruct y; reflexivity. Qed.

Lemma length_scanlineRaw (decompressed : list Z) (rowSize y : nat) :
  length (scanlineRaw decompressed rowSize y) = rowSize.
Proof. unfold scanlineRaw. rewrite length_map, length_seq. reflexivity. Qed.

Lemma get_scanlineRaw (decompressed : list Z) (rowSize y x : nat) :
  (x < rowSize)%nat ->
  get (scanlineRaw decompressed rowSize y) x =
  get decompressed (S (y * (rowSize + 1)) + x).
Proof.
  intros Hx. unfold get at 1. unfold scanlineRaw.
  rewrite list_lookup_fmap, lookup_seq_lt by assumption. reflexivity.
Qed.

(** The scanline loop of [decodePNG], row after row: the row it keeps as
    [prevRow] is the scanline it has just reconstructed. *)
Lemma decodeScanlines_loop (decompressed : list Z) (width channels : nat) :
  forall (k a : nat) (pixels : list Z),
    fold_left
      (fun '(prevRow, dOffset, pixels) (y : nat) =>
         let filterType := get decompressed dOffset in
         let dOffset := S dOffset in
         let currentRow :=
           map (fun i => get decompressed (dOffset + i))
             (seq 0 (width * channels)) in
         let currentRow :=
           unfilterRow filterType channels prevRow currentRow (width * channels) in
         let dOffset := (dOffset + width * channels)%nat in
         (currentRow, dOffset, pixels ++ rowPixels channels width currentRow))
      (seq a k)
      (rowAbove decompressed channels (width * channels) a,
       (a * (width * channels + 1))%nat, pixels) =
    (rowAbove decompressed channels (width * channels) (a + k),
     ((a + k) * (width * channels + 1))%nat,
     pixels ++
     flat_map
       (fun y =>
          rowPixels channels width
            (reconstructedRow decompressed channels (width * channels) y))
       (seq a k)).
Proof.
  induction k as [|k IH]; intros a pixels.
  - cbn [seq fold_left flat_map]. rewrite Nat.add_0_r, app_nil_r. reflexivity.
  - cbn [seq fold_left flat_map].
    fold (scanlineFilter decompressed (width * channels) a).
    fold (scanlineRaw decompressed (width * channels) a).
    rewrite <- reconstructedRow_unfold.
    replace (S (a * (width * channels + 1)) + width * channels)%nat
      with (S a * (width * channels + 1))%nat by lia.
    change (reconstructedRow decompressed channels (width * channels) a)
      with (rowAbove decompressed channels (width * channels) (S a)) at 1.
    rewrite IH. rewrite <- app_assoc.
    replace (S a + k)%nat with (a + S k)%nat by lia. reflexivity.
Qed.

Lemma decodeScanlines_rows_above (decompressed : list Z) (width height : nat)
    (colorType : Z) :
  let channels := if colorType =? 2 then 3%nat else 4%nat in
  decodeScanlines decompressed width height colorType =
  flat_map
    (fun y =>
       rowPixels channels width
         (reconstructedRow decompressed channels (width * channels) y))
    (seq 0 height).
Proof.
  intros channels. unfold decodeScanlines. cbv zeta. fold channels.
  match goal with
  | |- context [fold_left ?step ?rows ?start] =>
      set (result := fold_left step rows start)
  end.
  assert (Hloop :
            result =
            (rowAbove decompressed channels (width * channels) height,
             (height * (width * channels + 1))%nat,
             flat_map
               (fun y =>
                  rowPixels channels width
                    (reconstructedRow decompressed channels (width * channels) y))
               (seq 0 height)))
    by exact (decodeScanlines_loop decompressed width channels height 0 []).
  rewrite Hloop. reflexivity.
Qed.

Lemma reconstructedRow_byte (decompressed : list Z) (channels rowSize y x : nat) :
  (0 < channels)%nat -> (x < rowSize)%nat ->
  get (reconstructedRow decompressed channels rowSize y) x =
  reconstructedByte (scanlineFilter decompressed rowSize y)
    (get decompressed (S (y * (rowSize + 1)) + x))
    (if (channels <=? x)%nat
     then get (reconstructedRow decompressed channels rowSize y) (x - channels)
     else 0)
    (get (rowAbove decompressed channels rowSize y) x)
    (if (channels <=? x)%nat
     then get (rowAbove decompressed channels rowSize y) (x - channels)
     else 0).
Proof.
  intros Hch Hx. rewrite !reconstructedRow_unfold.
  pose proof (unfilterRow_byte (scanlineFilter decompressed rowSize y) channels
                (rowAbove decompressed channels rowSize y)
                (scanlineRaw decompressed rowSize y) Hch x) as Hbyte.
  rewrite length_scanlineRaw in Hbyte. rewrite (Hbyte Hx).
  rewrite get_scanlineRaw by assumption. reflexivity.
Qed.

(** C6: the Paeth predictor returns one of a, b, c at least as close to
    p = a + b - c as the other two, preferring a, then b, then c on ties;
    every byte of a reconstructed scanline is the raw byte for filter 0 (and
    for an unknown filter type), and otherwise the raw byte plus left, up,
    floor((left + up) / 2) or Paeth(left, up, upLeft) modulo 256, where left
    and upLeft lie [channels] bytes back (0 in the first pixel) and left is
    itself reconstructed; this undoes the PNG forward filter on rows of
    bytes.  For an image of any height the scanline loop takes 3 channels
    for colour type 2 and 4 otherwise and returns, row after row, the pixels
    of the reconstructed scanlines, where up and upLeft of scanline y are
    taken from the reconstructed scanline y - 1, and from a row of zeros for
    the first scanline. *)
Theorem png_scanline_reconstruction :
  (forall a b c : Z,
      let p := a + b - c in
      let r := paethPredictor a b c in
      (r = a \/ r = b \/ r = c) /\
      Z.abs (p - r) <= Z.abs (p - a) /\
      Z.abs (p - r) <= Z.abs (p - b) /\
      Z.abs (p - r) <= Z.abs (p - c) /\
      (Z.abs (p - a) <= Z.abs (p - b) -> Z.abs (p - a) <= Z.abs (p - c) ->
       r = a) /\
      (~ (Z.abs (p - a) <= Z.abs (p - b) /\ Z.abs (p - a) <= Z.abs (p - c)) ->
       Z.abs (p - b) <= Z.abs (p - c) -> r = b) /\
      (~ (Z.abs (p - a) <= Z.abs (p - b) /\ Z.abs (p - a) <= Z.abs (p - c)) ->
       Z.abs (p - c) < Z.abs (p - b) -> r = c)) /\
  (forall (filterType : Z) (channels : nat) (prevRow raw : list Z) (x : nat),
      (0 < channels)%nat ->
      (x < length raw)%nat ->
      let out := unfilterRow filterType channels prevRow raw (length raw) in
      let left := if (channels <=? x)%nat then get out (x - channels) else 0 in
      let up := get prevRow x in
      let upLeft :=
        if (channels <=? x)%nat then get prevRow (x - channels) else 0 in
      get out x =
      match filterType with
      | 1 => (get raw x + left) mod 256
      | 2 => (get raw x + up) mod 256
      | 3 => (get raw x + (left + up) / 2) mod 256
      | 4 => (get raw x + paethPredictor left up upLeft) mod 256
      | _ => get raw x
      end) /\
  (forall (filterType : Z) (channels : nat) (prevRow original : list Z),
      (0 < channels)%nat ->
      Forall is_byte original ->
      unfilterRow filterType channels prevRow
        (pngFilterRow filterType channels prevRow original) (length original) =
      original) /\
  (forall (decompressed : list Z) (width height : nat) (colorType : Z),
      let channels := if colorType =? 2 then 3%nat else 4%nat in
      let filterRowSize := (width * channels)%nat in
      decodeScanlines decompressed width height colorType =
      flat_map
        (fun y =>
           rowPixels channels width
             (reconstructedRow decompressed channels filterRowSize y))
        (seq 0 height)) /\
  (forall (decompressed : list Z) (channels filterRowSize y x : nat),
      (0 < channels)%nat ->
      (x < filterRowSize)%nat ->
      let row := reconstructedRow decompressed channels filterRowSize y in
      let above (i : nat) :=
        match y with
        | O => 0
        | S y' => get (reconstructedRow decompressed channels filterRowSize y') i
        end in
      let raw := get decompressed (y * (filterRowSize + 1) + 1 + x) in
      let left := if (channels <=? x)%nat then get row (x - channels) else 0 in
      let up := above x in
      let upLeft :=
        if (channels <=? x)%nat then above (x - channels)%nat else 0 in
      get row x =
      match get decompressed (y * (filterRowSize + 1)) with
      | 1 => (raw + left) mod 256
      | 2 => (raw + up) mod 256
      | 3 => (raw + (left + up) / 2) mod 256
      | 4 => (raw + paethPredictor left up upLeft) mod 256
      | _ => raw
      end).
Proof.
  split; [|split; [|split; [|split]]].
  - intros a b c. apply paethPredictor_spec.
  - intros filterType channels prevRow raw x Hch Hx.
    apply (unfilterRow_byte filterType channels prevRow raw Hch x Hx).
  - apply unfilterRow_inverts_pngFilterRow.
  - intros decompressed width height colorType.
    apply decodeScanlines_rows_above.
  - intros decompressed channels filterRowSize y x Hch Hx. cbv zeta.
    rewrite (reconstructedRow_byte decompressed channels filterRowSize y x Hch Hx).
    replace (y * (filterRowSize + 1) + 1 + x)%nat
      with (S (y * (filterRowSize + 1)) + x)%nat by lia.
    assert (Habove : forall i,
               (i < filterRowSize)%nat ->
               get (rowAbove decompressed channels filterRowSize y) i =
               match y with
               | O => 0
               | S y' =>
                   get (reconstructedRow decompressed channels filterRowSize y') i
               end).
    { intros i Hi. destruct y as [|y']; [|reflexivity].
      unfold rowAbove, get. rewrite lookup_replicate_2 by assumption.
      reflexivity. }
    rewrite (Habove x Hx).
    destruct (Nat.leb_spec channels x) as [Hin|Hout].
    + rewrite (Habove (x - channels)%nat) by lia. reflexivity.
    + reflexivity.
Qed.

Lemma png_scanline_reconstruction_witness :
  get (unfilterRow 4 3 [1; 2; 3; 4; 5; 6] [10; 20; 30; 40; 50; 60] 6) 4 =
    (50 + paethPredictor 22 5 2) mod 256 /\
  unfilterRow 3 3 [1; 2; 3; 4; 5; 6]
    (pngFilterRow 3 3 [1; 2; 3; 4; 5; 6] [10; 20; 30; 40; 50; 60]) 6 =
    [10; 20; 30; 40; 50; 60] /\
  paethPredictor 22 5 2 = 22 /\
  get (reconstructedRow twoScanlines 3 3 1) 2 =
    (3 + get (reconstructedRow twoScanlines 3 3 0) 2) mod 256.
Proof.
  destruct png_scanline_reconstruction as (Hpaeth & Hbyte & Hinv & _ & Hrow).
  split; [|split; [|split]].
  - apply (Hbyte 4 3%nat [1; 2; 3; 4; 5; 6] [10; 20; 30; 40; 50; 60] 4%nat);
      cbn; lia.
  - apply (Hinv 3 3%nat [1; 2; 3; 4; 5; 6] [10; 20; 30; 40; 50; 60]).
    + lia.
    + repeat constructor; unfold is_byte; lia.
  - apply (Hpaeth 22 5 2); cbn; lia.
  - apply (Hrow twoScanlines 3%nat 3%nat 1%nat 2%nat); lia.
Defined.

(** ** The LSB bit cell *)

Lemma land_shiftr_1 (v : Z) (k : nat) :
  Z.land (Z.shiftr v (Z.of_nat k)) 1 = Z.b2z (Z.testbit v (Z.of_nat k)).
Proof.
  change 1 with (Z.ones 1). rewrite Z.land_ones by lia.
  change (2 ^ 1) with 2. rewrite <- Z.bit0_mod.
  rewrite Z.shiftr_spec by lia. reflexivity.
Qed.

Lemma get_lsbBits (n : nat) (v : Z) (t : nat) :
  (t < n)%nat ->
  get (lsbBits n v) t = Z.b2z (Z.testbit v (Z.of_nat (n - 1 - t))).
Proof.
  revert t. induction n as [|n IH]; intros t Ht; [lia|].
  cbn [lsbBits]. destruct t as [|t].
  - unfold get. cbn [lookup list_lookup default]. rewrite land_shiftr_1.
    replace (S n - 1 - 0)%nat with n by lia. reflexivity.
  - unfold get in *. cbn [lookup list_lookup]. rewrite IH by lia.
    replace (S n - 1 - S t)%nat with (n - 1 - t)%nat by lia. reflexivity.
Qed.

(** The low [n] bits decide what [lsbBits n] reads. *)
Lemma lsbBits_ext (n : nat) (v w : Z) :
  (forall i, 0 <= i < Z.of_nat n -> Z.testbit v i = Z.testbit w i) ->
  lsbBits n v = lsbBits n w.
Proof.
  induction n as [|n IH]; intros H; [reflexivity|].
  cbn [lsbBits]. rewrite !land_shiftr_1, (H (Z.of_nat n)) by lia.
  f_equal. apply IH. intros i Hi. apply H. lia.
Qed.

Lemma testbit_bit_shiftl (bit : Z) (n i : Z) :
  bit = 0 \/ bit = 1 -> 0 <= n -> 0 <= i ->
  Z.testbit (Z.shiftl bit n) i = (i =? n) && (bit =? 1).
Proof.
  intros Hbit Hn Hi. rewrite Z.shiftl_spec by lia.
  destruct (Z.eqb_spec i n) as [->|Hne].
  - rewrite Z.sub_diag. destruct Hbit as [->| ->]; reflexivity.
  - destruct (Z.lt_ge_cases i n).
    + rewrite Z.testbit_neg_r by lia. reflexivity.
    + destruct Hbit as [->| ->].
      * apply Z.testbit_0_l.
      * destruct (i - n) as [|p|p] eqn:Hp; try lia.
        destruct p; reflexivity.
Qed.

Section BitCell.
Variables (getBit : nat -> Z) (total : nat).
Hypothesis getBit_binary : binary getBit.

Lemma setLsbBits_spec (n : nat) : forall (value : Z) (bitIndex : nat),
  0 <= value ->
  (forall i, 0 <= i < Z.of_nat n -> Z.testbit value i = false) ->
  snd (setLsbBits getBit total n value bitIndex) =
    Nat.min (bitIndex + n) (Nat.max bitIndex total) /\
  0 <= fst (setLsbBits getBit total n value bitIndex) /\
  (forall t, (t < n)%nat ->
     Z.testbit (fst (setLsbBits getBit total n value bitIndex))
               (Z.of_nat (n - 1 - t)) =
     (bitIndex + t <? total)%nat && (getBit (bitIndex + t)%nat =? 1)) /\
  (forall i, Z.of_nat n <= i ->
     Z.testbit (fst (setLsbBits getBit total n value bitIndex)) i =
     Z.testbit value i).
Proof.
  induction n as [|n IH]; intros value bitIndex Hnonneg Hlow.
  - cbn [setLsbBits fst snd]. repeat split; intros; try lia; auto.
  - cbn [setLsbBits]. destruct (Nat.ltb_spec bitIndex total) as [Hlt|Hge].
    + pose proof (getBit_binary bitIndex) as Hbit.
      set (value' := Z.lor value (Z.shiftl (getBit bitIndex) (Z.of_nat n))).
      assert (Hbits' : forall i, 0 <= i ->
                Z.testbit value' i =
                Z.testbit value i || ((i =? Z.of_nat n) && (getBit bitIndex =? 1))).
      { intros i Hi. unfold value'.
        rewrite Z.lor_spec, testbit_bit_shiftl by (auto; lia). reflexivity. }
      destruct (IH value' (S bitIndex)) as (Hidx & Hpos & Hset & Hkeep).
      { unfold value'. apply Z.lor_nonneg. split; [assumption|].
        apply Z.shiftl_nonneg. destruct Hbit as [->| ->]; lia. }
      { intros i Hi. rewrite Hbits' by lia. rewrite Hlow by lia.
        destruct (Z.eqb_spec i (Z.of_nat n)); [lia|reflexivity]. }
      split; [|split; [|split]].
      * rewrite Hidx. lia.
      * exact Hpos.
      * intros t Ht. destruct t as [|t].
        -- replace (S n - 1 - 0)%nat with n by lia.
           rewrite Hkeep by lia. rewrite Hbits' by lia.
           rewrite Hlow by lia. rewrite Z.eqb_refl, Nat.add_0_r.
           destruct (Nat.ltb_spec bitIndex total); [reflexivity|lia].
        -- replace (S n - 1 - S t)%nat with (n - 1 - t)%nat by lia.
           rewrite Hset by lia.
           replace (S bitIndex + t)%nat with (bitIndex + S t)%nat by lia.
           reflexivity.
      * intros i Hi. rewrite Hkeep by lia. rewrite Hbits' by lia.
        destruct (Z.eqb_spec i (Z.of_nat n)); [lia|].
        cbn [andb]. apply orb_false_r.
    + cbn [fst snd]. split; [lia|]. split; [assumption|]. split.
      * intros t Ht. rewrite Hlow by lia.
        destruct (Nat.ltb_spec (bitIndex + t) total); [lia|reflexivity].
      * reflexivity.
Qed.

(** What the extractor reads from a cell the embedder has written: the next
    message bits, then zeros once the message has ended. *)
Lemma written_cell (n : nat) (value stored : Z) (bitIndex t : nat) :
  0 <= value ->
  (forall i, 0 <= i < Z.of_nat n -> Z.testbit value i = false) ->
  (forall i, 0 <= i < Z.of_nat n ->
     Z.testbit stored i =
     Z.testbit (fst (setLsbBits getBit total n value bitIndex)) i) ->
  (t < n)%nat ->
  get (lsbBits n stored) t =
  if (bitIndex + t <? total)%nat then getBit (bitIndex + t)%nat else 0.
Proof.
  intros Hnonneg Hlow Hstored Ht.
  rewrite get_lsbBits by assumption. rewrite Hstored by lia.
  destruct (setLsbBits_spec n value bitIndex Hnonneg Hlow) as (_ & _ & Hset & _).
  rewrite Hset by assumption.
  destruct (Nat.ltb_spec (bitIndex + t) total); [|reflexivity].
  cbn [andb]. destruct (getBit_binary (bitIndex + t)%nat) as [-> | ->]; reflexivity.
Qed.

Lemma carries_past_end (bitIndex : nat) (bits : list Z) :
  (total <= bitIndex)%nat -> carries getBit total bitIndex bits.
Proof. intros H j Hj. lia. Qed.

Lemma carries_app (n bitIndex next : nat) (cell rest : list Z) :
  length cell = n ->
  (forall t, (t < n)%nat -> (bitIndex + t < total)%nat ->
     get cell t = getBit (bitIndex + t)%nat) ->
  next = Nat.min (bitIndex + n) (Nat.max bitIndex total) ->
  carries getBit total next rest ->
  carries getBit total bitIndex (cell ++ rest).
Proof.
  intros Hlen Hcell Hnext Hrest j Hj. unfold get.
  destruct (Nat.lt_ge_cases j n) as [Hjn|Hjn].
  - rewrite lookup_app_l by lia. apply Hcell; assumption.
  - rewrite lookup_app_r by lia. rewrite Hlen.
    replace (bitIndex + j)%nat with (next + (j - n))%nat by lia.
    apply Hrest. lia.
Qed.
End BitCell.

(** ** Bytes and their bits *)

Lemma high_bits_of_byte (v i : Z) : is_byte v -> 8 <= i -> Z.testbit v i = false.
Proof.
  intros [Hlo Hhi] Hi. apply Z.bits_above_log2; [assumption|].
  destruct (Z.eq_dec v 0) as [->|Hne]; [cbn; lia|].
  assert (Z.log2 v < 8) by (apply Z.log2_lt_pow2; lia). lia.
Qed.

Lemma byte_of_high_bits (r : Z) :
  0 <= r -> (forall i, 8 <= i -> Z.testbit r i = false) -> is_byte r.
Proof.
  intros Hr Hbits. split; [assumption|].
  destruct (Z.lt_ge_cases r 256) as [|Hbig]; [assumption|exfalso].
  assert (Hlog : 8 <= Z.log2 r).
  { change 8 with (Z.log2 256). apply Z.log2_le_mono. assumption. }
  pose proof (Z.bit_log2 r ltac:(lia)) as Hbit.
  rewrite Hbits in Hbit by assumption. discriminate.
Qed.

Lemma clampUint8_byte (v : Z) : is_byte v -> clampUint8 v = v.
Proof. unfold is_byte, clampUint8. lia. Qed.

Lemma clampUint8_is_byte (v : Z) : is_byte (clampUint8 v).
Proof. unfold is_byte, clampUint8. lia. Qed.

Lemma recompose_byte (m : Z) : is_byte m -> recompose m = m.
Proof.
  intros [Hlo Hhi].
  assert (Hall : forallb (fun k => recompose (Z.of_nat k) =? Z.of_nat k)
                         (seq 0 256) = true) by (vm_compute; reflexivity).
  rewrite forallb_forall in Hall.
  specialize (Hall (Z.to_nat m)). rewrite Z2Nat.id in Hall by assumption.
  apply Z.eqb_eq, Hall, in_seq. lia.
Qed.

Lemma fold_left_ext_in {A B} (f g : A -> B -> A) (l : list B) (a : A) :
  (forall a x, In x l -> f a x = g a x) ->
  fold_left f l a = fold_left g l a.
Proof.
  revert a. induction l as [|x l IH]; intros a H; [reflexivity|].
  cbn [fold_left]. rewrite H by (left; reflexivity).
  apply IH. intros a' y Hy. apply H. right. exact Hy.
Qed.

Lemma messageBit_binary (message : list Z) : binary (messageBit message).
Proof.
  intros j. unfold messageBit. rewrite land_shiftr_1.
  destruct (Z.testbit _ _); auto.
Qed.

Lemma messageBit_at (message : list Z) (byteIdx bitIdx : nat) :
  (bitIdx < 8)%nat ->
  messageBit message (byteIdx * 8 + bitIdx) =
  Z.land (Z.shiftr (get message byteIdx) (Z.of_nat (7 - bitIdx))) 1.
Proof.
  intros Hbit. unfold messageBit.
  rewrite Nat.div_add_l, Nat.div_small, Nat.add_0_r by lia.
  rewrite Nat.add_comm, Nat.Div0.mod_add, Nat.mod_small by lia.
  reflexivity.
Qed.

(** A byte of the message read back from a stream that carries it. *)
Lemma readByte_carried (message bits : list Z) (total byteIdx : nat) :
  carries (messageBit message) total 0 bits ->
  (byteIdx * 8 + 8 <= total)%nat ->
  is_byte (get message byteIdx) ->
  readByte bits (byteIdx * 8) = get message byteIdx.
Proof.
  intros Hcarries Hfit Hbyte.
  transitivity (recompose (get message byteIdx));
    [|apply recompose_byte; assumption].
  unfold readByte, recompose. apply fold_left_ext_in.
  intros byte bitIdx Hin. apply in_seq in Hin.
  rewrite (Hcarries (byteIdx * 8 + bitIdx)%nat) by lia.
  cbn [Nat.add]. rewrite messageBit_at by lia. reflexivity.
Qed.

(** ** Image embedder *)

Section ImageEmbedding.
Variables (message : list Z) (total : nat) (lsbDepth : Z).
Hypothesis depth_range : 1 <= lsbDepth <= 4.

Let d : nat := Z.to_nat lsbDepth.
Let getBit : nat -> Z := messageBit message.

Lemma masked_low_bits (v i : Z) :
  0 <= i < lsbDepth -> Z.testbit (Z.land v (Z.shiftl 255 lsbDepth)) i = false.
Proof.
  intros Hi. rewrite Z.land_spec, Z.shiftl_spec_low by lia. apply andb_false_r.
Qed.

Lemma embedChannel_spec (v : Z) (bitIndex : nat) :
  is_byte v ->
  let out := embedChannel message total lsbDepth v bitIndex in
  snd out = Nat.min (bitIndex + d) (Nat.max bitIndex total) /\
  is_byte (fst out) /\
  (forall t, (t < d)%nat ->
     get (lsbBits d (fst out)) t =
     if (bitIndex + t <? total)%nat then getBit (bitIndex + t)%nat else 0).
Proof.
  intros Hbyte. unfold embedChannel. fold d getBit.
  set (value := Z.land v (Z.shiftl 255 lsbDepth)).
  assert (Hnonneg : 0 <= value).
  { apply Z.land_nonneg. left. apply Hbyte. }
  assert (Hlow : forall i, 0 <= i < Z.of_nat d -> Z.testbit value i = false).
  { intros i Hi. apply masked_low_bits. subst d. lia. }
  destruct (setLsbBits_spec getBit total (messageBit_binary message) d value
              bitIndex Hnonneg Hlow) as (Hidx & Hpos & _ & Hkeep).
  destruct (setLsbBits getBit total d value bitIndex) as [r next] eqn:Hrun.
  cbn [fst snd] in *.
  assert (Hr : is_byte r).
  { apply byte_of_high_bits; [assumption|]. intros i Hi.
    rewrite Hkeep by (subst d; lia). unfold value.
    rewrite Z.land_spec, (high_bits_of_byte v i) by assumption. reflexivity. }
  rewrite clampUint8_byte by assumption.
  split; [assumption|]. split; [assumption|].
  intros t Ht.
  apply (written_cell getBit total (messageBit_binary message) d value r
           bitIndex t Hnonneg Hlow); [|assumption].
  intros i Hi. rewrite Hrun. reflexivity.
Qed.

Lemma embedChannels_spec (rgb : list Z) : forall (bitIndex : nat),
  Forall is_byte rgb ->
  let out := embedChannels message total lsbDepth rgb bitIndex in
  length (fst out) = length rgb /\
  snd out = Nat.min (bitIndex + d * length rgb) (Nat.max bitIndex total) /\
  ((total <= bitIndex)%nat -> fst out = rgb) /\
  (forall rest,
      carries getBit total (snd out) rest ->
      carries getBit total bitIndex (flat_map (lsbBits d) (fst out) ++ rest)).
Proof.
  induction rgb as [|v rgb IH]; intros bitIndex Hbytes.
  - cbn [embedChannels fst snd length flat_map app].
    repeat split; try lia. intros rest Hrest. exact Hrest.
  - cbn [embedChannels]. inversion Hbytes as [|? ? Hv Hrgb]; subst.
    destruct (Nat.ltb_spec bitIndex total) as [Hlt|Hge].
    + destruct (embedChannel_spec v bitIndex Hv) as (Hnext & _ & Hcell).
      destruct (embedChannel message total lsbDepth v bitIndex)
        as [v' next] eqn:Hchannel.
      cbn [fst snd] in Hnext, Hcell.
      destruct (IH next Hrgb) as (Hlen & Hidx & _ & Hcarry).
      destruct (embedChannels message total lsbDepth rgb next)
        as [rgb' last] eqn:Hchannels.
      cbn [fst snd] in *. split; [|split; [|split]].
      * cbn [length]. rewrite Hlen. reflexivity.
      * rewrite Hidx, Hnext. cbn [length]. rewrite Nat.mul_succ_r. lia.
      * intros. lia.
      * intros rest Hrest. cbn [flat_map]. rewrite <- app_assoc.
        apply (carries_app getBit total d bitIndex next).
        -- apply length_lsbBits.
        -- intros t Ht Hfit. rewrite Hcell by assumption.
           destruct (Nat.ltb_spec (bitIndex + t) total); [reflexivity|lia].
        -- exact Hnext.
        -- apply Hcarry. exact Hrest.
    + cbn [fst snd]. split; [reflexivity|]. split; [lia|].
      split; [reflexivity|]. intros rest Hrest.
      apply carries_past_end. exact Hge.
Qed.
End ImageEmbedding.

Lemma get_skip4 (x1 x2 x3 x4 : Z) (l : list Z) (p c : nat) :
  get (x1 :: x2 :: x3 :: x4 :: l) (4 * S p + c) = get l (4 * p + c).
Proof.
  replace (4 * S p + c)%nat with (S (S (S (S (4 * p + c))))) by lia.
  reflexivity.
Qed.

Lemma four_of_length (pixels : list Z) (n : nat) :
  length pixels = (4 * S n)%nat ->
  exists r g b a rest,
    pixels = r :: g :: b :: a :: rest /\ length rest = (4 * n)%nat.
Proof.
  intros Hlen.
  destruct pixels as [|r [|g [|b [|a rest]]]]; cbn [length] in Hlen; try lia.
  exists r, g, b, a, rest. split; [reflexivity|lia].
Qed.

Lemma three_of_length (rgb : list Z) :
  length rgb = 3%nat -> exists r g b, rgb = [r; g; b].
Proof.
  intros Hlen.
  destruct rgb as [|r [|g [|b [|]]]]; cbn [length] in Hlen; try lia.
  eauto.
Qed.

Lemma bytes_of_pixel (r g b a : Z) (rest : list Z) :
  Forall is_byte (r :: g :: b :: a :: rest) ->
  Forall is_byte [r; g; b] /\ Forall is_byte rest.
Proof.
  intros H.
  inversion H as [|? ? Hr H1]; subst. inversion H1 as [|? ? Hg H2]; subst.
  inversion H2 as [|? ? Hb H3]; subst. inversion H3 as [|? ? Ha H4]; subst.
  split; [|assumption].
  constructor; [assumption|]. constructor; [assumption|].
  constructor; [assumption|]. constructor.
Qed.

Section ImagePixels.
Variables (message : list Z) (total : nat) (lsbDepth : Z).
Hypothesis depth_range : 1 <= lsbDepth <= 4.

Let d : nat := Z.to_nat lsbDepth.
Let getBit : nat -> Z := messageBit message.

(** One turn of the pixel loop on a whole pixel. *)
Lemma embedPixels_step (r g b a : Z) (rest : list Z) (bitIndex : nat) :
  Forall is_byte [r; g; b] ->
  (bitIndex < total)%nat ->
  exists r' g' b' next,
    embedChannels message total lsbDepth [r; g; b] bitIndex =
      ([r'; g'; b'], next) /\
    embedPixels message total lsbDepth (r :: g :: b :: a :: rest) bitIndex =
      r' :: g' :: b' :: 255 :: embedPixels message total lsbDepth rest next /\
    next = Nat.min (bitIndex + 3 * d) total /\
    (forall bits,
        carries getBit total next bits ->
        carries getBit total bitIndex
          (lsbBits d r' ++ lsbBits d g' ++ lsbBits d b' ++ bits)).
Proof.
  intros Hbytes Hlt.
  destruct (embedChannels_spec message total lsbDepth depth_range [r; g; b]
              bitIndex Hbytes) as (Hlen & Hnext & _ & Hcarry).
  fold d getBit in Hnext, Hcarry.
  cbn [embedPixels].
  destruct (Nat.ltb_spec bitIndex total) as [_|]; [|lia].
  destruct (embedChannels message total lsbDepth [r; g; b] bitIndex)
    as [rgb next] eqn:Hrgb.
  cbn [fst snd length] in *.
  destruct (three_of_length rgb Hlen) as (r' & g' & b' & ->).
  exists r', g', b', next. split; [reflexivity|]. split; [reflexivity|].
  split; [lia|].
  intros bits Hbits. specialize (Hcarry bits Hbits).
  cbn [flat_map] in Hcarry. rewrite app_nil_r, <- !app_assoc in Hcarry.
  exact Hcarry.
Qed.

Lemma embedPixels_frame (n : nat) : forall (pixels : list Z) (bitIndex : nat),
  length pixels = (4 * n)%nat ->
  Forall is_byte pixels ->
  let out := embedPixels message total lsbDepth pixels bitIndex in
  length out = length pixels /\
  forall p, (p < n)%nat ->
    ((bitIndex + 3 * d * p < total)%nat -> get out (4 * p + 3) = 255) /\
    ((total <= bitIndex + 3 * d * p)%nat ->
     forall c, (c < 4)%nat -> get out (4 * p + c) = get pixels (4 * p + c)).
Proof.
  induction n as [|n IH]; intros pixels bitIndex Hlen Hbytes.
  - destruct pixels; [|discriminate]. cbn [embedPixels].
    destruct (bitIndex <? total)%nat; (split; [reflexivity|intros; lia]).
  - destruct (four_of_length pixels n Hlen) as (r & g & b & a & rest & -> & Hrest).
    destruct (Nat.lt_ge_cases bitIndex total) as [Hlt|Hge].
    + destruct (bytes_of_pixel r g b a rest Hbytes) as [Hrgb Hrestb].
      destruct (embedPixels_step r g b a rest bitIndex Hrgb Hlt)
        as (r' & g' & b' & next & _ & -> & Hnext & _).
      destruct (IH rest next Hrest Hrestb) as (Hlen' & Hframe).
      split; [cbn [length]; rewrite Hlen'; reflexivity|].
      intros p Hp. destruct p as [|p].
      * split; [reflexivity|]. intros. lia.
      * destruct (Hframe p ltac:(lia)) as (Halpha & Hsame).
        split.
        -- intros Hvisit. rewrite get_skip4. apply Halpha. nia.
        -- intros Hpast c Hc. rewrite !get_skip4. apply Hsame; [nia|assumption].
    + cbn [embedPixels]. destruct (Nat.ltb_spec bitIndex total); [lia|].
      split; [reflexivity|]. intros p Hp. split; [intros; nia|reflexivity].
Qed.

Lemma embedPixels_carries (n : nat) : forall (pixels : list Z) (bitIndex : nat),
  length pixels = (4 * n)%nat ->
  Forall is_byte pixels ->
  (total <= bitIndex + 3 * d * n)%nat ->
  carries getBit total bitIndex
    (extractBits d (embedPixels message total lsbDepth pixels bitIndex)).
Proof.
  induction n as [|n IH]; intros pixels bitIndex Hlen Hbytes Hfit.
  - apply carries_past_end. lia.
  - destruct (four_of_length pixels n Hlen) as (r & g & b & a & rest & -> & Hrest).
    destruct (Nat.lt_ge_cases bitIndex total) as [Hlt|Hge];
      [|apply carries_past_end; assumption].
    destruct (bytes_of_pixel r g b a rest Hbytes) as [Hrgb Hrestb].
    destruct (embedPixels_step r g b a rest bitIndex Hrgb Hlt)
      as (r' & g' & b' & next & _ & -> & Hnext & Hcarry).
    cbn [extractBits]. apply Hcarry. apply IH; try assumption. nia.
Qed.

Lemma length_extractBits (n : nat) : forall (pixels : list Z),
  length pixels = (4 * n)%nat ->
  length (extractBits d pixels) = (3 * d * n)%nat.
Proof.
  induction n as [|n IH]; intros pixels Hlen.
  - destruct pixels; [|discriminate]. cbn. lia.
  - destruct (four_of_length pixels n Hlen) as (r & g & b & a & rest & -> & Hrest).
    cbn [extractBits]. rewrite !length_app, !length_lsbBits, (IH rest Hrest).
    lia.
Qed.
End ImagePixels.

(** ** The length field *)

Lemma toInt32_small (x : Z) : - 2 ^ 31 <= x < 2 ^ 31 -> toInt32 x = x.
Proof. intros H. unfold toInt32. rewrite Z.mod_small by lia. lia. Qed.

Lemma land_shiftr_255 (x k : Z) :
  0 <= k -> Z.land (Z.shiftr x k) 255 = (x / 2 ^ k) mod 256.
Proof. intros Hk. rewrite land_255, Z.shiftr_div_pow2 by assumption. reflexivity. Qed.

Lemma lor_shiftl_8 (p b : Z) :
  is_byte b -> Z.lor (Z.shiftl p 8) b = p * 256 + b.
Proof.
  intros Hb.
  assert (Hdisjoint : Z.land (Z.shiftl p 8) b = 0).
  { apply Z.bits_inj'. intros n Hn. rewrite Z.land_spec, Z.bits_0.
    destruct (Z.lt_ge_cases n 8).
    - rewrite Z.shiftl_spec_low by assumption. reflexivity.
    - rewrite (high_bits_of_byte b n) by assumption. apply andb_false_r. }
  rewrite <- Z.lxor_lor, <- Z.add_nocarry_lxor by assumption.
  rewrite Z.shiftl_mul_pow2 by lia. reflexivity.
Qed.

Lemma mod_256_is_byte (x : Z) : is_byte (x mod 256).
Proof. unfold is_byte. apply Z.mod_pos_bound. lia. Qed.

Lemma length_step (p b : Z) :
  0 <= p < 2 ^ 23 -> is_byte b ->
  toInt32 (Z.lor (toInt32 (Z.shiftl p 8)) b) = p * 256 + b.
Proof.
  intros Hp Hb. pose proof Hb as [Hb0 Hb1].
  rewrite (toInt32_small (Z.shiftl p 8))
    by (rewrite Z.shiftl_mul_pow2 by lia; lia).
  rewrite lor_shiftl_8 by assumption. apply toInt32_small. lia.
Qed.

(** The four length bytes of the image frame and what [readLength] makes of
    them. *)
Lemma length_bytes_roundtrip (len : Z) :
  0 <= len < 2 ^ 31 ->
  let b4 := Z.land (Z.shiftr (toInt32 len) 24) 255 in
  let b5 := Z.land (Z.shiftr (toInt32 len) 16) 255 in
  let b6 := Z.land (Z.shiftr (toInt32 len) 8) 255 in
  let b7 := Z.land (toInt32 len) 255 in
  is_byte b4 /\ is_byte b5 /\ is_byte b6 /\ is_byte b7 /\
  toInt32 (Z.lor (toInt32 (Z.shiftl
    (toInt32 (Z.lor (toInt32 (Z.shiftl
      (toInt32 (Z.lor (toInt32 (Z.shiftl
        (toInt32 (Z.lor (toInt32 (Z.shiftl 0 8)) b4)) 8)) b5)) 8)) b6)) 8)) b7)
  = len.
Proof.
  intros Hlen. cbv zeta. rewrite (toInt32_small len) by lia.
  rewrite !land_shiftr_255 by lia. rewrite land_255.
  set (b4 := (len / 2 ^ 24) mod 256). set (b5 := (len / 2 ^ 16) mod 256).
  set (b6 := (len / 2 ^ 8) mod 256). set (b7 := len mod 256).
  assert (H4 : is_byte b4) by apply mod_256_is_byte.
  assert (H5 : is_byte b5) by apply mod_256_is_byte.
  assert (H6 : is_byte b6) by apply mod_256_is_byte.
  assert (H7 : is_byte b7) by apply mod_256_is_byte.
  repeat (split; [assumption|]).
  assert (Hq24 : 0 <= len / 2 ^ 24 < 128).
  { split; [apply Z.div_pos; lia|apply Z.div_lt_upper_bound; lia]. }
  assert (E4 : b4 = len / 2 ^ 24).
  { subst b4. apply Z.mod_small. lia. }
  assert (E5 : len / 2 ^ 16 = len / 2 ^ 24 * 256 + b5).
  { subst b5. replace (len / 2 ^ 24) with (len / 2 ^ 16 / 256)
      by (rewrite Z.div_div by lia; reflexivity).
    pose proof (Z.div_mod (len / 2 ^ 16) 256 ltac:(lia)). lia. }
  assert (E6 : len / 2 ^ 8 = len / 2 ^ 16 * 256 + b6).
  { subst b6. replace (len / 2 ^ 16) with (len / 2 ^ 8 / 256)
      by (rewrite Z.div_div by lia; reflexivity).
    pose proof (Z.div_mod (len / 2 ^ 8) 256 ltac:(lia)). lia. }
  assert (E7 : len = len / 2 ^ 8 * 256 + b7).
  { subst b7. pose proof (Z.div_mod len 256 ltac:(lia)).
    change (2 ^ 8) with 256. lia. }
  unfold is_byte in H4, H5, H6, H7.
  rewrite (length_step 0 b4) by (unfold is_byte; lia).
  rewrite (length_step (0 * 256 + b4) b5) by (unfold is_byte; lia).
  rewrite (length_step ((0 * 256 + b4) * 256 + b5) b6) by (unfold is_byte; lia).
  rewrite (length_step (((0 * 256 + b4) * 256 + b5) * 256 + b6) b7)
    by (unfold is_byte; lia).
  lia.
Qed.

(** ** Reading a frame back from a stream that carries it *)

Lemma map_get_seq (l : list Z) :
  map (get l) (seq 0 (length l)) = l.
Proof.
  apply get_ext.
  - rewrite length_map, length_seq. reflexivity.
  - rewrite length_map, length_seq. intros x Hx. unfold get at 1.
    rewrite list_lookup_fmap, lookup_seq_lt by assumption. reflexivity.
Qed.

Lemma map_clampUint8_bytes (l : list Z) :
  Forall is_byte l -> map clampUint8 l = l.
Proof.
  induction 1 as [|x l Hx _ IH]; [reflexivity|].
  cbn [map]. rewrite clampUint8_byte, IH by assumption. reflexivity.
Qed.

Lemma Forall_clampUint8 (l : list Z) : Forall is_byte (map clampUint8 l).
Proof.
  induction l as [|x l IH]; constructor; [apply clampUint8_is_byte|exact IH].
Qed.

Lemma get_is_byte (l : list Z) (i : nat) : Forall is_byte l -> is_byte (get l i).
Proof.
  intros H. unfold get. destruct (l !! i) as [v|] eqn:Hv.
  - rewrite Forall_forall in H. apply H. apply list_elem_of_lookup. eauto.
  - cbn. unfold is_byte. lia.
Qed.

Section ReadFrame.
Variables (message payload bits : list Z) (total : nat).
Hypothesis carried : carries (messageBit message) total 0 bits.
Hypothesis total_is : total = (8 * (8 + length payload))%nat.
Hypothesis magic_is :
  get message 0 = 0x53 /\ get message 1 = 0x54 /\
  get message 2 = 0x45 /\ get message 3 = 0x47.
Hypothesis payload_is : forall k, get message (8 + k) = get payload k.
Hypothesis payload_bytes : Forall is_byte payload.

Lemma magic_carried :
  map (fun byteIdx => readByte bits (byteIdx * 8)) [0; 1; 2; 3]%nat =
  MAGIC_HEADER.
Proof.
  destruct magic_is as (M0 & M1 & M2 & M3). cbn [map].
  rewrite !(readByte_carried message bits total)
    by (try assumption; try lia;
        rewrite ?M0, ?M1, ?M2, ?M3; unfold is_byte; lia).
  rewrite M0, M1, M2, M3. reflexivity.
Qed.

Lemma length_byte_carried (byteIdx : nat) :
  (byteIdx < 8)%nat ->
  is_byte (get message byteIdx) ->
  readByte bits (byteIdx * 8) = get message byteIdx.
Proof.
  intros Hidx Hbyte.
  apply (readByte_carried message bits total); [assumption|lia|assumption].
Qed.

Lemma payload_carried :
  readPayload bits (Z.of_nat (length payload)) = payload.
Proof.
  unfold readPayload. rewrite Nat2Z.id.
  rewrite <- (map_get_seq payload) at 2.
  apply map_ext_in. intros k Hk. apply in_seq in Hk.
  replace (64 + k * 8)%nat with ((8 + k) * 8)%nat by lia.
  rewrite (readByte_carried message bits total).
  - apply payload_is.
  - assumption.
  - lia.
  - rewrite payload_is. apply get_is_byte. assumption.
Qed.
End ReadFrame.

(** ** Image engine: round trip and alpha *)

Lemma embedData_returns (img : ImageData) (payload : list Z) (d : Z) :
  (8 + Z.of_nat (length payload)) * 8 <= width img * height img * 3 * d ->
  embedData img payload d =
  Returned
    {| er_data :=
         embedPixels (buildMessage payload)
           (Z.to_nat ((8 + Z.of_nat (length payload)) * 8)) d
           (map clampUint8 (data img)) 0;
       er_width := width img;
       er_height := height img |}.
Proof.
  intros Hfit. unfold embedData.
  destruct (Z.ltb_spec (width img * height img * 3 * d)
              ((8 + Z.of_nat (length payload)) * 8)); [lia|reflexivity].
Qed.

Lemma embedData_inv (img : ImageData) (payload : list Z) (d : Z) res :
  embedData img payload d = Returned res ->
  (8 + Z.of_nat (length payload)) * 8 <= width img * height img * 3 * d /\
  res =
    {| er_data :=
         embedPixels (buildMessage payload)
           (Z.to_nat ((8 + Z.of_nat (length payload)) * 8)) d
           (map clampUint8 (data img)) 0;
       er_width := width img;
       er_height := height img |}.
Proof.
  unfold embedData.
  destruct (Z.ltb_spec (width img * height img * 3 * d)
              ((8 + Z.of_nat (length payload)) * 8)); [discriminate|].
  intros [= <-]. split; [lia|reflexivity].
Qed.

Lemma embedImageData_embedData (img : ImageData) (payload : list Z) (d : Z) :
  embedImageData (data img) (width img) (height img) payload d =
  match embedData img payload d with
  | Returned r => Returned (er_data r)
  | Threw e => Threw e
  end.
Proof.
  unfold embedImageData, embedData.
  destruct (_ <? _); reflexivity.
Qed.

Lemma image_roundtrip (img : ImageData) (payload : list Z) (d : Z) :
  wf_image img ->
  1 <= d <= 4 ->
  Forall is_byte payload ->
  0 < Z.of_nat (length payload) < 2 ^ 31 ->
  (8 + Z.of_nat (length payload)) * 8 <= width img * height img * 3 * d ->
  exists res,
    embedData img payload d = Returned res /\
    extractData (imageOf res) d = Some payload.
Proof.
  intros (Hw & Hh & Hsize & Hdata) Hd Hpayload Hlen Hfit.
  eexists. split; [apply embedData_returns; assumption|].
  set (message := buildMessage payload).
  set (total := Z.to_nat ((8 + Z.of_nat (length payload)) * 8)).
  set (n := Z.to_nat (width img * height img)).
  set (out := embedPixels message total d (map clampUint8 (data img)) 0).
  assert (Hpixels : length (map clampUint8 (data img)) = (4 * n)%nat).
  { rewrite length_map. subst n. lia. }
  assert (Hout : length out = (4 * n)%nat).
  { rewrite <- Hpixels.
    apply (embedPixels_frame message total d Hd n _ 0%nat Hpixels
             (Forall_clampUint8 _)). }
  assert (Hcap : (total <= 0 + 3 * Z.to_nat d * n)%nat).
  { subst total n. nia. }
  pose proof (embedPixels_carries message total d Hd n _ 0%nat Hpixels
                (Forall_clampUint8 _) Hcap) as Hcarried.
  fold out in Hcarried.
  pose proof (length_extractBits d n out Hout) as Hbits.
  set (bits := extractBits (Z.to_nat d) out) in *.
  assert (Htotal : total = (8 * (8 + length payload))%nat) by (subst total; lia).
  assert (Hmagic : get message 0 = 83 /\ get message 1 = 84 /\
                   get message 2 = 69 /\ get message 3 = 71)
    by (repeat split).
  assert (Hrest : forall k, get message (8 + k) = get payload k)
    by (intros k; reflexivity).
  destruct (length_bytes_roundtrip (Z.of_nat (length payload)) ltac:(lia))
    as (B4 & B5 & B6 & B7 & Hfield).
  unfold extractData, imageOf.
  cbn [width height data er_data er_width er_height]. fold out bits.
  destruct (Z.ltb_spec (width img * height img * 3 * d) 64); [lia|].
  destruct (Nat.ltb_spec (length bits) 64); [nia|].
  rewrite (magic_carried message payload bits total Hcarried Htotal Hmagic).
  cbn [bool_decide decide_rel negb]. rewrite bool_decide_eq_true_2 by reflexivity.
  cbn [negb].
  assert (Hfieldread : readLength bits = Z.of_nat (length payload)).
  { unfold readLength. cbn [fold_left].
    rewrite !(length_byte_carried message payload bits total Hcarried Htotal)
      by (try lia; assumption).
    exact Hfield. }
  rewrite Hfieldread.
  destruct (Z.leb_spec (Z.of_nat (length payload)) 0); [lia|].
  destruct (Z.ltb_spec ((Z.of_nat (length bits) - 64) / 8)
              (Z.of_nat (length payload))) as [Hbad|_].
  { exfalso. assert (64 + 8 * Z.of_nat (length payload) <= Z.of_nat (length bits))
      by nia.
    assert (Z.of_nat (length payload) <= (Z.of_nat (length bits) - 64) / 8)
      by (apply Z.div_le_lower_bound; lia).
    lia. }
  cbn [orb]. f_equal.
  apply (payload_carried message payload bits total Hcarried Htotal Hrest
           Hpayload).
Qed.

(** ** Audio embedder *)

Lemma toInt16_mod (x : Z) : toInt16 x mod 2 ^ 16 = x mod 2 ^ 16.
Proof.
  unfold toInt16. rewrite Zminus_mod_idemp_l.
  f_equal. lia.
Qed.

Lemma testbit_toInt16 (x i : Z) :
  0 <= i < 16 -> Z.testbit (toInt16 x) i = Z.testbit x i.
Proof.
  intros Hi.
  rewrite <- (Z.mod_pow2_bits_low (toInt16 x) 16 i) by lia.
  rewrite toInt16_mod. apply Z.mod_pow2_bits_low. lia.
Qed.

Lemma get_messageBits (fullMessage : list Z) : forall (j : nat),
  (j < 8 * length fullMessage)%nat ->
  get (messageBits fullMessage) j = messageBit fullMessage j.
Proof.
  induction fullMessage as [|byte rest IH]; intros j Hj; [cbn in Hj; lia|].
  unfold messageBits. cbn [flat_map]. fold (messageBits rest).
  destruct (Nat.lt_ge_cases j 8) as [Hlow|Hhigh].
  - unfold get at 1. rewrite lookup_app_l by (rewrite length_lsbBits; lia).
    fold (get (lsbBits 8 byte) j). rewrite get_lsbBits by lia.
    rewrite <- land_shiftr_1.
    change j with (0 * 8 + j)%nat at 2. rewrite messageBit_at by lia.
    replace (8 - 1 - j)%nat with (7 - j)%nat by lia. reflexivity.
  - unfold get at 1. rewrite lookup_app_r by (rewrite length_lsbBits; lia).
    rewrite length_lsbBits. fold (get (messageBits rest) (j - 8)).
    rewrite IH by (cbn [length] in Hj; lia).
    unfold messageBit.
    replace j with (1 * 8 + (j - 8))%nat at 3 4 by lia.
    rewrite Nat.div_add_l by lia.
    rewrite (Nat.add_comm (1 * 8)), Nat.Div0.mod_add.
    reflexivity.
Qed.

Lemma messageBits_binary (fullMessage : list Z) :
  binary (get (messageBits fullMessage)).
Proof.
  intros j. destruct (Nat.lt_ge_cases j (8 * length fullMessage)) as [Hj|Hj].
  - rewrite get_messageBits by assumption. apply messageBit_binary.
  - left. unfold get. rewrite lookup_ge_None_2; [reflexivity|].
    rewrite length_messageBits. lia.
Qed.

Lemma carries_ext (g1 g2 : nat -> Z) (total bitIndex : nat) (bits : list Z) :
  (forall j, (j < total)%nat -> g1 j = g2 j) ->
  carries g1 total bitIndex bits -> carries g2 total bitIndex bits.
Proof. intros Hext H j Hj. rewrite <- Hext by lia. apply H. exact Hj. Qed.

Section AudioEmbedding.
Variables (bits : list Z) (lsbDepth : Z).
Hypothesis depth_range : 1 <= lsbDepth <= 4.
Hypothesis bits_binary : binary (get bits).

Let d : nat := Z.to_nat lsbDepth.
Let total : nat := length bits.

Lemma length_embedSamples (samples : list Z) : forall (bitIndex : nat),
  length (embedSamples bits lsbDepth samples bitIndex) = length samples.
Proof.
  induction samples as [|sample rest IH]; intros bitIndex; [reflexivity|].
  cbn [embedSamples]. destruct (bitIndex <? length bits)%nat; [|reflexivity].
  destruct (setLsbBits _ _ _ _ _) as [newValue next].
  cbn [length]. rewrite IH. reflexivity.
Qed.

Lemma embedSamples_carries (samples : list Z) : forall (bitIndex : nat),
  (total <= bitIndex + d * length samples)%nat ->
  carries (get bits) total bitIndex
    (flat_map (lsbBits d) (embedSamples bits lsbDepth samples bitIndex)).
Proof.
  induction samples as [|sample rest IH]; intros bitIndex Hfit.
  - apply carries_past_end. cbn [length] in Hfit. lia.
  - destruct (Nat.lt_ge_cases bitIndex total) as [Hlt|Hge];
      [|apply carries_past_end; assumption].
    cbn [embedSamples]. fold total d.
    destruct (Nat.ltb_spec bitIndex total) as [_|]; [|lia].
    set (value := Z.land sample (Z.shiftl 65535 lsbDepth)).
    assert (Hnonneg : 0 <= value).
    { apply Z.land_nonneg. right. apply Z.shiftl_nonneg. lia. }
    assert (Hlow : forall i, 0 <= i < Z.of_nat d -> Z.testbit value i = false).
    { intros i Hi. unfold value.
      rewrite Z.land_spec, Z.shiftl_spec_low by (subst d; lia).
      apply andb_false_r. }
    destruct (setLsbBits_spec (get bits) total bits_binary d value bitIndex
                Hnonneg Hlow) as (Hnext & _).
    pose proof (written_cell (get bits) total bits_binary d value) as Hcell.
    destruct (setLsbBits (get bits) total d value bitIndex)
      as [newValue next] eqn:Hrun.
    cbn [fst snd] in Hnext. cbn [flat_map].
    apply (carries_app (get bits) total d bitIndex next).
    + apply length_lsbBits.
    + intros t Ht Hin.
      rewrite (Hcell (toInt16 newValue) bitIndex t Hnonneg Hlow).
      * destruct (Nat.ltb_spec (bitIndex + t) total); [reflexivity|lia].
      * intros i Hi. rewrite Hrun. cbn [fst].
        apply testbit_toInt16. subst d. lia.
      * assumption.
    + exact Hnext.
    + apply IH. cbn [length] in Hfit. nia.
Qed.

End AudioEmbedding.

(** With a positive depth the guard on the bit count never stops the
    extraction loop early. *)
Lemma extractSampleBits_all (d : nat) (samples : list Z) :
  (0 < d)%nat ->
  forall (acc : list Z),
    extractSampleBits d
      (Z.of_nat (length acc + d * length samples)) samples acc =
    acc ++ flat_map (lsbBits d) samples.
Proof.
  intros Hd. induction samples as [|sample rest IH]; intros acc.
  - cbn [extractSampleBits flat_map]. rewrite app_nil_r. reflexivity.
  - cbn [extractSampleBits flat_map length].
    destruct (Z.ltb_spec (Z.of_nat (length acc))
                (Z.of_nat (length acc + d * S (length rest)))) as [_|Hbad];
      [|nia].
    replace (length acc + d * S (length rest))%nat
      with (length (acc ++ lsbBits d sample) + d * length rest)%nat
      by (rewrite length_app, length_lsbBits; lia).
    rewrite IH, <- app_assoc. reflexivity.
Qed.

Lemma length_flat_lsbBits (d : nat) (samples : list Z) :
  length (flat_map (lsbBits d) samples) = (d * length samples)%nat.
Proof.
  induction samples as [|sample rest IH]; [cbn; lia|].
  cbn [flat_map length]. rewrite length_app, length_lsbBits, IH. lia.
Qed.

Lemma uint32BE_roundtrip (len : Z) :
  0 <= len < 2 ^ 32 ->
  Forall is_byte (setUint32BE len) /\
  getUint32BE (setUint32BE len) = len.
Proof.
  intros Hlen. unfold setUint32BE, getUint32BE.
  rewrite (Z.mod_small len) by lia. unfold get. cbn [lookup list_lookup default].
  assert (Hq : 0 <= len / 2 ^ 24 < 256).
  { split; [apply Z.div_pos; lia|apply Z.div_lt_upper_bound; lia]. }
  split.
  - repeat constructor; try apply mod_256_is_byte; unfold is_byte; lia.
  - assert (E5 : len / 2 ^ 16 = len / 2 ^ 24 * 256 + (len / 2 ^ 16) mod 256).
    { replace (len / 2 ^ 24) with (len / 2 ^ 16 / 256)
        by (rewrite Z.div_div by lia; reflexivity).
      pose proof (Z.div_mod (len / 2 ^ 16) 256 ltac:(lia)). lia. }
    assert (E6 : len / 2 ^ 8 = len / 2 ^ 16 * 256 + (len / 2 ^ 8) mod 256).
    { replace (len / 2 ^ 16) with (len / 2 ^ 8 / 256)
        by (rewrite Z.div_div by lia; reflexivity).
      pose proof (Z.div_mod (len / 2 ^ 8) 256 ltac:(lia)). lia. }
    assert (E7 : len = len / 2 ^ 8 * 256 + len mod 256).
    { pose proof (Z.div_mod len 256 ltac:(lia)). change (2 ^ 8) with 256. lia. }
    set (q24 := len / 2 ^ 24) in *. set (q16 := len / 2 ^ 16) in *.
    set (q8 := len / 2 ^ 8) in *.
    change (2 ^ 24) with 16777216. change (2 ^ 16) with 65536.
    change (2 ^ 8) with 256. unfold id. clearbody q24 q16 q8. lia.
Qed.

Lemma audio_roundtrip (wav : WavData) (payload : list Z) (d : Z) :
  1 <= d <= 4 ->
  Forall is_byte payload ->
  0 < Z.of_nat (length payload) < 2 ^ 31 ->
  (8 + Z.of_nat (length payload)) * 8 <= Z.of_nat (length (samples wav)) * d ->
  exists res,
    embedWavData wav payload d = Returned res /\
    extractWavData res d = Some payload.
Proof.
  intros Hd Hpayload Hlen Hfit.
  set (message := buildFullMessage payload).
  set (bits := messageBits message).
  set (samples0 := map toInt16 (samples wav)).
  assert (Hbits : length bits = (8 * (8 + length payload))%nat).
  { subst bits. rewrite length_messageBits. reflexivity. }
  assert (Hn : length samples0 = length (samples wav))
    by (subst samples0; apply length_map).
  unfold embedWavData. fold message bits samples0.
  destruct (Z.ltb_spec (Z.of_nat (length samples0) * d)
              (Z.of_nat (length bits))); [lia|].
  eexists. split; [reflexivity|].
  set (out := embedSamples bits d samples0 0).
  assert (Hout : length out = length samples0)
    by apply length_embedSamples.
  assert (Hcap : (length bits <= 0 + Z.to_nat d * length samples0)%nat) by nia.
  pose proof (embedSamples_carries bits d Hd (messageBits_binary message)
                samples0 0%nat Hcap) as Hcarried.
  fold out in Hcarried.
  assert (Hcarried' : carries (messageBit message) (length bits) 0
                        (flat_map (lsbBits (Z.to_nat d)) out)).
  { apply (carries_ext (get bits)); [|assumption].
    intros j Hj. apply get_messageBits.
    subst bits. rewrite length_messageBits in Hj. exact Hj. }
  unfold extractWavData. cbn [samples]. fold out.
  destruct (Z.ltb_spec (Z.of_nat (length out) * d) 64); [lia|].
  assert (Hextract :
    extractSampleBits (Z.to_nat d) (Z.of_nat (length out) * d) out [] =
    flat_map (lsbBits (Z.to_nat d)) out).
  { replace (Z.of_nat (length out) * d)
      with (Z.of_nat (length (@nil Z) + Z.to_nat d * length out)) by (cbn; nia).
    apply (extractSampleBits_all (Z.to_nat d) out ltac:(lia) []). }
  rewrite Hextract.
  set (stream := flat_map (lsbBits (Z.to_nat d)) out) in *.
  assert (Hstream : length stream = (Z.to_nat d * length out)%nat)
    by apply length_flat_lsbBits.
  assert (Hmagic : get message 0 = 83 /\ get message 1 = 84 /\
                   get message 2 = 69 /\ get message 3 = 71)
    by (repeat split).
  assert (Hrest : forall k, get message (8 + k) = get payload k)
    by (intros k; reflexivity).
  rewrite (magic_carried message payload stream (length bits) Hcarried' Hbits
             Hmagic).
  rewrite bool_decide_eq_true_2 by reflexivity. cbn [negb].
  destruct (uint32BE_roundtrip (Z.of_nat (length payload)) ltac:(lia))
    as (Hfieldbytes & Hfield).
  assert (Hfieldread :
    map (fun i => readByte stream (32 + i * 8)) [0; 1; 2; 3]%nat =
    setUint32BE (Z.of_nat (length payload))).
  { cbn [map].
    change (32 + 0 * 8)%nat with (4 * 8)%nat.
    change (32 + 1 * 8)%nat with (5 * 8)%nat.
    change (32 + 2 * 8)%nat with (6 * 8)%nat.
    change (32 + 3 * 8)%nat with (7 * 8)%nat.
    assert (Hb : forall k, (4 <= k < 8)%nat -> is_byte (get message k)).
    { intros k Hk.
      replace (get message k)
        with (get (setUint32BE (Z.of_nat (length payload))) (k - 4)).
      - apply get_is_byte. exact Hfieldbytes.
      - destruct k as [|[|[|[|[|[|[|[|k]]]]]]]]; try lia; reflexivity. }
    rewrite !(length_byte_carried message payload stream (length bits)
                Hcarried' Hbits) by (try lia; apply Hb; lia).
    reflexivity. }
  rewrite Hfieldread, Hfield.
  destruct (Z.leb_spec (Z.of_nat (length payload)) 0); [lia|].
  destruct (Z.ltb_spec ((Z.of_nat (length stream) - 64) / 8)
              (Z.of_nat (length payload))) as [Hbad|_].
  { exfalso.
    assert (64 + 8 * Z.of_nat (length payload) <= Z.of_nat (length stream))
      by nia.
    assert (Z.of_nat (length payload) <= (Z.of_nat (length stream) - 64) / 8)
      by (apply Z.div_le_lower_bound; lia).
    lia. }
  cbn [orb]. f_equal.
  apply (payload_carried message payload stream (length bits) Hcarried' Hbits
           Hrest Hpayload).
Qed.

(** C1, counterexample: the empty message fits both carriers (its frame has
    64 bits, the carriers hold 72 and 80), is embedded, and is then not
    extracted: a length field of 0 makes both extractors answer null. *)
Lemma empty_message_is_not_extracted :
  (exists res,
      embedData sixPixels [] 4 = Returned res /\
      extractData (imageOf res) 4 = None) /\
  (exists res,
      embedWavData twentySamples [] 4 = Returned res /\
      extractWavData res 4 = None).
Proof. split; eexists; split; reflexivity. Qed.

(** C1, as amended: for every carrier, every depth d in 1..4 and every
    message M of at least one byte (and fewer than 2^31, the range in which
    the extractor's 32-bit length field is read back unchanged) whose framed
    form of 8 + len(M) bytes fits the carrier's bit capacity, embedding M at
    depth d succeeds and extracting at depth d from the result returns
    exactly M, for the image engine and for the audio engine. *)
Theorem lsb_roundtrip :
  (forall (img : ImageData) (M : list Z) (d : Z),
      wf_image img ->
      1 <= d <= 4 ->
      Forall is_byte M ->
      0 < Z.of_nat (length M) < 2 ^ 31 ->
      (8 + Z.of_nat (length M)) * 8 <= width img * height img * 3 * d ->
      exists res,
        embedData img M d = Returned res /\
        extractData (imageOf res) d = Some M) /\
  (forall (wav : WavData) (M : list Z) (d : Z),
      1 <= d <= 4 ->
      Forall is_byte M ->
      0 < Z.of_nat (length M) < 2 ^ 31 ->
      (8 + Z.of_nat (length M)) * 8 <= Z.of_nat (length (samples wav)) * d ->
      exists res,
        embedWavData wav M d = Returned res /\
        extractWavData res d = Some M).
Proof.
  split.
  - apply image_roundtrip.
  - apply audio_roundtrip.
Qed.

Lemma lsb_roundtrip_witness :
  (exists res,
      embedData sixPixels [165] 4 = Returned res /\
      extractData (imageOf res) 4 = Some [165]) /\
  (exists res,
      embedWavData twentySamples [165; 90] 4 = Returned res /\
      extractWavData res 4 = Some [165; 90]).
Proof.
  destruct lsb_roundtrip as [Himage Haudio]. split.
  - apply (Himage sixPixels [165] 4).
    + unfold wf_image. cbn. repeat split; try lia.
      repeat constructor; unfold is_byte; lia.
    + lia.
    + repeat constructor; unfold is_byte; lia.
    + cbn. lia.
    + cbn. lia.
  - apply (Haudio twentySamples [165; 90] 4).
    + lia.
    + repeat constructor; unfold is_byte; lia.
    + cbn. lia.
    + cbn. lia.
Defined.

(** C8: after a successful image embedding the output has the length of
    the input, every pixel the embedder visited (pixel p starts at message
    bit 3*d*p, so it is visited when 3*d*p is below the number of message
    bits, and then its R channel receives a bit) has alpha 255, and every
    pixel beyond the end of the message has its four bytes, alpha included,
    as in the input; the worker's embedder returns the same bytes. *)
Theorem alpha_forced_on_touched_pixels_only :
  (forall (img : ImageData) (payload : list Z) (d : Z) (res : EmbedResult),
      wf_image img ->
      1 <= d <= 4 ->
      embedData img payload d = Returned res ->
      let totalBits := (8 + Z.of_nat (length payload)) * 8 in
      length (er_data res) = length (data img) /\
      forall p : nat,
        Z.of_nat p < width img * height img ->
        (3 * d * Z.of_nat p < totalBits ->
         get (er_data res) (4 * p + 3) = 255) /\
        (totalBits <= 3 * d * Z.of_nat p ->
         forall c : nat, (c < 4)%nat ->
           get (er_data res) (4 * p + c) = get (data img) (4 * p + c))) /\
  (forall (img : ImageData) (payload : list Z) (d : Z) (res : EmbedResult),
      embedData img payload d = Returned res ->
      embedImageData (data img) (width img) (height img) payload d =
      Returned (er_data res)).
Proof.
  split.
  - intros img payload d res (Hw & Hh & Hsize & Hdata) Hd Hembed totalBits.
    apply embedData_inv in Hembed as [Hfit ->]. cbn [er_data].
    set (n := Z.to_nat (width img * height img)).
    assert (Hpixels : length (map clampUint8 (data img)) = (4 * n)%nat).
    { rewrite length_map. subst n. lia. }
    destruct (embedPixels_frame (buildMessage payload)
                (Z.to_nat ((8 + Z.of_nat (length payload)) * 8)) d Hd n _ 0%nat
                Hpixels (Forall_clampUint8 _)) as [Hlen Hframe].
    rewrite (map_clampUint8_bytes (data img) Hdata) in Hlen, Hframe.
    rewrite (map_clampUint8_bytes (data img) Hdata).
    split; [exact Hlen|].
    intros p Hp. destruct (Hframe p ltac:(subst n; lia)) as [Halpha Hsame].
    split.
    + intros Hvisit. apply Halpha. subst totalBits. nia.
    + intros Hpast c Hc. apply Hsame; [|assumption]. subst totalBits. nia.
  - intros img payload d res Hembed.
    rewrite embedImageData_embedData, Hembed. reflexivity.
Qed.

Lemma alpha_forced_on_touched_pixels_only_witness :
  (get [5; 19; 21; 255;  4; 20; 21; 255;  4; 23; 32; 255;
        0; 16; 32; 255;  0; 16; 32; 255;  0; 25; 35; 255] (4 * 5 + 3) = 255) /\
  embedImageData (data sixPixels) 2 3 [] 4 =
    Returned [5; 19; 21; 255;  4; 20; 21; 255;  4; 23; 32; 255;
              0; 16; 32; 255;  0; 16; 32; 255;  0; 25; 35; 255].
Proof.
  destruct alpha_forced_on_touched_pixels_only as [Hframe Hworker].
  assert (Hembed :
    embedData sixPixels [] 4 =
    Returned (mkEmbedResult
                [5; 19; 21; 255;  4; 20; 21; 255;  4; 23; 32; 255;
                 0; 16; 32; 255;  0; 16; 32; 255;  0; 25; 35; 255] 2 3))
    by reflexivity.
  split.
  - destruct (Hframe sixPixels [] 4 _
                ltac:(unfold wf_image; cbn; repeat split; try lia;
                      repeat constructor; unfold is_byte; lia)
                ltac:(lia) Hembed) as [_ Hpixels].
    apply (Hpixels 5%nat); cbn; lia.
  - apply (Hworker sixPixels [] 4 _ Hembed).
Defined.

(** * Carrier codecs *)

(** ** DataView stores and loads *)

Lemma fill_seq (f : nat -> Z) (n k : nat) :
  forall (a : nat) (pre old post : list Z),
    length pre = (n + a)%nat -> length old = k ->
    fold_left (fun buffer i => <[(n + i)%nat := f i]> buffer) (seq a k)
      (pre ++ old ++ post) =
    pre ++ map f (seq a k) ++ post.
Proof.
  induction k as [|k IH]; intros a pre old post Hpre Hold.
  - destruct old; [reflexivity|discriminate].
  - destruct old as [|o old]; [discriminate|]. injection Hold as Hold.
    cbn [seq fold_left map app].
    rewrite insert_app_r_alt by lia.
    replace (n + a - length pre)%nat with 0%nat by lia.
    cbn [insert list_insert].
    change (pre ++ f a :: old ++ post) with (pre ++ [f a] ++ old ++ post).
    rewrite (app_assoc pre [f a]).
    rewrite (IH (S a) (pre ++ [f a]) old post);
      [|rewrite length_app; cbn [length]; lia|exact Hold].
    rewrite <- app_assoc. reflexivity.
Qed.

Lemma length_fill (f : nat -> Z) (n : nat) (l : list nat) (buffer : list Z) :
  length (fold_left (fun buffer i => <[(n + i)%nat := f i]> buffer) l buffer) =
  length buffer.
Proof.
  revert buffer. induction l as [|i l IH]; intros buffer; [reflexivity|].
  cbn [fold_left]. rewrite IH. apply length_insert.
Qed.

(** A store that is inside the buffer replaces [size] bytes and nothing
    else. *)
Lemma setUintLE_app (size : nat) (pre old post : list Z) (byteOffset value : Z) :
  Z.of_nat (length pre) = byteOffset -> length old = size ->
  setUintLE size (pre ++ old ++ post) byteOffset value =
  Returned (pre ++ map (byteLE value) (seq 0 size) ++ post).
Proof.
  intros Hpre Hold. unfold setUintLE.
  rewrite !length_app.
  destruct (Z.leb_spec 0 byteOffset); [|lia].
  destruct (Z.leb_spec (byteOffset + Z.of_nat size)
              (Z.of_nat (length pre + (length old + length post)))); [|lia].
  cbn [andb]. f_equal.
  apply fill_seq; lia.
Qed.

Lemma length_setUintLE (size : nat) (buffer : list Z) (byteOffset value : Z)
    (written : list Z) :
  setUintLE size buffer byteOffset value = Returned written ->
  length written = length buffer.
Proof.
  unfold setUintLE. destruct (_ && _); [|discriminate].
  intros [= <-]. apply length_fill.
Qed.

Lemma byteLE_sum (value : Z) (a k : nat) : forall (b : nat),
  fold_right (fun i acc => byteLE value (a + i) + 256 * acc) 0 (seq b k) =
  (value / 256 ^ Z.of_nat (a + b)) mod 256 ^ Z.of_nat k.
Proof.
  induction k as [|k IH]; intros b.
  - cbn [seq fold_right]. rewrite Z.pow_0_r, Z.mod_1_r. reflexivity.
  - cbn [seq fold_right]. rewrite IH. unfold byteLE.
    replace (256 ^ Z.of_nat (S k)) with (256 * 256 ^ Z.of_nat k)
      by (rewrite Nat2Z.inj_succ, Z.pow_succ_r by lia; reflexivity).
    replace (256 ^ Z.of_nat (a + S b)) with (256 ^ Z.of_nat (a + b) * 256)
      by (replace (a + S b)%nat with (S (a + b)) by lia;
          rewrite Nat2Z.inj_succ, Z.pow_succ_r by lia; lia).
    rewrite <- Z.div_div by lia.
    rewrite Z.rem_mul_r by lia. reflexivity.
Qed.

Lemma fold_right_ext_in {A B} (f g : B -> A -> A) (l : list B) (a : A) :
  (forall x acc, In x l -> f x acc = g x acc) ->
  fold_right f a l = fold_right g a l.
Proof.
  induction l as [|x l IH]; intros Hfg; [reflexivity|].
  cbn [fold_right]. rewrite IH by (intros; apply Hfg; right; assumption).
  apply Hfg. left. reflexivity.
Qed.

(** A load reads back what a store of the same size wrote at the same
    place, modulo 2^(8 size). *)
Lemma getUintLE_app (size : nat) (pre post : list Z) (byteOffset value : Z) :
  Z.of_nat (length pre) = byteOffset ->
  getUintLE size (pre ++ map (byteLE value) (seq 0 size) ++ post) byteOffset =
  Returned (value mod 256 ^ Z.of_nat size).
Proof.
  intros Hpre. unfold getUintLE.
  rewrite !length_app, length_map, length_seq.
  destruct (Z.leb_spec 0 byteOffset); [|lia].
  destruct (Z.leb_spec (byteOffset + Z.of_nat size)
              (Z.of_nat (length pre + (size + length post)))); [|lia].
  cbn [andb]. f_equal.
  transitivity ((value / 256 ^ Z.of_nat (0 + 0)) mod 256 ^ Z.of_nat size);
    [|cbn [Nat.add Z.of_nat]; rewrite Z.pow_0_r, Z.div_1_r; reflexivity].
  rewrite <- (byteLE_sum value 0 size 0).
  apply fold_right_ext_in.
  intros i acc Hi. apply in_seq in Hi. cbn [Nat.add]. f_equal.
  unfold get. replace (Z.to_nat byteOffset + i)%nat with (length pre + i)%nat by lia.
  rewrite lookup_app_r by lia.
  replace (length pre + i - length pre)%nat with i by lia.
  rewrite lookup_app_l by (rewrite length_map, length_seq; lia).
  rewrite list_lookup_fmap, lookup_seq_lt by lia. reflexivity.
Qed.

Lemma setUintLE_at (size : nat) (buffer : list Z) (byteOffset value : Z) :
  0 <= byteOffset ->
  byteOffset + Z.of_nat size <= Z.of_nat (length buffer) ->
  setUintLE size buffer byteOffset value =
  Returned (take (Z.to_nat byteOffset) buffer ++
            map (byteLE value) (seq 0 size) ++
            drop (Z.to_nat byteOffset + size) buffer).
Proof.
  intros Hlow Hhigh.
  rewrite <- (take_drop (Z.to_nat byteOffset) buffer) at 1.
  rewrite <- (take_drop size (drop (Z.to_nat byteOffset) buffer)) at 1.
  rewrite drop_drop.
  apply setUintLE_app.
  - rewrite length_take. lia.
  - rewrite length_take, length_drop. lia.
Qed.

Lemma getUintLE_at (size : nat) (buffer post : list Z) (byteOffset value : Z) :
  0 <= byteOffset -> (0 < size)%nat ->
  drop (Z.to_nat byteOffset) buffer = map (byteLE value) (seq 0 size) ++ post ->
  getUintLE size buffer byteOffset = Returned (value mod 256 ^ Z.of_nat size).
Proof.
  intros Hlow Hsize Hdrop.
  assert (Hlen : (Z.to_nat byteOffset < length buffer)%nat).
  { destruct (Nat.lt_ge_cases (Z.to_nat byteOffset) (length buffer)) as [|Hge];
      [assumption|].
    rewrite drop_ge in Hdrop by exact Hge.
    destruct size; [lia|discriminate]. }
  rewrite <- (take_drop (Z.to_nat byteOffset) buffer), Hdrop.
  apply getUintLE_app. rewrite length_take. lia.
Qed.

Lemma writeString_at (arr : list Z) (offset : Z) (str : string) (bytes : list Z) :
  0 <= offset ->
  offset + Z.of_nat (length bytes) <= Z.of_nat (length arr) ->
  map (fun i => toUint8 (get (tag str) i)) (seq 0 (length (tag str))) = bytes ->
  writeString arr offset str =
  take (Z.to_nat offset) arr ++ bytes ++
  drop (Z.to_nat offset + length bytes) arr.
Proof.
  intros Hlow Hhigh <-. rewrite length_map, length_seq in *.
  unfold writeString.
  rewrite <- (take_drop (Z.to_nat offset) arr) at 1.
  rewrite <- (take_drop (length (tag str)) (drop (Z.to_nat offset) arr)) at 1.
  rewrite drop_drop.
  apply (fill_seq (fun i => toUint8 (get (tag str) i))).
  - rewrite length_take. lia.
  - rewrite length_take, length_drop. lia.
Qed.

(** ** WAV: the encoder writes what the decoder reads *)

Lemma writeSamples_fills (samples : list Z) : forall (pre : list Z) (offset : Z),
  Z.of_nat (length pre) = offset ->
  writeSamples (pre ++ replicate (2 * length samples) 0) offset samples =
  Returned (pre ++ flat_map int16Bytes samples).
Proof.
  induction samples as [|sample rest IH]; intros pre offset Hpre.
  - cbn. reflexivity.
  - cbn [writeSamples flat_map length].
    replace (2 * S (length rest))%nat with (2 + 2 * length rest)%nat by lia.
    rewrite replicate_add. unfold setInt16.
    rewrite (setUintLE_app 2 pre (replicate 2 0)) by (assumption || reflexivity).
    cbn [mbind outcome_bind].
    change (map (byteLE sample) (seq 0 2)) with (int16Bytes sample).
    rewrite (app_assoc pre), IH by (rewrite length_app; cbn [length int16Bytes]; lia).
    rewrite <- app_assoc. reflexivity.
Qed.

Lemma readSamples_reads (samples : list Z) : forall (pre : list Z) (dataOffset i : Z),
  Forall is_int16 samples ->
  Z.of_nat (length pre) = dataOffset + i * 2 ->
  readSamples (pre ++ flat_map int16Bytes samples) dataOffset (length samples) i =
  Returned samples.
Proof.
  induction samples as [|sample rest IH]; intros pre dataOffset i Hrange Hpre.
  - reflexivity.
  - inversion Hrange as [|? ? Hsample Hrest]; subst.
    cbn [readSamples flat_map length]. unfold getInt16, getUint16.
    change (int16Bytes sample) with (map (byteLE sample) (seq 0 2)).
    rewrite getUintLE_app by exact Hpre.
    cbn [mbind outcome_bind].
    rewrite (app_assoc pre),
      (IH (pre ++ map (byteLE sample) (seq 0 2)) dataOffset (i + 1) Hrest)
      by (rewrite length_app; cbn [length map seq]; lia).
    cbn [mbind outcome_bind]. f_equal. f_equal.
    unfold toInt16, is_int16 in *. change (256 ^ Z.of_nat 2) with (2 ^ 16).
    rewrite Zplus_mod_idemp_l.
    change (2 ^ 15) with 32768 in *. change (2 ^ 16) with 65536.
    rewrite Z.mod_small by lia. lia.
Qed.

Ltac store_step :=
  first
    [ rewrite setUintLE_at by (cbn [length]; lia)
    | match goal with
      | |- context [writeString ?arr ?offset ?str] =>
          let bytes := eval vm_compute in (tag str) in
          rewrite (writeString_at arr offset str bytes)
            by first [reflexivity | cbn [length]; lia]
      end ];
  repeat match goal with
         | |- context [Z.to_nat ?c] =>
             let n := eval vm_compute in (Z.to_nat c) in
             change (Z.to_nat c) with n
         end;
  cbn [mbind outcome_bind Nat.add firstn skipn app map seq length].

Lemma encodeWav_file (wav : WavData) : encodeWav wav = Returned (wavFile wav).
Proof.
  unfold encodeWav, wavFile, wavHeader, setUint32, setUint16.
  destruct wav as [smp rate chan bps].
  cbn [samples sampleRate channels bitsPerSample].
  set (dataSize := Z.of_nat (length smp) * 2).
  replace (Z.to_nat (44 + dataSize)) with (44 + 2 * length smp)%nat
    by (subst dataSize; lia).
  rewrite replicate_add.
  generalize (44 + dataSize - 8) as riffSize.
  generalize (rate * chan * 2) as byteRate.
  generalize (chan * 2) as blockAlign.
  clearbody dataSize. intros blockAlign byteRate riffSize.
  cbn [replicate app].
  do 13 store_step.
  match goal with
  | |- writeSamples ?buffer 44 smp = _ =>
      exact (writeSamples_fills smp (firstn 44 buffer) 44 eq_refl)
  end.
Qed.

Lemma walkChunks_S (fuel : nat) (data : list Z) (st : ChunkWalk) :
  walkChunks (S fuel) data st =
  let offset := cw_offset st in
  if offset <? Z.of_nat (length data) then
    let chunkId := fourCC data offset in
    chunkSize ← getUint32 data (offset + 4);
    let offset := offset + 8 in
    st ← (if bool_decide (chunkId = tag "fmt ") then
            audioFormat ← getUint16 data offset;
            if negb (audioFormat =? 1) then
              Threw (UnsupportedAudioFormat audioFormat)
            else
              channels ← getUint16 data (offset + 2);
              sampleRate ← getUint32 data (offset + 4);
              bitsPerSample ← getUint16 data (offset + 14);
              if negb (bitsPerSample =? 16) then
                Threw (UnsupportedBitDepth bitsPerSample)
              else
                Returned {| cw_offset := offset;
                            cw_sampleRate := sampleRate;
                            cw_channels := channels;
                            cw_bitsPerSample := bitsPerSample;
                            cw_dataOffset := cw_dataOffset st;
                            cw_dataSize := cw_dataSize st |}
          else if bool_decide (chunkId = tag "data") then
            Returned {| cw_offset := offset;
                        cw_sampleRate := cw_sampleRate st;
                        cw_channels := cw_channels st;
                        cw_bitsPerSample := cw_bitsPerSample st;
                        cw_dataOffset := offset;
                        cw_dataSize := chunkSize |}
          else
            Returned {| cw_offset := offset;
                        cw_sampleRate := cw_sampleRate st;
                        cw_channels := cw_channels st;
                        cw_bitsPerSample := cw_bitsPerSample st;
                        cw_dataOffset := cw_dataOffset st;
                        cw_dataSize := cw_dataSize st |});
    let offset := offset + chunkSize in
    let offset := if negb (chunkSize mod 2 =? 0) then offset + 1 else offset in
    walkChunks fuel data
      {| cw_offset := offset;
         cw_sampleRate := cw_sampleRate st;
         cw_channels := cw_channels st;
         cw_bitsPerSample := cw_bitsPerSample st;
         cw_dataOffset := cw_dataOffset st;
         cw_dataSize := cw_dataSize st |}
  else Returned st.
Proof. reflexivity. Qed.

Lemma walkChunks_done (fuel : nat) (data : list Z) (st : ChunkWalk) :
  Z.of_nat (length data) <= cw_offset st ->
  walkChunks fuel data st = Returned st.
Proof.
  intros Hend. destruct fuel as [|fuel]; [reflexivity|].
  cbn [walkChunks].
  destruct (Z.ltb_spec (cw_offset st) (Z.of_nat (length data))); [lia|].
  reflexivity.
Qed.

(** Closed sums of offsets, as the decoders write them. *)
Ltac fold_offsets :=
  repeat match goal with
         | |- context [Z.add (Zpos ?a) (Zpos ?b)] =>
             let v := eval vm_compute in (Z.add (Zpos a) (Zpos b)) in
             change (Z.add (Zpos a) (Zpos b)) with v
         end.

Lemma length_wavFile (wav : WavData) :
  length (wavFile wav) = (44 + 2 * length (samples wav))%nat.
Proof.
  unfold wavFile. rewrite length_app. f_equal.
  induction (samples wav) as [|s l IH]; [reflexivity|].
  cbn [flat_map length int16Bytes app]. lia.
Qed.

Ltac load_fact value :=
  unfold getUint32, getUint16;
  match goal with
  | |- getUintLE ?size ?buffer ?offset = Returned _ =>
      etransitivity;
      [ eapply (getUintLE_at size buffer _ offset value);
        [lia | lia | reflexivity]
      | f_equal ]
  end.

Lemma wavFile_fields (smp : list Z) (rate chan : Z) :
  0 <= rate < 2 ^ 32 -> 0 <= chan < 2 ^ 16 ->
  Z.of_nat (length smp) * 2 < 2 ^ 32 ->
  let file := wavFile (mkWavData smp rate chan 16) in
  fourCC file 0 = tag "RIFF" /\
  fourCC file 8 = tag "WAVE" /\
  fourCC file 12 = tag "fmt " /\
  fourCC file 36 = tag "data" /\
  getUint32 file 16 = Returned 16 /\
  getUint16 file 20 = Returned 1 /\
  getUint16 file 22 = Returned chan /\
  getUint32 file 24 = Returned rate /\
  getUint16 file 34 = Returned 16 /\
  getUint32 file 40 = Returned (Z.of_nat (length smp) * 2).
Proof.
  intros Hrate Hchan Hsize file.
  repeat split; try reflexivity.
  - load_fact 16; reflexivity.
  - load_fact 1; reflexivity.
  - load_fact chan. apply Z.mod_small. exact Hchan.
  - load_fact rate. apply Z.mod_small. exact Hrate.
  - load_fact 16; reflexivity.
  - load_fact (Z.of_nat (length smp) * 2). apply Z.mod_small.
    change (256 ^ Z.of_nat 4) with (2 ^ 32). lia.
Qed.

Lemma decodeWav_file (wav : WavData) :
  wf_wav wav -> decodeWav (wavFile wav) = Returned wav.
Proof.
  intros (Hsamples & Hrate & Hchan & Hbps & Hsize).
  pose proof (length_wavFile wav) as Hlen.
  destruct wav as [smp rate chan bps].
  cbn [samples sampleRate channels bitsPerSample] in *. subst bps.
  destruct (wavFile_fields smp rate chan ltac:(lia) Hchan Hsize)
    as (H0 & H8 & H12 & H36 & G16 & G20 & G22 & G24 & G34 & G40).
  set (dataSize := Z.of_nat (length smp) * 2) in *.
  assert (Hdata : wavFile (mkWavData smp rate chan 16) =
                  wavHeader (mkWavData smp rate chan 16) ++
                  flat_map int16Bytes smp) by reflexivity.
  set (file := wavFile (mkWavData smp rate chan 16)) in *.
  clearbody file.
  unfold decodeWav. rewrite Hlen.
  destruct (Z.ltb_spec (Z.of_nat (44 + 2 * length smp)) 44); [lia|].
  rewrite H0, H8.
  rewrite !bool_decide_eq_true_2 by reflexivity. cbn [negb].
  cbn [Nat.add].
  rewrite walkChunks_S. cbn [cw_offset cw_sampleRate cw_channels cw_bitsPerSample
                             cw_dataOffset cw_dataSize]. cbv zeta.
  rewrite Hlen.
  destruct (Z.ltb_spec 12 (Z.of_nat (44 + 2 * length smp))); [|lia].
  fold_offsets. rewrite G16, H12. cbn [mbind outcome_bind].
  rewrite bool_decide_eq_true_2 by reflexivity.
  fold_offsets. rewrite G20. cbn [mbind outcome_bind].
  change (negb (1 =? 1)) with false. cbv iota.
  rewrite G22, G24, G34. cbn [mbind outcome_bind].
  change (negb (16 =? 16)) with false. cbv iota.
  cbn [mbind outcome_bind cw_offset cw_sampleRate cw_channels cw_bitsPerSample
       cw_dataOffset cw_dataSize].
  change (negb (16 mod 2 =? 0)) with false. cbv iota. fold_offsets.
  rewrite walkChunks_S. cbn [cw_offset cw_sampleRate cw_channels cw_bitsPerSample
                             cw_dataOffset cw_dataSize]. cbv zeta.
  rewrite Hlen.
  destruct (Z.ltb_spec 36 (Z.of_nat (44 + 2 * length smp))); [|lia].
  fold_offsets. rewrite G40, H36. cbn [mbind outcome_bind].
  rewrite bool_decide_eq_false_2 by (vm_compute; discriminate).
  rewrite bool_decide_eq_true_2 by reflexivity.
  cbn [mbind outcome_bind cw_offset cw_sampleRate cw_channels cw_bitsPerSample
       cw_dataOffset cw_dataSize].
  replace (dataSize mod 2) with 0
    by (subst dataSize; rewrite Z.mod_mul by lia; reflexivity).
  change (negb (0 =? 0)) with false. cbv iota.
  rewrite walkChunks_done by (cbn [cw_offset]; rewrite Hlen; subst dataSize; lia).
  cbn [mbind outcome_bind cw_offset cw_sampleRate cw_channels cw_bitsPerSample
       cw_dataOffset cw_dataSize].
  change (44 =? 0) with false.
  destruct (Z.eqb_spec rate 0); [lia|]. cbn [orb].
  replace (Z.to_nat ((dataSize + 1) / 2)) with (length smp)
    by (subst dataSize; rewrite Z.div_add_l by lia;
        change (1 / 2) with 0; lia).
  rewrite Hdata.
  rewrite (readSamples_reads smp _ 44 0) by (assumption || reflexivity).
  cbn [mbind outcome_bind].
  replace (Z.to_nat (dataSize / 2)) with (length smp)
    by (subst dataSize; rewrite Z.div_mul by lia; lia).
  rewrite firstn_all. reflexivity.
Qed.

(** X1: for every 16-bit PCM recording whose fields fit the header
    (samples in the Int16 range, sample rate in 1..2^32-1, channel count
    below 2^16, bitsPerSample 16, data size below 2^32), [encodeWav] returns
    a file of 44 + 2 * samples bytes and [decodeWav] of that file returns the
    recording unchanged: samples, sample rate, channels and bit depth. *)
Theorem wav_codec_roundtrip (wav : WavData) :
  wf_wav wav ->
  exists file,
    encodeWav wav = Returned file /\
    length file = (44 + 2 * length (samples wav))%nat /\
    decodeWav file = Returned wav.
Proof.
  intros Hwf. exists (wavFile wav). split; [apply encodeWav_file|].
  split; [apply length_wavFile|]. apply decodeWav_file. exact Hwf.
Qed.

Lemma wav_codec_roundtrip_witness :
  exists file,
    encodeWav twentySamples = Returned file /\
    length file = (44 + 2 * length (samples twentySamples))%nat /\
    decodeWav file = Returned twentySamples.
Proof.
  apply (wav_codec_roundtrip twentySamples).
  unfold wf_wav, twentySamples. cbn [samples sampleRate channels bitsPerSample].
  repeat split; try (cbn; lia).
  repeat constructor; unfold is_int16; cbn; lia.
Defined.

Lemma toInt16_is_int16 (x : Z) : is_int16 (toInt16 x).
Proof.
  unfold is_int16, toInt16.
  change (2 ^ 15) with 32768. change (2 ^ 16) with 65536.
  pose proof (Z.mod_pos_bound (x + 32768) 65536 ltac:(lia)). lia.
Qed.

Lemma embedSamples_int16 (bits : list Z) (d : Z) (samples : list Z) :
  forall (bitIndex : nat),
    Forall is_int16 samples ->
    Forall is_int16 (embedSamples bits d samples bitIndex).
Proof.
  induction samples as [|sample rest IH]; intros bitIndex Hrange; [constructor|].
  inversion Hrange as [|? ? Hsample Hrest]; subst. cbn [embedSamples].
  destruct (bitIndex <? length bits)%nat; [|exact Hrange].
  destruct (setLsbBits _ _ _ _ _) as [newValue next].
  constructor; [apply toInt16_is_int16|apply IH; exact Hrest].
Qed.

Lemma embedWavData_wf (wav stego : WavData) (payload : list Z) (d : Z) :
  wf_wav wav ->
  embedWavData wav payload d = Returned stego ->
  wf_wav stego.
Proof.
  intros (Hsamples & Hrate & Hchan & Hbps & Hsize). unfold embedWavData.
  destruct (_ <? _); [discriminate|]. intros [= <-].
  unfold wf_wav. cbn [samples sampleRate channels bitsPerSample].
  split; [|split; [|split; [|split]]]; try assumption.
  - apply embedSamples_int16. apply Forall_map, Forall_forall.
    intros x _. apply toInt16_is_int16.
  - rewrite length_embedSamples, length_map. exact Hsize.
Qed.

(** X2: hiding a message in a recording, saving the result as a WAV file
    and reading that file back loses nothing: for every well-formed
    recording, depth d in 1..4 and message M of 1..2^31-1 bytes whose frame
    fits, [embedWavData] and [encodeWav] succeed, [decodeWav] accepts the
    file, and [extractWavData] at depth d on the decoded recording returns
    exactly M. *)
Theorem wav_file_carries_message (wav : WavData) (M : list Z) (d : Z) :
  wf_wav wav ->
  1 <= d <= 4 ->
  Forall is_byte M ->
  0 < Z.of_nat (length M) < 2 ^ 31 ->
  (8 + Z.of_nat (length M)) * 8 <= Z.of_nat (length (samples wav)) * d ->
  exists stego file decoded,
    embedWavData wav M d = Returned stego /\
    encodeWav stego = Returned file /\
    decodeWav file = Returned decoded /\
    extractWavData decoded d = Some M.
Proof.
  intros Hwf Hd HM Hlen Hfit.
  destruct (audio_roundtrip wav M d Hd HM Hlen Hfit) as (stego & Hembed & Hextract).
  exists stego, (wavFile stego), stego.
  repeat split; try assumption.
  - apply encodeWav_file.
  - apply decodeWav_file. exact (embedWavData_wf wav stego M d Hwf Hembed).
Qed.

Lemma wav_file_carries_message_witness :
  exists stego file decoded,
    embedWavData twentySamples [165; 90] 4 = Returned stego /\
    encodeWav stego = Returned file /\
    decodeWav file = Returned decoded /\
    extractWavData decoded 4 = Some [165; 90].
Proof.
  apply (wav_file_carries_message twentySamples [165; 90] 4).
  - unfold wf_wav, twentySamples. cbn [samples sampleRate channels bitsPerSample].
    repeat split; try (cbn; lia).
    repeat constructor; unfold is_int16; cbn; lia.
  - lia.
  - repeat constructor; unfold is_byte; lia.
  - cbn. lia.
  - cbn. lia.
Defined.

(** ** Lists made of chunks of one length *)

Lemma length_flat_map_const {A} (m : nat) (g : A -> list Z) (l : list A) :
  (forall i, length (g i) = m) ->
  length (flat_map g l) = (m * length l)%nat.
Proof.
  intros Hg. induction l as [|i l IH]; cbn [flat_map length]; [lia|].
  rewrite length_app, Hg, IH. lia.
Qed.

Lemma flat_map_ext_in {A} (f g : A -> list Z) (l : list A) :
  (forall i, In i l -> f i = g i) -> flat_map f l = flat_map g l.
Proof.
  induction l as [|i l IH]; intros Hfg; [reflexivity|].
  cbn [flat_map]. rewrite (Hfg i) by (left; reflexivity).
  rewrite IH by (intros; apply Hfg; right; assumption). reflexivity.
Qed.

Lemma get_flat_map_chunk (m : nat) (g : nat -> list Z) (n : nat) :
  (forall i, length (g i) = m) ->
  forall (a i c : nat), (i < n)%nat -> (c < m)%nat ->
    get (flat_map g (seq a n)) (i * m + c) = get (g (a + i)%nat) c.
Proof.
  intros Hg. induction n as [|n IH]; intros a i c Hi Hc; [lia|].
  cbn [seq flat_map]. unfold get. destruct i as [|i].
  - cbn [Nat.mul Nat.add]. rewrite lookup_app_l by (rewrite Hg; lia).
    replace (a + 0)%nat with a by lia. reflexivity.
  - rewrite lookup_app_r by (rewrite Hg; lia). rewrite Hg.
    replace (S i * m + c - m)%nat with (i * m + c)%nat by lia.
    replace (a + S i)%nat with (S a + i)%nat by lia.
    apply (IH (S a) i c); lia.
Qed.

(** ** BMP: the pixel loops in closed form *)

Lemma insert_quad (pre rest : list Z) (n : nat) (o0 o1 o2 o3 a b c d : Z) :
  length pre = n ->
  <[(n + 3)%nat := d]>
    (<[n := a]> (<[(n + 1)%nat := b]> (<[(n + 2)%nat := c]>
       (pre ++ o0 :: o1 :: o2 :: o3 :: rest)))) =
  pre ++ a :: b :: c :: d :: rest.
Proof.
  intros <-. rewrite !insert_app_r_alt by lia.
  replace (length pre + 3 - length pre)%nat with 3%nat by lia.
  replace (length pre + 2 - length pre)%nat with 2%nat by lia.
  replace (length pre + 1 - length pre)%nat with 1%nat by lia.
  replace (length pre - length pre)%nat with 0%nat by lia.
  reflexivity.
Qed.

Lemma insert_quad_seq (pre rest : list Z) (n : nat) (o0 o1 o2 o3 a b c d : Z) :
  length pre = n ->
  <[(n + 3)%nat := d]>
    (<[(n + 2)%nat := c]> (<[(n + 1)%nat := b]> (<[n := a]>
       (pre ++ o0 :: o1 :: o2 :: o3 :: rest)))) =
  pre ++ a :: b :: c :: d :: rest.
Proof.
  intros <-. rewrite !insert_app_r_alt by lia.
  replace (length pre + 3 - length pre)%nat with 3%nat by lia.
  replace (length pre + 2 - length pre)%nat with 2%nat by lia.
  replace (length pre + 1 - length pre)%nat with 1%nat by lia.
  replace (length pre - length pre)%nat with 0%nat by lia.
  reflexivity.
Qed.

Section BmpPixels.
Variables (data : list Z) (dataOffset width absHeight bytesPerPixel : Z)
  (isTopDown : bool) (rowSize : Z).
Hypothesis width_nonneg : 0 <= width.

Lemma bmpPixels_row (y k : nat) : forall (a m : nat) (pre : list Z),
  length pre = (4 * (y * Z.to_nat width + a))%nat ->
  fold_left
    (bmpStorePixel data dataOffset width absHeight bytesPerPixel isTopDown
       rowSize y)
    (seq a k) (pre ++ replicate (4 * k + m) 0) =
  pre ++
  flat_map
    (bmpPixelAt data dataOffset absHeight bytesPerPixel isTopDown rowSize y)
    (seq a k) ++
  replicate m 0.
Proof.
  induction k as [|k IH]; intros a m pre Hpre.
  - reflexivity.
  - cbn [seq fold_left flat_map].
    replace (4 * S k + m)%nat with (4 + (4 * k + m))%nat by lia.
    rewrite replicate_add. cbn [replicate app].
    unfold bmpStorePixel at 2. cbv zeta.
    replace (Z.to_nat ((Z.of_nat y * width + Z.of_nat a) * 4))
      with (length pre) by (rewrite Hpre; nia).
    rewrite (insert_quad pre _ (length pre)) by reflexivity.
    match goal with
    | |- fold_left _ _ (pre ++ ?a0 :: ?a1 :: ?a2 :: ?a3 :: ?rest) = _ =>
        change (pre ++ a0 :: a1 :: a2 :: a3 :: rest)
          with (pre ++ [a0; a1; a2; a3] ++ rest)
    end.
    rewrite (app_assoc pre), IH by (rewrite length_app; cbn [length]; lia).
    rewrite <- !app_assoc. reflexivity.
Qed.

Lemma bmpPixels_rows (h : nat) : forall (b m : nat) (pre : list Z),
  length pre = (4 * (b * Z.to_nat width))%nat ->
  fold_left
    (fun pixels y =>
       fold_left
         (bmpStorePixel data dataOffset width absHeight bytesPerPixel isTopDown
            rowSize y)
         (seq 0 (Z.to_nat width)) pixels)
    (seq b h) (pre ++ replicate (4 * (h * Z.to_nat width) + m) 0) =
  pre ++
  flat_map
    (fun y =>
       flat_map
         (bmpPixelAt data dataOffset absHeight bytesPerPixel isTopDown rowSize y)
         (seq 0 (Z.to_nat width)))
    (seq b h) ++
  replicate m 0.
Proof.
  induction h as [|h IH]; intros b m pre Hpre.
  - reflexivity.
  - cbn [seq fold_left flat_map].
    replace (4 * (S h * Z.to_nat width) + m)%nat
      with (4 * Z.to_nat width + (4 * (h * Z.to_nat width) + m))%nat by lia.
    rewrite (bmpPixels_row b (Z.to_nat width) 0 _ pre) by lia.
    rewrite (app_assoc pre), IH
      by (rewrite length_app, (length_flat_map_const 4), length_seq;
          [lia|reflexivity]).
    rewrite <- !app_assoc. reflexivity.
Qed.

Lemma bmpPixels_fill :
  0 <= absHeight ->
  bmpPixels data dataOffset width absHeight bytesPerPixel isTopDown rowSize
    (replicate (Z.to_nat (width * absHeight * 4)) 0) =
  flat_map
    (fun y =>
       flat_map
         (bmpPixelAt data dataOffset absHeight bytesPerPixel isTopDown rowSize y)
         (seq 0 (Z.to_nat width)))
    (seq 0 (Z.to_nat absHeight)).
Proof.
  intros Hheight. unfold bmpPixels.
  replace (Z.to_nat (width * absHeight * 4))
    with (4 * (Z.to_nat absHeight * Z.to_nat width) + 0)%nat by nia.
  pose proof (bmpPixels_rows (Z.to_nat absHeight) 0 0 [] eq_refl) as Hrows.
  cbn [app replicate] in Hrows. rewrite app_nil_r in Hrows. exact Hrows.
Qed.
End BmpPixels.

Section BmpData.
Variables (pixels : list Z) (width : Z).
Hypothesis width_nonneg : 0 <= width.

Lemma bmpData_row (y k : nat) : forall (a m : nat) (pre : list Z),
  fold_left (bmpStoreQuad pixels width y) (seq a k)
    (pre ++ replicate (4 * k + m) 0, length pre) =
  (pre ++
   flat_map (fun x => bmpQuad pixels (y * Z.to_nat width + x)) (seq a k) ++
   replicate m 0,
   (length pre + 4 * k)%nat).
Proof.
  induction k as [|k IH]; intros a m pre.
  - cbn [seq fold_left flat_map app Nat.mul Nat.add]. f_equal. lia.
  - cbn [seq fold_left flat_map].
    replace (4 * S k + m)%nat with (4 + (4 * k + m))%nat by lia.
    rewrite replicate_add. cbn [replicate app].
    unfold bmpStoreQuad at 2. cbv zeta.
    replace (Z.to_nat ((Z.of_nat y * width + Z.of_nat a) * 4))
      with (4 * (y * Z.to_nat width + a))%nat by nia.
    rewrite (insert_quad_seq pre _ (length pre)) by reflexivity.
    match goal with
    | |- fold_left _ _ (pre ++ ?a0 :: ?a1 :: ?a2 :: ?a3 :: ?rest, _) = _ =>
        change (pre ++ a0 :: a1 :: a2 :: a3 :: rest)
          with (pre ++ [a0; a1; a2; a3] ++ rest)
    end.
    rewrite (app_assoc pre).
    replace (length pre + 4)%nat
      with (length (pre ++
                    [ toUint8 (get pixels (4 * (y * Z.to_nat width + a) + 2));
                      toUint8 (get pixels (4 * (y * Z.to_nat width + a) + 1));
                      toUint8 (get pixels (4 * (y * Z.to_nat width + a)));
                      toUint8 (get pixels (4 * (y * Z.to_nat width + a) + 3)) ]))
      by (rewrite length_app; reflexivity).
    rewrite IH. rewrite <- !app_assoc. f_equal.
    rewrite length_app. cbn [length]. lia.
Qed.

Lemma bmpData_rows (h : nat) : forall (b m : nat) (pre : list Z),
  fold_left
    (fun state y =>
       fold_left (bmpStoreQuad pixels width y) (seq 0 (Z.to_nat width)) state)
    (seq b h) (pre ++ replicate (4 * (h * Z.to_nat width) + m) 0, length pre) =
  (pre ++
   flat_map
     (fun y =>
        flat_map (fun x => bmpQuad pixels (y * Z.to_nat width + x))
          (seq 0 (Z.to_nat width)))
     (seq b h) ++
   replicate m 0,
   (length pre + 4 * (h * Z.to_nat width))%nat).
Proof.
  induction h as [|h IH]; intros b m pre.
  - cbn [seq fold_left flat_map app Nat.mul Nat.add]. f_equal. lia.
  - cbn [seq fold_left flat_map].
    replace (4 * (S h * Z.to_nat width) + m)%nat
      with (4 * Z.to_nat width + (4 * (h * Z.to_nat width) + m))%nat by lia.
    rewrite bmpData_row.
    set (row := flat_map (fun x => bmpQuad pixels (b * Z.to_nat width + x))
                  (seq 0 (Z.to_nat width))).
    assert (Hrow : length row = (4 * Z.to_nat width)%nat).
    { subst row. rewrite (length_flat_map_const 4), length_seq;
        [lia|reflexivity]. }
    rewrite (app_assoc pre).
    replace (length pre + 4 * Z.to_nat width)%nat with (length (pre ++ row))
      by (rewrite length_app, Hrow; reflexivity).
    rewrite IH. rewrite <- !app_assoc. f_equal.
    rewrite length_app, Hrow. lia.
Qed.
End BmpData.

Lemma encodeBMP_file (pixels : list Z) (width height : Z) :
  0 <= width -> 0 <= height ->
  encodeBMP pixels width height = Returned (bmpFile pixels width height).
Proof.
  intros Hw Hh. unfold encodeBMP, bmpFile, bmpHeader, setUint32, setUint16, setInt32.
  destruct (Z.ltb_spec (54 + width * 4 * height) 0); [nia|].
  replace (Z.to_nat (54 + width * 4 * height))
    with (54 + (4 * (Z.to_nat height * Z.to_nat width) + 0))%nat by nia.
  rewrite replicate_add.
  generalize (54 + width * 4 * height) as fileSize.
  generalize (width * 4 * height) as pixelDataSize.
  generalize (- height) as negHeight.
  intros negHeight pixelDataSize fileSize.
  cbn [replicate app insert list_insert].
  do 14 store_step.
  match goal with
  | |- Returned (fst (bmpData pixels width height ?buffer _)) = _ =>
      pose proof (bmpData_rows pixels width Hw (Z.to_nat height) 0 0
                    (firstn 54 buffer)) as Hrows
  end.
  cbn [firstn length app] in Hrows. unfold bmpData.
  change (Z.to_nat 54) with 54%nat.
  match type of Hrows with
  | _ = ?result =>
      match goal with
      | |- Returned (fst ?loop) = _ =>
          replace loop with result by (symmetry; exact Hrows)
      end
  end.
  cbn [fst replicate]. rewrite app_nil_r. reflexivity.
Qed.

Lemma get_nested_quads (g : nat -> nat -> list Z) (w h y x c : nat) :
  (forall y x, length (g y x) = 4%nat) ->
  (y < h)%nat -> (x < w)%nat -> (c < 4)%nat ->
  get (flat_map (fun y => flat_map (g y) (seq 0 w)) (seq 0 h))
      (4 * (y * w + x) + c) =
  get (g y x) c.
Proof.
  intros Hg Hy Hx Hc.
  replace (4 * (y * w + x) + c)%nat with (y * (4 * w) + (x * 4 + c))%nat by lia.
  rewrite (get_flat_map_chunk (4 * w) (fun y => flat_map (g y) (seq 0 w)) h);
    [|intros i; rewrite (length_flat_map_const 4), length_seq;
      [reflexivity|intros; apply Hg]|exact Hy|lia].
  cbn [Nat.add].
  rewrite (get_flat_map_chunk 4 (g y) w);
    [reflexivity|intros; apply Hg|exact Hx|exact Hc].
Qed.

Lemma length_nested_quads (g : nat -> nat -> list Z) (w h : nat) :
  (forall y x, length (g y x) = 4%nat) ->
  length (flat_map (fun y => flat_map (g y) (seq 0 w)) (seq 0 h)) =
  (4 * (h * w))%nat.
Proof.
  intros Hg.
  rewrite (length_flat_map_const (4 * w)), length_seq; [lia|].
  intros i. rewrite (length_flat_map_const 4), length_seq;
    [reflexivity|intros; apply Hg].
Qed.

Lemma pixel_position (w h i : nat) :
  (i < 4 * (h * w))%nat ->
  exists y x c,
    (y < h)%nat /\ (x < w)%nat /\ (c < 4)%nat /\ i = (4 * (y * w + x) + c)%nat.
Proof.
  intros Hi.
  assert (Hw : (0 < w)%nat) by (destruct w; [lia|lia]).
  exists (i / 4 / w)%nat, ((i / 4) mod w)%nat, (i mod 4)%nat.
  pose proof (Nat.div_mod_eq i 4) as H4.
  pose proof (Nat.div_mod_eq (i / 4) w) as Hkw.
  pose proof (Nat.mod_upper_bound i 4 ltac:(lia)).
  pose proof (Nat.mod_upper_bound (i / 4) w ltac:(lia)).
  assert ((i / 4 < h * w)%nat) by (apply Nat.Div0.div_lt_upper_bound; lia).
  assert ((i / 4 / w < h)%nat) by (apply Nat.Div0.div_lt_upper_bound; lia).
  repeat split; try assumption. lia.
Qed.

(** A pixel array is the sequence of its pixels, row by row. *)
Lemma rgba_rows (pixels : list Z) (w h : nat) :
  length pixels = (4 * (h * w))%nat ->
  flat_map (fun y => flat_map (fun x => rgbaAt pixels (y * w + x)) (seq 0 w))
    (seq 0 h) = pixels.
Proof.
  intros Hlen. apply get_ext.
  - rewrite (length_nested_quads (fun y x => rgbaAt pixels (y * w + x)))
      by reflexivity.
    symmetry. exact Hlen.
  - rewrite (length_nested_quads (fun y x => rgbaAt pixels (y * w + x)))
      by reflexivity.
    intros i Hi.
    destruct (pixel_position w h i Hi) as (y & x & c & Hy & Hx & Hc & ->).
    rewrite (get_nested_quads (fun y x => rgbaAt pixels (y * w + x)))
      by (reflexivity || assumption).
    destruct c as [|[|[|[|c]]]]; try lia; try reflexivity.
    change (get pixels (4 * (y * w + x)) = get pixels (4 * (y * w + x) + 0)).
    f_equal. lia.
Qed.

Lemma length_bmpFile (pixels : list Z) (width height : Z) :
  length (bmpFile pixels width height) =
  (54 + 4 * (Z.to_nat height * Z.to_nat width))%nat.
Proof.
  unfold bmpFile. rewrite length_app.
  rewrite (length_nested_quads
             (fun y x => bmpQuad pixels (y * Z.to_nat width + x)))
    by reflexivity.
  reflexivity.
Qed.

Lemma toUint8_byte (v : Z) : is_byte v -> toUint8 v = v.
Proof. unfold is_byte, toUint8. intros Hv. apply Z.mod_small. exact Hv. Qed.

Lemma bmpFile_fields (pixels : list Z) (width height : Z) :
  0 < width < 2 ^ 31 -> 0 < height <= 2 ^ 31 ->
  let file := bmpFile pixels width height in
  get file 0 = 0x42 /\ get file 1 = 0x4D /\
  getUint32 file 10 = Returned 54 /\
  getInt32 file 18 = Returned width /\
  getInt32 file 22 = Returned (- height) /\
  getUint16 file 28 = Returned 32.
Proof.
  intros Hw Hh file. change (2 ^ 31) with 2147483648 in *.
  assert (G18 : getUint32 file 18 = Returned width).
  { load_fact width. apply Z.mod_small.
    change (256 ^ Z.of_nat 4) with 4294967296. lia. }
  assert (G22 : getUint32 file 22 = Returned (2 ^ 32 - height)).
  { load_fact (- height). change (256 ^ Z.of_nat 4) with (2 ^ 32).
    rewrite <- (Z.mod_small (2 ^ 32 - height) (2 ^ 32))
      by (change (2 ^ 32) with 4294967296; lia).
    replace (2 ^ 32 - height) with (- height + 1 * 2 ^ 32) by lia.
    rewrite Z.mod_add by lia. reflexivity. }
  assert (Hneg : toInt32 (2 ^ 32 - height) = - height).
  { unfold toInt32. change (2 ^ 32) with 4294967296.
    change (2 ^ 31) with 2147483648.
    replace (4294967296 - height + 2147483648)
      with (2147483648 - height + 1 * 4294967296) by lia.
    rewrite Z.mod_add, Z.mod_small by lia. lia. }
  repeat split; try reflexivity.
  - load_fact 54; reflexivity.
  - unfold getInt32. rewrite G18. cbn [mbind outcome_bind].
    rewrite toInt32_small by (change (2 ^ 31) with 2147483648; lia).
    reflexivity.
  - unfold getInt32. rewrite G22. cbn [mbind outcome_bind].
    rewrite Hneg. reflexivity.
  - load_fact 32; reflexivity.
Qed.

(** The decoder's pixel loop on a file the encoder wrote. *)
Lemma bmpFile_pixels (pixels : list Z) (width height : Z) :
  0 < width -> 0 < height ->
  Z.of_nat (length pixels) = 4 * (width * height) ->
  Forall is_byte pixels ->
  bmpPixels (bmpFile pixels width height) 54 width height 4 true
    ((width * 4 + 3) / 4 * 4)
    (replicate (Z.to_nat (width * height * 4)) 0) = pixels.
Proof.
  intros Hw Hh Hpixels Hbytes.
  pose proof (length_bmpFile pixels width height) as Hlen.
  set (w := Z.to_nat width) in *. set (h := Z.to_nat height) in *.
  assert (Hbody : drop 54 (bmpFile pixels width height) =
                  flat_map (fun y => flat_map (fun x => bmpQuad pixels (y * w + x))
                                       (seq 0 w)) (seq 0 h)) by reflexivity.
  set (file := bmpFile pixels width height) in *. clearbody file.
  rewrite bmpPixels_fill by lia. fold w h.
  transitivity
    (flat_map (fun y => flat_map (fun x => rgbaAt pixels (y * w + x)) (seq 0 w))
       (seq 0 h));
    [|apply rgba_rows; subst w h; nia].
  apply flat_map_ext_in. intros y Hy. apply in_seq in Hy.
  apply flat_map_ext_in. intros x Hx. apply in_seq in Hx.
  unfold bmpPixelAt, rgbaAt. change (4 =? 4) with true. cbv iota zeta.
  replace (Z.to_nat (54 + Z.of_nat y * ((width * 4 + 3) / 4 * 4) + Z.of_nat x * 4))
    with (54 + 4 * (y * w + x))%nat.
  2:{ replace ((width * 4 + 3) / 4) with width
        by (apply Z.div_unique with 3; lia).
      subst w. nia. }
  assert (Hread : forall c, (c < 4)%nat ->
            get file (54 + 4 * (y * w + x) + c) =
            get (bmpQuad pixels (y * w + x)) c).
  { intros c Hc. unfold get at 1.
    rewrite <- (take_drop 54 file), Hbody.
    rewrite lookup_app_r by (rewrite length_take; lia).
    rewrite length_take, Hlen.
    replace (54 + 4 * (y * w + x) + c - 54 `min` (54 + 4 * (h * w)))%nat
      with (4 * (y * w + x) + c)%nat by lia.
    apply (get_nested_quads (fun y x => bmpQuad pixels (y * w + x)) w h y x c);
      (reflexivity || lia). }
  assert (Hb : forall i, clampUint8 (toUint8 (get pixels i)) = get pixels i).
  { intros i. rewrite toUint8_byte, clampUint8_byte;
      try apply get_is_byte; try assumption; reflexivity. }
  replace (54 + 4 * (y * w + x))%nat with (54 + 4 * (y * w + x) + 0)%nat at 3
    by lia.
  rewrite !Hread by lia. unfold bmpQuad.
  cbn [get lookup list_lookup default from_option id].
  rewrite !Hb. reflexivity.
Qed.

Lemma decodeBMP_file (pixels : list Z) (width height : Z) :
  0 < width <= 32768 -> 0 < height <= 32768 ->
  Z.of_nat (length pixels) = 4 * (width * height) ->
  Forall is_byte pixels ->
  decodeBMP (bmpFile pixels width height) = Returned (mkImageData width height pixels).
Proof.
  intros Hw Hh Hpixels Hbytes.
  pose proof (length_bmpFile pixels width height) as Hlen.
  pose proof (bmpFile_pixels pixels width height ltac:(lia) ltac:(lia)
                Hpixels Hbytes) as Hloop.
  destruct (bmpFile_fields pixels width height)
    as (H0 & H1 & G10 & G18 & G22 & G28);
    [change (2 ^ 31) with 2147483648; lia
    |change (2 ^ 31) with 2147483648; lia|].
  set (file := bmpFile pixels width height) in *. clearbody file.
  unfold decodeBMP, decodeBMPOn. rewrite Hlen.
  destruct (Z.ltb_spec
              (Z.of_nat (54 + 4 * (Z.to_nat height * Z.to_nat width))) 54);
    [lia|].
  rewrite H0, H1. cbn [Z.eqb Pos.eqb negb orb].
  rewrite G10, G18, G22, G28. cbn [mbind outcome_bind].
  rewrite Z.abs_opp, (Z.abs_eq height) by lia.
  destruct (Z.leb_spec width 0); [lia|].
  destruct (Z.ltb_spec 32768 width); [lia|].
  destruct (Z.leb_spec height 0); [lia|].
  destruct (Z.ltb_spec 32768 height); [lia|].
  cbn [orb].
  destruct (Z.leb_spec
              (Z.of_nat (54 + 4 * (Z.to_nat height * Z.to_nat width))) 54);
    [nia|].
  change (negb (32 =? 24) && negb (32 =? 32)) with false. cbv iota.
  change (32 / 8) with 4.
  destruct (Z.ltb_spec (- height) 0); [|lia].
  rewrite Hloop. reflexivity.
Qed.

Lemma bmp_pair (img : ImageData) :
  wf_image img ->
  0 < width img <= 32768 ->
  0 < height img <= 32768 ->
  exists file,
    encodeBMP (data img) (width img) (height img) = Returned file /\
    decodeBMP file = Returned img.
Proof.
  intros (_ & _ & Hsize & Hbytes) Hw Hh.
  exists (bmpFile (data img) (width img) (height img)).
  split; [apply encodeBMP_file; lia|].
  rewrite decodeBMP_file by assumption.
  destruct img; reflexivity.
Qed.

(** X3: for every RGBA image of 1..32768 by 1..32768 pixels, [encodeBMP]
    returns a file of 54 + 4 * width * height bytes and [decodeBMP] of that
    file returns the image unchanged: same width, same height, same bytes,
    alpha included. *)
Theorem bmp_codec_roundtrip (img : ImageData) :
  wf_image img ->
  0 < width img <= 32768 ->
  0 < height img <= 32768 ->
  exists file,
    encodeBMP (data img) (width img) (height img) = Returned file /\
    Z.of_nat (length file) = 54 + 4 * (width img * height img) /\
    decodeBMP file = Returned img.
Proof.
  intros (_ & _ & Hsize & Hbytes) Hw Hh.
  exists (bmpFile (data img) (width img) (height img)).
  split; [apply encodeBMP_file; lia|].
  split; [rewrite length_bmpFile; nia|].
  rewrite decodeBMP_file by assumption.
  destruct img; reflexivity.
Qed.

Lemma bmp_codec_roundtrip_witness :
  exists file,
    encodeBMP (data sixPixels) (width sixPixels) (height sixPixels) =
      Returned file /\
    Z.of_nat (length file) = 54 + 4 * (width sixPixels * height sixPixels) /\
    decodeBMP file = Returned sixPixels.
Proof.
  apply (bmp_codec_roundtrip sixPixels).
  - unfold wf_image. cbn. repeat split; try lia.
    repeat constructor; unfold is_byte; lia.
  - cbn. lia.
  - cbn. lia.
Defined.

Lemma getUintLE_in_bounds (size : nat) (buffer : list Z) (offset : Z) :
  0 <= offset -> offset + Z.of_nat size <= Z.of_nat (length buffer) ->
  exists v, getUintLE size buffer offset = Returned v.
Proof.
  intros Hlow Hhigh. unfold getUintLE.
  destruct (Z.leb_spec 0 offset); [|lia].
  destruct (Z.leb_spec (offset + Z.of_nat size) (Z.of_nat (length buffer)));
    [|lia].
  eexists. reflexivity.
Qed.

Lemma bmpPixelAt_bytes data dataOffset absHeight bytesPerPixel isTopDown rowSize y x :
  length (bmpPixelAt data dataOffset absHeight bytesPerPixel isTopDown rowSize y x)
    = 4%nat /\
  Forall is_byte
    (bmpPixelAt data dataOffset absHeight bytesPerPixel isTopDown rowSize y x).
Proof.
  split; [reflexivity|]. unfold bmpPixelAt.
  repeat constructor; apply clampUint8_is_byte.
Qed.

Lemma Forall_flat_map {A} (P : Z -> Prop) (g : A -> list Z) (l : list A) :
  (forall i, Forall P (g i)) -> Forall P (flat_map g l).
Proof.
  intros Hg. induction l as [|i l IH]; cbn [flat_map]; [constructor|].
  apply Forall_app. split; [apply Hg|exact IH].
Qed.

(** What the decoder does on an arbitrary buffer, case by case. *)
Lemma decodeBMPOn_cases (allocates : Z -> bool) (buffer : list Z) :
  decodeBMPOn allocates buffer =
    Threw (Error "Invalid BMP file: file too small (corrupted or truncated)") /\
    Z.of_nat (length buffer) < 54 \/
  54 <= Z.of_nat (length buffer) /\
  (decodeBMPOn allocates buffer =
     Threw (Error "Invalid BMP file: missing BM signature") \/
   decodeBMPOn allocates buffer =
     Threw (Error "Invalid BMP file: unreasonable dimensions (corrupted header)") \/
   decodeBMPOn allocates buffer =
     Threw (Error "Invalid BMP file: data offset exceeds file size (corrupted)") \/
   (exists bitsPerPixel,
       bitsPerPixel <> 24 /\ bitsPerPixel <> 32 /\
       decodeBMPOn allocates buffer = Threw (UnsupportedBmpFormat bitsPerPixel)) \/
   (exists announcedWidth signedHeight,
       decodeBMPOn allocates buffer = Threw ALLOCATION_REFUSED /\
       getInt32 buffer 18 = Returned announcedWidth /\
       getInt32 buffer 22 = Returned signedHeight /\
       0 < announcedWidth <= 32768 /\ 0 < Z.abs signedHeight <= 32768 /\
       allocates (announcedWidth * Z.abs signedHeight * 4) = false) \/
   (exists dataOffset signedHeight bitsPerPixel img,
       decodeBMPOn allocates buffer = Returned img /\
       getUint32 buffer 10 = Returned dataOffset /\
       getInt32 buffer 22 = Returned signedHeight /\
       getUint16 buffer 28 = Returned bitsPerPixel /\
       (bitsPerPixel = 24 \/ bitsPerPixel = 32) /\
       0 < width img <= 32768 /\
       height img = Z.abs signedHeight /\ 0 < height img <= 32768 /\
       allocates (width img * height img * 4) = true /\
       data img =
         flat_map
           (fun y =>
              flat_map
                (bmpPixelAt buffer dataOffset (Z.abs signedHeight) (bitsPerPixel / 8)
                   (signedHeight <? 0)
                   ((width img * (bitsPerPixel / 8) + 3) / 4 * 4) y)
                (seq 0 (Z.to_nat (width img))))
           (seq 0 (Z.to_nat (height img))))).
Proof.
  unfold decodeBMPOn, getInt32, getUint32, getUint16.
  destruct (Z.ltb_spec (Z.of_nat (length buffer)) 54) as [Hsmall|Hbig];
    [left; split; [reflexivity|lia]|right; split; [lia|]].
  destruct (negb (get buffer 0 =? 66) || negb (get buffer 1 =? 77));
    [left; reflexivity|right].
  destruct (getUintLE_in_bounds 4 buffer 10 ltac:(lia) ltac:(lia))
    as (dataOffset & ->).
  destruct (getUintLE_in_bounds 4 buffer 18 ltac:(lia) ltac:(lia))
    as (w & ->).
  destruct (getUintLE_in_bounds 4 buffer 22 ltac:(lia) ltac:(lia))
    as (h & ->).
  destruct (getUintLE_in_bounds 2 buffer 28 ltac:(lia) ltac:(lia))
    as (bpp & ->).
  cbn [mbind outcome_bind].
  destruct (Z.leb_spec (toInt32 w) 0); [left; reflexivity|].
  destruct (Z.ltb_spec 32768 (toInt32 w)); [left; reflexivity|].
  destruct (Z.leb_spec (Z.abs (toInt32 h)) 0); [left; reflexivity|].
  destruct (Z.ltb_spec 32768 (Z.abs (toInt32 h))); [left; reflexivity|].
  cbn [orb]. right.
  destruct (Z.leb_spec (Z.of_nat (length buffer)) dataOffset);
    [left; reflexivity|right].
  destruct (Z.eqb_spec bpp 24) as [H24|H24];
    destruct (Z.eqb_spec bpp 32) as [H32|H32]; cbn [negb andb];
    try (left; exists bpp; repeat split; (assumption || reflexivity)); right;
    (destruct (allocates (toInt32 w * Z.abs (toInt32 h) * 4)) eqn:Hgrant;
     cbn [negb];
     [right; exists dataOffset, (toInt32 h), bpp; eexists;
      split; [reflexivity|];
      cbn [width height data];
      rewrite bmpPixels_fill by lia;
      repeat split; (reflexivity || lia || tauto || assumption)
     |left; exists (toInt32 w), (toInt32 h);
      repeat split; (reflexivity || lia || assumption)]).
Qed.

(** The same on a platform that grants every array. *)
Lemma decodeBMP_cases (buffer : list Z) :
  decodeBMP buffer =
    Threw (Error "Invalid BMP file: file too small (corrupted or truncated)") /\
    Z.of_nat (length buffer) < 54 \/
  54 <= Z.of_nat (length buffer) /\
  (decodeBMP buffer = Threw (Error "Invalid BMP file: missing BM signature") \/
   decodeBMP buffer =
     Threw (Error "Invalid BMP file: unreasonable dimensions (corrupted header)") \/
   decodeBMP buffer =
     Threw (Error "Invalid BMP file: data offset exceeds file size (corrupted)") \/
   (exists bitsPerPixel,
       bitsPerPixel <> 24 /\ bitsPerPixel <> 32 /\
       decodeBMP buffer = Threw (UnsupportedBmpFormat bitsPerPixel)) \/
   (exists dataOffset signedHeight bitsPerPixel img,
       decodeBMP buffer = Returned img /\
       getUint32 buffer 10 = Returned dataOffset /\
       getInt32 buffer 22 = Returned signedHeight /\
       getUint16 buffer 28 = Returned bitsPerPixel /\
       (bitsPerPixel = 24 \/ bitsPerPixel = 32) /\
       0 < width img <= 32768 /\
       height img = Z.abs signedHeight /\ 0 < height img <= 32768 /\
       data img =
         flat_map
           (fun y =>
              flat_map
                (bmpPixelAt buffer dataOffset (Z.abs signedHeight) (bitsPerPixel / 8)
                   (signedHeight <? 0)
                   ((width img * (bitsPerPixel / 8) + 3) / 4 * 4) y)
                (seq 0 (Z.to_nat (width img))))
           (seq 0 (Z.to_nat (height img))))).
Proof.
  unfold decodeBMP.
  destruct (decodeBMPOn_cases (fun _ => true) buffer)
    as [Hsmall|[Hbig [H|[H|[H|[H|[H|H]]]]]]].
  - left. exact Hsmall.
  - right. split; [exact Hbig|]. left. exact H.
  - right. split; [exact Hbig|]. right. left. exact H.
  - right. split; [exact Hbig|]. right. right. left. exact H.
  - right. split; [exact Hbig|]. right. right. right. left. exact H.
  - destruct H as (w & h & _ & _ & _ & _ & _ & Hrefused). discriminate.
  - right. split; [exact Hbig|]. right. right. right. right.
    destruct H as (dataOffset & signedHeight & bpp & img & Hret & H10 & H22 &
                   H28 & Hbpp & Hw & Hh & Hh' & _ & Hdata).
    exists dataOffset, signedHeight, bpp, img. tauto.
Qed.

(** X4: [decodeBMP] keeps the promise of its doc comment up to the
    allocation of the pixel array.  On every platform a buffer shorter than
    54 bytes is refused as too small, and whatever the bytes are, a failure
    is one of the decoder's five own errors (too small, missing BM
    signature, unreasonable dimensions, data offset beyond the file,
    unsupported bit depth) or the platform's refusal of the pixel array:
    the header is read only after the length check, so no read leaves the
    buffer.  The refusal is met only for a header that has passed every
    check and announces width * |height| * 4 bytes (up to 2^32, whatever
    the size of the file) that the platform does not grant; where the
    platform grants every such array the decoder fails with its own errors
    only. *)
Theorem decodeBMP_fails_descriptively :
  (forall (allocates : Z -> bool) (buffer : list Z),
      Z.of_nat (length buffer) < 54 ->
      decodeBMPOn allocates buffer =
      Threw (Error "Invalid BMP file: file too small (corrupted or truncated)")) /\
  (forall (allocates : Z -> bool) (buffer : list Z) (e : exn),
      decodeBMPOn allocates buffer = Threw e ->
      e = Error "Invalid BMP file: file too small (corrupted or truncated)" \/
      e = Error "Invalid BMP file: missing BM signature" \/
      e = Error "Invalid BMP file: unreasonable dimensions (corrupted header)" \/
      e = Error "Invalid BMP file: data offset exceeds file size (corrupted)" \/
      (exists bitsPerPixel,
          bitsPerPixel <> 24 /\ bitsPerPixel <> 32 /\
          e = UnsupportedBmpFormat bitsPerPixel) \/
      (e = ALLOCATION_REFUSED /\
       exists announcedWidth signedHeight,
         getInt32 buffer 18 = Returned announcedWidth /\
         getInt32 buffer 22 = Returned signedHeight /\
         0 < announcedWidth <= 32768 /\ 0 < Z.abs signedHeight <= 32768 /\
         allocates (announcedWidth * Z.abs signedHeight * 4) = false)) /\
  (forall (allocates : Z -> bool) (buffer : list Z),
      (forall n, 0 < n <= 2 ^ 32 -> allocates n = true) ->
      decodeBMPOn allocates buffer = decodeBMP buffer /\
      (forall e, decodeBMPOn allocates buffer = Threw e ->
                 e <> ALLOCATION_REFUSED)).
Proof.
  assert (Hkinds : forall allocates buffer e,
             decodeBMPOn allocates buffer = Threw e ->
             e = Error "Invalid BMP file: file too small (corrupted or truncated)" \/
             e = Error "Invalid BMP file: missing BM signature" \/
             e = Error "Invalid BMP file: unreasonable dimensions (corrupted header)" \/
             e = Error "Invalid BMP file: data offset exceeds file size (corrupted)" \/
             (exists bitsPerPixel,
                 bitsPerPixel <> 24 /\ bitsPerPixel <> 32 /\
                 e = UnsupportedBmpFormat bitsPerPixel) \/
             (e = ALLOCATION_REFUSED /\
              exists announcedWidth signedHeight,
                getInt32 buffer 18 = Returned announcedWidth /\
                getInt32 buffer 22 = Returned signedHeight /\
                0 < announcedWidth <= 32768 /\ 0 < Z.abs signedHeight <= 32768 /\
                allocates (announcedWidth * Z.abs signedHeight * 4) = false)).
  { intros allocates buffer e He.
    destruct (decodeBMPOn_cases allocates buffer)
      as [[Hthrow _]|[_ [Hthrow|[Hthrow|[Hthrow|[Hthrow|[Hthrow|Hreturn]]]]]]].
    + rewrite Hthrow in He. injection He as <-. tauto.
    + rewrite Hthrow in He. injection He as <-. tauto.
    + rewrite Hthrow in He. injection He as <-. tauto.
    + rewrite Hthrow in He. injection He as <-. tauto.
    + destruct Hthrow as (bpp & H24 & H32 & Hthrow).
      rewrite Hthrow in He. injection He as <-.
      do 4 right. left. exists bpp. auto.
    + destruct Hthrow as (w & h & Hthrow & Hw & Hh & Hwr & Hhr & Hrefused).
      rewrite Hthrow in He. injection He as <-.
      do 5 right. split; [reflexivity|]. exists w, h. auto.
    + destruct Hreturn as (dataOffset & h & bpp & img & Hreturn & _).
      rewrite Hreturn in He. discriminate. }
  split; [|split].
  - intros allocates buffer Hsmall.
    destruct (decodeBMPOn_cases allocates buffer) as [[Hthrow _]|[Hbig _]];
      [exact Hthrow|lia].
  - exact Hkinds.
  - intros allocates buffer Hgrants.
    assert (Hnever : forall e, decodeBMPOn allocates buffer = Threw e ->
                               e <> ALLOCATION_REFUSED).
    { intros e He.
      destruct (Hkinds allocates buffer e He)
        as [->|[->|[->|[->|[(bpp & _ & _ & ->)|[_ Hrefused]]]]]];
        try discriminate.
      destruct Hrefused as (w & h & _ & _ & Hw & Hh & Hrefused).
      rewrite Hgrants in Hrefused by nia. discriminate. }
    split; [|exact Hnever].
    unfold decodeBMP.
    destruct (decodeBMPOn_cases allocates buffer)
      as [[Hthrow Hsmall]|[Hbig Hcases]].
    + rewrite Hthrow. symmetry.
      destruct (decodeBMPOn_cases (fun _ => true) buffer) as [[Hthrow' _]|[Hbig _]];
        [exact Hthrow'|lia].
    + clear Hcases Hnever. unfold decodeBMPOn.
      destruct (_ <? _); [reflexivity|].
      destruct (_ || _); [reflexivity|].
      destruct (getUint32 buffer 10) as [dataOffset|]; [|reflexivity].
      destruct (getInt32 buffer 18) as [w|]; [|reflexivity].
      destruct (getInt32 buffer 22) as [h|]; [|reflexivity].
      destruct (getUint16 buffer 28) as [bpp|]; [|reflexivity].
      cbn [mbind outcome_bind].
      destruct (Z.leb_spec w 0); [reflexivity|].
      destruct (Z.ltb_spec 32768 w); [reflexivity|].
      destruct (Z.leb_spec (Z.abs h) 0); [reflexivity|].
      destruct (Z.ltb_spec 32768 (Z.abs h)); [reflexivity|].
      cbn [orb].
      destruct (_ <=? _); [reflexivity|].
      destruct (_ && _); [reflexivity|].
      rewrite Hgrants by nia. reflexivity.
Qed.

Lemma decodeBMP_fails_descriptively_witness :
  decodeBMPOn grantsBelow2G (firstn 53 sixPixelsBmp) =
    Threw (Error "Invalid BMP file: file too small (corrupted or truncated)") /\
  (ALLOCATION_REFUSED =
     Error "Invalid BMP file: file too small (corrupted or truncated)" \/
   ALLOCATION_REFUSED = Error "Invalid BMP file: missing BM signature" \/
   ALLOCATION_REFUSED =
     Error "Invalid BMP file: unreasonable dimensions (corrupted header)" \/
   ALLOCATION_REFUSED =
     Error "Invalid BMP file: data offset exceeds file size (corrupted)" \/
   (exists bitsPerPixel,
       bitsPerPixel <> 24 /\ bitsPerPixel <> 32 /\
       ALLOCATION_REFUSED = UnsupportedBmpFormat bitsPerPixel) \/
   (ALLOCATION_REFUSED = ALLOCATION_REFUSED /\
    exists announcedWidth signedHeight,
      getInt32 hugeHeaderBmp 18 = Returned announcedWidth /\
      getInt32 hugeHeaderBmp 22 = Returned signedHeight /\
      0 < announcedWidth <= 32768 /\ 0 < Z.abs signedHeight <= 32768 /\
      grantsBelow2G (announcedWidth * Z.abs signedHeight * 4) = false)) /\
  decodeBMPOn (fun n => n <=? 2 ^ 32) sixPixelsBmp = decodeBMP sixPixelsBmp.
Proof.
  destruct decodeBMP_fails_descriptively as (Hsmall & Hkinds & Hgranted).
  split; [|split].
  - apply (Hsmall grantsBelow2G (firstn 53 sixPixelsBmp)). vm_compute. reflexivity.
  - apply (Hkinds grantsBelow2G hugeHeaderBmp ALLOCATION_REFUSED).
    vm_compute. reflexivity.
  - apply (Hgranted (fun n => n <=? 2 ^ 32) sixPixelsBmp).
    intros n Hn. apply Z.leb_le. lia.
Defined.

(** X5: whatever [decodeBMP] returns is a well-formed image: its width and
    height are within 1..32768, its pixel array has exactly
    4 * width * height entries and every entry is a byte, even when the file
    holds fewer pixel bytes than its header announces (the missing ones read
    as 0); and a 24-bit file decodes to fully opaque pixels. *)
Theorem decodeBMP_returns_wellformed (buffer : list Z) (img : ImageData) :
  decodeBMP buffer = Returned img ->
  wf_image img /\
  0 < width img <= 32768 /\
  0 < height img <= 32768 /\
  (getUint16 buffer 28 = Returned 24 ->
   forall p, (p < Z.to_nat (width img) * Z.to_nat (height img))%nat ->
     get (data img) (4 * p + 3) = 255).
Proof.
  intros Hdecode.
  destruct (decodeBMP_cases buffer)
    as [[Hthrow _]|[_ [Hthrow|[Hthrow|[Hthrow|[Hthrow|Hreturn]]]]]];
    try (rewrite Hthrow in Hdecode; discriminate).
  { destruct Hthrow as (bpp & _ & _ & Hthrow).
    rewrite Hthrow in Hdecode. discriminate. }
  destruct Hreturn
    as (dataOffset & signedHeight & bpp & img' & Hreturn & _ & _ & Hbpp & _ &
        Hw & _ & Hh & Hdata).
  rewrite Hreturn in Hdecode. injection Hdecode as ->.
  set (w := Z.to_nat (width img)) in *. set (h := Z.to_nat (height img)) in *.
  assert (Hlen : length (data img) = (4 * (h * w))%nat).
  { rewrite Hdata. apply length_nested_quads. reflexivity. }
  split; [|split; [exact Hw|split; [exact Hh|]]].
  - unfold wf_image. split; [lia|split; [lia|split]].
    + rewrite Hlen. subst w h. nia.
    + rewrite Hdata. apply Forall_flat_map. intros y.
      apply Forall_flat_map. intros x. apply bmpPixelAt_bytes.
  - intros H24 p Hp. rewrite Hbpp in H24. injection H24 as ->.
    assert (Hpos : (4 * p + 3 < 4 * (h * w))%nat) by lia.
    destruct (pixel_position w h (4 * p + 3) Hpos)
      as (y & x & c & Hy & Hx & Hc & Hi).
    assert (c = 3%nat) by lia. subst c. rewrite Hi, Hdata.
    rewrite get_nested_quads by (reflexivity || assumption).
    reflexivity.
Qed.

Lemma decodeBMP_returns_wellformed_witness :
  let img := mkImageData 2 1 [1; 2; 3; 255; 4; 5; 6; 255] in
  wf_image img /\
  0 < width img <= 32768 /\
  0 < height img <= 32768 /\
  (getUint16 twoPixelsBmp24 28 = Returned 24 ->
   forall p, (p < Z.to_nat (width img) * Z.to_nat (height img))%nat ->
     get (data img) (4 * p + 3) = 255).
Proof.
  apply (decodeBMP_returns_wellformed twoPixelsBmp24
           (mkImageData 2 1 [1; 2; 3; 255; 4; 5; 6; 255])).
  vm_compute. reflexivity.
Defined.

(** ** BMP as a stego carrier *)

Lemma embedChannels_bytes (message : list Z) (total : nat) (d : Z)
    (rgb : list Z) : forall (bitIndex : nat),
  Forall is_byte rgb ->
  Forall is_byte (fst (embedChannels message total d rgb bitIndex)).
Proof.
  induction rgb as [|v rest IH]; intros bitIndex Hbytes; [constructor|].
  inversion Hbytes as [|? ? Hv Hrest]; subst. cbn [embedChannels].
  destruct (bitIndex <? total)%nat; [|exact Hbytes].
  unfold embedChannel. destruct (setLsbBits _ _ _ _ _) as [v' next].
  specialize (IH next Hrest).
  destruct (embedChannels message total d rest next) as [rest' next'].
  cbn [fst] in *. constructor; [apply clampUint8_is_byte|exact IH].
Qed.

Lemma embedPixels_bytes (message : list Z) (total : nat) (d : Z) (n : nat) :
  forall (pixels : list Z) (bitIndex : nat),
    length pixels = (4 * n)%nat ->
    Forall is_byte pixels ->
    Forall is_byte (embedPixels message total d pixels bitIndex).
Proof.
  induction n as [|n IH]; intros pixels bitIndex Hlen Hbytes.
  - destruct pixels; [|discriminate]. cbn [embedPixels].
    destruct (bitIndex <? total)%nat; constructor.
  - destruct (four_of_length pixels n Hlen) as (r & g & b & a & rest & -> & Hrest).
    cbn [embedPixels]. destruct (bitIndex <? total)%nat; [|exact Hbytes].
    destruct (bytes_of_pixel r g b a rest Hbytes) as [Hrgb Hrestb].
    pose proof (embedChannels_bytes message total d [r; g; b] bitIndex Hrgb)
      as Hout.
    destruct (embedChannels message total d [r; g; b] bitIndex) as [rgb next].
    cbn [fst] in Hout. apply Forall_app. split; [exact Hout|].
    constructor; [unfold is_byte; lia|]. apply IH; assumption.
Qed.

Lemma embedData_wf (img : ImageData) (res : EmbedResult) (payload : list Z) (d : Z) :
  wf_image img -> 1 <= d <= 4 ->
  embedData img payload d = Returned res ->
  wf_image (imageOf res) /\
  width (imageOf res) = width img /\ height (imageOf res) = height img.
Proof.
  intros (Hw & Hh & Hsize & Hbytes) Hd Hembed.
  apply embedData_inv in Hembed. destruct Hembed as [_ ->].
  unfold imageOf, wf_image. cbn [width height data er_data er_width er_height].
  set (n := Z.to_nat (width img * height img)).
  assert (Hpixels : length (map clampUint8 (data img)) = (4 * n)%nat)
    by (rewrite length_map; subst n; lia).
  repeat split; try assumption.
  - pose proof (embedPixels_frame (buildMessage payload)
                  (Z.to_nat ((8 + Z.of_nat (length payload)) * 8)) d Hd n
                  (map clampUint8 (data img)) 0%nat Hpixels
                  (Forall_clampUint8 _)) as [Hlen _].
    rewrite Hlen, length_map. exact Hsize.
  - apply (embedPixels_bytes _ _ _ n); [exact Hpixels|apply Forall_clampUint8].
Qed.

(** X6: hiding a message in an image, saving the result as a BMP file and
    reading that file back loses nothing: for every well-formed image of at
    most 32768 x 32768 pixels, depth d in 1..4 and message M of 1..2^31-1
    bytes whose frame fits, [embedData] and [encodeBMP] succeed, [decodeBMP]
    accepts the file, and [extractData] at depth d on the decoded image
    returns exactly M. *)
Theorem bmp_file_carries_message (img : ImageData) (M : list Z) (d : Z) :
  wf_image img ->
  0 < width img <= 32768 ->
  0 < height img <= 32768 ->
  1 <= d <= 4 ->
  Forall is_byte M ->
  0 < Z.of_nat (length M) < 2 ^ 31 ->
  (8 + Z.of_nat (length M)) * 8 <= width img * height img * 3 * d ->
  exists res file decoded,
    embedData img M d = Returned res /\
    encodeBMP (er_data res) (er_width res) (er_height res) = Returned file /\
    decodeBMP file = Returned decoded /\
    extractData decoded d = Some M.
Proof.
  intros Hwf Hw Hh Hd HM Hlen Hfit.
  destruct (image_roundtrip img M d Hwf Hd HM Hlen Hfit)
    as (res & Hembed & Hextract).
  destruct (embedData_wf img res M d Hwf Hd Hembed) as (Hres & Hrw & Hrh).
  destruct (bmp_pair (imageOf res) Hres ltac:(lia) ltac:(lia))
    as (file & Hencode & Hdecode).
  exists res, file, (imageOf res). repeat split; assumption.
Qed.

Lemma bmp_file_carries_message_witness :
  exists res file decoded,
    embedData sixPixels [165] 4 = Returned res /\
    encodeBMP (er_data res) (er_width res) (er_height res) = Returned file /\
    decodeBMP file = Returned decoded /\
    extractData decoded 4 = Some [165].
Proof.
  apply (bmp_file_carries_message sixPixels [165] 4).
  - unfold wf_image. cbn. repeat split; try lia.
    repeat constructor; unfold is_byte; lia.
  - cbn. lia.
  - cbn. lia.
  - lia.
  - repeat constructor; unfold is_byte; lia.
  - cbn. lia.
  - cbn. lia.
Defined.

(** * The steganography worker *)

Lemma getUintLE_range (size : nat) (buffer : list Z) (byteOffset v : Z) :
  Forall is_byte buffer ->
  getUintLE size buffer byteOffset = Returned v ->
  0 <= v < 256 ^ Z.of_nat size.
Proof.
  intros Hbytes. unfold getUintLE.
  destruct (_ && _); [|discriminate]. intros [= <-].
  assert (Hall : forall l : list nat,
    0 <= fold_right
           (fun i acc => get buffer (Z.to_nat byteOffset + i) + 256 * acc) 0 l
      < 256 ^ Z.of_nat (length l)).
  { induction l as [|i l IH]; cbn [fold_right length].
    - rewrite Z.pow_0_r. lia.
    - rewrite Nat2Z.inj_succ, Z.pow_succ_r by lia.
      pose proof (get_is_byte buffer (Z.to_nat byteOffset + i) Hbytes) as Hb.
      unfold is_byte in Hb. lia. }
  specialize (Hall (seq 0 size)). rewrite length_seq in Hall. exact Hall.
Qed.

Lemma toInt32_range (x : Z) : - 2 ^ 31 <= toInt32 x < 2 ^ 31.
Proof.
  unfold toInt32. change (2 ^ 31) with 2147483648.
  change (2 ^ 32) with 4294967296.
  pose proof (Z.mod_pos_bound (x + 2147483648) 4294967296 ltac:(lia)). lia.
Qed.

(** ** BMP in the worker *)

Lemma worker_encodeBMP (pixels : list Z) (width height : Z) :
  StegWorker.encodeBMP pixels width height = encodeBMP pixels width height.
Proof. reflexivity. Qed.

Lemma worker_decodeBMP_file (pixels : list Z) (width height : Z) :
  0 < width < 2 ^ 31 -> 0 < height <= 2 ^ 31 ->
  Z.of_nat (length pixels) = 4 * (width * height) ->
  Forall is_byte pixels ->
  StegWorker.decodeBMP (bmpFile pixels width height) =
  Returned (pixels, width, height).
Proof.
  intros Hw Hh Hpixels Hbytes.
  pose proof (bmpFile_pixels pixels width height ltac:(lia) ltac:(lia)
                Hpixels Hbytes) as Hloop.
  destruct (bmpFile_fields pixels width height Hw Hh)
    as (H0 & H1 & G10 & G18 & G22 & G28).
  set (file := bmpFile pixels width height) in *. clearbody file.
  unfold StegWorker.decodeBMP.
  rewrite H0, H1. cbn [Z.eqb Pos.eqb negb orb].
  rewrite G10, G18, G22, G28. cbn [mbind outcome_bind].
  change (negb (32 =? 24) && negb (32 =? 32)) with false. cbv iota.
  change (32 / 8) with 4.
  rewrite Z.abs_opp, (Z.abs_eq height) by lia.
  destruct (Z.ltb_spec (width * height * 4) 0); [nia|].
  destruct (Z.ltb_spec (- height) 0); [|lia].
  rewrite Hloop. reflexivity.
Qed.

(** What the worker's decoder hands on when it returns. *)
Lemma worker_decodeBMP_returns (carrier pixels : list Z) (width height : Z) :
  StegWorker.decodeBMP carrier = Returned (pixels, width, height) ->
  0 <= height <= 2 ^ 31 /\ width < 2 ^ 31 /\ 0 <= width * height /\
  Z.of_nat (length pixels) = 4 * (width * height) /\
  Forall is_byte pixels.
Proof.
  unfold StegWorker.decodeBMP, getInt32.
  destruct (negb (get carrier 0 =? 66) || negb (get carrier 1 =? 77));
    [discriminate|].
  destruct (getUint32 carrier 10) as [dataOffset|]; [|discriminate].
  destruct (getUint32 carrier 18) as [w|]; [|discriminate].
  destruct (getUint32 carrier 22) as [h|]; [|discriminate].
  destruct (getUint16 carrier 28) as [bpp|]; [|discriminate].
  cbn [mbind outcome_bind].
  destruct (negb (bpp =? 24) && negb (bpp =? 32)); [discriminate|].
  pose proof (toInt32_range w) as Hw. pose proof (toInt32_range h) as Hh.
  change (2 ^ 31) with 2147483648 in *.
  destruct (Z.ltb_spec (toInt32 w * Z.abs (toInt32 h) * 4) 0); [discriminate|].
  intros [= <- <- <-].
  split; [lia|]. split; [lia|]. split; [lia|].
  destruct (Z.le_gt_cases 0 (toInt32 w)) as [Hpos|Hneg].
  - rewrite bmpPixels_fill by lia. split.
    + rewrite (length_nested_quads
                 (bmpPixelAt carrier dataOffset (Z.abs (toInt32 h)) (bpp / 8)
                    (toInt32 h <? 0) ((toInt32 w * (bpp / 8) + 3) / 4 * 4)))
        by reflexivity.
      nia.
    + apply Forall_flat_map. intros y. apply Forall_flat_map. intros x.
      apply bmpPixelAt_bytes.
  - assert (Z.abs (toInt32 h) = 0) by nia.
    unfold bmpPixels. replace (Z.to_nat (Z.abs (toInt32 h))) with 0%nat by lia.
    replace (Z.to_nat (toInt32 w * Z.abs (toInt32 h) * 4)) with 0%nat by lia.
    cbn [seq fold_left replicate length]. split; [lia|constructor].
Qed.

(** X7: the worker's image requests compose to the identity on the
    message.  For every BMP carrier the worker's decoder accepts, every
    depth d in 1..4 and every message M of 1..2^31-1 bytes whose frame fits
    the decoded pixels, the EMBED_IMAGE request completes with a BMP file,
    and the EXTRACT_IMAGE request on that file at depth d completes with
    exactly M. *)
Theorem worker_image_requests_roundtrip
    (carrier pixels M : list Z) (w h d : Z) :
  StegWorker.decodeBMP carrier = Returned (pixels, w, h) ->
  1 <= d <= 4 ->
  Forall is_byte M ->
  0 < Z.of_nat (length M) < 2 ^ 31 ->
  (8 + Z.of_nat (length M)) * 8 <= w * h * 3 * d ->
  exists stego,
    StegWorker.EMBED_IMAGE StegWorker.bmp carrier M d = Returned stego /\
    StegWorker.EXTRACT_IMAGE StegWorker.bmp stego d = Returned M.
Proof.
  intros Hdecode Hd HM Hlen Hfit.
  destruct (worker_decodeBMP_returns carrier pixels w h Hdecode)
    as (Hh & Hw & Hwh & Hsize & Hbytes).
  assert (Hpos : 0 < w /\ 0 < h) by nia. destruct Hpos as [Hwpos Hhpos].
  set (img := mkImageData w h pixels).
  assert (Hwf : wf_image img) by (unfold wf_image; cbn; repeat split; (lia || assumption)).
  destruct (image_roundtrip img M d Hwf Hd HM Hlen Hfit)
    as (res & Hembed & Hextract).
  destruct (embedData_wf img res M d Hwf Hd Hembed)
    as ((_ & _ & Hrsize & Hrbytes) & Hrw & Hrh).
  pose proof (embedImageData_embedData img M d) as Hworker.
  rewrite Hembed in Hworker. cbn [data width height img] in Hworker.
  cbn [imageOf width height data img] in Hrsize, Hrbytes, Hrw, Hrh, Hextract.
  exists (bmpFile (er_data res) w h). split.
  - unfold StegWorker.EMBED_IMAGE. rewrite Hdecode. cbn [mbind outcome_bind].
    rewrite Hworker. cbn [mbind outcome_bind].
    rewrite worker_encodeBMP. apply encodeBMP_file; lia.
  - unfold StegWorker.EXTRACT_IMAGE.
    rewrite worker_decodeBMP_file by (try assumption; try lia;
                                      rewrite <- Hrw, <- Hrh; assumption).
    cbn [mbind outcome_bind].
    change (StegWorker.extractImageData (er_data res) w h d)
      with (extractData (mkImageData w h (er_data res)) d).
    unfold imageOf in Hextract. rewrite Hrw, Hrh in Hextract.
    rewrite Hextract. reflexivity.
Qed.

Lemma worker_image_requests_roundtrip_witness :
  exists stego,
    StegWorker.EMBED_IMAGE StegWorker.bmp sixPixelsBmp [165] 4 = Returned stego /\
    StegWorker.EXTRACT_IMAGE StegWorker.bmp stego 4 = Returned [165].
Proof.
  apply (worker_image_requests_roundtrip sixPixelsBmp (data sixPixels) [165] 2 3 4).
  - vm_compute. reflexivity.
  - lia.
  - repeat constructor; unfold is_byte; lia.
  - cbn. lia.
  - cbn. lia.
Defined.

(** ** WAV in the worker *)

Lemma setBytes_at (target source : list Z) (offset : Z) (bytes : list Z) :
  0 <= offset ->
  offset + Z.of_nat (length bytes) <= Z.of_nat (length target) ->
  map (fun i => toUint8 (get source i)) (seq 0 (length source)) = bytes ->
  setBytes target source offset =
  Returned (take (Z.to_nat offset) target ++ bytes ++
            drop (Z.to_nat offset + length bytes) target).
Proof.
  intros Hlow Hhigh <-. rewrite length_map, length_seq in *.
  unfold setBytes.
  destruct (Z.leb_spec 0 offset); [|lia].
  destruct (Z.leb_spec (offset + Z.of_nat (length source))
              (Z.of_nat (length target))); [|lia].
  cbn [andb]. f_equal.
  rewrite <- (take_drop (Z.to_nat offset) target) at 1.
  rewrite <- (take_drop (length source) (drop (Z.to_nat offset) target)) at 1.
  rewrite drop_drop.
  apply (fill_seq (fun i => toUint8 (get source i))).
  - rewrite length_take. lia.
  - rewrite length_take, length_drop. lia.
Qed.

Ltac worker_store_step :=
  first
    [ rewrite setUintLE_at by (cbn [length]; lia)
    | match goal with
      | |- context [setBytes ?target ?source ?offset] =>
          rewrite (setBytes_at target source offset source)
            by first [reflexivity | cbn [length]; lia]
      end ];
  repeat match goal with
         | |- context [Z.to_nat ?c] =>
             let n := eval vm_compute in (Z.to_nat c) in
             change (Z.to_nat c) with n
         end;
  cbn [mbind outcome_bind Nat.add firstn skipn app map seq length].

Lemma worker_writeSamples_fills (samples : list Z) : forall (pre : list Z) (i : Z),
  Z.of_nat (length pre) = 44 + i * 2 ->
  StegWorker.writeSamples (pre ++ replicate (2 * length samples) 0) i samples =
  Returned (pre ++ flat_map int16Bytes samples).
Proof.
  induction samples as [|sample rest IH]; intros pre i Hpre.
  - cbn. reflexivity.
  - cbn [StegWorker.writeSamples flat_map length].
    replace (2 * S (length rest))%nat with (2 + 2 * length rest)%nat by lia.
    rewrite replicate_add. unfold setInt16.
    rewrite (setUintLE_app 2 pre (replicate 2 0)) by (assumption || reflexivity).
    cbn [mbind outcome_bind].
    change (map (byteLE sample) (seq 0 2)) with (int16Bytes sample).
    rewrite (app_assoc pre), IH by (rewrite length_app; cbn [length int16Bytes]; lia).
    rewrite <- app_assoc. reflexivity.
Qed.

Lemma worker_encodeWAV_file (smp : list Z) (rate chan : Z) :
  StegWorker.encodeWAV smp rate chan =
  Returned (wavFile (mkWavData smp rate chan 16)).
Proof.
  unfold StegWorker.encodeWAV, wavFile, wavHeader, setUint32, setUint16.
  cbn [samples sampleRate channels bitsPerSample].
  set (dataSize := Z.of_nat (length smp) * 2).
  replace (Z.to_nat (44 + dataSize)) with (44 + 2 * length smp)%nat
    by (subst dataSize; lia).
  rewrite replicate_add.
  generalize (44 + dataSize - 8) as riffSize.
  generalize (rate * chan * 2) as byteRate.
  generalize (chan * 2) as blockAlign.
  clearbody dataSize. intros blockAlign byteRate riffSize.
  cbn [replicate app].
  do 13 worker_store_step.
  match goal with
  | |- StegWorker.writeSamples ?buffer 0 smp = _ =>
      exact (worker_writeSamples_fills smp (firstn 44 buffer) 0 eq_refl)
  end.
Qed.

Lemma worker_walkChunks_S (fuel : nat) (data : list Z) (st : ChunkWalk) :
  StegWorker.walkChunks (S fuel) data st =
  let offset := cw_offset st in
  if offset <? Z.of_nat (length data) then
    let chunkId := fourCC data offset in
    chunkSize ← getUint32 data (offset + 4);
    let offset := offset + 8 in
    st ← (if bool_decide (chunkId = tag "fmt ") then
            audioFormat ← getUint16 data offset;
            if negb (audioFormat =? 1) then
              Threw (Error "Only PCM WAV supported")
            else
              channels ← getUint16 data (offset + 2);
              sampleRate ← getUint32 data (offset + 4);
              bitsPerSample ← getUint16 data (offset + 14);
              if negb (bitsPerSample =? 16) then
                Threw (Error "Only 16-bit WAV supported")
              else
                Returned {| cw_offset := offset;
                            cw_sampleRate := sampleRate;
                            cw_channels := channels;
                            cw_bitsPerSample := bitsPerSample;
                            cw_dataOffset := cw_dataOffset st;
                            cw_dataSize := cw_dataSize st |}
          else if bool_decide (chunkId = tag "data") then
            Returned {| cw_offset := offset;
                        cw_sampleRate := cw_sampleRate st;
                        cw_channels := cw_channels st;
                        cw_bitsPerSample := cw_bitsPerSample st;
                        cw_dataOffset := offset;
                        cw_dataSize := chunkSize |}
          else
            Returned {| cw_offset := offset;
                        cw_sampleRate := cw_sampleRate st;
                        cw_channels := cw_channels st;
                        cw_bitsPerSample := cw_bitsPerSample st;
                        cw_dataOffset := cw_dataOffset st;
                        cw_dataSize := cw_dataSize st |});
    let offset := offset + chunkSize in
    let offset := if negb (chunkSize mod 2 =? 0) then offset + 1 else offset in
    StegWorker.walkChunks fuel data
      {| cw_offset := offset;
         cw_sampleRate := cw_sampleRate st;
         cw_channels := cw_channels st;
         cw_bitsPerSample := cw_bitsPerSample st;
         cw_dataOffset := cw_dataOffset st;
         cw_dataSize := cw_dataSize st |}
  else Returned st.
Proof. reflexivity. Qed.

Lemma worker_walkChunks_done (fuel : nat) (data : list Z) (st : ChunkWalk) :
  Z.of_nat (length data) <= cw_offset st ->
  StegWorker.walkChunks fuel data st = Returned st.
Proof.
  intros Hend. destruct fuel as [|fuel]; [reflexivity|].
  cbn [StegWorker.walkChunks].
  destruct (Z.ltb_spec (cw_offset st) (Z.of_nat (length data))); [lia|].
  reflexivity.
Qed.

Lemma worker_decodeWAV_file (smp : list Z) (rate chan : Z) :
  Forall is_int16 smp ->
  0 <= rate < 2 ^ 32 -> 0 <= chan < 2 ^ 16 ->
  Z.of_nat (length smp) * 2 < 2 ^ 32 ->
  StegWorker.decodeWAV (wavFile (mkWavData smp rate chan 16)) =
  Returned (smp, rate, chan).
Proof.
  intros Hsamples Hrate Hchan Hsize.
  pose proof (length_wavFile (mkWavData smp rate chan 16)) as Hlen.
  cbn [samples] in Hlen.
  destruct (wavFile_fields smp rate chan Hrate Hchan Hsize)
    as (H0 & H8 & H12 & H36 & G16 & G20 & G22 & G24 & G34 & G40).
  set (dataSize := Z.of_nat (length smp) * 2) in *.
  assert (Hdata : wavFile (mkWavData smp rate chan 16) =
                  wavHeader (mkWavData smp rate chan 16) ++
                  flat_map int16Bytes smp) by reflexivity.
  set (file := wavFile (mkWavData smp rate chan 16)) in *.
  clearbody file.
  unfold StegWorker.decodeWAV. rewrite Hlen.
  rewrite H0, H8.
  rewrite !bool_decide_eq_true_2 by reflexivity. cbn [negb].
  cbn [Nat.add].
  rewrite worker_walkChunks_S.
  cbn [cw_offset cw_sampleRate cw_channels cw_bitsPerSample
       cw_dataOffset cw_dataSize]. cbv zeta.
  rewrite Hlen.
  destruct (Z.ltb_spec 12 (Z.of_nat (44 + 2 * length smp))); [|lia].
  fold_offsets. rewrite G16, H12. cbn [mbind outcome_bind].
  rewrite bool_decide_eq_true_2 by reflexivity.
  fold_offsets. rewrite G20. cbn [mbind outcome_bind].
  change (negb (1 =? 1)) with false. cbv iota.
  rewrite G22, G24, G34. cbn [mbind outcome_bind].
  change (negb (16 =? 16)) with false. cbv iota.
  cbn [mbind outcome_bind cw_offset cw_sampleRate cw_channels cw_bitsPerSample
       cw_dataOffset cw_dataSize].
  change (negb (16 mod 2 =? 0)) with false. cbv iota. fold_offsets.
  rewrite worker_walkChunks_S.
  cbn [cw_offset cw_sampleRate cw_channels cw_bitsPerSample
       cw_dataOffset cw_dataSize]. cbv zeta.
  rewrite Hlen.
  destruct (Z.ltb_spec 36 (Z.of_nat (44 + 2 * length smp))); [|lia].
  fold_offsets. rewrite G40, H36. cbn [mbind outcome_bind].
  rewrite bool_decide_eq_false_2 by (vm_compute; discriminate).
  rewrite bool_decide_eq_true_2 by reflexivity.
  cbn [mbind outcome_bind cw_offset cw_sampleRate cw_channels cw_bitsPerSample
       cw_dataOffset cw_dataSize].
  replace (dataSize mod 2) with 0
    by (subst dataSize; rewrite Z.mod_mul by lia; reflexivity).
  change (negb (0 =? 0)) with false. cbv iota.
  rewrite worker_walkChunks_done
    by (cbn [cw_offset]; rewrite Hlen; subst dataSize; lia).
  cbn [mbind outcome_bind cw_offset cw_sampleRate cw_channels cw_bitsPerSample
       cw_dataOffset cw_dataSize].
  replace (Z.to_nat ((dataSize + 1) / 2)) with (length smp)
    by (subst dataSize; rewrite Z.div_add_l by lia;
        change (1 / 2) with 0; lia).
  rewrite Hdata.
  rewrite (readSamples_reads smp _ 44 0) by (assumption || reflexivity).
  cbn [mbind outcome_bind].
  replace (Z.to_nat (dataSize / 2)) with (length smp)
    by (subst dataSize; rewrite Z.div_mul by lia; lia).
  rewrite firstn_all. reflexivity.
Qed.

Lemma readSamples_int16 (buffer : list Z) (dataOffset : Z) (reads : nat) :
  forall (i : Z) (all : list Z),
    readSamples buffer dataOffset reads i = Returned all ->
    Forall is_int16 all /\ length all = reads.
Proof.
  induction reads as [|reads IH]; intros i all; cbn [readSamples].
  - intros [= <-]. split; [constructor|reflexivity].
  - unfold getInt16.
    destruct (getUint16 buffer (dataOffset + i * 2)) as [v|]; [|discriminate].
    cbn [mbind outcome_bind].
    destruct (readSamples buffer dataOffset reads (i + 1)) as [rest|] eqn:Hrest;
      [|discriminate].
    cbn [mbind outcome_bind]. intros [= <-].
    destruct (IH (i + 1) rest Hrest) as [Hrange Hlen].
    split; [constructor; [apply toInt16_is_int16|exact Hrange]|].
    cbn [length]. rewrite Hlen. reflexivity.
Qed.

Lemma worker_walk_ranges (data : list Z) :
  Forall is_byte data ->
  forall (fuel : nat) (st st' : ChunkWalk),
    walk_in_range st ->
    StegWorker.walkChunks fuel data st = Returned st' ->
    walk_in_range st'.
Proof.
  intros Hbytes fuel. induction fuel as [|fuel IH]; intros st st' Hst.
  - cbn [StegWorker.walkChunks]. intros [= <-]. exact Hst.
  - rewrite worker_walkChunks_S. cbv zeta.
    destruct (cw_offset st <? Z.of_nat (length data));
      [|intros [= <-]; exact Hst].
    destruct (getUint32 data (cw_offset st + 4)) as [chunkSize|] eqn:Hsize;
      [|discriminate].
    apply (getUintLE_range 4 data _ _ Hbytes) in Hsize.
    cbn [mbind outcome_bind].
    destruct Hst as (Hrate & Hchan & Hdata).
    destruct (bool_decide (fourCC data (cw_offset st) = tag "fmt ")).
    + destruct (getUint16 data (cw_offset st + 8)) as [audioFormat|];
        [|discriminate].
      cbn [mbind outcome_bind].
      destruct (negb (audioFormat =? 1)); [discriminate|].
      destruct (getUint16 data (cw_offset st + 8 + 2)) as [chan|] eqn:Hc;
        [|discriminate].
      destruct (getUint32 data (cw_offset st + 8 + 4)) as [rate|] eqn:Hr;
        [|discriminate].
      destruct (getUint16 data (cw_offset st + 8 + 14)) as [bits|];
        [|discriminate].
      cbn [mbind outcome_bind].
      destruct (negb (bits =? 16)); [discriminate|].
      cbn [mbind outcome_bind cw_offset cw_sampleRate cw_channels
           cw_bitsPerSample cw_dataOffset cw_dataSize].
      apply IH. unfold walk_in_range.
      cbn [cw_sampleRate cw_channels cw_dataSize].
      apply (getUintLE_range 2 data _ _ Hbytes) in Hc.
      apply (getUintLE_range 4 data _ _ Hbytes) in Hr.
      change (256 ^ Z.of_nat 2) with (2 ^ 16) in Hc.
      change (256 ^ Z.of_nat 4) with (2 ^ 32) in Hr.
      repeat split; lia.
    + destruct (bool_decide (fourCC data (cw_offset st) = tag "data"));
        cbn [mbind outcome_bind cw_offset cw_sampleRate cw_channels
             cw_bitsPerSample cw_dataOffset cw_dataSize];
        apply IH; unfold walk_in_range;
        cbn [cw_sampleRate cw_channels cw_dataSize];
        change (256 ^ Z.of_nat 4) with (2 ^ 32) in Hsize;
        repeat split; lia.
Qed.

(** What the worker's WAV decoder hands on when it returns. *)
Lemma worker_decodeWAV_returns (carrier smp : list Z) (rate chan : Z) :
  Forall is_byte carrier ->
  StegWorker.decodeWAV carrier = Returned (smp, rate, chan) ->
  Forall is_int16 smp /\
  0 <= rate < 2 ^ 32 /\ 0 <= chan < 2 ^ 16 /\
  Z.of_nat (length smp) * 2 < 2 ^ 32.
Proof.
  intros Hbytes. unfold StegWorker.decodeWAV.
  destruct (negb (bool_decide (fourCC carrier 0 = tag "RIFF"))); [discriminate|].
  destruct (negb (bool_decide (fourCC carrier 8 = tag "WAVE"))); [discriminate|].
  destruct (StegWorker.walkChunks _ _ _) as [st|] eqn:Hwalk; [|discriminate].
  cbn [mbind outcome_bind].
  apply (worker_walk_ranges carrier Hbytes) in Hwalk;
    [|unfold walk_in_range; cbn; lia].
  destruct Hwalk as (Hrate & Hchan & Hdata).
  destruct (readSamples _ _ _ _) as [all|] eqn:Hread; [|discriminate].
  cbn [mbind outcome_bind]. intros [= <- <- <-].
  apply readSamples_int16 in Hread. destruct Hread as [Hrange Hlen].
  split; [apply Forall_take; exact Hrange|].
  split; [exact Hrate|]. split; [exact Hchan|].
  rewrite length_take.
  assert (cw_dataSize st / 2 * 2 <= cw_dataSize st)
    by (pose proof (Z.mul_div_le (cw_dataSize st) 2 ltac:(lia)); lia).
  assert (0 <= cw_dataSize st / 2) by (apply Z.div_pos; lia).
  lia.
Qed.

Lemma worker_embedWAVData (wav : WavData) (payload : list Z) (d : Z) :
  StegWorker.embedWAVData (samples wav) payload d =
  match embedWavData wav payload d with
  | Returned stego => Returned (samples stego)
  | Threw e => Threw e
  end.
Proof.
  unfold StegWorker.embedWAVData, embedWavData. rewrite length_map.
  destruct (_ <? _); reflexivity.
Qed.

(** X8: the worker's audio requests compose to the identity on the
    message.  For every WAV carrier (a buffer of bytes) the worker's decoder
    accepts, every depth d in 1..4 and every message M of 1..2^31-1 bytes
    whose frame fits the decoded samples, the EMBED_AUDIO request completes
    with a WAV file, and the EXTRACT_AUDIO request on that file at depth d
    completes with exactly M. *)
Theorem worker_audio_requests_roundtrip
    (carrier smp M : list Z) (rate chan d : Z) :
  Forall is_byte carrier ->
  StegWorker.decodeWAV carrier = Returned (smp, rate, chan) ->
  1 <= d <= 4 ->
  Forall is_byte M ->
  0 < Z.of_nat (length M) < 2 ^ 31 ->
  (8 + Z.of_nat (length M)) * 8 <= Z.of_nat (length smp) * d ->
  exists stego,
    StegWorker.EMBED_AUDIO carrier M d = Returned stego /\
    StegWorker.EXTRACT_AUDIO stego d = Returned M.
Proof.
  intros Hbytes Hdecode Hd HM Hlen Hfit.
  destruct (worker_decodeWAV_returns carrier smp rate chan Hbytes Hdecode)
    as (Hsmp & Hrate & Hchan & Hsize).
  set (wav := mkWavData smp rate chan 16).
  destruct (audio_roundtrip wav M d Hd HM Hlen Hfit)
    as (stego & Hembed & Hextract).
  pose proof (worker_embedWAVData wav M d) as Hworker.
  rewrite Hembed in Hworker. cbn [samples wav] in Hworker.
  assert (Hstego : Forall is_int16 (samples stego) /\
                   length (samples stego) = length smp).
  { unfold embedWavData in Hembed. destruct (_ <? _); [discriminate|].
    injection Hembed as <-. cbn [samples wav]. split.
    - apply embedSamples_int16. apply Forall_map, Forall_forall.
      intros x _. apply toInt16_is_int16.
    - rewrite length_embedSamples, length_map. reflexivity. }
  destruct Hstego as [Hint16 Hcount].
  exists (wavFile (mkWavData (samples stego) rate chan 16)). split.
  - unfold StegWorker.EMBED_AUDIO. rewrite Hdecode. cbn [mbind outcome_bind].
    rewrite Hworker. cbn [mbind outcome_bind]. apply worker_encodeWAV_file.
  - unfold StegWorker.EXTRACT_AUDIO.
    rewrite worker_decodeWAV_file by (try assumption; rewrite Hcount; assumption).
    cbn [mbind outcome_bind].
    change (StegWorker.extractWAVData (samples stego) d)
      with (extractWavData (mkWavData (samples stego) rate chan 16) d).
    assert (Hsame : extractWavData (mkWavData (samples stego) rate chan 16) d =
                    extractWavData stego d) by reflexivity.
    rewrite Hsame, Hextract. reflexivity.
Qed.

Lemma worker_audio_requests_roundtrip_witness :
  exists stego,
    StegWorker.EMBED_AUDIO (wavFile twentySamples) [165; 90] 4 = Returned stego /\
    StegWorker.EXTRACT_AUDIO stego 4 = Returned [165; 90].
Proof.
  apply (worker_audio_requests_roundtrip (wavFile twentySamples)
           (samples twentySamples) [165; 90] 44100 1 4).
  - vm_compute. repeat constructor; discriminate.
  - vm_compute. reflexivity.
  - lia.
  - repeat constructor; unfold is_byte; lia.
  - cbn. lia.
  - cbn. lia.
Defined.

(** ** The worker's decoders against the main thread's *)

Lemma worker_walkChunks_agrees (data : list Z) :
  forall (fuel : nat) (st st' : ChunkWalk),
    walkChunks fuel data st = Returned st' ->
    StegWorker.walkChunks fuel data st = Returned st'.
Proof.
  intros fuel. induction fuel as [|fuel IH]; intros st st'.
  - cbn [walkChunks StegWorker.walkChunks]. trivial.
  - rewrite walkChunks_S, worker_walkChunks_S. cbv zeta.
    destruct (cw_offset st <? Z.of_nat (length data)); [|trivial].
    destruct (getUint32 data (cw_offset st + 4)) as [chunkSize|];
      [|discriminate].
    cbn [mbind outcome_bind].
    destruct (bool_decide (fourCC data (cw_offset st) = tag "fmt ")).
    + destruct (getUint16 data (cw_offset st + 8)) as [audioFormat|];
        [|discriminate].
      cbn [mbind outcome_bind].
      destruct (negb (audioFormat =? 1)); [discriminate|].
      destruct (getUint16 data (cw_offset st + 8 + 2)); [|discriminate].
      destruct (getUint32 data (cw_offset st + 8 + 4)); [|discriminate].
      destruct (getUint16 data (cw_offset st + 8 + 14)) as [bits|];
        [|discriminate].
      cbn [mbind outcome_bind].
      destruct (negb (bits =? 16)); [discriminate|].
      cbn [mbind outcome_bind]. apply IH.
    + destruct (bool_decide (fourCC data (cw_offset st) = tag "data"));
        cbn [mbind outcome_bind]; apply IH.
Qed.

(** X9: the worker's decoders accept every file the main thread's decoders
    accept, and decode it to the same thing.  If [decodeWav] returns a
    recording, the worker's [decodeWAV] returns its samples, sample rate and
    channel count; if [decodeBMP] returns an image, the worker's [decodeBMP]
    returns its pixels, width and height. *)
Theorem worker_decoders_agree_with_main_thread :
  (forall (buffer : list Z) (wav : WavData),
      decodeWav buffer = Returned wav ->
      StegWorker.decodeWAV buffer =
      Returned (samples wav, sampleRate wav, channels wav)) /\
  (forall (buffer : list Z) (img : ImageData),
      decodeBMP buffer = Returned img ->
      StegWorker.decodeBMP buffer =
      Returned (data img, width img, height img)).
Proof.
  split.
  - intros buffer wav. unfold decodeWav, StegWorker.decodeWAV.
    destruct (_ <? _); [discriminate|].
    destruct (negb (bool_decide (fourCC buffer 0 = tag "RIFF")));
      [discriminate|].
    destruct (negb (bool_decide (fourCC buffer 8 = tag "WAVE")));
      [discriminate|].
    destruct (walkChunks _ _ _) as [st|] eqn:Hwalk; [|discriminate].
    rewrite (worker_walkChunks_agrees buffer _ _ st Hwalk).
    cbn [mbind outcome_bind].
    destruct (_ || _); [discriminate|].
    destruct (readSamples _ _ _ _) as [all|]; [|discriminate].
    cbn [mbind outcome_bind]. intros [= <-]. reflexivity.
  - intros buffer img. unfold decodeBMP, decodeBMPOn, StegWorker.decodeBMP, getInt32.
    destruct (_ <? _); [discriminate|].
    destruct (negb (get buffer 0 =? 66) || negb (get buffer 1 =? 77));
      [discriminate|].
    destruct (getUint32 buffer 10) as [dataOffset|]; [|discriminate].
    destruct (getUint32 buffer 18) as [w|]; [|discriminate].
    destruct (getUint32 buffer 22) as [h|]; [|discriminate].
    destruct (getUint16 buffer 28) as [bpp|]; [|discriminate].
    cbn [mbind outcome_bind].
    destruct (Z.leb_spec (toInt32 w) 0); [discriminate|].
    destruct (Z.ltb_spec 32768 (toInt32 w)); [discriminate|].
    destruct (Z.leb_spec (Z.abs (toInt32 h)) 0); [discriminate|].
    destruct (Z.ltb_spec 32768 (Z.abs (toInt32 h))); [discriminate|].
    cbn [orb].
    destruct (_ <=? _); [discriminate|].
    destruct (negb (bpp =? 24) && negb (bpp =? 32)); [discriminate|].
    destruct (Z.ltb_spec (toInt32 w * Z.abs (toInt32 h) * 4) 0); [nia|].
    intros [= <-]. reflexivity.
Qed.

Lemma worker_decoders_agree_with_main_thread_witness :
  StegWorker.decodeWAV (wavFile twentySamples) =
    Returned (samples twentySamples, sampleRate twentySamples,
              channels twentySamples) /\
  StegWorker.decodeBMP twoPixelsBmp24 =
    Returned ([1; 2; 3; 255; 4; 5; 6; 255], 2, 1).
Proof.
  destruct worker_decoders_agree_with_main_thread as [Hwav Hbmp]. split.
  - apply (Hwav (wavFile twentySamples) twentySamples). vm_compute. reflexivity.
  - apply (Hbmp twoPixelsBmp24 (mkImageData 2 1 [1; 2; 3; 255; 4; 5; 6; 255])).
    vm_compute. reflexivity.
Defined.

(** * PNG container *)

Lemma setBytes_app (pre old post source : list Z) (offset : Z) :
  Z.of_nat (length pre) = offset -> length old = length source ->
  Forall is_byte source ->
  setBytes (pre ++ old ++ post) source offset = Returned (pre ++ source ++ post).
Proof.
  intros Hpre Hold Hbytes. unfold setBytes.
  rewrite !length_app.
  destruct (Z.leb_spec 0 offset); [|lia].
  destruct (Z.leb_spec (offset + Z.of_nat (length source))
              (Z.of_nat (length pre + (length old + length post)))); [|lia].
  cbn [andb]. f_equal.
  rewrite (fill_seq (fun i => toUint8 (get source i)) (Z.to_nat offset)
             (length source) 0 pre old post) by lia.
  f_equal. f_equal.
  transitivity (map (get source) (seq 0 (length source)));
    [|apply map_get_seq].
  apply map_ext. intros i. apply toUint8_byte. apply get_is_byte. exact Hbytes.
Qed.

Lemma storeRows_fills (pixels : list Z) (w : nat) (k : nat) :
  Forall is_byte pixels ->
  forall (a : nat) (pre : list Z),
    length pre = ((4 * w + 1) * a)%nat ->
    ((a + k) * (4 * w) <= length pixels)%nat ->
    storeRows pixels (Z.of_nat w * 4) (seq a k)
      (pre ++ replicate ((4 * w + 1) * k) 0) =
    Returned
      (pre ++
       flat_map (fun y => 0 :: take (4 * w) (drop (y * (4 * w)) pixels))
         (seq a k)).
Proof.
  intros Hbytes. induction k as [|k IH]; intros a pre Hpre Hfit.
  - cbn [seq storeRows flat_map replicate Nat.mul]. rewrite Nat.mul_0_r.
    reflexivity.
  - cbn [seq storeRows flat_map].
    replace ((4 * w + 1) * S k)%nat
      with (1 + (4 * w + (4 * w + 1) * k))%nat by lia.
    rewrite replicate_add, replicate_add. cbn [replicate app].
    set (row := slice pixels (Z.of_nat a * (Z.of_nat w * 4))
                  (Z.of_nat a * (Z.of_nat w * 4) + Z.of_nat w * 4)).
    assert (Hrow : row = take (4 * w) (drop (a * (4 * w)) pixels)).
    { subst row. unfold slice. f_equal; [lia|f_equal; lia]. }
    assert (Hlen : length row = (4 * w)%nat).
    { rewrite Hrow, length_take, length_drop. nia. }
    change (pre ++ 0 :: replicate (4 * w) 0 ++ replicate ((4 * w + 1) * k) 0)
      with (pre ++ [0] ++ replicate (4 * w) 0 ++ replicate ((4 * w + 1) * k) 0).
    rewrite (app_assoc pre [0]).
    rewrite (setBytes_app (pre ++ [0]) (replicate (4 * w) 0) _ row).
    + cbn [mbind outcome_bind].
      rewrite (app_assoc (pre ++ [0])), IH.
      * rewrite <- !app_assoc, Hrow. reflexivity.
      * rewrite !length_app, Hlen. cbn [length]. lia.
      * lia.
    + rewrite length_app. cbn [length]. lia.
    + rewrite length_replicate, Hlen. reflexivity.
    + rewrite Hrow. apply Forall_take, Forall_drop. exact Hbytes.
Qed.

(** Consecutive rows of a pixel array, one after the other, are the
    array. *)
Lemma rows_of_pixels (m : nat) : forall (h : nat) (pixels : list Z),
  length pixels = (h * m)%nat ->
  flat_map (fun y => take m (drop (y * m) pixels)) (seq 0 h) = pixels.
Proof.
  induction h as [|h IH]; intros pixels Hlen.
  - destruct pixels; [reflexivity|discriminate].
  - cbn [seq flat_map]. rewrite <- seq_shift, flat_map_concat_map, map_map,
      <- flat_map_concat_map.
    rewrite (flat_map_ext_in _ (fun y => take m (drop (y * m) (drop m pixels)))).
    + rewrite IH by (rewrite length_drop; lia).
      cbn [Nat.mul drop]. apply take_drop.
    + intros y _. rewrite drop_drop. f_equal; f_equal; lia.
Qed.

Lemma get_flat_map_rows (m : nat) (g : nat -> list Z) (n : nat) :
  forall (a : nat),
    (forall i, (a <= i < a + n)%nat -> length (g i) = m) ->
    forall (i c : nat), (i < n)%nat -> (c < m)%nat ->
      get (flat_map g (seq a n)) (i * m + c) = get (g (a + i)%nat) c.
Proof.
  induction n as [|n IH]; intros a Hg i c Hi Hc; [lia|].
  cbn [seq flat_map]. unfold get. destruct i as [|i].
  - cbn [Nat.mul Nat.add]. rewrite lookup_app_l by (rewrite Hg; lia).
    replace (a + 0)%nat with a by lia. reflexivity.
  - rewrite lookup_app_r by (rewrite Hg; lia). rewrite Hg by lia.
    replace (S i * m + c - m)%nat with (i * m + c)%nat by lia.
    replace (a + S i)%nat with (S a + i)%nat by lia.
    apply (IH (S a)); [intros j Hj; apply Hg; lia|lia|lia].
Qed.

Lemma unfilterRow_none (channels : nat) (prevRow currentRow : list Z) (n : nat) :
  unfilterRow 0 channels prevRow currentRow n = currentRow.
Proof.
  unfold unfilterRow. generalize (seq 0 n) as l.
  induction l as [|x l IH]; [reflexivity|]. cbn [fold_left]. exact IH.
Qed.

Lemma rowPixels_rgba (w : nat) (row : list Z) :
  length row = (4 * w)%nat -> rowPixels 4 w row = row.
Proof.
  intros Hlen. unfold rowPixels. cbn [Nat.eqb]. apply get_ext.
  - rewrite (length_flat_map_const 4), length_seq; [lia|reflexivity].
  - rewrite (length_flat_map_const 4), length_seq; [|reflexivity].
    intros i Hi.
    replace i with ((i / 4) * 4 + i mod 4)%nat at 1
      by (pose proof (Nat.div_mod_eq i 4); lia).
    pose proof (Nat.mod_upper_bound i 4 ltac:(lia)) as Hc.
    assert (Hx : (i / 4 < w)%nat) by (apply Nat.Div0.div_lt_upper_bound; lia).
    rewrite (get_flat_map_chunk 4 _ w) by (reflexivity || assumption).
    cbn [Nat.add].
    pose proof (Nat.div_mod_eq i 4) as Hdiv.
    destruct (i mod 4)%nat as [|[|[|[|c]]]] eqn:Hmod; try lia;
      cbn [get lookup list_lookup default from_option id];
      unfold get; do 2 f_equal; lia.
Qed.

Section Scanlines.
Variables (pixels : list Z) (w h : nat).
Hypothesis pixels_length : length pixels = (h * (w * 4))%nat.

Lemma length_png_row (y : nat) :
  (y < h)%nat -> length (take (w * 4) (drop (y * (w * 4)) pixels)) = (w * 4)%nat.
Proof. intros Hy. rewrite length_take, length_drop. nia. Qed.

Lemma png_row_read (y : nat) :
  (y < h)%nat ->
  get (pngScanlines pixels (w * 4) h) (y * (w * 4 + 1)) = 0 /\
  map (fun i => get (pngScanlines pixels (w * 4) h) (S (y * (w * 4 + 1)) + i))
    (seq 0 (w * 4)) =
  take (w * 4) (drop (y * (w * 4)) pixels).
Proof.
  intros Hy.
  assert (Hchunk : forall i, (0 <= i < 0 + h)%nat ->
            length (0 :: take (w * 4) (drop (i * (w * 4)) pixels)) =
            (w * 4 + 1)%nat).
  { intros i Hi. cbn [length]. rewrite length_png_row by lia. lia. }
  split.
  - unfold pngScanlines.
    replace (y * (w * 4 + 1))%nat with (y * (w * 4 + 1) + 0)%nat by lia.
    rewrite (get_flat_map_rows (w * 4 + 1) _ h 0 Hchunk y 0) by lia.
    reflexivity.
  - apply get_ext.
    + rewrite length_map, length_seq, length_png_row by assumption. reflexivity.
    + rewrite length_map, length_seq. intros i Hi.
      unfold get at 1. rewrite list_lookup_fmap, lookup_seq_lt by assumption.
      cbn [fmap option_fmap option_map default from_option id Nat.add].
      unfold pngScanlines.
      replace (S (y * (w * 4 + 1) + i)) with (y * (w * 4 + 1) + S i)%nat by lia.
      rewrite (get_flat_map_rows (w * 4 + 1) _ h 0 Hchunk y (S i)) by lia.
      reflexivity.
Qed.

Lemma decodeScanlines_rows (k : nat) : forall (a : nat) (prevRow acc : list Z),
  (a + k <= h)%nat ->
  exists lastRow,
    fold_left
      (fun '(prevRow, dOffset, out) (y : nat) =>
         let filterType := get (pngScanlines pixels (w * 4) h) dOffset in
         let dOffset := S dOffset in
         let currentRow :=
           map (fun i => get (pngScanlines pixels (w * 4) h) (dOffset + i))
             (seq 0 (w * 4)) in
         let currentRow :=
           unfilterRow filterType 4 prevRow currentRow (w * 4) in
         let dOffset := (dOffset + w * 4)%nat in
         (currentRow, dOffset, out ++ rowPixels 4 w currentRow))
      (seq a k) (prevRow, (a * (w * 4 + 1))%nat, acc) =
    (lastRow, ((a + k) * (w * 4 + 1))%nat,
     acc ++ flat_map (fun y => take (w * 4) (drop (y * (w * 4)) pixels)) (seq a k)).
Proof.
  induction k as [|k IH]; intros a prevRow acc Hfit.
  - exists prevRow. cbn [seq fold_left flat_map].
    rewrite app_nil_r, Nat.add_0_r. reflexivity.
  - match goal with
    | |- context [fold_left ?f _ _] => set (step := f) in *
    end.
    cbn [seq fold_left flat_map]. unfold step at 2. cbv beta iota zeta.
    destruct (png_row_read a ltac:(lia)) as [Hfilter Hrow].
    rewrite Hfilter.
    rewrite Hrow, unfilterRow_none, rowPixels_rgba
      by (rewrite length_png_row; lia).
    replace (S (a * (w * 4 + 1)) + w * 4)%nat
      with (S a * (w * 4 + 1))%nat by lia.
    destruct (IH (S a) (take (w * 4) (drop (a * (w * 4)) pixels))
                (acc ++ take (w * 4) (drop (a * (w * 4)) pixels)) ltac:(lia))
      as (lastRow & Hrest).
    exists lastRow. rewrite Hrest. rewrite <- app_assoc.
    replace (S a + k)%nat with (a + S k)%nat by lia. reflexivity.
Qed.

Lemma decodeScanlines_png : 
  decodeScanlines (pngScanlines pixels (w * 4) h) w h 6 = pixels.
Proof.
  unfold decodeScanlines. change (6 =? 2) with false. cbv iota zeta.
  destruct (decodeScanlines_rows h 0 (replicate (w * 4) 0) [] ltac:(lia))
    as (lastRow & Hrows).
  cbn [Nat.mul] in Hrows. rewrite Hrows. cbn [app].
  apply rows_of_pixels. exact pixels_length.
Qed.
End Scanlines.

(** ** The chunk walk *)

Lemma and32_255 (x : Z) : 0 <= x < 2 ^ 32 -> and32 x 255 = x mod 256.
Proof.
  intros Hx. unfold and32, toUint32.
  rewrite (Z.mod_small x), (Z.mod_small 255)
    by (change (2 ^ 32) with 4294967296 in *; lia).
  change 255 with (Z.ones 8). rewrite Z.land_ones by lia.
  apply toInt32_small. change (2 ^ 8) with 256.
  pose proof (Z.mod_pos_bound x 256 ltac:(lia)).
  change (2 ^ 31) with 2147483648. lia.
Qed.

Lemma ushr_div (x k : Z) : 0 <= x < 2 ^ 32 -> 0 <= k ->
  ushr x k = x / 2 ^ k /\ 0 <= x / 2 ^ k < 2 ^ 32.
Proof.
  intros Hx Hk. unfold ushr, toUint32.
  rewrite Z.mod_small by exact Hx. rewrite Z.shiftr_div_pow2 by exact Hk.
  split; [reflexivity|]. split.
  - apply Z.div_pos; [lia|apply Z.pow_pos_nonneg; lia].
  - apply Z.div_lt_upper_bound; [apply Z.pow_pos_nonneg; lia|].
    assert (1 <= 2 ^ k) by (pose proof (Z.pow_pos_nonneg 2 k); lia). nia.
Qed.

Lemma int32ToBytes_BE (n : Z) :
  0 <= n < 2 ^ 32 -> int32ToBytes n = setUint32BE n.
Proof.
  intros Hn. unfold int32ToBytes, setUint32BE.
  rewrite (Z.mod_small n (2 ^ 32)) by exact Hn.
  destruct (ushr_div n 24 Hn ltac:(lia)) as [-> H24].
  destruct (ushr_div n 16 Hn ltac:(lia)) as [-> H16].
  destruct (ushr_div n 8 Hn ltac:(lia)) as [-> H8].
  rewrite !and32_255 by assumption.
  f_equal. apply Z.mod_small. split; [lia|].
  apply Z.div_lt_upper_bound; [lia|].
  change (2 ^ 24 * 256) with (2 ^ 32). lia.
Qed.

Lemma dataViewAt_inside (buffer : list Z) (byteOffset : Z) :
  byteOffset <= Z.of_nat (length buffer) ->
  dataViewAt buffer byteOffset = Returned (drop (Z.to_nat byteOffset) buffer).
Proof.
  intros Hin. unfold dataViewAt.
  destruct (Z.ltb_spec (Z.of_nat (length buffer)) byteOffset); [lia|reflexivity].
Qed.

Lemma viewUint32BE_at (view rest : list Z) (byteOffset b0 b1 b2 b3 : Z) :
  0 <= byteOffset ->
  drop (Z.to_nat byteOffset) view = b0 :: b1 :: b2 :: b3 :: rest ->
  viewUint32BE view byteOffset = Returned (getUint32BE [b0; b1; b2; b3]).
Proof.
  intros Hlow Hdrop. unfold viewUint32BE, slice.
  assert (Hlen : (Z.to_nat byteOffset + 4 <= length view)%nat).
  { pose proof (f_equal length Hdrop) as Hl.
    rewrite length_drop in Hl. cbn [length] in Hl. lia. }
  destruct (Z.leb_spec (byteOffset + 4) (Z.of_nat (length view))); [|lia].
  rewrite Hdrop. replace (Z.to_nat (byteOffset + 4 - byteOffset)) with 4%nat by lia.
  reflexivity.
Qed.

Lemma viewUint8_at (view rest : list Z) (byteOffset b : Z) :
  0 <= byteOffset ->
  drop (Z.to_nat byteOffset) view = b :: rest ->
  viewUint8 view byteOffset = Returned b.
Proof.
  intros Hlow Hdrop. unfold viewUint8.
  assert (Hlen : (Z.to_nat byteOffset + 1 <= length view)%nat).
  { pose proof (f_equal length Hdrop) as Hl.
    rewrite length_drop in Hl. cbn [length] in Hl. lia. }
  destruct (Z.leb_spec (byteOffset + 1) (Z.of_nat (length view))); [|lia].
  unfold get. rewrite <- (Nat.add_0_r (Z.to_nat byteOffset)), <- lookup_drop, Hdrop.
  reflexivity.
Qed.

Lemma fourCC_at (data rest : list Z) (offset a b c d : Z) :
  drop (Z.to_nat offset) data = a :: b :: c :: d :: rest ->
  fourCC data offset = [a; b; c; d].
Proof.
  intros Hdrop. unfold fourCC. cbn [map]. unfold get.
  rewrite <- !lookup_drop, Hdrop. reflexivity.
Qed.

Lemma drop_past (A c B : list Z) (j : nat) :
  drop (length A + length c + j) (A ++ c ++ B) = drop j B.
Proof.
  rewrite <- Nat.add_assoc, <- drop_drop, drop_app_length.
  rewrite <- drop_drop, drop_app_length. reflexivity.
Qed.

Lemma walkPngChunks_S (fuel : nat) (data : list Z) (st : PngWalk) :
  walkPngChunks (S fuel) data st =
  let offset := pw_offset st in
  if offset <? Z.of_nat (length data) then
    view ← dataViewAt data offset;
    chunkLength ← viewUint32BE view 0;
    let offset := offset + 4 in
    let type := fourCC data offset in
    let offset := offset + 4 in
    if bool_decide (type = tag "IHDR") then
      chunkData ← dataViewAt data offset;
      width ← viewUint32BE chunkData 0;
      height ← viewUint32BE chunkData 4;
      depth ← viewUint8 chunkData 8;
      colorType ← viewUint8 chunkData 9;
      compression ← viewUint8 chunkData 10;
      filterMethod ← viewUint8 chunkData 11;
      interlace ← viewUint8 chunkData 12;
      walkPngChunks fuel data
        {| pw_offset := offset + chunkLength + 4;
           pw_width := width;
           pw_height := height;
           pw_colorType := colorType;
           pw_idatChunks := pw_idatChunks st;
           pw_idatTotalSize := pw_idatTotalSize st |}
    else if bool_decide (type = tag "IDAT") then
      let chunkData := slice data offset (offset + chunkLength) in
      walkPngChunks fuel data
        {| pw_offset := offset + chunkLength + 4;
           pw_width := pw_width st;
           pw_height := pw_height st;
           pw_colorType := pw_colorType st;
           pw_idatChunks := pw_idatChunks st ++ [chunkData];
           pw_idatTotalSize := pw_idatTotalSize st + chunkLength |}
    else if bool_decide (type = tag "IEND") then
      Returned st
    else
      walkPngChunks fuel data
        {| pw_offset := offset + chunkLength + 4;
           pw_width := pw_width st;
           pw_height := pw_height st;
           pw_colorType := pw_colorType st;
           pw_idatChunks := pw_idatChunks st;
           pw_idatTotalSize := pw_idatTotalSize st |}
  else Returned st.
Proof. reflexivity. Qed.

Lemma four_bytes (l : list Z) :
  length l = 4%nat -> exists a b c d, l = [a; b; c; d].
Proof.
  destruct l as [|a [|b [|c [|d [|e l]]]]]; try discriminate.
  intros _. exists a, b, c, d. reflexivity.
Qed.

(** The decoder's chunk loop on a file of the encoder's shape: it takes
    the dimensions and colour type 6 from IHDR and the one IDAT chunk, and
    stops at IEND.  No checksum is looked at. *)
Lemma walk_pngFile (w h : Z) (idat crc1 crc2 crc3 : list Z) :
  length crc1 = 4%nat -> length crc2 = 4%nat -> length crc3 = 4%nat ->
  0 <= w < 2 ^ 32 -> 0 <= h < 2 ^ 32 ->
  Z.of_nat (length idat) < 2 ^ 32 ->
  let file := pngFile w h idat crc1 crc2 crc3 in
  walkPngChunks (length file) file
    {| pw_offset := 8; pw_width := 0; pw_height := 0; pw_colorType := 0;
       pw_idatChunks := []; pw_idatTotalSize := 0 |} =
  Returned
    {| pw_offset := 45 + Z.of_nat (length idat);
       pw_width := w; pw_height := h; pw_colorType := 6;
       pw_idatChunks := [idat];
       pw_idatTotalSize := Z.of_nat (length idat) |}.
Proof.
  intros H1 H2 H3 Hw Hh Hn.
  destruct (four_bytes crc1 H1) as (c10 & c11 & c12 & c13 & ->).
  destruct (four_bytes crc2 H2) as (c20 & c21 & c22 & c23 & ->).
  destruct (four_bytes crc3 H3) as (c30 & c31 & c32 & c33 & ->).
  cbv zeta. unfold pngFile.
  rewrite (int32ToBytes_BE (Z.of_nat (length idat))) by lia.
  set (n := Z.of_nat (length idat)) in *.
  match goal with
  | |- walkPngChunks (length ?f) _ _ = _ => set (file := f)
  end.
  set (B := [c20; c21; c22; c23] ++ int32ToBytes 0 ++ tag "IEND" ++
            [c30; c31; c32; c33]).
  assert (Hfile : exists A, length A = 41%nat /\ file = A ++ idat ++ B)
    by (exists (firstn 41 file); split; reflexivity).
  destruct Hfile as (A & HA & Hshape).
  assert (Hlen : length file = (57 + length idat)%nat).
  { rewrite Hshape, !length_app, HA.
    change (length B) with 16%nat. lia. }
  assert (V1 : viewUint32BE (drop 8 file) 0 = Returned 13).
  { erewrite viewUint32BE_at; [|lia|reflexivity]. reflexivity. }
  assert (T1 : fourCC file 12 = tag "IHDR") by reflexivity.
  assert (Vw : viewUint32BE (drop 16 file) 0 = Returned w).
  { erewrite viewUint32BE_at; [|lia|reflexivity]. f_equal.
    apply (uint32BE_roundtrip w Hw). }
  assert (Vh : viewUint32BE (drop 16 file) 4 = Returned h).
  { erewrite viewUint32BE_at; [|lia|reflexivity]. f_equal.
    apply (uint32BE_roundtrip h Hh). }
  assert (U8 : viewUint8 (drop 16 file) 8 = Returned 8)
    by (eapply viewUint8_at; [lia|reflexivity]).
  assert (U9 : viewUint8 (drop 16 file) 9 = Returned 6)
    by (eapply viewUint8_at; [lia|reflexivity]).
  assert (U10 : viewUint8 (drop 16 file) 10 = Returned 0)
    by (eapply viewUint8_at; [lia|reflexivity]).
  assert (U11 : viewUint8 (drop 16 file) 11 = Returned 0)
    by (eapply viewUint8_at; [lia|reflexivity]).
  assert (U12 : viewUint8 (drop 16 file) 12 = Returned 0)
    by (eapply viewUint8_at; [lia|reflexivity]).
  assert (V2 : viewUint32BE (drop 33 file) 0 = Returned n).
  { erewrite viewUint32BE_at; [|lia|reflexivity]. f_equal.
    apply (uint32BE_roundtrip n). lia. }
  assert (T2 : fourCC file 37 = tag "IDAT") by reflexivity.
  assert (S2 : slice file 41 (41 + n) = idat).
  { unfold slice. replace (Z.to_nat (41 + n - 41)) with (length idat) by lia.
    change (drop (Z.to_nat 41) file) with (idat ++ B).
    apply take_app_length. }
  assert (D45 : drop (Z.to_nat (45 + n)) file = drop 4 B).
  { replace (Z.to_nat (45 + n))
      with (length A + length idat + 4)%nat by (rewrite HA; lia).
    rewrite Hshape. apply drop_past. }
  assert (V3 : viewUint32BE (drop (Z.to_nat (45 + n)) file) 0 = Returned 0).
  { rewrite D45. erewrite viewUint32BE_at; [|lia|reflexivity]. reflexivity. }
  assert (T3 : fourCC file (49 + n) = tag "IEND").
  { eapply fourCC_at.
    replace (Z.to_nat (49 + n))
      with (length A + length idat + 8)%nat by (rewrite HA; lia).
    rewrite Hshape, drop_past. reflexivity. }
  clearbody file. clear Hshape HA A.
  rewrite Hlen. cbn [Nat.add].
  rewrite walkPngChunks_S.
  cbn [pw_offset pw_width pw_height pw_colorType pw_idatChunks pw_idatTotalSize].
  cbv zeta.
  destruct (Z.ltb_spec 8 (Z.of_nat (length file))); [|lia].
  rewrite !dataViewAt_inside by lia. cbn [mbind outcome_bind].
  fold_offsets.
  change (Z.to_nat 8) with 8%nat. change (Z.to_nat 16) with 16%nat.
  rewrite V1. cbn [mbind outcome_bind].
  rewrite T1, bool_decide_eq_true_2 by reflexivity.
  rewrite Vw, Vh, U8, U9, U10, U11, U12. cbn [mbind outcome_bind].
  fold_offsets.
  rewrite walkPngChunks_S.
  cbn [pw_offset pw_width pw_height pw_colorType pw_idatChunks pw_idatTotalSize].
  cbv zeta.
  destruct (Z.ltb_spec 33 (Z.of_nat (length file))); [|lia].
  rewrite !dataViewAt_inside by lia. cbn [mbind outcome_bind].
  fold_offsets.
  change (Z.to_nat 33) with 33%nat. rewrite V2. cbn [mbind outcome_bind].
  rewrite T2.
  rewrite bool_decide_eq_false_2 by (vm_compute; discriminate).
  rewrite bool_decide_eq_true_2 by reflexivity.
  rewrite S2. cbn [app]. change (0 + n) with n.
  replace (41 + n + 4) with (45 + n) by lia.
  rewrite walkPngChunks_S.
  cbn [pw_offset pw_width pw_height pw_colorType pw_idatChunks pw_idatTotalSize].
  cbv zeta.
  destruct (Z.ltb_spec (45 + n) (Z.of_nat (length file))); [|lia].
  rewrite !dataViewAt_inside by lia. cbn [mbind outcome_bind].
  rewrite V3. cbn [mbind outcome_bind].
  replace (45 + n + 4) with (49 + n) by lia. rewrite T3.
  rewrite bool_decide_eq_false_2 by (vm_compute; discriminate).
  rewrite bool_decide_eq_false_2 by (vm_compute; discriminate).
  rewrite bool_decide_eq_true_2 by reflexivity.
  reflexivity.
Qed.

(** ** The encoder's file *)

Lemma writeChunk_bytes (parts : list Z) (type : string) (data : list Z) :
  writeChunk parts type data =
  parts ++ int32ToBytes (Z.of_nat (length data)) ++ TextEncoder_encode (lit type) ++
  data ++ chunkCrc type data.
Proof. unfold writeChunk, chunkCrc. cbv zeta. rewrite <- !app_assoc. reflexivity. Qed.

Lemma encodePNG_file (compress : list Z -> outcome (list Z))
    (pixels : list Z) (w h : nat) :
  Forall is_byte pixels ->
  length pixels = (h * (w * 4))%nat ->
  encodePNG compress pixels (Z.of_nat w) (Z.of_nat h) =
  idat ← compress (pngScanlines pixels (w * 4) h);
  Returned
    (pngFile (Z.of_nat w) (Z.of_nat h) idat
       (chunkCrc "IHDR"
          (setUint32BE (Z.of_nat w) ++ setUint32BE (Z.of_nat h) ++ [8; 6; 0; 0; 0]))
       (chunkCrc "IDAT" idat) (chunkCrc "IEND" [])).
Proof.
  intros Hbytes Hlen. unfold encodePNG. cbv zeta.
  destruct (Z.ltb_spec ((Z.of_nat w * 4 + 1) * Z.of_nat h) 0); [lia|].
  replace (Z.to_nat ((Z.of_nat w * 4 + 1) * Z.of_nat h))
    with ((4 * w + 1) * h)%nat by lia.
  rewrite Nat2Z.id.
  pose proof (storeRows_fills pixels w h Hbytes 0 [] ltac:(simpl; lia) ltac:(lia))
    as Hrows.
  cbn [app] in Hrows. rewrite Hrows. cbn [mbind outcome_bind].
  unfold pngScanlines. replace (w * 4)%nat with (4 * w)%nat by lia.
  destruct (compress _) as [idat|e]; [|reflexivity].
  cbn [mbind outcome_bind]. f_equal.
  rewrite !writeChunk_bytes. unfold pngFile.
  rewrite <- !app_assoc. reflexivity.
Qed.

Lemma joinIdat_single (idat : list Z) :
  joinIdat [idat] (Z.of_nat (length idat)) = idat.
Proof.
  unfold joinIdat. cbn [concat]. rewrite app_nil_r, Nat2Z.id, Nat.sub_diag.
  apply app_nil_r.
Qed.

Lemma length_chunkCrc (type : string) (data : list Z) :
  length (chunkCrc type data) = 4%nat.
Proof. reflexivity. Qed.

(** The decoder on a file of the encoder's shape, whatever the checksums. *)
Lemma decodePNG_file (decompress : list Z -> outcome (list Z))
    (w h : Z) (idat crc1 crc2 crc3 : list Z) :
  length crc1 = 4%nat -> length crc2 = 4%nat -> length crc3 = 4%nat ->
  0 < w < 2 ^ 32 -> 0 < h < 2 ^ 32 ->
  Z.of_nat (length idat) < 2 ^ 32 ->
  decodePNG decompress (pngFile w h idat crc1 crc2 crc3) =
  decompressed ← decompress idat;
  Returned
    (mkImageData w h (decodeScanlines decompressed (Z.to_nat w) (Z.to_nat h) 6)).
Proof.
  intros H1 H2 H3 Hw Hh Hn. unfold decodePNG. cbv zeta.
  change (get (pngFile w h idat crc1 crc2 crc3) 0) with 0x89.
  change (get (pngFile w h idat crc1 crc2 crc3) 1) with 0x50.
  change (get (pngFile w h idat crc1 crc2 crc3) 2) with 0x4E.
  change (get (pngFile w h idat crc1 crc2 crc3) 3) with 0x47.
  cbn [Z.eqb Pos.eqb negb orb].
  rewrite (walk_pngFile w h idat crc1 crc2 crc3 H1 H2 H3) by lia.
  cbn [mbind outcome_bind pw_width pw_height pw_colorType pw_idatChunks
       pw_idatTotalSize].
  destruct (Z.eqb_spec w 0); [lia|]. destruct (Z.eqb_spec h 0); [lia|].
  cbn [orb]. rewrite joinIdat_single. reflexivity.
Qed.

Lemma length_pngFile (w h : Z) (idat crc1 crc2 crc3 : list Z) :
  length (pngFile w h idat crc1 crc2 crc3) =
  (45 + length idat + length crc1 + length crc2 + length crc3)%nat.
Proof.
  unfold pngFile. rewrite !length_app.
  change (length (int32ToBytes 13)) with 4%nat.
  change (length (int32ToBytes 0)) with 4%nat.
  change (length (int32ToBytes (Z.of_nat (length idat)))) with 4%nat.
  change (length (setUint32BE w)) with 4%nat.
  change (length (setUint32BE h)) with 4%nat.
  cbn [length tag]. change (length (tag "IHDR")) with 4%nat.
  change (length (tag "IDAT")) with 4%nat. change (length (tag "IEND")) with 4%nat.
  lia.
Qed.

(** X10: when the host's inflate undoes the host's deflate, [decodePNG]
    undoes [encodePNG]: for an RGBA image with both sides under 2^32 whose
    file stays under 2^32 bytes, decoding the encoded file returns the image
    unchanged. *)
Theorem png_codec_roundtrip
    (compress decompress : list Z -> outcome (list Z))
    (img : ImageData) (file : list Z) :
  (forall raw idat, compress raw = Returned idat -> decompress idat = Returned raw) ->
  wf_image img ->
  0 < width img < 2 ^ 32 ->
  0 < height img < 2 ^ 32 ->
  encodePNG compress (data img) (width img) (height img) = Returned file ->
  Z.of_nat (length file) < 2 ^ 32 ->
  decodePNG decompress file = Returned img.
Proof.
  intros Hhost (_ & _ & Hsize & Hbytes) Hw Hh Henc Hfile.
  destruct img as [width0 height0 pixels]. cbn [width height data] in *.
  assert (Hlen : length pixels = (Z.to_nat height0 * (Z.to_nat width0 * 4))%nat)
    by nia.
  rewrite <- (Z2Nat.id width0), <- (Z2Nat.id height0) in Henc by lia.
  rewrite (encodePNG_file compress pixels _ _ Hbytes Hlen) in Henc.
  destruct (compress _) as [idat|e] eqn:Hcompress; [|discriminate].
  cbn [mbind outcome_bind] in Henc. injection Henc as <-.
  rewrite length_pngFile, !length_chunkCrc in Hfile.
  rewrite !Z2Nat.id by lia.
  rewrite decodePNG_file by (try apply length_chunkCrc; lia).
  rewrite (Hhost _ _ Hcompress). cbn [mbind outcome_bind].
  rewrite (decodeScanlines_png pixels _ _ Hlen). reflexivity.
Qed.

Lemma png_codec_roundtrip_witness :
  exists file,
    encodePNG stored (data sixPixels) (width sixPixels) (height sixPixels) =
      Returned file /\
    decodePNG stored file = Returned sixPixels.
Proof.
  eexists. split; [vm_compute; reflexivity|].
  apply (png_codec_roundtrip stored stored sixPixels).
  - intros raw idat Hstored. injection Hstored as <-. reflexivity.
  - unfold wf_image. cbn. repeat split; try lia.
    repeat constructor; unfold is_byte; lia.
  - cbn. lia.
  - cbn. lia.
  - vm_compute. reflexivity.
  - vm_compute. reflexivity.
Defined.

(** X11: [decodePNG] never looks at a chunk's checksum.  A file of the
    encoder's layout (signature, IHDR, one IDAT, IEND) decodes to the
    inflated scanlines of its IDAT chunk whatever twelve bytes stand in the
    three checksum fields, so a damaged chunk is not detected here. *)
Theorem decodePNG_ignores_checksums
    (decompress : list Z -> outcome (list Z))
    (w h : Z) (idat crc1 crc2 crc3 : list Z) :
  length crc1 = 4%nat -> length crc2 = 4%nat -> length crc3 = 4%nat ->
  0 < w < 2 ^ 32 -> 0 < h < 2 ^ 32 ->
  Z.of_nat (length idat) < 2 ^ 32 ->
  decodePNG decompress (pngFile w h idat crc1 crc2 crc3) =
  decodePNG decompress
    (pngFile w h idat
       (chunkCrc "IHDR" (setUint32BE w ++ setUint32BE h ++ [8; 6; 0; 0; 0]))
       (chunkCrc "IDAT" idat) (chunkCrc "IEND" [])).
Proof.
  intros H1 H2 H3 Hw Hh Hn.
  rewrite !decodePNG_file by (try apply length_chunkCrc; assumption).
  reflexivity.
Qed.

Lemma decodePNG_ignores_checksums_witness :
  decodePNG stored
    (pngFile 2 3 (pngScanlines (data sixPixels) 8 3)
       [0; 0; 0; 0] [1; 2; 3; 4] [255; 255; 255; 255]) =
  decodePNG stored
    (pngFile 2 3 (pngScanlines (data sixPixels) 8 3)
       (chunkCrc "IHDR" (setUint32BE 2 ++ setUint32BE 3 ++ [8; 6; 0; 0; 0]))
       (chunkCrc "IDAT" (pngScanlines (data sixPixels) 8 3))
       (chunkCrc "IEND" [])).
Proof.
  apply (decodePNG_ignores_checksums stored 2 3
           (pngScanlines (data sixPixels) 8 3)
           [0; 0; 0; 0] [1; 2; 3; 4] [255; 255; 255; 255]);
    try reflexivity; lia.
Defined.

(** * The crypto worker's two handlers together *)

Lemma envelope_fields (flags : Z) (salt iv ciphertext : list Z) :
  length salt = 16%nat -> length iv = 12%nat ->
  let packed := [flags] ++ setUint32LE 16 ++ salt ++ iv ++ ciphertext in
  length packed = (33 + length ciphertext)%nat /\
  get packed 0 = flags /\
  saltLengthField packed = 16 /\
  slice packed 5 21 = salt /\
  slice packed 21 33 = iv /\
  drop 33 packed = ciphertext.
Proof.
  intros Hsalt Hiv packed. subst packed.
  change (setUint32LE 16) with [16; 0; 0; 0].
  repeat split.
  - rewrite !length_app, Hsalt, Hiv. reflexivity.
  - pose proof (slice_middle [flags; 16; 0; 0; 0] salt (iv ++ ciphertext)) as H.
    rewrite Hsalt in H. exact H.
  - pose proof (slice_middle ([flags; 16; 0; 0; 0] ++ salt) iv ciphertext) as H.
    rewrite <- app_assoc, length_app, Hsalt, Hiv in H. exact H.
  - pose proof (drop_app_length ([flags; 16; 0; 0; 0] ++ salt ++ iv) ciphertext)
      as H.
    rewrite <- !app_assoc, !length_app, Hsalt, Hiv in H. exact H.
Qed.

Section EncryptDecrypt.
Context {K : Type}.
Variables (derive : string -> list Z -> Z -> outcome K)
          (encrypt decrypt : K -> list Z -> list Z -> outcome (list Z))
          (compress decompress : list Z -> outcome (list Z)).

(** What the decrypt handler of a job that is never cancelled posts for an
    envelope whose key derivation, decryption and decompression succeed. *)
Lemma handleDecrypt_posts (packed : list Z) (password : string) (key : K)
    (plaintext result : list Z) :
  let highSecurity := negb (Z.land (get packed 0) FLAG_HIGH_SECURITY =? 0) in
  let compressed := negb (Z.land (get packed 0) FLAG_COMPRESSED =? 0) in
  49 <= Z.of_nat (length packed) ->
  saltLengthField packed = 16 ->
  derive password (slice packed 5 21)
    (if highSecurity then 310000 else 100000) = Returned key ->
  decrypt key (slice packed 21 33) (drop 33 packed) = Returned plaintext ->
  (if compressed then decompress plaintext = Returned result
   else result = plaintext) ->
  handleDecrypt derive decrypt decompress (fun _ => true) packed password =
  [ PROGRESS 10 "decrypt" "Unpacking data...";
    PROGRESS 30 "decrypt"
      (if highSecurity then "Deriving key (PBKDF2 310K)..."
       else "Deriving key (PBKDF2 100K)...");
    PROGRESS 60 "decrypt" "Decrypting...";
    PROGRESS 80 "decrypt" "Processing..." ] ++
  (if compressed then [PROGRESS 85 "decrypt" "Decompressing..."] else []) ++
  [ PROGRESS 100 "decrypt" "Complete"; COMPLETE result ].
Proof.
  intros highSecurity compressed Hlen Hsalt Hkey Hpt Hresult.
  unfold handleDecrypt. cbn [negb].
  destruct (Z.ltb_spec (Z.of_nat (length packed)) 49); [lia|].
  rewrite read_salt_length by lia. step.
  rewrite Hsalt. cbn [negb Z.eqb Pos.eqb].
  destruct (Z.ltb_spec (Z.of_nat (length packed)) (0 + 1 + 4 + 16)); [lia|].
  destruct (Z.ltb_spec (Z.of_nat (length packed)) (0 + 1 + 4 + 16 + 12)); [lia|].
  destruct (Z.ltb_spec (Z.of_nat (length packed)) (0 + 1 + 4 + 16 + 12 + 16));
    [lia|].
  change (0 + 1 + 4 + 16 + 12) with 33. change (0 + 1 + 4 + 16) with 21.
  change (0 + 1 + 4) with 5.
  change (Z.to_nat 33) with 33%nat. change (Z.to_nat 0) with 0%nat.
  fold highSecurity compressed. step.
  rewrite Hkey. step. rewrite Hpt. step.
  destruct compressed; step.
  - rewrite Hresult. step. reflexivity.
  - rewrite Hresult. reflexivity.
Qed.
End EncryptDecrypt.

(** X12: what the encrypt handler completes with, the decrypt handler turns
    back into the payload.  Assume of the host that AES-GCM decryption under
    the same key and nonce undoes encryption, that the ciphertext is 16
    bytes longer than the plaintext, and that gunzip undoes gzip.  Then for
    every payload, password, setting of the two options and output of the
    random generator, the decrypt handler of a job that is not cancelled,
    given the envelope and the same password, posts no error and ends with
    [COMPLETE payload]. *)
Theorem encrypt_then_decrypt_returns_payload
    (K : Type) (derive : string -> list Z -> Z -> outcome K)
    (encrypt decrypt : K -> list Z -> list Z -> outcome (list Z))
    (compress decompress : list Z -> outcome (list Z))
    (active : nat -> bool) (random : nat -> Z) (payload : list Z)
    (password : string) (useHighSecurity compressed : bool) (packed : list Z) :
  (forall key nonce plaintext ciphertext,
      encrypt key nonce plaintext = Returned ciphertext ->
      decrypt key nonce ciphertext = Returned plaintext /\
      length ciphertext = (length plaintext + 16)%nat) ->
  (forall data zipped,
      compress data = Returned zipped -> decompress zipped = Returned data) ->
  COMPLETE packed ∈
    handleEncrypt derive encrypt compress active random payload password
      useHighSecurity compressed ->
  let run :=
    handleDecrypt derive decrypt decompress (fun _ => true) packed password in
  last run = Some (COMPLETE payload) /\
  (forall message code, ERROR message code ∉ run).
Proof.
  intros Haes Hzip Hin.
  apply handleEncrypt_complete in Hin. cbv zeta in Hin.
  destruct Hin as (key & dataToEncrypt & ciphertext & Hdata & Hkey & Hct & ->).
  set (salt := getRandomValues random 0 (replicate 16 0)) in *.
  set (iv := getRandomValues random 16 (replicate 12 0)) in *.
  assert (Hsalt : length salt = 16%nat) by apply length_getRandomValues.
  assert (Hiv : length iv = 12%nat) by apply length_getRandomValues.
  destruct (Haes _ _ _ _ Hct) as [Hpt Htag].
  rewrite Hsalt. change (Z.of_nat 16) with 16.
  set (flags := (if compressed then 1 else 0) + (if useHighSecurity then 2 else 0)).
  destruct (envelope_fields flags salt iv ciphertext Hsalt Hiv)
    as (Hlen & Hflags & Hfield & Hs & Hi & Hc).
  assert (Hhs : negb (Z.land flags FLAG_HIGH_SECURITY =? 0) = useHighSecurity)
    by (subst flags; destruct compressed, useHighSecurity; reflexivity).
  assert (Hcomp : negb (Z.land flags FLAG_COMPRESSED =? 0) = compressed)
    by (subst flags; destruct compressed, useHighSecurity; reflexivity).
  intros run. subst run.
  rewrite (handleDecrypt_posts derive decrypt decompress _ password key
             dataToEncrypt payload).
  - rewrite Hflags, Hhs, Hcomp. split.
    + destruct compressed; reflexivity.
    + intros message code Herr.
      destruct compressed; cbn [app] in Herr;
        repeat (apply elem_of_cons in Herr as [Herr|Herr]; [discriminate|]);
        inversion Herr.
  - rewrite Hlen. lia.
  - exact Hfield.
  - rewrite Hflags, Hhs, Hs. exact Hkey.
  - rewrite Hi, Hc. exact Hpt.
  - rewrite Hflags, Hcomp. destruct compressed.
    + apply Hzip. exact Hdata.
    + symmetry. exact Hdata.
Qed.

Lemma encrypt_then_decrypt_returns_payload_witness :
  last (ToyHost.handleDecrypt (fun _ => true) ToyHost.envelope ToyHost.password) =
    Some (COMPLETE ToyHost.payload) /\
  (forall message code,
      ERROR message code ∉
        ToyHost.handleDecrypt (fun _ => true) ToyHost.envelope ToyHost.password).
Proof.
  apply (encrypt_then_decrypt_returns_payload Z ToyHost.deriveKeyPBKDF2
           ToyHost.encryptAesGcm ToyHost.decryptAesGcm ToyHost.compressData
           ToyHost.decompressData (fun _ => true) ToyHost.random
           ToyHost.payload ToyHost.password true true ToyHost.envelope).
  - intros key nonce plaintext ciphertext Hct.
    unfold ToyHost.encryptAesGcm in Hct. injection Hct as <-.
    split.
    + unfold ToyHost.decryptAesGcm. rewrite length_app.
      replace (length plaintext + length (ToyHost.tagOf key nonce plaintext) - 16)%nat
        with (length plaintext)
        by (unfold ToyHost.tagOf; rewrite length_replicate; lia).
      rewrite take_app_length, drop_app_length.
      rewrite bool_decide_eq_true_2 by reflexivity. reflexivity.
    + rewrite length_app. unfold ToyHost.tagOf. rewrite length_replicate.
      reflexivity.
  - intros data zipped Hzip. unfold ToyHost.compressData in Hzip.
    injection Hzip as <-. reflexivity.
  - match goal with
    | |- ?m ∈ ?l => let l' := eval vm_compute in l in change (m ∈ l')
    end.
    repeat constructor.
Defined.

(** ** Cancellation *)

Section Cancellation.
Context {K : Type}.
Variables (derive : string -> list Z -> Z -> outcome K)
          (encrypt decrypt : K -> list Z -> list Z -> outcome (list Z))
          (compress decompress : list Z -> outcome (list Z)).
Variables (active : nat -> bool) (password : string).

Lemma handleEncrypt_checks (random : nat -> Z) (payload : list Z)
    (useHighSecurity compressed : bool) (packed : list Z) :
  COMPLETE packed ∈
    handleEncrypt derive encrypt compress active random payload password
      useHighSecurity compressed ->
  active 0%nat = true /\ active 1%nat = true /\ active 2%nat = true.
Proof.
  unfold handleEncrypt.
  destruct (active 0%nat); cbn [negb]; [|intros Hin; inversion Hin].
  destruct compressed; step.
  - destruct (compress payload) as [dataToEncrypt|e]; step;
      [|intros Hin; find_complete Hin].
    destruct (active 1%nat); step; [|intros Hin; find_complete Hin].
    destruct (derive password _ _) as [key|e]; step;
      [|intros Hin; find_complete Hin].
    destruct (active 2%nat); step; [|intros Hin; find_complete Hin].
    auto.
  - destruct (active 1%nat); step; [|intros Hin; find_complete Hin].
    destruct (derive password _ _) as [key|e]; step;
      [|intros Hin; find_complete Hin].
    destruct (active 2%nat); step; [|intros Hin; find_complete Hin].
    auto.
Qed.

Lemma handleDecrypt_checks (packed result : list Z) :
  COMPLETE result ∈
    handleDecrypt derive decrypt decompress active packed password ->
  active 0%nat = true /\ active 1%nat = true /\ active 2%nat = true.
Proof.
  unfold handleDecrypt.
  destruct (active 0%nat); cbn [negb]; [|intros Hin; inversion Hin].
  destruct (Z.of_nat (length packed) <? 49).
  { step. intros Hin. no_complete Hin. }
  destruct (getUint32 _ _) as [saltLen|e]; step;
    [|intros Hin; no_complete Hin].
  destruct (negb (saltLen =? 16)); [step; intros Hin; no_complete Hin|].
  repeat match goal with
         | |- context [if ?c then throw _ else _] =>
             destruct c; [step; intros Hin; no_complete Hin|]
         end.
  destruct (active 1%nat); step; [|intros Hin; no_complete Hin].
  destruct (derive password _ _) as [key|e]; step;
    [|intros Hin; no_complete Hin].
  destruct (active 2%nat); step; [|intros Hin; no_complete Hin].
  auto.
Qed.
End Cancellation.

(** X13: a cancelled job delivers nothing.  [active n] is the answer of the
    job table at the handler's n-th look (n = 0, 1, 2).  If any of the three
    answers is false, neither handler posts a [COMPLETE] message, whatever
    the host's cryptography returns; and if the first answer is false, the
    handler posts no message at all, not even an error. *)
Theorem cancelled_job_posts_no_result
    (K : Type) (derive : string -> list Z -> Z -> outcome K)
    (encrypt decrypt : K -> list Z -> list Z -> outcome (list Z))
    (compress decompress : list Z -> outcome (list Z))
    (active : nat -> bool) (random : nat -> Z) (payload packed : list Z)
    (password : string) (useHighSecurity compressed : bool) (n : nat) :
  (n < 3)%nat ->
  active n = false ->
  let encryptRun :=
    handleEncrypt derive encrypt compress active random payload password
      useHighSecurity compressed in
  let decryptRun :=
    handleDecrypt derive decrypt decompress active packed password in
  (forall result, COMPLETE result ∉ encryptRun) /\
  (forall result, COMPLETE result ∉ decryptRun) /\
  (n = 0%nat -> encryptRun = [] /\ decryptRun = []).
Proof.
  intros Hn Hcancel encryptRun decryptRun. subst encryptRun decryptRun.
  assert (Hsome : active 0%nat = false \/ active 1%nat = false \/
                  active 2%nat = false).
  { destruct n as [|[|[|n]]]; [tauto|tauto|tauto|lia]. }
  split; [|split].
  - intros result Hin.
    apply handleEncrypt_checks in Hin as (H0 & H1 & H2).
    rewrite H0, H1, H2 in Hsome. intuition discriminate.
  - intros result Hin.
    apply handleDecrypt_checks in Hin as (H0 & H1 & H2).
    rewrite H0, H1, H2 in Hsome. intuition discriminate.
  - intros ->. unfold handleEncrypt, handleDecrypt. rewrite Hcancel.
    split; reflexivity.
Qed.

Lemma cancelled_job_posts_no_result_witness :
  (forall result,
      COMPLETE result ∉
        ToyHost.handleEncrypt (fun n => negb (Nat.eqb n 2)) ToyHost.random
          ToyHost.payload ToyHost.password true true) /\
  (forall result,
      COMPLETE result ∉
        ToyHost.handleDecrypt (fun n => negb (Nat.eqb n 2)) ToyHost.envelope
          ToyHost.password) /\
  (2%nat = 0%nat ->
   ToyHost.handleEncrypt (fun n => negb (Nat.eqb n 2)) ToyHost.random
     ToyHost.payload ToyHost.password true true = [] /\
   ToyHost.handleDecrypt (fun n => negb (Nat.eqb n 2)) ToyHost.envelope
     ToyHost.password = []).
Proof.
  apply (cancelled_job_posts_no_result Z ToyHost.deriveKeyPBKDF2
           ToyHost.encryptAesGcm ToyHost.decryptAesGcm ToyHost.compressData
           ToyHost.decompressData (fun n => negb (Nat.eqb n 2)) ToyHost.random
           ToyHost.payload ToyHost.envelope ToyHost.password
           true true 2).
  - lia.
  - reflexivity.
Defined.

(** * The crypto library's envelope *)

Lemma packEncryptedData_bytes (result : EncryptionResult) :
  wf_encryption result ->
  packEncryptedData result =
  Returned
    (map (byteLE (Z.of_nat (length (enc_salt result)))) (seq 0 4) ++
     enc_salt result ++ enc_iv result ++ enc_ciphertext result).
Proof.
  intros (Hsalt & Hiv & Hct). destruct result as [ct iv salt].
  cbn [enc_salt enc_iv enc_ciphertext] in *.
  unfold packEncryptedData. cbv zeta. cbn [enc_salt enc_iv enc_ciphertext].
  replace (Z.to_nat (4 + Z.of_nat (length salt) + Z.of_nat (length iv) +
                     Z.of_nat (length ct)))
    with (4 + (length salt + (length iv + length ct)))%nat by lia.
  rewrite !replicate_add.
  pose proof (setUintLE_app 4 [] (replicate 4 0)
                (replicate (length salt) 0 ++ replicate (length iv) 0 ++
                 replicate (length ct) 0) 0 (Z.of_nat (length salt))
                eq_refl eq_refl) as Hstore.
  cbn [app] in Hstore. unfold setUint32. cbn [app]. rewrite Hstore.
  cbn [mbind outcome_bind].
  set (header := map (byteLE (Z.of_nat (length salt))) (seq 0 4)).
  assert (Hheader : length header = 4%nat) by reflexivity.
  rewrite (setBytes_app header) by
    first [assumption | apply length_replicate | (rewrite Hheader; lia)].
  cbn [mbind outcome_bind].
  rewrite (app_assoc header salt).
  rewrite (setBytes_app (header ++ salt)) by
    first [assumption | apply length_replicate
          | (rewrite length_app, Hheader; lia)].
  cbn [mbind outcome_bind].
  rewrite (app_assoc (header ++ salt) iv).
  pose proof (setBytes_app ((header ++ salt) ++ iv) (replicate (length ct) 0) []
                ct (0 + 4 + Z.of_nat (length salt) + Z.of_nat (length iv))) as Hlast.
  rewrite !app_nil_r in Hlast. rewrite Hlast.
  - cbn [mbind outcome_bind]. rewrite <- !app_assoc. reflexivity.
  - rewrite !length_app, Hheader. lia.
  - apply length_replicate.
  - assumption.
Qed.

Lemma unpackEncryptedData_bytes (n : Z) (salt iv ciphertext : list Z) :
  n = Z.of_nat (length salt) -> n < 2 ^ 32 -> length iv = 12%nat ->
  unpackEncryptedData
    (map (byteLE n) (seq 0 4) ++ salt ++ iv ++ ciphertext) =
  Returned (mkEncryptionResult ciphertext iv salt).
Proof.
  intros Hn Hsmall Hiv. unfold unpackEncryptedData. cbv zeta.
  set (header := map (byteLE n) (seq 0 4)).
  assert (Hheader : length header = 4%nat) by reflexivity.
  pose proof (getUintLE_app 4 [] (salt ++ iv ++ ciphertext) 0 n eq_refl) as Hload.
  cbn [app] in Hload. fold header in Hload.
  unfold getUint32. rewrite Hload. cbn [mbind outcome_bind].
  change (256 ^ Z.of_nat 4) with (2 ^ 32). rewrite Z.mod_small by lia.
  f_equal. f_equal.
  - replace (Z.to_nat (0 + 4 + n + 12))
      with (length (header ++ salt ++ iv)) by (rewrite !length_app; lia).
    transitivity (drop (length (header ++ salt ++ iv))
                    ((header ++ salt ++ iv) ++ ciphertext));
      [f_equal; rewrite <- !app_assoc; reflexivity|apply drop_app_length].
  - pose proof (slice_middle (header ++ salt) iv ciphertext) as H.
    rewrite <- app_assoc, length_app, Hheader, Hiv in H.
    etransitivity; [|exact H]. f_equal; lia.
  - pose proof (slice_middle header salt (iv ++ ciphertext)) as H.
    rewrite Hheader in H. etransitivity; [|exact H]. f_equal; lia.
Qed.

(** X14: [unpackEncryptedData] undoes [packEncryptedData] when the IV has
    the 12 bytes AES-GCM uses: for a salt shorter than 2^32 bytes, packing
    never fails, the envelope is 4 + salt + 12 + ciphertext bytes long, and
    unpacking it returns the same salt, IV and ciphertext. *)
Theorem crypto_envelope_roundtrip (result : EncryptionResult) :
  wf_encryption result ->
  length (enc_iv result) = 12%nat ->
  Z.of_nat (length (enc_salt result)) < 2 ^ 32 ->
  exists packed,
    packEncryptedData result = Returned packed /\
    length packed =
      (4 + length (enc_salt result) + 12 +
       length (enc_ciphertext result))%nat /\
    unpackEncryptedData packed = Returned result.
Proof.
  intros Hwf Hiv Hsalt.
  eexists. split; [apply packEncryptedData_bytes; exact Hwf|]. split.
  - rewrite !length_app, Hiv, length_map, length_seq. lia.
  - rewrite (unpackEncryptedData_bytes _ _ _ _ eq_refl Hsalt Hiv).
    destruct result; reflexivity.
Qed.

Lemma crypto_envelope_roundtrip_witness :
  exists packed,
    packEncryptedData toyEncryption = Returned packed /\
    length packed =
      (4 + length (enc_salt toyEncryption) + 12 +
       length (enc_ciphertext toyEncryption))%nat /\
    unpackEncryptedData packed = Returned toyEncryption.
Proof.
  apply (crypto_envelope_roundtrip toyEncryption).
  - unfold wf_encryption.
    repeat split; repeat constructor; unfold is_byte; lia.
  - reflexivity.
  - vm_compute. reflexivity.
Defined.

(** X15: the library's envelope and the worker's envelope are two formats.
    What [packEncryptedData] writes for a 16-byte salt has no flag byte, so
    the worker reads the salt length one byte too late; the decrypt handler
    of a running job answers it with the decryption error right after its
    first progress message, whatever the password and the host's
    cryptography. *)
Theorem library_envelope_refused_by_worker
    (K : Type) (derive : string -> list Z -> Z -> outcome K)
    (decrypt : K -> list Z -> list Z -> outcome (list Z))
    (decompress : list Z -> outcome (list Z))
    (active : nat -> bool) (result : EncryptionResult) (packed : list Z)
    (password : string) :
  wf_encryption result ->
  length (enc_salt result) = 16%nat ->
  active 0%nat = true ->
  packEncryptedData result = Returned packed ->
  handleDecrypt derive decrypt decompress active packed password =
  [ PROGRESS 10 "decrypt" "Unpacking data...";
    ERROR GENERIC_ERROR "DECRYPT_ERROR" ].
Proof.
  intros Hwf Hsalt Hactive Hpack.
  rewrite (packEncryptedData_bytes result Hwf) in Hpack.
  injection Hpack as <-. rewrite Hsalt.
  change (map (byteLE (Z.of_nat 16)) (seq 0 4)) with [16; 0; 0; 0].
  destruct (enc_salt result) as [|s0 salt]; [discriminate|].
  destruct (Z.lt_ge_cases
              (Z.of_nat (length ([16; 0; 0; 0] ++ (s0 :: salt) ++
                                 enc_iv result ++ enc_ciphertext result))) 49).
  - apply handleDecrypt_short_envelope; assumption.
  - apply handleDecrypt_wrong_salt_length; [assumption|assumption|].
    unfold saltLengthField, get. cbn.
    change (byteLE (Z.of_nat 16) 1) with 0.
    change (byteLE (Z.of_nat 16) 2) with 0.
    change (byteLE (Z.of_nat 16) 3) with 0. lia.
Qed.

Lemma library_envelope_refused_by_worker_witness :
  exists packed,
    packEncryptedData toyEncryption = Returned packed /\
    ToyHost.handleDecrypt (fun _ => true) packed ToyHost.password =
    [ PROGRESS 10 "decrypt" "Unpacking data...";
      ERROR GENERIC_ERROR "DECRYPT_ERROR" ].
Proof.
  eexists. split; [vm_compute; reflexivity|].
  apply (library_envelope_refused_by_worker Z ToyHost.deriveKeyPBKDF2
           ToyHost.decryptAesGcm ToyHost.decompressData (fun _ => true)
           toyEncryption).
  - unfold wf_encryption.
    repeat split; repeat constructor; unfold is_byte; lia.
  - reflexivity.
  - reflexivity.
  - vm_compute. reflexivity.
Defined.

(** * The payload container's metadata *)

Lemma lookupProp_setProp (props : list (jsstring * JsValue)) (key : jsstring)
    (v : JsValue) :
  lookupProp (setProp props key v) key = v.
Proof.
  induction props as [|[k w] props IH]; cbn [setProp lookupProp].
  - rewrite bool_decide_eq_true_2 by reflexivity. reflexivity.
  - destruct (bool_decide (k = key)) eqn:Hk; cbn [lookupProp]; rewrite Hk.
    + reflexivity.
    + exact IH.
Qed.

Lemma lookupProp_setProp_ne (props : list (jsstring * JsValue))
    (key other : jsstring) (v : JsValue) :
  other <> key ->
  lookupProp (setProp props key v) other = lookupProp props other.
Proof.
  intros Hne. induction props as [|[k w] props IH]; cbn [setProp lookupProp].
  - rewrite bool_decide_eq_false_2 by congruence. reflexivity.
  - destruct (bool_decide (k = key)) eqn:Hk; cbn [lookupProp].
    + apply bool_decide_eq_true_1 in Hk. subst k.
      rewrite !bool_decide_eq_false_2 by congruence. reflexivity.
    + destruct (bool_decide (k = other)); [reflexivity|exact IH].
Qed.

Lemma sanitizeName_safe (name : jsstring) :
  Z.of_nat (length (sanitizeName name)) <= MAX_FILENAME_LENGTH /\
  Forall (fun u => isUnsafeChar u = false) (sanitizeName name).
Proof.
  unfold sanitizeName. split.
  - rewrite length_map, length_take. unfold MAX_FILENAME_LENGTH. lia.
  - apply Forall_map, Forall_forall. intros u _. cbn beta.
    destruct (isUnsafeChar u) eqn:Hu; [reflexivity|exact Hu].
Qed.

(** A name that [unpackPayload] returns has passed the filename filter. *)
Lemma unpacked_name_filtered (now : Z) (buffer : list Z)
    (unpacked : UnpackedPayload) (name : jsstring) :
  unpackPayload now buffer = Returned unpacked ->
  getProp (up_metadata unpacked) (lit "name") = JString name ->
  Z.of_nat (length name) <= MAX_FILENAME_LENGTH /\
  Forall (fun u => isUnsafeChar u = false) name.
Proof.
  unfold unpackPayload. cbv zeta.
  destruct (_ <? 5); [discriminate|].
  destruct (negb _).
  { intros [= <-]. cbn [up_metadata]. intros Hname.
    vm_compute in Hname. injection Hname as <-.
    split; [vm_compute; discriminate|repeat constructor]. }
  destruct (getUint32 buffer _) as [metaLen|e]; [|discriminate].
  cbn [mbind outcome_bind].
  destruct (_ || _); [discriminate|].
  destruct (_ <? _); [discriminate|].
  destruct (readMetadata _) as [metadata|e] eqn:Hread; [|discriminate].
  intros [= <-]. cbn [up_metadata].
  unfold readMetadata in Hread. cbv zeta in Hread.
  destruct (JSON_parse _) as [parsed|e]; [|discriminate].
  cbn [mbind outcome_bind] in Hread.
  destruct (negb (isValidMetadata parsed)); [discriminate|].
  destruct parsed as [| | | | |items|props];
    try (injection Hread as <-; discriminate).
  cbn [getProp] in Hread.
  destruct (lookupProp props (lit "name")) as [| | | |[|u stored]| |] eqn:Hstored;
    injection Hread as <-; cbn [getProp]; intros Hname.
  1-4, 7-8: rewrite Hstored in Hname; discriminate.
  - rewrite Hstored in Hname. injection Hname as <-.
    split; [vm_compute; discriminate|constructor].
  - rewrite lookupProp_setProp in Hname. injection Hname as <-.
    apply sanitizeName_safe.
Qed.

(** The code units outside the class of the filename filter. *)
Lemma isUnsafeChar_false (u : Z) :
  isUnsafeChar u = false ->
  ~ (0 <= u <= 0x1F) /\
  u <> 60 /\ u <> 62 /\ u <> 58 /\ u <> 34 /\ u <> 47 /\
  u <> 92 /\ u <> 124 /\ u <> 63 /\ u <> 42.
Proof.
  unfold isUnsafeChar. intros Hclass.
  repeat (apply orb_false_iff in Hclass; destruct Hclass as [Hclass ?]).
  repeat match goal with
         | H : (_ =? _) = false |- _ => apply Z.eqb_neq in H
         end.
  split; [|tauto].
  intros Hrange.
  match goal with
  | H : (_ && _) = false |- _ =>
      apply andb_false_iff in H; destruct H as [H|H]; lia
  end.
Qed.

(** X16: no unpacked payload carries a name with a character of the filter's
    class.  Whatever bytes [unpackPayload] is given, if it returns, a [name]
    string in the returned metadata has at most 255 code units, none of them
    in U+0000..U+001F and none of them one of the nine characters
    less-than (60), greater-than (62), colon (58), double quote (34),
    slash (47), backslash (92), bar (124), question mark (63),
    asterisk (42).  The class is the one of the regular expression of the
    source and no larger: the statement says nothing of the code units
    above U+001F outside the nine, U+007F or U+202E among them. *)
Theorem unpacked_name_is_safe (now : Z) (buffer : list Z)
    (unpacked : UnpackedPayload) (name : jsstring) :
  unpackPayload now buffer = Returned unpacked ->
  getProp (up_metadata unpacked) (lit "name") = JString name ->
  Z.of_nat (length name) <= MAX_FILENAME_LENGTH /\
  Forall (fun u =>
            ~ (0 <= u <= 0x1F) /\
            u <> 60 /\ u <> 62 /\ u <> 58 /\ u <> 34 /\ u <> 47 /\
            u <> 92 /\ u <> 124 /\ u <> 63 /\ u <> 42) name.
Proof.
  intros Hreturned Hname.
  destruct (unpacked_name_filtered now buffer unpacked name Hreturned Hname)
    as [Hlength Hclass].
  split; [exact Hlength|].
  eapply Forall_impl; [exact Hclass|].
  intros u Hu. apply isUnsafeChar_false. exact Hu.
Qed.

Lemma unpacked_name_is_safe_witness :
  Z.of_nat (length (lit ".._a_b")) <= MAX_FILENAME_LENGTH /\
  Forall (fun u =>
            ~ (0 <= u <= 0x1F) /\
            u <> 60 /\ u <> 62 /\ u <> 58 /\ u <> 34 /\ u <> 47 /\
            u <> 92 /\ u <> 124 /\ u <> 63 /\ u <> 42) (lit ".._a_b").
Proof.
  apply (unpacked_name_is_safe 0 unsafeNameContainer
           {| up_data := [7; 8; 9];
              up_metadata :=
                JObject [ (lit "type", JString (lit "file"));
                          (lit "timestamp", JNumber (Num 1 0));
                          (lit "name", JString (lit ".._a_b")) ] |}).
  - vm_compute. reflexivity.
  - reflexivity.
Defined.

(** * What embedding leaves alone *)

Lemma div_pow2_bits (a b d : Z) :
  0 <= d ->
  (forall i, d <= i -> Z.testbit a i = Z.testbit b i) ->
  a / 2 ^ d = b / 2 ^ d.
Proof.
  intros Hd Hbits. rewrite <- !Z.shiftr_div_pow2 by assumption.
  apply Z.bits_inj'. intros j Hj.
  rewrite !Z.shiftr_spec by assumption. apply Hbits. lia.
Qed.

Lemma embedChannel_high_bits (message : list Z) (total : nat) (d v : Z)
    (bitIndex : nat) :
  1 <= d <= 4 -> is_byte v ->
  fst (embedChannel message total d v bitIndex) / 2 ^ d = v / 2 ^ d.
Proof.
  intros Hd Hv. unfold embedChannel.
  set (value := Z.land v (Z.shiftl 255 d)).
  assert (Hnonneg : 0 <= value) by (apply Z.land_nonneg; left; apply Hv).
  assert (Hlow : forall i, 0 <= i < Z.of_nat (Z.to_nat d) ->
                           Z.testbit value i = false).
  { intros i Hi. apply masked_low_bits. lia. }
  destruct (setLsbBits_spec (messageBit message) total (messageBit_binary message)
              (Z.to_nat d) value bitIndex Hnonneg Hlow)
    as (_ & Hpos & _ & Hhigh).
  destruct (setLsbBits _ _ _ _ _) as [stored next]. cbn [fst snd] in *.
  assert (Hkept : forall i, d <= i -> Z.testbit stored i = Z.testbit v i).
  { intros i Hi. rewrite Hhigh by lia. subst value.
    rewrite Z.land_spec, Z.shiftl_spec by lia.
    destruct (Z.lt_ge_cases i 8) as [Hsmall|Hbig].
    - replace (Z.testbit 255 (i - d)) with true; [apply andb_true_r|].
      symmetry. change 255 with (Z.ones 8). apply Z.ones_spec_low. lia.
    - rewrite (high_bits_of_byte v i Hv Hbig). reflexivity. }
  assert (Hbyte : is_byte stored).
  { apply byte_of_high_bits; [assumption|].
    intros i Hi. rewrite Hkept by lia. apply high_bits_of_byte; assumption. }
  rewrite (clampUint8_byte stored Hbyte).
  apply div_pow2_bits; [lia|exact Hkept].
Qed.

Lemma embedChannels_high_bits (message : list Z) (total : nat) (d : Z) :
  1 <= d <= 4 ->
  forall (rgb : list Z) (bitIndex : nat),
    Forall is_byte rgb ->
    Forall2 (fun stored v => stored / 2 ^ d = v / 2 ^ d)
      (fst (embedChannels message total d rgb bitIndex)) rgb.
Proof.
  intros Hd. induction rgb as [|v rgb IH]; intros bitIndex Hbytes.
  - constructor.
  - apply Forall_cons in Hbytes as [Hv Hrest].
    cbn [embedChannels].
    destruct (bitIndex <? total)%nat.
    + pose proof (embedChannel_high_bits message total d v bitIndex Hd Hv) as Hhead.
      destruct (embedChannel message total d v bitIndex) as [stored next].
      specialize (IH next Hrest).
      destruct (embedChannels message total d rgb next) as [rest final].
      cbn [fst] in *. constructor; assumption.
    + cbn [fst]. apply Forall2_same_length_lookup_2; [reflexivity|].
      intros i x y Hx Hy. congruence.
Qed.

Lemma embedPixels_high_bits (message : list Z) (total : nat) (d : Z) :
  1 <= d <= 4 ->
  forall (n : nat) (pixels : list Z) (bitIndex : nat),
    length pixels = (4 * n)%nat ->
    Forall is_byte pixels ->
    forall p c, (p < n)%nat -> (c < 3)%nat ->
      get (embedPixels message total d pixels bitIndex) (4 * p + c) / 2 ^ d =
      get pixels (4 * p + c) / 2 ^ d.
Proof.
  intros Hd. induction n as [|n IH]; intros pixels bitIndex Hlen Hbytes p c Hp Hc;
    [lia|].
  destruct (four_of_length pixels n Hlen) as (r & g & b & a & rest & -> & Hrest).
  destruct (bytes_of_pixel r g b a rest Hbytes) as [Hrgb Hrestb].
  destruct (Nat.lt_ge_cases bitIndex total) as [Hlt|Hge].
  - destruct (embedPixels_step message total d Hd r g b a rest bitIndex Hrgb Hlt)
      as (r' & g' & b' & next & Hchannels & -> & _ & _).
    pose proof (embedChannels_high_bits message total d Hd [r; g; b] bitIndex Hrgb)
      as Hhigh.
    rewrite Hchannels in Hhigh. cbn [fst] in Hhigh.
    apply Forall2_cons in Hhigh as [Hr Hhigh].
    apply Forall2_cons in Hhigh as [Hg Hhigh].
    apply Forall2_cons in Hhigh as [Hb _].
    destruct p as [|p].
    + destruct c as [|[|[|c]]]; [exact Hr|exact Hg|exact Hb|lia].
    + rewrite !get_skip4. apply IH; [assumption|assumption|lia|assumption].
  - cbn [embedPixels]. destruct (Nat.ltb_spec bitIndex total); [lia|reflexivity].
Qed.

(** X17: hiding a payload in an image changes the colours only in their
    lowest bits.  For a well-formed image and a depth d in 1..4, every red,
    green and blue byte of the result agrees with the carrier's byte above
    the lowest d bits (the two are equal after division by 2^d), so no
    colour value moves by 2^d or more; the image keeps its width, height
    and number of bytes. *)
Theorem embedding_keeps_high_colour_bits
    (img : ImageData) (payload : list Z) (d : Z) (res : EmbedResult) :
  wf_image img ->
  1 <= d <= 4 ->
  embedData img payload d = Returned res ->
  er_width res = width img /\
  er_height res = height img /\
  length (er_data res) = length (data img) /\
  forall p c,
    Z.of_nat p < width img * height img -> (c < 3)%nat ->
    get (er_data res) (4 * p + c) / 2 ^ d = get (data img) (4 * p + c) / 2 ^ d /\
    Z.abs (get (er_data res) (4 * p + c) - get (data img) (4 * p + c)) < 2 ^ d.
Proof.
  intros (Hw & Hh & Hsize & Hbytes) Hd Hembed.
  apply embedData_inv in Hembed as [_ ->]. cbn [er_data er_width er_height].
  rewrite (map_clampUint8_bytes (data img) Hbytes).
  assert (Hlen : length (data img) = (4 * Z.to_nat (width img * height img))%nat)
    by lia.
  split; [reflexivity|]. split; [reflexivity|]. split.
  - apply (embedPixels_frame _ _ d Hd _ (data img) 0%nat Hlen Hbytes).
  - intros p c Hp Hc.
    pose proof (embedPixels_high_bits (buildMessage payload)
                  (Z.to_nat ((8 + Z.of_nat (length payload)) * 8)) d Hd _
                  (data img) 0%nat Hlen Hbytes p c ltac:(lia) Hc) as Hhigh.
    split; [exact Hhigh|].
    set (stored := get _ _) in *. set (old := get (data img) _) in *.
    assert (Hpow : 0 < 2 ^ d) by (apply Z.pow_pos_nonneg; lia).
    pose proof (Z.div_mod stored (2 ^ d) ltac:(lia)).
    pose proof (Z.div_mod old (2 ^ d) ltac:(lia)).
    pose proof (Z.mod_pos_bound stored (2 ^ d) Hpow).
    pose proof (Z.mod_pos_bound old (2 ^ d) Hpow).
    rewrite Hhigh in *. lia.
Qed.

Lemma embedding_keeps_high_colour_bits_witness :
  exists res,
    embedData sixPixels [165] 4 = Returned res /\
    er_width res = width sixPixels /\
    er_height res = height sixPixels /\
    length (er_data res) = length (data sixPixels) /\
    forall p c,
      Z.of_nat p < width sixPixels * height sixPixels -> (c < 3)%nat ->
      get (er_data res) (4 * p + c) / 2 ^ 4 =
        get (data sixPixels) (4 * p + c) / 2 ^ 4 /\
      Z.abs (get (er_data res) (4 * p + c) - get (data sixPixels) (4 * p + c))
        < 2 ^ 4.
Proof.
  eexists. split; [vm_compute; reflexivity|].
  apply (embedding_keeps_high_colour_bits sixPixels [165] 4).
  - unfold wf_image. cbn. repeat split; try lia.
    repeat constructor; unfold is_byte; lia.
  - lia.
  - vm_compute. reflexivity.
Defined.

Lemma int16_sign_bits (x i : Z) :
  - 2 ^ 15 <= x < 2 ^ 15 -> 15 <= i -> Z.testbit x i = Z.testbit x 15.
Proof.
  intros Hx Hi.
  assert (Hdiv : forall j, 15 <= j -> x / 2 ^ j = if x <? 0 then -1 else 0).
  { intros j Hj.
    assert (Hpow : 2 ^ 15 <= 2 ^ j) by (apply Z.pow_le_mono_r; lia).
    destruct (Z.ltb_spec x 0).
    - symmetry. apply (Z.div_unique_pos x (2 ^ j) (-1) (x + 2 ^ j)); lia.
    - apply Z.div_small. lia. }
  rewrite !Z.testbit_odd, !Z.shiftr_div_pow2 by lia.
  rewrite (Hdiv i Hi), (Hdiv 15 ltac:(lia)). reflexivity.
Qed.

Lemma toInt16_range (x : Z) : - 2 ^ 15 <= toInt16 x < 2 ^ 15.
Proof.
  unfold toInt16.
  pose proof (Z.mod_pos_bound (x + 2 ^ 15) (2 ^ 16) ltac:(lia)). lia.
Qed.

Lemma embedSample_high_bits (bits : list Z) (d sample : Z) (bitIndex : nat) :
  binary (get bits) -> 1 <= d <= 4 -> - 2 ^ 15 <= sample < 2 ^ 15 ->
  toInt16
    (fst (setLsbBits (get bits) (length bits) (Z.to_nat d)
            (Z.land sample (Z.shiftl 65535 d)) bitIndex)) / 2 ^ d =
  sample / 2 ^ d.
Proof.
  intros Hbinary Hd Hsample.
  set (value := Z.land sample (Z.shiftl 65535 d)).
  assert (Hnonneg : 0 <= value).
  { apply Z.land_nonneg. right. apply Z.shiftl_nonneg. lia. }
  assert (Hlow : forall i, 0 <= i < Z.of_nat (Z.to_nat d) ->
                           Z.testbit value i = false).
  { intros i Hi. subst value.
    rewrite Z.land_spec, Z.shiftl_spec_low by lia. apply andb_false_r. }
  destruct (setLsbBits_spec (get bits) (length bits) Hbinary (Z.to_nat d) value
              bitIndex Hnonneg Hlow) as (_ & _ & _ & Hhigh).
  destruct (setLsbBits _ _ _ _ _) as [stored next]. cbn [fst] in *.
  assert (Hkept : forall i, d <= i < 16 -> Z.testbit stored i = Z.testbit sample i).
  { intros i Hi. rewrite Hhigh by lia. subst value.
    rewrite Z.land_spec, Z.shiftl_spec by lia.
    replace (Z.testbit 65535 (i - d)) with true; [apply andb_true_r|].
    symmetry. change 65535 with (Z.ones 16). apply Z.ones_spec_low. lia. }
  apply div_pow2_bits; [lia|]. intros i Hi.
  destruct (Z.lt_ge_cases i 16) as [Hsmall|Hbig].
  - rewrite testbit_toInt16 by lia. apply Hkept. lia.
  - rewrite (int16_sign_bits (toInt16 stored) i (toInt16_range stored)) by lia.
    rewrite (int16_sign_bits sample i Hsample) by lia.
    rewrite testbit_toInt16 by lia. apply Hkept. lia.
Qed.

Lemma embedSamples_high_bits (bits : list Z) (d : Z) :
  binary (get bits) -> 1 <= d <= 4 ->
  forall (carrier : list Z) (bitIndex i : nat),
    Forall (fun sample => - 2 ^ 15 <= sample < 2 ^ 15) carrier ->
    get (embedSamples bits d carrier bitIndex) i / 2 ^ d = get carrier i / 2 ^ d.
Proof.
  intros Hbinary Hd.
  induction carrier as [|sample rest IH]; intros bitIndex i Hrange;
    [reflexivity|].
  apply Forall_cons in Hrange as [Hsample Hrest].
  cbn [embedSamples]. destruct (bitIndex <? length bits)%nat; [|reflexivity].
  pose proof (embedSample_high_bits bits d sample bitIndex Hbinary Hd Hsample)
    as Hhead.
  destruct (setLsbBits _ _ _ _ _) as [stored next]. cbn [fst] in Hhead.
  destruct i as [|i]; [exact Hhead|].
  exact (IH next i Hrest).
Qed.

(** X18: hiding a payload in a recording changes the samples only in their
    lowest bits.  For 16-bit samples and a depth d in 1..4, every sample of
    the result agrees with the carrier's sample above the lowest d bits (the
    two are equal after floor division by 2^d), so no sample moves by 2^d or
    more; the number of samples, the sample rate, the channel count and the
    sample width stay as they are. *)
Theorem embedding_keeps_high_sample_bits
    (wav : WavData) (payload : list Z) (d : Z) (stego : WavData) :
  Forall (fun sample => - 2 ^ 15 <= sample < 2 ^ 15) (samples wav) ->
  1 <= d <= 4 ->
  embedWavData wav payload d = Returned stego ->
  sampleRate stego = sampleRate wav /\
  channels stego = channels wav /\
  bitsPerSample stego = bitsPerSample wav /\
  length (samples stego) = length (samples wav) /\
  forall i,
    get (samples stego) i / 2 ^ d = get (samples wav) i / 2 ^ d /\
    Z.abs (get (samples stego) i - get (samples wav) i) < 2 ^ d.
Proof.
  intros Hrange Hd Hembed. unfold embedWavData in Hembed. cbv zeta in Hembed.
  destruct (_ <? _); [discriminate|]. injection Hembed as <-.
  cbn [samples sampleRate channels bitsPerSample].
  assert (Hsame : map toInt16 (samples wav) = samples wav).
  { clear -Hrange. induction Hrange as [|sample rest Hsample _ IH];
      [reflexivity|].
    cbn [map]. rewrite IH. f_equal. unfold toInt16.
    rewrite Z.mod_small by lia. lia. }
  rewrite Hsame.
  split; [reflexivity|]. split; [reflexivity|]. split; [reflexivity|]. split.
  - apply length_embedSamples.
  - intros i.
    pose proof (embedSamples_high_bits _ d
                  (messageBits_binary (buildFullMessage payload)) Hd
                  (samples wav) 0%nat i Hrange) as Hhigh.
    split; [exact Hhigh|].
    set (stored := get _ _) in *. set (old := get (samples wav) _) in *.
    assert (Hpow : 0 < 2 ^ d) by (apply Z.pow_pos_nonneg; lia).
    pose proof (Z.div_mod stored (2 ^ d) ltac:(lia)).
    pose proof (Z.div_mod old (2 ^ d) ltac:(lia)).
    pose proof (Z.mod_pos_bound stored (2 ^ d) Hpow).
    pose proof (Z.mod_pos_bound old (2 ^ d) Hpow).
    rewrite Hhigh in *. lia.
Qed.

Lemma embedding_keeps_high_sample_bits_witness :
  exists stego,
    embedWavData twentySamples [165; 90] 4 = Returned stego /\
    sampleRate stego = sampleRate twentySamples /\
    channels stego = channels twentySamples /\
    bitsPerSample stego = bitsPerSample twentySamples /\
    length (samples stego) = length (samples twentySamples) /\
    forall i,
      get (samples stego) i / 2 ^ 4 = get (samples twentySamples) i / 2 ^ 4 /\
      Z.abs (get (samples stego) i - get (samples twentySamples) i) < 2 ^ 4.
Proof.
  eexists. split; [vm_compute; reflexivity|].
  apply (embedding_keeps_high_sample_bits twentySamples [165; 90] 4).
  - repeat constructor; lia.
  - lia.
  - vm_compute. reflexivity.
Defined.

(** * What the WAV decoder hands on *)

(** Once a [fmt ] chunk has been taken, the sample width is 16. *)
Lemma walk_bits (data : list Z) :
  forall (fuel : nat) (st st' : ChunkWalk),
    cw_bitsPerSample st = 16 \/ cw_sampleRate st = 0 ->
    walkChunks fuel data st = Returned st' ->
    cw_bitsPerSample st' = 16 \/ cw_sampleRate st' = 0.
Proof.
  intros fuel. induction fuel as [|fuel IH]; intros st st' Hst.
  - cbn [walkChunks]. intros [= <-]. exact Hst.
  - rewrite walkChunks_S. cbv zeta.
    destruct (cw_offset st <? Z.of_nat (length data));
      [|intros [= <-]; exact Hst].
    destruct (getUint32 data (cw_offset st + 4)) as [chunkSize|]; [|discriminate].
    cbn [mbind outcome_bind].
    destruct (bool_decide (fourCC data (cw_offset st) = tag "fmt ")).
    + destruct (getUint16 data (cw_offset st + 8)) as [audioFormat|];
        [|discriminate].
      cbn [mbind outcome_bind].
      destruct (negb (audioFormat =? 1)); [discriminate|].
      destruct (getUint16 data (cw_offset st + 8 + 2)) as [chan|]; [|discriminate].
      destruct (getUint32 data (cw_offset st + 8 + 4)) as [rate|]; [|discriminate].
      destruct (getUint16 data (cw_offset st + 8 + 14)) as [bits|];
        [|discriminate].
      cbn [mbind outcome_bind].
      destruct (Z.eqb_spec bits 16) as [->|]; [|discriminate].
      cbn [negb mbind outcome_bind cw_offset cw_sampleRate cw_channels
           cw_bitsPerSample cw_dataOffset cw_dataSize].
      apply IH. left. reflexivity.
    + destruct (bool_decide (fourCC data (cw_offset st) = tag "data"));
        cbn [mbind outcome_bind cw_offset cw_sampleRate cw_channels
             cw_bitsPerSample cw_dataOffset cw_dataSize];
        apply IH; exact Hst.
Qed.

(** X19: whatever [decodeWav] returns can be saved and read again without
    loss.  For every buffer of bytes the decoder accepts, the recording it
    returns is 16-bit PCM with samples in the Int16 range, a sample rate in
    1..2^32-1, a channel count below 2^16 and less than 2^32 bytes of
    samples; [encodeWav] of that recording succeeds and [decodeWav] of the
    new file returns the same recording. *)
Theorem decoded_wav_survives_resaving (buffer : list Z) (wav : WavData) :
  Forall is_byte buffer ->
  decodeWav buffer = Returned wav ->
  wf_wav wav /\
  exists file,
    encodeWav wav = Returned file /\
    Z.of_nat (length file) = 44 + 2 * Z.of_nat (length (samples wav)) /\
    decodeWav file = Returned wav.
Proof.
  intros Hbytes Hdecode.
  assert (Hwf : wf_wav wav).
  { revert Hdecode. unfold decodeWav. cbv zeta.
    destruct (_ <? _); [discriminate|].
    destruct (negb (bool_decide (fourCC buffer 0 = tag "RIFF")));
      [discriminate|].
    destruct (negb (bool_decide (fourCC buffer 8 = tag "WAVE")));
      [discriminate|].
    destruct (walkChunks _ _ _) as [st|] eqn:Hwalk; [|discriminate].
    cbn [mbind outcome_bind].
    assert (Hbits : cw_bitsPerSample st = 16 \/ cw_sampleRate st = 0).
    { eapply walk_bits; [|exact Hwalk]. right. reflexivity. }
    apply worker_walkChunks_agrees in Hwalk.
    apply (worker_walk_ranges buffer Hbytes) in Hwalk;
      [|unfold walk_in_range; cbn; lia].
    destruct Hwalk as (Hrate & Hchan & Hdata).
    destruct (Z.eqb_spec (cw_dataOffset st) 0); [discriminate|].
    destruct (Z.eqb_spec (cw_sampleRate st) 0); [discriminate|].
    cbn [orb].
    destruct (readSamples _ _ _ _) as [all|] eqn:Hread; [|discriminate].
    cbn [mbind outcome_bind]. intros [= <-].
    apply readSamples_int16 in Hread. destruct Hread as [Hrange Hlen].
    unfold wf_wav. cbn [samples sampleRate channels bitsPerSample].
    split; [apply Forall_take; exact Hrange|].
    split; [lia|]. split; [exact Hchan|]. split; [tauto|].
    rewrite length_take.
    assert (cw_dataSize st / 2 * 2 <= cw_dataSize st)
      by (pose proof (Z.mul_div_le (cw_dataSize st) 2 ltac:(lia)); lia).
    assert (0 <= cw_dataSize st / 2) by (apply Z.div_pos; lia).
    lia. }
  split; [exact Hwf|].
  exists (wavFile wav). split; [apply encodeWav_file|]. split.
  - rewrite length_wavFile. lia.
  - apply decodeWav_file. exact Hwf.
Qed.

Lemma decoded_wav_survives_resaving_witness :
  wf_wav twentySamples /\
  exists file,
    encodeWav twentySamples = Returned file /\
    Z.of_nat (length file) = 44 + 2 * Z.of_nat (length (samples twentySamples)) /\
    decodeWav file = Returned twentySamples.
Proof.
  apply (decoded_wav_survives_resaving (wavFile twentySamples) twentySamples).
  - vm_compute. repeat constructor; discriminate.
  - vm_compute. reflexivity.
Defined.

(** * What the PNG decoder hands on *)

Lemma unfilterAt_bytes (filterType : Z) (channels : nat)
    (prevRow currentRow : list Z) (x : nat) :
  Forall is_byte currentRow ->
  Forall is_byte (unfilterAt filterType channels prevRow currentRow x).
Proof.
  intros Hbytes. unfold unfilterAt. cbv zeta.
  assert (Hstore : forall v,
             Forall is_byte (<[x := Z.land v 255]> currentRow)).
  { intros v. apply Forall_insert; [assumption|].
    rewrite land_255. unfold is_byte. apply Z.mod_pos_bound. lia. }
  destruct filterType as [|p|p]; [assumption| |assumption].
  repeat match goal with
         | |- Forall _ (match ?q with _ => _ end) => destruct q
         end;
    first [assumption | apply Hstore].
Qed.

Lemma unfilterRow_bytes (filterType : Z) (channels : nat)
    (prevRow currentRow : list Z) (filterRowSize : nat) :
  Forall is_byte currentRow ->
  Forall is_byte (unfilterRow filterType channels prevRow currentRow filterRowSize).
Proof.
  unfold unfilterRow. generalize (seq 0 filterRowSize) as xs.
  intros xs. revert currentRow.
  induction xs as [|x xs IH]; intros currentRow Hbytes; [assumption|].
  cbn [fold_left]. apply IH, unfilterAt_bytes, Hbytes.
Qed.

Lemma rowPixels_bytes (channels width : nat) (currentRow : list Z) :
  Forall is_byte currentRow ->
  length (rowPixels channels width currentRow) = (4 * width)%nat /\
  Forall is_byte (rowPixels channels width currentRow).
Proof.
  intros Hbytes. unfold rowPixels. split.
  - rewrite (length_flat_map_const 4), length_seq; [lia|reflexivity].
  - apply Forall_flat_map. intros x. cbv zeta.
    repeat (apply Forall_cons; split; [apply get_is_byte; assumption|]).
    apply Forall_cons. split; [|constructor].
    destruct (channels =? 4)%nat;
      [apply get_is_byte; assumption|unfold is_byte; lia].
Qed.

Lemma decodeScanlines_wellformed (decompressed : list Z) (width height : nat)
    (colorType : Z) :
  Forall is_byte decompressed ->
  length (decodeScanlines decompressed width height colorType) =
    (4 * (width * height))%nat /\
  Forall is_byte (decodeScanlines decompressed width height colorType).
Proof.
  intros Hbytes. unfold decodeScanlines. cbv zeta.
  set (channels := if colorType =? 2 then 3%nat else 4%nat).
  set (step := fun '(prevRow, dOffset, pixels) (y : nat) => _).
  assert (Hrows : forall rows (st : list Z * nat * list Z),
             Forall is_byte (snd st) ->
             length (snd (fold_left step rows st)) =
               (length (snd st) + 4 * (width * length rows))%nat /\
             Forall is_byte (snd (fold_left step rows st))).
  { induction rows as [|y rows IH]; intros [[prevRow dOffset] pixels] Hpixels.
    - cbn [fold_left length]. split; [lia|assumption].
    - cbn [fold_left]. cbn [snd] in Hpixels.
      unfold step at 2 4. cbv beta iota zeta.
      match goal with
      | |- context [rowPixels channels width ?row] =>
          destruct (rowPixels_bytes channels width row) as [Hlen Hrow]
      end.
      { apply unfilterRow_bytes, Forall_map, Forall_forall.
        intros i _. apply get_is_byte. exact Hbytes. }
      match goal with
      | |- context [fold_left step rows ?next] =>
          destruct (IH next) as [IHlen IHbytes]
      end.
      { cbn [snd]. apply Forall_app. split; assumption. }
      split; [|exact IHbytes].
      rewrite IHlen. cbn [snd length]. rewrite length_app, Hlen. lia. }
  specialize (Hrows (seq 0 height) (replicate (width * channels) 0, O, [])
                (Forall_nil_2 _)).
  destruct (fold_left step _ _) as [[lastRow lastOffset] out].
  rewrite length_seq in Hrows. cbn [length snd] in Hrows. exact Hrows.
Qed.

Lemma viewUint32BE_range (view : list Z) (byteOffset value : Z) :
  Forall is_byte view ->
  viewUint32BE view byteOffset = Returned value -> 0 <= value < 2 ^ 32.
Proof.
  intros Hbytes. unfold viewUint32BE.
  destruct (_ <=? _); [|discriminate]. intros [= <-].
  unfold getUint32BE.
  set (bytes := slice view byteOffset (byteOffset + 4)).
  assert (Hslice : Forall is_byte bytes)
    by (apply Forall_take, Forall_drop; exact Hbytes).
  pose proof (get_is_byte bytes 0 Hslice). pose proof (get_is_byte bytes 1 Hslice).
  pose proof (get_is_byte bytes 2 Hslice). pose proof (get_is_byte bytes 3 Hslice).
  unfold is_byte in *. lia.
Qed.

Lemma dataViewAt_bytes (buffer view : list Z) (byteOffset : Z) :
  Forall is_byte buffer ->
  dataViewAt buffer byteOffset = Returned view -> Forall is_byte view.
Proof.
  intros Hbytes. unfold dataViewAt.
  destruct (_ <? _); [discriminate|]. intros [= <-].
  apply Forall_drop. exact Hbytes.
Qed.

(** The dimensions a chunk walk has collected fit their 32-bit fields, and
    the IDAT chunks it has copied are bytes. *)
Lemma walkPng_ranges (data : list Z) :
  Forall is_byte data ->
  forall (fuel : nat) (st st' : PngWalk),
    0 <= pw_width st < 2 ^ 32 /\ 0 <= pw_height st < 2 ^ 32 /\
    Forall (Forall is_byte) (pw_idatChunks st) ->
    walkPngChunks fuel data st = Returned st' ->
    0 <= pw_width st' < 2 ^ 32 /\ 0 <= pw_height st' < 2 ^ 32 /\
    Forall (Forall is_byte) (pw_idatChunks st').
Proof.
  intros Hbytes fuel. induction fuel as [|fuel IH]; intros st st' Hst.
  - cbn [walkPngChunks]. intros [= <-]. exact Hst.
  - rewrite walkPngChunks_S. cbv zeta.
    destruct (pw_offset st <? Z.of_nat (length data));
      [|intros [= <-]; exact Hst].
    destruct (dataViewAt data (pw_offset st)) as [view|]; [|discriminate].
    cbn [mbind outcome_bind].
    destruct (viewUint32BE view 0) as [chunkLength|]; [|discriminate].
    cbn [mbind outcome_bind].
    destruct (bool_decide (fourCC data (pw_offset st + 4) = tag "IHDR")).
    + destruct (dataViewAt data (pw_offset st + 4 + 4)) as [chunkData|] eqn:Hview;
        [|discriminate].
      apply (dataViewAt_bytes data _ _ Hbytes) in Hview.
      cbn [mbind outcome_bind].
      destruct (viewUint32BE chunkData 0) as [w|] eqn:Hw; [|discriminate].
      destruct (viewUint32BE chunkData 4) as [h|] eqn:Hh; [|discriminate].
      cbn [mbind outcome_bind].
      destruct (viewUint8 chunkData 8); [|discriminate].
      destruct (viewUint8 chunkData 9); [|discriminate].
      destruct (viewUint8 chunkData 10); [|discriminate].
      destruct (viewUint8 chunkData 11); [|discriminate].
      destruct (viewUint8 chunkData 12); [|discriminate].
      cbn [mbind outcome_bind].
      apply IH. cbn [pw_width pw_height pw_idatChunks].
      apply (viewUint32BE_range chunkData _ _ Hview) in Hw.
      apply (viewUint32BE_range chunkData _ _ Hview) in Hh.
      tauto.
    + destruct (bool_decide (fourCC data (pw_offset st + 4) = tag "IDAT")).
      { apply IH. cbn [pw_width pw_height pw_idatChunks].
        destruct Hst as (Hw & Hh & Hchunks).
        split; [exact Hw|]. split; [exact Hh|].
        apply Forall_app. split; [exact Hchunks|].
        constructor; [|constructor].
        apply Forall_take, Forall_drop. exact Hbytes. }
      destruct (bool_decide (fourCC data (pw_offset st + 4) = tag "IEND"));
        [intros [= <-]; exact Hst|].
      apply IH. exact Hst.
Qed.

Lemma joinIdat_bytes (idatChunks : list (list Z)) (idatTotalSize : Z) :
  Forall (Forall is_byte) idatChunks ->
  Forall is_byte (joinIdat idatChunks idatTotalSize).
Proof.
  intros Hchunks. unfold joinIdat. cbv zeta. apply Forall_app. split.
  - induction Hchunks as [|chunk rest Hchunk _ IH]; [constructor|].
    cbn [concat]. apply Forall_app. split; assumption.
  - apply Forall_replicate. unfold is_byte. lia.
Qed.

(** X20: whatever [decodePNG] returns is a well-formed image.  When the
    host's inflate turns bytes into bytes, then for every buffer of bytes
    the decoder accepts, width and height are in 1..2^32-1, the pixel array
    has exactly 4 * width * height entries and every entry is a byte, also
    when the inflated stream is shorter than the header announces (what is
    missing reads as 0). *)
Theorem decodePNG_returns_wellformed
    (decompress : list Z -> outcome (list Z)) (buffer : list Z)
    (img : ImageData) :
  (forall stream inflated,
      Forall is_byte stream ->
      decompress stream = Returned inflated -> Forall is_byte inflated) ->
  Forall is_byte buffer ->
  decodePNG decompress buffer = Returned img ->
  wf_image img /\
  0 < width img < 2 ^ 32 /\
  0 < height img < 2 ^ 32.
Proof.
  intros Hhost Hbytes. unfold decodePNG. cbv zeta.
  destruct (_ || _); [discriminate|].
  destruct (walkPngChunks _ _ _) as [st|] eqn:Hwalk; [|discriminate].
  apply (walkPng_ranges buffer Hbytes) in Hwalk;
    [|cbn; repeat split; (lia || constructor)].
  destruct Hwalk as (Hw & Hh & Hchunks).
  cbn [mbind outcome_bind].
  destruct (Z.eqb_spec (pw_width st) 0); [discriminate|].
  destruct (Z.eqb_spec (pw_height st) 0); [discriminate|].
  cbn [orb].
  destruct (decompress _) as [inflated|] eqn:Hinflate; [|discriminate].
  apply Hhost in Hinflate; [|apply joinIdat_bytes; exact Hchunks].
  cbn [mbind outcome_bind]. intros [= <-].
  destruct (decodeScanlines_wellformed inflated (Z.to_nat (pw_width st))
              (Z.to_nat (pw_height st)) (pw_colorType st) Hinflate)
    as [Hlen Hpixels].
  unfold wf_image. cbn [width height data].
  repeat split; try lia; try assumption.
Qed.

Lemma decodePNG_returns_wellformed_witness :
  wf_image sixPixels /\
  0 < width sixPixels < 2 ^ 32 /\
  0 < height sixPixels < 2 ^ 32.
Proof.
  apply (decodePNG_returns_wellformed stored
           (pngFile 2 3 (pngScanlines (data sixPixels) 8 3)
              [0; 0; 0; 0] [0; 0; 0; 0] [0; 0; 0; 0])
           sixPixels).
  - intros stream inflated Hstream Hstored. injection Hstored as <-.
    exact Hstream.
  - vm_compute. repeat constructor; discriminate.
  - vm_compute. reflexivity.
Defined.

(** * The JavaScript stand-in for the WASM engine *)

Lemma fallback_carries (bits : list Z) (d : Z) :
  binary (get bits) -> 1 <= d <= 8 ->
  forall (pixels : list Z) (i bitIndex : nat),
    Forall is_byte pixels ->
    (length bits <= bitIndex + Z.to_nat d * colourBytes pixels i)%nat ->
    carries (get bits) (length bits) bitIndex
      (StegFallback.colourBits (Z.to_nat d)
         (StegFallback.embedBytes bits d pixels i bitIndex) i).
Proof.
  intros Hbinary Hd.
  induction pixels as [|value rest IH]; intros i bitIndex Hbytes Hfit.
  - apply carries_past_end. cbn [colourBytes] in Hfit. lia.
  - apply Forall_cons in Hbytes as [Hvalue Hrest].
    destruct (Nat.lt_ge_cases bitIndex (length bits)) as [Hlt|Hge];
      [|apply carries_past_end; assumption].
    cbn [StegFallback.embedBytes colourBytes] in *.
    destruct (Nat.ltb_spec bitIndex (length bits)) as [_|]; [|lia].
    destruct (S i mod 4 =? 0)%nat eqn:Halpha.
    + cbn [StegFallback.colourBits]. rewrite Halpha.
      apply IH; [assumption|lia].
    + set (value' := Z.land value (Z.shiftl 255 d)).
      assert (Hnonneg : 0 <= value')
        by (apply Z.land_nonneg; left; apply Hvalue).
      assert (Hlow : forall k, 0 <= k < Z.of_nat (Z.to_nat d) ->
                               Z.testbit value' k = false).
      { intros k Hk. apply masked_low_bits. lia. }
      destruct (setLsbBits_spec (get bits) (length bits) Hbinary (Z.to_nat d)
                  value' bitIndex Hnonneg Hlow) as (Hnext & _ & _ & _).
      pose proof (written_cell (get bits) (length bits) Hbinary (Z.to_nat d)
                    value'
                    (toUint8 (fst (setLsbBits (get bits) (length bits)
                                     (Z.to_nat d) value' bitIndex)))
                    bitIndex) as Hcell.
      destruct (setLsbBits _ _ _ _ _) as [newValue next]. cbn [fst snd] in *.
      cbn [StegFallback.colourBits]. rewrite Halpha.
      apply (carries_app (get bits) (length bits) (Z.to_nat d) bitIndex next).
      * apply length_lsbBits.
      * intros t Ht Hin. rewrite Hcell; [| | | |assumption].
        -- destruct (Nat.ltb_spec (bitIndex + t) (length bits)); [reflexivity|lia].
        -- exact Hnonneg.
        -- exact Hlow.
        -- intros k Hk. unfold toUint8.
           change 256 with (2 ^ 8). apply Z.mod_pow2_bits_low. lia.
      * exact Hnext.
      * apply IH; [assumption|]. subst next. lia.
Qed.

Lemma colourBytes_pixels (n : nat) : forall (pixels : list Z) (k : nat),
  length pixels = (4 * n)%nat ->
  colourBytes pixels (4 * k) = (3 * n)%nat.
Proof.
  induction n as [|n IH]; intros pixels k Hlen.
  - destruct pixels; [reflexivity|discriminate].
  - destruct (four_of_length pixels n Hlen) as (r & g & b & a & rest & -> & Hrest).
    cbn [colourBytes].
    replace (S (4 * k) mod 4)%nat with 1%nat
      by (apply (Nat.mod_unique _ 4 k); lia).
    replace (S (S (4 * k)) mod 4)%nat with 2%nat
      by (apply (Nat.mod_unique _ 4 k); lia).
    replace (S (S (S (4 * k))) mod 4)%nat with 3%nat
      by (apply (Nat.mod_unique _ 4 k); lia).
    replace (S (S (S (S (4 * k)))) mod 4)%nat with 0%nat
      by (apply (Nat.mod_unique _ 4 (S k)); lia).
    cbn [Nat.eqb].
    replace (S (S (S (S (4 * k))))) with (4 * S k)%nat by lia.
    rewrite (IH rest (S k) Hrest). lia.
Qed.

Lemma length_colourBits (d : nat) : forall (pixels : list Z) (i : nat),
  length (StegFallback.colourBits d pixels i) = (d * colourBytes pixels i)%nat.
Proof.
  induction pixels as [|value rest IH]; intros i; [cbn; lia|].
  cbn [StegFallback.colourBits colourBytes].
  destruct (S i mod 4 =? 0)%nat.
  - rewrite IH. lia.
  - rewrite length_app, length_lsbBits, IH. lia.
Qed.


Lemma testbit_toInt32 (x k : Z) :
  0 <= k < 32 -> Z.testbit (toInt32 x) k = Z.testbit x k.
Proof.
  intros Hk.
  rewrite <- (Z.mod_pow2_bits_low (toInt32 x) 32 k) by lia.
  rewrite <- (Z.mod_pow2_bits_low x 32 k) by lia.
  f_equal. unfold toInt32.
  rewrite Zminus_mod_idemp_l. f_equal. lia.
Qed.

(** Bit [k] of the length the extractor reads is the bit it finds at
    position [31 - k]. *)
Lemma readLength32_bits (bits : list Z) :
  binary (get bits) ->
  forall k, 0 <= k < 32 ->
    Z.testbit (StegFallback.readLength32 bits) k =
    (get bits (Z.to_nat (31 - k)) =? 1).
Proof.
  intros Hbinary.
  set (step := fun length i =>
         toInt32 (Z.lor length
                    (toInt32 (Z.shiftl (get bits i) (Z.of_nat (31 - i)))))).
  assert (Hfold : forall m, (m <= 32)%nat ->
             forall k, 0 <= k < 32 ->
               Z.testbit (fold_left step (seq 0 m) 0) k =
               (31 - k <? Z.of_nat m) && (get bits (Z.to_nat (31 - k)) =? 1)).
  { induction m as [|m IH]; intros Hm k Hk.
    - cbn [seq fold_left]. rewrite Z.testbit_0_l.
      destruct (Z.ltb_spec (31 - k) (Z.of_nat 0)); [lia|reflexivity].
    - rewrite seq_S, fold_left_app. cbn [fold_left Nat.add]. unfold step at 1.
      rewrite testbit_toInt32, Z.lor_spec, testbit_toInt32 by lia.
      rewrite IH by lia.
      rewrite (testbit_bit_shiftl (get bits m) (Z.of_nat (31 - m)) k
                 (Hbinary m)) by lia.
      destruct (Z.eqb_spec k (Z.of_nat (31 - m))) as [->|Hne].
      + replace (Z.to_nat (31 - Z.of_nat (31 - m))) with m by lia.
        destruct (Z.ltb_spec (31 - Z.of_nat (31 - m)) (Z.of_nat m)); [lia|].
        destruct (Z.ltb_spec (31 - Z.of_nat (31 - m)) (Z.of_nat (S m))); [|lia].
        reflexivity.
      + cbn [andb]. rewrite orb_false_r.
        destruct (Z.ltb_spec (31 - k) (Z.of_nat m));
          destruct (Z.ltb_spec (31 - k) (Z.of_nat (S m))); try lia; reflexivity. }
  intros k Hk. unfold StegFallback.readLength32. fold step.
  rewrite (Hfold 32%nat) by lia.
  destruct (Z.ltb_spec (31 - k) (Z.of_nat 32)); [reflexivity|lia].
Qed.

(** Read big endian, the little-endian header of a payload of 1..65535
    bytes is never the payload's length. *)
Lemma swapped_length_differs (n : Z) :
  0 < n < 65536 ->
  StegFallback.readLength32 (messageBits (setUint32LE n)) <> n.
Proof.
  intros Hn Hsame.
  assert (Hheader : setUint32LE n = [n mod 256; (n / 2 ^ 8) mod 256; 0; 0]).
  { unfold setUint32LE. cbv zeta. rewrite (Z.mod_small n (2 ^ 32)) by lia.
    rewrite (Z.div_small n (2 ^ 24)) by lia.
    rewrite (Z.div_small n (2 ^ 16)) by lia. reflexivity. }
  rewrite Hheader in Hsame.
  set (header := [n mod 256; (n / 2 ^ 8) mod 256; 0; 0]) in *.
  assert (Hzero : forall j, (16 <= j < 32)%nat -> messageBit header j = 0).
  { intros j Hj.
    assert (Hall : forallb (fun j => messageBit header j =? 0) (seq 16 16) = true)
      by reflexivity.
    rewrite forallb_forall in Hall.
    apply Z.eqb_eq, Hall, in_seq. lia. }
  assert (Hlow : forall k, 0 <= k < 16 -> Z.testbit n k = false).
  { intros k Hk. rewrite <- Hsame at 1.
    rewrite (readLength32_bits _ (messageBits_binary header)) by lia.
    rewrite get_messageBits by (cbn [length header]; lia).
    rewrite Hzero by lia. reflexivity. }
  assert (Hnull : n = 0).
  { apply Z.bits_inj_0. intros k.
    destruct (Z.lt_ge_cases k 0); [apply Z.testbit_neg_r; assumption|].
    destruct (Z.lt_ge_cases k 16); [apply Hlow; lia|].
    apply Z.bits_above_log2; [lia|].
    assert (Z.log2 n < 16) by (apply Z.log2_lt_pow2; lia). lia. }
  lia.
Qed.

Lemma readLength32_ext (a b : list Z) :
  (forall i, (i < 32)%nat -> get a i = get b i) ->
  StegFallback.readLength32 a = StegFallback.readLength32 b.
Proof.
  intros Hsame. unfold StegFallback.readLength32.
  apply fold_left_ext_in. intros length i Hin.
  apply in_seq in Hin. rewrite Hsame by lia. reflexivity.
Qed.

(** X21: the stand-in engine does not read back what it wrote.  [embed]
    writes the payload length little endian and [extract] reads it big
    endian, so for every RGBA carrier, depth d in 1..4 and payload of
    1..65535 bytes, also when the carrier has room for all of it,
    [extract] of the embedded image never returns the payload. *)
Theorem fallback_extract_misses_payload
    (pixels payload : list Z) (d : Z) (n : nat) :
  Forall is_byte pixels ->
  length pixels = (4 * n)%nat ->
  1 <= d <= 4 ->
  0 < Z.of_nat (length payload) < 65536 ->
  (4 + Z.of_nat (length payload)) * 8 <= 3 * Z.of_nat n * d ->
  StegFallback.extract (StegFallback.embed pixels payload d) d <> Some payload.
Proof.
  intros Hpixels Hlen Hd Hsize Hfit.
  unfold StegFallback.extract, StegFallback.embed. cbv zeta.
  set (header := setUint32LE (Z.of_nat (length payload))).
  set (bits := messageBits (header ++ payload)).
  set (extracted := StegFallback.colourBits _ _ _).
  assert (Htotal : length bits = (8 * (4 + length payload))%nat).
  { subst bits. rewrite length_messageBits, length_app. reflexivity. }
  assert (Hcarries : carries (get bits) (length bits) 0 extracted).
  { apply (fallback_carries bits d (messageBits_binary _) ltac:(lia) pixels 0 0
             Hpixels).
    pose proof (colourBytes_pixels n pixels 0 Hlen) as Hcount.
    change (4 * 0)%nat with 0%nat in Hcount. rewrite Hcount. nia. }
  assert (Hread : StegFallback.readLength32 extracted =
                  StegFallback.readLength32 (messageBits header)).
  { apply readLength32_ext. intros i Hi.
    rewrite (Hcarries i) by lia. cbn [Nat.add].
    subst bits. unfold messageBits. rewrite flat_map_app.
    unfold get. rewrite lookup_app_l; [reflexivity|].
    fold (messageBits header). rewrite length_messageBits.
    change (length header) with 4%nat. lia. }
  destruct (length extracted <? 32)%nat; [discriminate|].
  rewrite Hread.
  destruct (Z.leb_spec (StegFallback.readLength32 (messageBits header)) 0);
    [discriminate|].
  cbn [orb]. destruct (_ <? _); [discriminate|].
  intros Hsame. apply (inj Some) in Hsame.
  apply (f_equal length) in Hsame. rewrite length_map, length_seq in Hsame.
  apply (swapped_length_differs (Z.of_nat (length payload)) Hsize).
  fold header. lia.
Qed.

Lemma fallback_extract_misses_payload_witness :
  StegFallback.extract (StegFallback.embed (data sixPixels) [165] 4) 4 <>
  Some [165].
Proof.
  apply (fallback_extract_misses_payload (data sixPixels) [165] 4 6).
  - repeat constructor; unfold is_byte; lia.
  - reflexivity.
  - lia.
  - cbn. lia.
  - cbn. lia.
Defined.
